(* ===== verification/_CoqProject ===== *)
-Q . S2P
Prelude.v
CStr.v
Domain.v
Date.v
Double.v
Nearest.v
NearError.v
Round.v
MarketHours.v
RedisCache.v
StableSort.v
MarketData.v
CostModel.v
Backtest.v
Metrics.v
Engine.v
Risk.v
Screener.v
Blending.v
Postgres.v
RedisAsync.v
LwsRuntime.v
HttpClient.v
Fixture.v
Runners.v
Driver.v
DriverMain.v
Spike.v
Apps.v
