(* ===== verification/Prelude.v ===== *)
(** * alpha-core: a verification development

    alpha-core is the C port of a trading pipeline for Korean equities.  Pure
    numeric and calendar code sits under [core/src] (headers in
    [core/include/alpha]); drivers for PostgreSQL, redis, HTTP and an event loop sit
    under [core/platform]; [core/apps] holds command line runners.  The pure code
    decides: a backtest engine replays signals over prices and reports metrics, risk
    gates and position sizing veto trades, a screener and a signal blender pick them,
    a trading calendar says when a circuit breaker may release.  The drivers carry
    decisions out: the breaker's lockout and the latest ticks live in redis,
    positions and exposure in PostgreSQL, notifications go through HTTP, and every
    descriptor is watched by one libwebsockets loop.

    ** Conventions

    - A [double] is Rocq's [float], IEEE binary64 computed by the kernel.  The build
      disables contraction ([-ffp-contract=off], [core/CMakeLists.txt]), so every C
      operation is one rounded operation.  [Double] relates floats to the reals,
      [Nearest] shows quotients correctly rounded and [NearError] accumulates
      rounding errors.
    - Signed integers are [Z]: with range theorems where the code bounds them, and
      through [i64], whose [None] is overflow, where it does not (dates); unsigned
      ones wrap explicitly ([u32], [u64]).  [None] in the result of an operation is undefined behaviour (an
      out-of-range cast, an access out of bounds, a freed pointer) or exhausted fuel.
    - A NULL pointer is [None]; an out-parameter is a cell returned as it stands
      after the call; an array with its count is a list; a C string has no NUL.
    - Outcomes of [malloc] and of system calls are arguments.  [pow] of libm is a
      parameter.  hiredis, libpq, libwebsockets and curl are parameters given as type
      classes of operations ([RedisServer], [HiredisAsync], [LibPQ], [CurlMulti]);
      what the drivers rely on is a second class of laws ([RedisLaws], [HiredisLaws],
      [PipelineLaws], [CurlLaws]) stating documented behaviour, with a concrete
      reference instance of each.  Callbacks given to a driver are identified by
      numbers and their calls recorded in order; they do not call back into the
      driver that calls them.
    - Loops that do not follow a data structure take fuel.  Enough fuel is part of
      the theorems: the calendar search needs one step per holiday and weekend day
      ([MarketHours]), the JSON calendar one per character ([RedisCache]), draining
      PostgreSQL one per outstanding delivery ([Postgres.service_terminates]), curl
      one per queued message ([HttpClient.socket_action_total]), destroying the HTTP
      client one per request; the waits of the driver benchmark are bounded by the
      ticks of its clock ([DriverMain.main_returns]).  The spike's callbacks and
      its loop are bounded by nothing in its code: its theorems hold of every amount
      of fuel, and its demonstrations give an amount that is enough.

    ** Files

    - [Prelude]: notations, machine integers, tactics, arrays.
    - [CStr]: the C string functions the sources use (snprintf, strtoll, decimal
      printing) and the print/read round trip.
    - [Domain]: [domain.h], [errors.h], [constants.h], [alpha.c].
    - [Date]: [src/domain/date.c].  The civil-date conversions are inverse bijections,
      count days, stay in range for years up to 2^44, and ISO text round-trips.
    - [Double], [Nearest], [NearError]: floats against the reals; rounding to
      nearest, ties to even; error bounds.
    - [Round]: [src/domain/round.c], with printf's [%.*f] and strtod exact.  The
      decimal printed is the nearest, ties to even, and the result the double nearest
      to it; rounding is idempotent; large values are cut by the buffer.
    - [MarketHours]: [src/calendar/market_hours.c].  The next session is the first
      trading day, or the fail-closed sentinel exactly when the calendar ends.
    - [StableSort]: the reference sort used as a specification.
    - [MarketData]: [src/market_data/market_data.c].  Instrument identifiers round-trip,
      percentage changes are bounded and have the sign of the move.
    - [CostModel], [Backtest], [Metrics], [Engine]: [src/backtest].  A run keeps a
      balanced ledger, never looks ahead, stays solvent in a stated range, and is
      undefined only at one cast or where the holding days of distant dates overflow;
      the metrics loops refine a FIFO queue and the worst drawdown.
    - [Risk]: [src/risk/gates.c], [src/portfolio/sizing.c].  The drawdown gate refines a
      stable sort; the buy gate decides the exposure up to a few roundings.
    - [Screener]: [src/indicators/screener.c].  The selection is the head of a stable
      sort.
    - [Blending]: [src/portfolio/blending.c].  Directions, ranges and conflicts.
    - [RedisCache]: [platform/cache/redis_cache.c].  The breaker's lockout fails closed
      against any server and round-trips on a lawful one, whose clock moves on between
      commands and whose TTL is rounded; the holiday calendar parser is total and
      sound.
    - [RedisAsync]: [platform/cache/redis_async.c].  The adapter's interest and pending
      count agree with its owner and with hiredis; the two redis clients send the same
      commands; a refused connection leaves a dangling context.
    - [Postgres]: [platform/db/postgres.c].  The ring buffer refines a queue: callbacks
      run once per request in order; the connection's life is a step relation with no
      lost wakeup; a service call terminates; the parameters of an upsert come back as
      the position sent.
    - [LwsRuntime]: [platform/event/lws_runtime.c].  The registry counts its watches; a
      removed watch is inert.
    - [HttpClient]: [platform/http/http_client.c].  Every accepted post is completed
      once; responses are bounded; serving a socket terminates with curl's messages
      read, unless curl releases a message the client still reads.
    - [Fixture]: [apps/backtest_fixture.c] and the run of [apps/backtest_runner.c].
      Loading is all or nothing and inverts rendering.
    - [Runners]: the batches of [apps/blend_runner.c] and [apps/risk_runner.c]; their
      checksums in closed form.
    - [Driver]: [apps/c_driver_adapter.c] below its main function, composed from
      [LwsRuntime], [RedisAsync] and [Postgres]: the adapter, its handlers, the
      operations it issues and the loops that wait for them.  The clock,
      libwebsockets and the synchronous calls of libpq are the class [World].  The
      type invariant [driver_ok] ties the counts of submitted and completed
      operations to the registry and to the clients, and every operation keeps it.
    - [DriverMain]: its fixture, arguments, setup, timed trial, report and release.
      A report is printed only for a trial in which every operation got the reply it
      expects (the adapter carries the replies as a history variable); with
      a clock that advances [main] is defined and returns, in the redis case if the
      server accepts the connection; the JSON strings of the report read back if they
      are UTF-8 without control characters; the redis commands are exact.
    - [Spike]: [spike/event_loop/main.c], with its libraries as the class [Machine].
      Evidence is recorded in order; the exit status 0 goes with the whole evidence and
      the report that says so; the poll
      table is large enough; a refused redis connection is used after it was freed.
    - [Apps]: the main functions, timing loops and texts of the three runners around
      [Fixture] and [Runners], with printf's [%.10g].  The clocks and allocations are
      the class [Timer].  The benchmark of the blender prints the checksum of its
      batch; the loop that scales the backtest benchmark ends within 63 turns.

    ** Not modelled

    Code that is not the repository's own C: hiredis, libpq, libwebsockets, curl,
    OpenSSL and libm (parameters), the vendored Unity and yyjson sources (yyjson's
    accessors are modelled where [Fixture] uses them); the Rust programs under
    [edge], the Python tools under [bench] and [tools], and the tests.  The
    text the runners and the spike write to stderr is dropped. *)

From Stdlib Require Import ZArith Lia Bool List.
Import ListNotations.
Open Scope Z_scope.

(** ** Scope and notations *)

Declare Scope alpha_scope.
Delimit Scope alpha_scope with alpha.

(** Sequencing of partial computations; [None] is an outcome the C standard
    leaves undefined (an out-of-range conversion, a read past the end). *)
Notation "'let?' x := e1 'in' e2" :=
  (match e1 with Some x => e2 | None => None end)
  (at level 10, x pattern, e1 at level 100, e2 at level 200) : alpha_scope.

(** ** Machine integers

    Unsigned 32-bit and 64-bit arithmetic wraps; signed arithmetic is kept in
    [Z] and its range is a theorem, since signed overflow is undefined. *)

Definition u32 (z : Z) : Z := z mod 2 ^ 32.
Definition u64 (z : Z) : Z := z mod 2 ^ 64.

Notation "a +u b" := (u32 (a + b)) (at level 50, left associativity) : alpha_scope.
Notation "a -u b" := (u32 (a - b)) (at level 50, left associativity) : alpha_scope.
Notation "a *u b" := (u32 (a * b)) (at level 40, left associativity) : alpha_scope.
Open Scope alpha_scope.

Definition INT32_MIN : Z := - 2 ^ 31.
Definition INT32_MAX : Z := 2 ^ 31 - 1.
Definition INT64_MIN : Z := - 2 ^ 63.
Definition INT64_MAX : Z := 2 ^ 63 - 1.
Definition in_int32 (z : Z) : Prop := INT32_MIN <= z <= INT32_MAX.
Definition in_int64 (z : Z) : Prop := INT64_MIN <= z <= INT64_MAX.

(** A signed 64-bit result; [None] is overflow, which C leaves undefined. *)
Definition in_int64b (z : Z) : bool := (INT64_MIN <=? z) && (z <=? INT64_MAX).
Definition i64 (z : Z) : option Z := if in_int64b z then Some z else None.

Lemma in_int64b_iff z : in_int64b z = true <-> in_int64 z.
Proof. unfold in_int64b, in_int64. rewrite andb_true_iff, !Z.leb_le. reflexivity. Qed.

Lemma i64_some z : in_int64 z -> i64 z = Some z.
Proof. intros H. apply in_int64b_iff in H. unfold i64. now rewrite H. Qed.

Lemma u32_small z : 0 <= z < 2 ^ 32 -> u32 z = z.
Proof. apply Z.mod_small. Qed.

Lemma u32_range z : 0 <= u32 z < 2 ^ 32.
Proof. apply Z.mod_pos_bound; lia. Qed.

Lemma u64_small z : 0 <= z < 2 ^ 64 -> u64 z = z.
Proof. apply Z.mod_small. Qed.

Lemma u64_range z : 0 <= u64 z < 2 ^ 64.
Proof. apply Z.mod_pos_bound; lia. Qed.

(** Wrapping twice is wrapping once, so a chain of unsigned operations can be
    read as one exact computation reduced at the end. *)
Lemma u32_add_l a b : u32 (u32 a + b) = u32 (a + b).
Proof. unfold u32. now rewrite Zplus_mod_idemp_l. Qed.

(** ** Automation *)

Create HintDb alpha.
Lemma some_inj {A} (a b : A) : Some a = Some b -> a = b.
Proof. now intros [=]. Qed.

(** A count is never negative. *)
Lemma of_nat_ltb_0 n : (Z.of_nat n <? 0) = false.
Proof. apply Z.ltb_ge. lia. Qed.

Lemma of_nat_geb_0 n : (Z.of_nat n >=? 0) = true.
Proof. rewrite Z.geb_leb. apply Z.leb_le. lia. Qed.

Create HintDb alpha_range.
#[export] Hint Resolve u32_range u64_range : alpha_range.

Ltac inv H := inversion H; subst; clear H.

(** Turn the boolean integer comparisons of the context into propositions. *)
Ltac zprop :=
  repeat match goal with
  | H : (_ =? _)%Z = true |- _ => apply Z.eqb_eq in H
  | H : (_ =? _)%Z = false |- _ => apply Z.eqb_neq in H
  | H : (_ <? _)%Z = true |- _ => apply Z.ltb_lt in H
  | H : (_ <? _)%Z = false |- _ => apply Z.ltb_ge in H
  | H : (_ <=? _)%Z = true |- _ => apply Z.leb_le in H
  | H : (_ <=? _)%Z = false |- _ => apply Z.leb_gt in H
  | H : (_ >? _)%Z = true |- _ => rewrite Z.gtb_ltb in H
  | H : (_ >? _)%Z = false |- _ => rewrite Z.gtb_ltb in H
  | H : (_ >=? _)%Z = true |- _ => rewrite Z.geb_leb in H
  | H : (_ >=? _)%Z = false |- _ => rewrite Z.geb_leb in H
  | H : _ && _ = true |- _ => apply andb_prop in H; destruct H
  | H : _ || _ = false |- _ => apply orb_false_elim in H; destruct H
  | H : negb _ = true |- _ => apply negb_true_iff in H
  | H : negb _ = false |- _ => apply negb_false_iff in H
  end.

(** Case split on the scrutinee of a conditional of the goal or a hypothesis. *)
Ltac break_if :=
  match goal with
  | |- context [if ?b then _ else _] => let E := fresh "E" in destruct b eqn:E
  | H : context [if ?b then _ else _] |- _ => let E := fresh "E" in destruct b eqn:E
  end.

Ltac break_match :=
  match goal with
  | |- context [match ?b with _ => _ end] => let E := fresh "E" in destruct b eqn:E
  | H : context [match ?b with _ => _ end] |- _ => let E := fresh "E" in destruct b eqn:E
  end.

(** Integer goals with [/] and [mod] by constants. *)
Ltac zdiv := Z.to_euclidean_division_equations; lia.

(** Remove unsigned wrap-arounds, innermost first, where the operand is in range. *)
Ltac u32_clean :=
  repeat match goal with
  | |- context [u32 ?e] =>
      lazymatch e with
      | context [u32 _] => fail
      | _ => rewrite (u32_small e) by first [lia | zdiv]
      end
  end.

(** ** Arrays

    [l[i] = x]; a position past the end is left to the caller's bounds. *)

Fixpoint list_set {A} (l : list A) (i : nat) (x : A) : list A :=
  match l, i with
  | [], _ => []
  | _ :: l, O => x :: l
  | y :: l, S i => y :: list_set l i x
  end.

Lemma list_set_length {A} (l : list A) i x : length (list_set l i x) = length l.
Proof. revert i; induction l; intros [|i]; cbn; auto. Qed.

Lemma list_set_same {A} (l : list A) i x : (i < length l)%nat -> nth_error (list_set l i x) i = Some x.
Proof. revert i; induction l; intros [|i] H; cbn in *; try lia; auto. apply IHl. lia. Qed.

Lemma list_set_other {A} (l : list A) i j x : i <> j -> nth_error (list_set l i x) j = nth_error l j.
Proof. revert i j; induction l; intros [|i] [|j] H; cbn; try congruence; auto. Qed.
