(* ===== verification/CStr.v ===== *)
(** * C strings and the conversions of [stdio.h]/[stdlib.h] the code uses

    A NUL-terminated [char] array is the [string] before its terminator.  The
    file models what the sources use of the C library on text: bounded
    [snprintf], the decimal directives [%d]/[%lld]/[%u] with zero padding,
    [isdigit], [isspace] and [strtoll] in base 10. *)

From Stdlib Require Import ZArith Lia Bool List Ascii String.
From S2P Require Import Prelude.
Open Scope string_scope.
Open Scope Z_scope.

(** ** Characters *)

Definition code (c : ascii) : Z := Z.of_N (N_of_ascii c).
Definition isdigit (c : ascii) : bool := (48 <=? code c) && (code c <=? 57).
Definition isspace (c : ascii) : bool := (code c =? 32) || ((9 <=? code c) && (code c <=? 13)).
Definition digit_val (c : ascii) : Z := code c - 48.
Definition digit_char (k : Z) : ascii := ascii_of_N (Z.to_N (48 + k)).

(** Reading [s[i]]; at the terminator this is NUL. *)
Definition char_at (s : string) (i : nat) : ascii :=
  match String.get i s with Some c => c | None => "000"%char end.

Lemma digit_cases k : 0 <= k < 10 -> k = 0 \/ k = 1 \/ k = 2 \/ k = 3 \/ k = 4 \/
  k = 5 \/ k = 6 \/ k = 7 \/ k = 8 \/ k = 9.
Proof. lia. Qed.

Ltac digit_cases H :=
  apply digit_cases in H;
  repeat match type of H with _ \/ _ => destruct H as [H|H] end; subst.

Lemma code_digit_char k : 0 <= k < 10 -> code (digit_char k) = 48 + k.
Proof. intros H. digit_cases H; reflexivity. Qed.

Lemma isdigit_digit_char k : 0 <= k < 10 -> isdigit (digit_char k) = true.
Proof. intros H. unfold isdigit. rewrite code_digit_char by lia. lia. Qed.

Lemma digit_val_digit_char k : 0 <= k < 10 -> digit_val (digit_char k) = k.
Proof. intros H. unfold digit_val. rewrite code_digit_char; lia. Qed.

Lemma digit_char_digit_val c : isdigit c = true -> digit_char (digit_val c) = c.
Proof.
  intros H. unfold isdigit in H. zprop. unfold digit_char, digit_val.
  replace (48 + (code c - 48)) with (code c) by lia.
  unfold code. rewrite N2Z.id. apply ascii_N_embedding.
Qed.

Lemma digit_val_range c : isdigit c = true -> 0 <= digit_val c < 10.
Proof. unfold isdigit, digit_val. intros. zprop. lia. Qed.

Lemma isdigit_not_space c : isdigit c = true -> isspace c = false.
Proof.
  unfold isdigit, isspace. intros. zprop.
  apply orb_false_iff; split; [lia|]. apply andb_false_iff; lia.
Qed.

(** ** Printing integers *)

(** Decimal digits of a non-negative [n] in front of [acc]; [fuel] bounds the
    number of digits. *)
Fixpoint dec_digits (fuel : nat) (n : Z) (acc : string) : string :=
  match fuel with
  | O => acc
  | S f =>
      let acc' := String (digit_char (n mod 10)) acc in
      if n <? 10 then acc' else dec_digits f (n / 10) acc'
  end.

(** One digit per bit is more than enough. *)
Definition dec_fuel (n : Z) : nat := S (Z.to_nat (Z.log2 n)).
Definition print_nonneg (n : Z) : string := dec_digits (dec_fuel n) n "".

(** [%d], [%lld]: sign and digits. *)
Definition print_Z (z : Z) : string :=
  if z <? 0 then String "-" (print_nonneg (- z)) else print_nonneg z.

Fixpoint zeros (n : nat) : string :=
  match n with O => "" | S k => String "0" (zeros k) end.

(** [%0<w>lld] / [%0<w>u]: pad with zeros after the sign up to width [w]. *)
Definition print_padded (w : nat) (z : Z) : string :=
  if z <? 0 then
    let d := print_nonneg (- z) in
    String "-" (zeros (w - 1 - String.length d) ++ d)
  else let d := print_nonneg z in zeros (w - String.length d) ++ d.

(** [snprintf (buf, n, ...)]: at most [n - 1] characters are kept.  [None]
    when [n] is 0 and the buffer is not written. *)
Definition snprintf (n : nat) (text : string) : option string :=
  match n with O => None | S k => Some (String.substring 0 k text) end.

(** [snprintf]'s result is negative when the text is longer than an [int]. *)
Definition snprintf_length (text : string) : Z :=
  let len := Z.of_nat (String.length text) in if len >? INT32_MAX then -1 else len.

(** A text with double quotes, written with ['] in their place. *)
Definition QUOTE : ascii := ascii_of_N 34.

Fixpoint q (s : string) : string :=
  match s with
  | EmptyString => EmptyString
  | String c s => String (if Ascii.eqb c "'" then QUOTE else c) (q s)
  end.

(** The texts printed one after the other. *)
Definition concat (l : list string) : string := String.concat "" l.

Lemma sappend_assoc (s t u : string) : (s ++ (t ++ u) = (s ++ t) ++ u)%string.
Proof. induction s as [|c s IH]; cbn; [reflexivity|]. now rewrite IH. Qed.

Lemma length_sappend s t : String.length (s ++ t) = (String.length s + String.length t)%nat.
Proof. induction s; cbn; auto. Qed.

Lemma sappend_empty s : (s ++ "")%string = s.
Proof. induction s as [|c s IH]; cbn; [reflexivity|]. now rewrite IH. Qed.

Lemma concat_cons x l : concat (x :: l) = (x ++ concat l)%string.
Proof. unfold concat. destruct l; cbn; [symmetry; apply sappend_empty|reflexivity]. Qed.

Lemma concat_app l1 l2 : concat (l1 ++ l2) = (concat l1 ++ concat l2)%string.
Proof.
  induction l1 as [|x l1 IH]; [reflexivity|]. cbn [app]. now rewrite !concat_cons, IH, sappend_assoc.
Qed.

(** ** Reading integers *)

(** The run of digits at the front: value, whether there is one, the rest. *)
Fixpoint scan_digits (s : string) (acc : Z) (seen : bool) : Z * bool * string :=
  match s with
  | String c r =>
      if isdigit c then scan_digits r (acc * 10 + digit_val c) true else (acc, seen, s)
  | EmptyString => (acc, seen, s)
  end.

Fixpoint skip_space (s : string) : string :=
  match s with
  | String c r => if isspace c then skip_space r else s
  | EmptyString => s
  end.

(** [strtoll (text, &end, 10)]: [None] when no digit is found ([end == text]);
    otherwise the value, the rest at [end], and whether [errno] is [ERANGE]
    (the value is then clamped to the [long long] range). *)
Definition strtoll (text : string) : option (Z * string * bool) :=
  let s := skip_space text in
  let '(neg, s) :=
    match s with
    | String c r =>
        if Ascii.eqb c "-" then (true, r) else if Ascii.eqb c "+" then (false, r) else (false, s)
    | EmptyString => (false, s)
    end in
  let '(v, seen, rest) := scan_digits s 0 false in
  if negb seen then None
  else
    let v := if neg : bool then - v else v in
    if v >? INT64_MAX then Some (INT64_MAX, rest, true)
    else if v <? INT64_MIN then Some (INT64_MIN, rest, true)
    else Some (v, rest, false).

(** ** Lemmas *)

Lemma log2_div10 n : 10 <= n -> Z.log2 (n / 10) < Z.log2 n.
Proof.
  intros. apply Z.lt_le_trans with (Z.succ (Z.log2 (n / 10))); [lia|].
  rewrite <- Z.log2_double by (apply Z.div_str_pos; lia).
  apply Z.log2_le_mono. zdiv.
Qed.

Lemma scan_dec_digits fuel n tail b : 0 <= n -> (Z.to_nat (Z.log2 n) < fuel)%nat ->
  scan_digits (dec_digits fuel n tail) 0 b = scan_digits tail n true.
Proof.
  revert n tail b. induction fuel as [|f IH]; intros n tail b Hn Hf; [lia|].
  cbn [dec_digits]. pose proof (Z.mod_pos_bound n 10 ltac:(lia)) as Hm.
  assert (Hd : forall v s, scan_digits (String (digit_char (n mod 10)) tail) v s
                           = scan_digits tail (v * 10 + n mod 10) true).
  { intros. cbn [scan_digits].
    now rewrite isdigit_digit_char, digit_val_digit_char by lia. }
  break_if; zprop.
  - rewrite Hd. f_equal. rewrite Z.mod_small; lia.
  - rewrite IH.
    + rewrite Hd. f_equal. pose proof (Z.div_mod n 10 ltac:(lia)). lia.
    + apply Z.div_pos; lia.
    + pose proof (log2_div10 n ltac:(lia)). pose proof (Z.log2_nonneg (n / 10)). lia.
Qed.

Lemma scan_print_nonneg n tail : 0 <= n ->
  scan_digits (dec_digits (dec_fuel n) n tail) 0 false = scan_digits tail n true.
Proof. intros. apply scan_dec_digits; unfold dec_fuel; lia. Qed.

Lemma dec_digits_head fuel n tail : 0 <= n -> fuel <> O ->
  exists k r, dec_digits fuel n tail = String (digit_char k) r /\ 0 <= k < 10.
Proof.
  revert n tail. induction fuel as [|f IH]; intros n tail Hn Hf; [congruence|].
  cbn [dec_digits]. pose proof (Z.mod_pos_bound n 10 ltac:(lia)).
  break_if; [eauto|]. destruct f; [cbn; eauto|].
  apply IH; [apply Z.div_pos; lia | congruence].
Qed.

Lemma digit_not_sign k : 0 <= k < 10 ->
  Ascii.eqb (digit_char k) "-" = false /\ Ascii.eqb (digit_char k) "+" = false.
Proof. intros H. digit_cases H; split; reflexivity. Qed.

(** A printed number read back by [strtoll] is the number, consumed entirely. *)
Lemma strtoll_print_Z z : in_int64 z -> strtoll (print_Z z) = Some (z, "", false).
Proof.
  intros Hz. unfold in_int64, INT64_MIN, INT64_MAX in Hz.
  unfold strtoll, print_Z, print_nonneg. destruct (z <? 0) eqn:E; zprop.
  - change (skip_space (String "-" ?r)) with (String "-" r). cbv iota beta.
    change (Ascii.eqb "-" "-") with true. cbv iota beta.
    rewrite scan_print_nonneg by lia. cbn [scan_digits]. cbv iota beta zeta. cbn [negb].
    unfold INT64_MAX, INT64_MIN.
    destruct (_ >? _) eqn:?; zprop; [lia|]. destruct (_ <? _) eqn:?; zprop; [lia|].
    now rewrite Z.opp_involutive.
  - destruct (dec_digits_head (dec_fuel z) z "" ltac:(lia)) as (k & r & Hk & Hr);
      [unfold dec_fuel; congruence|].
    pose proof (scan_print_nonneg z "" ltac:(lia)) as Hs. rewrite Hk in *.
    cbn [skip_space]. rewrite isdigit_not_space by now apply isdigit_digit_char.
    destruct (digit_not_sign k Hr) as [-> ->]. rewrite Hs. cbn [scan_digits]. cbn [negb].
    unfold INT64_MAX, INT64_MIN.
    destruct (_ >? _) eqn:?; zprop; [lia|]. destruct (_ <? _) eqn:?; zprop; [lia|]. reflexivity.
Qed.

Lemma substring_all s k : (String.length s <= k)%nat -> String.substring 0 k s = s.
Proof.
  revert k. induction s as [|c s IH]; intros k H; cbn in *.
  - now destruct k.
  - destruct k as [|k]; [lia|]. cbn. now rewrite IH by lia.
Qed.

(** ** Fixed-width digit strings *)

Fixpoint fixed_digits (w : nat) (n : Z) (acc : string) : string :=
  match w with
  | O => acc
  | S k => fixed_digits k (n / 10) (String (digit_char (n mod 10)) acc)
  end.

Lemma fixed_digits_zero w acc : fixed_digits w 0 acc = zeros w ++ acc.
Proof.
  revert acc. induction w as [|w IH]; intros; [reflexivity|].
  cbn [fixed_digits]. change (0 / 10) with 0. change (0 mod 10) with 0. rewrite IH.
  clear IH. induction w as [|w IH]; [reflexivity|]. cbn [zeros append]. now rewrite IH.
Qed.

Lemma length_dec_digits fuel n acc :
  String.length (dec_digits fuel n acc) =
  (String.length (dec_digits fuel n "") + String.length acc)%nat.
Proof.
  revert n acc. induction fuel as [|f IH]; intros; [reflexivity|].
  cbn [dec_digits]. break_if; [reflexivity|].
  rewrite IH. rewrite (IH _ (String _ "")). cbn [String.length]. lia.
Qed.

Lemma dec_digits_fixed w fuel n acc : 0 <= n < 10 ^ Z.of_nat w ->
  (Z.to_nat (Z.log2 n) < fuel)%nat -> w <> O ->
  zeros (w - String.length (dec_digits fuel n "")) ++ dec_digits fuel n acc
  = fixed_digits w n acc.
Proof.
  revert fuel n acc. induction w as [|w IH]; intros fuel n acc Hn Hf Hw; [congruence|].
  destruct fuel as [|f]; [lia|]. cbn [dec_digits fixed_digits].
  destruct (n <? 10) eqn:E; zprop.
  - rewrite (Z.div_small n 10) by lia. cbn [String.length].
    rewrite fixed_digits_zero. f_equal. f_equal. lia.
  - destruct w as [|w]; [cbn in Hn; lia|].
    rewrite length_dec_digits. cbn [String.length].
    replace (S (S w) - (String.length (dec_digits f (n / 10) "") + 1))%nat
      with (S w - String.length (dec_digits f (n / 10) ""))%nat by lia.
    apply IH; [|clear - E Hf|congruence].
    + split; [apply Z.div_pos; lia|]. apply Z.div_lt_upper_bound; [lia|].
      replace (10 * 10 ^ Z.of_nat (S w)) with (10 ^ Z.of_nat (S (S w))); [lia|].
      rewrite (Nat2Z.inj_succ (S w)), Z.pow_succ_r; lia.
    + pose proof (log2_div10 n ltac:(lia)). pose proof (Z.log2_nonneg (n / 10)). lia.
Qed.

(** Zero padding to a width the number fits in gives exactly that many digits. *)
Lemma print_padded_fixed w n : w <> O -> 0 <= n < 10 ^ Z.of_nat w ->
  print_padded w n = fixed_digits w n "".
Proof.
  intros Hw Hn. unfold print_padded. destruct (n <? 0) eqn:E; zprop; [lia|].
  apply dec_digits_fixed; auto; unfold dec_fuel; lia.
Qed.

(** A number below [10 ^ w] is printed with at most [w] digits. *)
Lemma dec_digits_short w fuel n : 0 <= n < 10 ^ Z.of_nat w -> w <> O ->
  (String.length (dec_digits fuel n "") <= w)%nat.
Proof.
  revert fuel n. induction w as [|w IH]; intros fuel n Hn Hw; [congruence|].
  destruct fuel as [|f]; [cbn; lia|]. cbn [dec_digits].
  destruct (n <? 10) eqn:E; zprop; [cbn; lia|].
  destruct w as [|w]; [cbn in Hn; lia|]. rewrite length_dec_digits. cbn [String.length].
  enough (String.length (dec_digits f (n / 10) "") <= S w)%nat by lia.
  apply IH; [|congruence]. split; [apply Z.div_pos; lia|]. apply Z.div_lt_upper_bound; [lia|].
  replace (10 * 10 ^ Z.of_nat (S w)) with (10 ^ Z.of_nat (S (S w))); [lia|].
  rewrite (Nat2Z.inj_succ (S w)), Z.pow_succ_r; lia.
Qed.

Lemma print_Z_short w z : - 10 ^ Z.of_nat w < z < 10 ^ Z.of_nat w -> w <> O ->
  (String.length (print_Z z) <= S w)%nat.
Proof.
  intros H W. unfold print_Z, print_nonneg. destruct (z <? 0) eqn:E; zprop.
  - cbn [String.length]. apply le_n_S, dec_digits_short; [lia|exact W].
  - apply le_S, dec_digits_short; [lia|exact W].
Qed.

Lemma snprintf_length_eq t : Z.of_nat (String.length t) <= INT32_MAX ->
  snprintf_length t = Z.of_nat (String.length t).
Proof. unfold snprintf_length. intros. break_if; zprop; lia. Qed.

(** The C string at the start of a byte buffer: everything before the first NUL. *)
Fixpoint c_str (s : string) : string :=
  match s with
  | EmptyString => EmptyString
  | String c r => if code c =? 0 then EmptyString else String c (c_str r)
  end.
