(* ===== verification/Domain.v ===== *)
(** * Shared domain types: signals, sides, markets, error codes, constants

    Models [core/include/alpha/domain.h], [errors.h], [constants.h] and
    [core/src/alpha.c]. *)

From Stdlib Require Import ZArith Bool Floats.
From S2P Require Import Prelude.
Set Warnings "-inexact-float".
Open Scope Z_scope.

Inductive alpha_signal_t :=
  | ALPHA_SIGNAL_BUY
  | ALPHA_SIGNAL_SELL
  | ALPHA_SIGNAL_HOLD
  | ALPHA_SIGNAL_CLOSE.

Inductive alpha_side_t := ALPHA_SIDE_BUY | ALPHA_SIDE_SELL.

Inductive alpha_market_t :=
  | ALPHA_MARKET_KOSPI
  | ALPHA_MARKET_KOSDAQ
  | ALPHA_MARKET_NYSE
  | ALPHA_MARKET_NASDAQ.

Inductive alpha_err_t :=
  | ALPHA_OK
  | ALPHA_ERR_INVALID_ARG
  | ALPHA_ERR_RANGE
  | ALPHA_ERR_IO
  | ALPHA_ERR_DB
  | ALPHA_ERR_HTTP.

(** ** [constants.h] *)

Definition ALPHA_PAPER_TRADING_INITIAL_CAPITAL : Z := 10000000.
Definition ALPHA_BACKTEST_COMMISSION_RATE_PCT : float := 0.015.
Definition ALPHA_BACKTEST_TAX_RATE_PCT : float := 0.18.
Definition ALPHA_BACKTEST_SLIPPAGE_BPS : Z := 3.
Definition ALPHA_MAX_TICKERS_PER_WS : Z := 40.
Definition ALPHA_MAX_SCREENED_TICKERS : Z := 10.
Definition ALPHA_DEFAULT_COLLECTOR_DAILY_LIMIT : Z := 100.
Definition ALPHA_SCREENER_VOLUME_SURGE_RATIO : float := 2.
Definition ALPHA_SCREENER_CHANGE_PCT_THRESHOLD : float := 3.

(** ** [alpha.c] *)

Inductive rounding_mode := FE_TONEAREST | FE_OTHER.

(** [fesetround] of the C library: the mode afterwards and its status. *)
Definition alpha_initialize (fesetround : rounding_mode -> Z * rounding_mode)
  : alpha_err_t * rounding_mode :=
  let '(status, mode) := fesetround FE_TONEAREST in
  if negb (status =? 0) || match mode with FE_TONEAREST => false | FE_OTHER => true end
  then (ALPHA_ERR_RANGE, mode) else (ALPHA_OK, mode).

Definition ALPHA_ABI_VERSION : Z := 1.
Definition alpha_abi_version : Z := ALPHA_ABI_VERSION.

(** ** Comparisons *)

Definition signal_eqb (a b : alpha_signal_t) : bool :=
  match a, b with
  | ALPHA_SIGNAL_BUY, ALPHA_SIGNAL_BUY
  | ALPHA_SIGNAL_SELL, ALPHA_SIGNAL_SELL
  | ALPHA_SIGNAL_HOLD, ALPHA_SIGNAL_HOLD
  | ALPHA_SIGNAL_CLOSE, ALPHA_SIGNAL_CLOSE => true
  | _, _ => false
  end.

Definition side_eqb (a b : alpha_side_t) : bool :=
  match a, b with
  | ALPHA_SIDE_BUY, ALPHA_SIDE_BUY | ALPHA_SIDE_SELL, ALPHA_SIDE_SELL => true
  | _, _ => false
  end.

Definition is_ok (e : alpha_err_t) : bool :=
  match e with ALPHA_OK => true | _ => false end.

Lemma signal_eqb_spec a b : reflect (a = b) (signal_eqb a b).
Proof. destruct a, b; constructor; congruence. Qed.

Lemma side_eqb_spec a b : reflect (a = b) (side_eqb a b).
Proof. destruct a, b; constructor; congruence. Qed.

Lemma is_ok_spec e : reflect (e = ALPHA_OK) (is_ok e).
Proof. destruct e; constructor; congruence. Qed.
