(* ===== verification/Date.v ===== *)
(** * Calendar dates as epoch-day numbers

    Models [core/src/domain/date.c] and [core/include/alpha/date.h].  The conversions
    between civil dates and day numbers are inverse bijections whose signed
    intermediates stay in range for years and days up to 2^44 in magnitude; ISO text
    round-trips. *)

From Stdlib Require Import ZArith Lia Bool List Ascii String.
From S2P Require Import Prelude CStr Domain.
Import ListNotations.
Open Scope string_scope.
Open Scope Z_scope.

Definition b2z (b : bool) : Z := if b then 1 else 0.

(** ** Day number of a civil date

    [y] is an [int64_t]; [m], [d] and everything below [yoe] are [unsigned]
    and wrap modulo 2^32 ([m + -3U] relies on it). [Z.quot] is C's division. *)
Definition days_from_civil (y m d : Z) : Z :=
  let y := y - b2z (m <=? 2) in
  let era := Z.quot (if y >=? 0 then y else y - 399) 400 in
  let yoe := u32 (y - era * 400) in
  let doy := (153 *u (m +u (if m >? 2 then u32 (-3) else 9)) +u 2) / 5 +u d -u 1 in
  let doe := yoe *u 365 +u (yoe / 4) -u (yoe / 100) +u doy in
  era * 146097 + doe - 719468.

Definition civil_from_days (z : Z) : Z * Z * Z :=
  let z := z + 719468 in
  let era := Z.quot (if z >=? 0 then z else z - 146096) 146097 in
  let doe := u32 (z - era * 146097) in
  let yoe := (doe -u (doe / 1460) +u (doe / 36524) -u (doe / 146096)) / 365 in
  let yy := yoe + era * 400 in
  let doy := doe -u (365 *u yoe +u (yoe / 4) -u (yoe / 100)) in
  let mp := (5 *u doy +u 2) / 153 in
  let d := doy -u ((153 *u mp +u 2) / 5) +u 1 in
  let m := mp +u (if mp <? 10 then 3 else u32 (-9)) in
  (yy + b2z (m <=? 2), m, d).

(** ** The civil calendar, independently of the algorithm *)

Definition leap_year (y : Z) : bool :=
  (y mod 4 =? 0) && (negb (y mod 100 =? 0) || (y mod 400 =? 0)).

Definition days_in_month (y m : Z) : Z :=
  if m =? 2 then (if leap_year y then 29 else 28)
  else if (m =? 4) || (m =? 6) || (m =? 9) || (m =? 11) then 30
  else 31.

Definition valid_civil (y m d : Z) : bool :=
  (1 <=? m) && (m <=? 12) && (1 <=? d) && (d <=? days_in_month y m).

Definition next_civil (y m d : Z) : Z * Z * Z :=
  if d <? days_in_month y m then (y, m, d + 1)
  else if m <? 12 then (y, m + 1, 1)
  else (y + 1, 1, 1).

(** ** The exact arithmetic behind the wrapped one *)

(** Day of the March-based year for a month and day. *)
Definition doy_of (m d : Z) : Z := (153 * (m + if m >? 2 then -3 else 9) + 2) / 5 + d - 1.
Definition doe_of (yoe doy : Z) : Z := yoe * 365 + yoe / 4 - yoe / 100 + doy.

Lemma floor_quot a b : 0 < b ->
  Z.quot (if a >=? 0 then a else a - (b - 1)) b = a / b.
Proof.
  intros Hb. break_if; zprop.
  - apply Z.quot_div_nonneg; lia.
  - assert (a < 0) by lia.
    rewrite <- (Z.opp_involutive (a - (b - 1))), Z.quot_opp_l by lia.
    rewrite Z.quot_div_nonneg by lia.
    pose proof (Z.div_mod a b). pose proof (Z.mod_pos_bound a b).
    enough (- (a - (b - 1)) / b = - (a / b)) by lia.
    symmetry. apply Z.div_unique with (r := b - 1 - a mod b); lia.
Qed.

Lemma days_from_civil_exact y m d : 1 <= m <= 12 -> 1 <= d <= 31 ->
  days_from_civil y m d =
  let y' := y - b2z (m <=? 2) in
  y' / 400 * 146097 + doe_of (y' mod 400) (doy_of m d) - 719468.
Proof.
  intros Hm Hd. unfold days_from_civil. cbv zeta.
  rewrite (floor_quot _ 400) by lia.
  set (y' := y - b2z (m <=? 2)).
  assert (Hyoe : y' - y' / 400 * 400 = y' mod 400) by (rewrite Z.mod_eq by lia; lia).
  rewrite Hyoe. pose proof (Z.mod_pos_bound y' 400 ltac:(lia)) as Hr.
  set (yoe := y' mod 400) in *.
  rewrite (u32_small yoe) by lia.
  assert (Hdoy : (153 *u (m +u (if m >? 2 then u32 (-3) else 9)) +u 2) / 5 +u d -u 1 = doy_of m d
                 /\ 0 <= doy_of m d <= 400).
  { unfold doy_of.
    assert (Hmm : m +u (if m >? 2 then u32 (-3) else 9) = m + (if m >? 2 then -3 else 9)).
    { break_if; zprop.
      - unfold u32 at 2. rewrite Zplus_comm. change (-3 mod 2 ^ 32) with (2^32 - 3).
        unfold u32. replace (2 ^ 32 - 3 + m) with (m - 3 + 1 * 2 ^ 32) by lia.
        rewrite Z.mod_add by lia. rewrite Z.mod_small; lia.
      - apply u32_small; lia. }
    rewrite Hmm. set (k := m + _).
    assert (0 <= k <= 11) by (unfold k; break_if; zprop; lia).
    split; [u32_clean; reflexivity | zdiv]. }
  destruct Hdoy as [-> Hdoy]. set (doy := doy_of m d) in *.
  unfold doe_of. u32_clean. lia.
Qed.

(** First day of the March-based year [yoe] of an era, and its length. *)
Definition year_start (yoe : Z) : Z := yoe * 365 + yoe / 4 - yoe / 100.
Definition year_len (yoe : Z) : Z :=
  if ((yoe + 1) mod 4 =? 0) && (negb ((yoe + 1) mod 100 =? 0) || ((yoe + 1) mod 400 =? 0))
  then 366 else 365.

Definition yoe_of (doe : Z) : Z := (doe - doe / 1460 + doe / 36524 - doe / 146096) / 365.

Lemma yoe_split yoe : 0 <= yoe < 400 -> exists a b c,
  yoe = 100 * a + 4 * b + c /\ 0 <= a <= 3 /\ 0 <= b <= 24 /\ 0 <= c <= 3.
Proof.
  intros. exists (yoe / 100), (yoe mod 100 / 4), (yoe mod 4).
  repeat split; zdiv.
Qed.

Lemma year_start_mono y1 y2 : y1 < y2 -> year_start (y1 + 1) <= year_start y2.
Proof. unfold year_start. intros. zdiv. Qed.

Lemma doe_split doe : 0 <= doe < 146096 -> exists a b c d,
  doe = 36524 * a + 1461 * b + 365 * c + d /\ 0 <= a <= 3 /\ 0 <= b <= 24 /\ 0 <= c <= 3 /\
  0 <= d <= 365 /\ (c < 3 -> d <= 364) /\ (b = 24 -> c = 3 -> d <= 364).
Proof.
  intros. 
  exists (doe / 36524), ((doe mod 36524) / 1461), (Z.min 3 ((doe mod 36524) mod 1461 / 365)),
    ((doe mod 36524) mod 1461 - 365 * Z.min 3 ((doe mod 36524) mod 1461 / 365)).
  repeat split; try zdiv.
Qed.
Lemma yoe_of_val a b c d :  0 <= a <= 3 -> 0 <= b <= 24 -> 0 <= c <= 3 ->
  0 <= d <= 365 -> (c < 3 -> d <= 364) -> (b = 24 -> c = 3 -> d <= 364) ->
  yoe_of (36524 * a + 1461 * b + 365 * c + d) = 100 * a + 4 * b + c.
Proof.
  intros. unfold yoe_of.
  rewrite (Z.div_small _ 146096) by lia.
  assert ((36524 * a + 1461 * b + 365 * c + d) / 36524 = a) as ->. { symmetry; apply Z.div_unique with (r := 1461 * b + 365 * c + d); lia. }
  set (q := _ / 1460).
  assert (25 * a + b <= q <= 25 * a + b + 1). { unfold q. zdiv. }
  symmetry. apply Z.div_unique with (r := 36524 * a + 1461 * b + 365 * c + d - q + a - 365 * (100 * a + 4 * b + c)); [|lia].
  left. assert (q = 25 * a + b \/ q = 25 * a + b + 1) as [?|?] by lia. 
  -  assert (24 * a + b + 365 * c + d < 1460) by (unfold q in *; zdiv). lia.
  -  assert (24 * a + b + 365 * c + d >= 1460) by (unfold q in *; zdiv). 
     lia.
Qed.
Lemma year_len_val a b c :  0 <= a <= 3 -> 0 <= b <= 24 -> 0 <= c <= 3 -> 
  year_len (100 * a + 4 * b + c) = if (c =? 3) && negb ((b =? 24) && negb (a =? 3)) then 366 else 365.
Proof.
  intros. unfold year_len.
  assert ((100 * a + 4 * b + c + 1) mod 4 = (c + 1) mod 4) as -> by zdiv.
  assert ((100 * a + 4 * b + c + 1) mod 100 = (4 * b + c + 1) mod 100) as -> by zdiv.
  assert (C : a = 0 \/ a = 1 \/ a = 2 \/ a = 3) by lia.
  assert (D : c = 0 \/ c = 1 \/ c = 2 \/ c = 3) by lia.
  destruct (Z.eq_dec b 24) as [->|].
  - destruct C as [->|[->|[->| ->]]], D as [->|[->|[->| ->]]]; reflexivity.
  - destruct D as [->|[->|[->| ->]]]; try reflexivity.
    rewrite (proj2 (Z.eqb_neq b 24)) by lia.
    rewrite (proj2 (Z.eqb_neq ((4 * b + 3 + 1) mod 100) 0)) by zdiv. reflexivity.
Qed.

(** The correction terms of the year-of-era formula pick the year whose span
    contains the day. *)
Lemma yoe_of_spec doe : 0 <= doe <= 146096 ->
  0 <= yoe_of doe < 400 /\
  year_start (yoe_of doe) <= doe < year_start (yoe_of doe) + year_len (yoe_of doe).
Proof.
  intros H. destruct (Z.eq_dec doe 146096) as [->|]; [vm_compute; intuition discriminate|].
  destruct (doe_split doe ltac:(lia)) as (a & b & c & d & -> & ? & ? & ? & ? & ? & ?).
  rewrite yoe_of_val, year_len_val by assumption.
  split; [lia|].
  assert (year_start (100 * a + 4 * b + c) = 36524 * a + 1461 * b + 365 * c) as ->.
  { unfold year_start. zdiv. }
  break_if; zprop; try lia.
Qed.

Lemma yoe_of_unique doe yoe : 0 <= yoe < 400 ->
  year_start yoe <= doe < year_start yoe + year_len yoe -> yoe_of doe = yoe.
Proof.
  intros Hy Hd.
  assert (Hlen' : forall y, 0 <= y < 399 -> year_start y + year_len y = year_start (y + 1)).
  { intros y H. destruct (yoe_split y ltac:(lia)) as (a & b & c & -> & ? & ? & ?).
    rewrite year_len_val by assumption. unfold year_start. break_if; zprop; zdiv. }
  assert (0 <= doe <= 146096).
  { assert (year_start 0 <= year_start yoe) by (unfold year_start; zdiv).
    destruct (Z.eq_dec yoe 399) as [->|]; [change (year_start 399) with 145731 in *; change (year_len 399) with 366 in *; lia|].
    rewrite Hlen' in Hd by lia. unfold year_start in *. zdiv. }
  destruct (yoe_of_spec doe) as [Hr Hs]; [lia|]. set (k := yoe_of doe) in *.
  destruct (Z.lt_trichotomy k yoe) as [L|[E|L]]; [exfalso| exact E|exfalso].
  - pose proof (year_start_mono k yoe L). rewrite (Hlen' k) in Hs by lia. lia.
  - pose proof (year_start_mono yoe k L). rewrite (Hlen' yoe) in Hd by lia. lia.
Qed.

Lemma doy_of_len m d y : 1 <= m <= 12 -> 1 <= d <= days_in_month y m ->
  0 <= doy_of m d < year_len ((y - b2z (m <=? 2)) mod 400).
Proof.
  intros Hm Hd. unfold doy_of, days_in_month, year_len, leap_year, b2z in *.
  assert (C : m = 1 \/ m = 2 \/ m = 3 \/ m = 4 \/ m = 5 \/ m = 6 \/ m = 7 \/ m = 8 \/ m = 9 \/
              m = 10 \/ m = 11 \/ m = 12) by lia.
  assert (E4 : ((y - 1) mod 400 + 1) mod 4 = y mod 4) by zdiv.
  assert (E100 : ((y - 1) mod 400 + 1) mod 100 = y mod 100) by zdiv.
  assert (E400 : ((y - 1) mod 400 + 1) mod 400 = y mod 400) by zdiv.
  revert Hd. rewrite <- E4, <- E100, <- E400.
  repeat (destruct C as [-> | C]); subst; cbv [Z.eqb Pos.eqb orb Z.leb Z.compare Pos.compare Pos.compare_cont Z.gtb];
    repeat break_if; intros; zdiv.
Qed.

(** ** The two conversions *)

(** Month and day of a day of the March-based year. *)
Definition month_of (mp : Z) : Z := if mp <? 10 then mp + 3 else mp - 9.
Definition mp_of (doy : Z) : Z := (5 * doy + 2) / 153.

Lemma civil_from_days_exact z :
  civil_from_days z =
  let doe := (z + 719468) mod 146097 in
  let yoe := yoe_of doe in
  let doy := doe - year_start yoe in
  let m := month_of (mp_of doy) in
  (yoe + (z + 719468) / 146097 * 400 + b2z (m <=? 2), m,
   doy - (153 * mp_of doy + 2) / 5 + 1).
Proof.
  unfold civil_from_days. cbv zeta.
  rewrite (floor_quot _ 146097) by lia.
  set (z' := z + 719468).
  assert (Hdoe : z' - z' / 146097 * 146097 = z' mod 146097) by (rewrite Z.mod_eq by lia; lia).
  rewrite Hdoe. pose proof (Z.mod_pos_bound z' 146097 ltac:(lia)) as Hr.
  set (doe := z' mod 146097) in *. rewrite (u32_small doe) by lia.
  destruct (yoe_of_spec doe) as [Hy Hs]; [lia|].
  assert (Hyoe : (doe -u (doe / 1460) +u (doe / 36524) -u (doe / 146096)) / 365 = yoe_of doe).
  { unfold yoe_of. now u32_clean. }
  rewrite Hyoe. set (yoe := yoe_of doe) in *.
  assert (Hst : 0 <= year_start yoe) by (unfold year_start; zdiv).
  assert (Hlen : year_len yoe <= 366) by (unfold year_len; break_if; lia).
  assert (Hdoy : doe -u (365 *u yoe +u (yoe / 4) -u (yoe / 100)) = doe - year_start yoe).
  { unfold year_start in *. u32_clean. lia. }
  rewrite Hdoy. set (doy := doe - year_start yoe) in *.
  assert (0 <= doy <= 365) by lia.
  assert (Hmp : (5 *u doy +u 2) / 153 = mp_of doy) by (unfold mp_of; now u32_clean).
  rewrite Hmp. assert (0 <= mp_of doy <= 11) by (unfold mp_of; zdiv).
  assert (Hd : (153 * mp_of doy + 2) / 5 <= doy) by (unfold mp_of; zdiv).
  assert (Hm : mp_of doy +u (if mp_of doy <? 10 then 3 else u32 (-9)) = month_of (mp_of doy)).
  { unfold month_of. break_if; zprop; [now u32_clean|].
    change (u32 (-9)) with (2 ^ 32 - 9). unfold u32.
    replace (mp_of doy + (2 ^ 32 - 9)) with (mp_of doy - 9 + 1 * 2 ^ 32) by lia.
    rewrite Z.mod_add by lia. apply Z.mod_small. lia. }
  rewrite Hm. set (mp := mp_of doy) in *. f_equal. now u32_clean.
Qed.

Lemma mp_of_inv doy : 0 <= doy <= 365 ->
  0 <= mp_of doy <= 11 /\ 1 <= month_of (mp_of doy) <= 12 /\
  doy_of (month_of (mp_of doy)) (doy - (153 * mp_of doy + 2) / 5 + 1) = doy /\
  1 <= doy - (153 * mp_of doy + 2) / 5 + 1 <= 31.
Proof.
  intros H. assert (Hm : 0 <= mp_of doy <= 11) by (unfold mp_of; zdiv).
  assert (1 <= doy - (153 * mp_of doy + 2) / 5 + 1 <= 31) by (unfold mp_of; zdiv).
  unfold month_of, doy_of in *. set (mp := mp_of doy) in *.
  destruct (mp <? 10) eqn:E; zprop.
  - rewrite (proj2 (Z.gtb_lt (mp + 3) 2)) by lia.
    replace (mp + 3 + -3) with mp by lia. lia.
  - destruct (mp - 9 >? 2) eqn:E2; zprop; [lia|].
    replace (mp - 9 + 9) with mp by lia. lia.
Qed.

Lemma doy_of_inv m d : 1 <= m <= 12 -> 1 <= d <= days_in_month 0 m ->
  month_of (mp_of (doy_of m d)) = m /\
  doy_of m d - (153 * mp_of (doy_of m d) + 2) / 5 + 1 = d.
Proof.
  intros Hm Hd.
  assert (K : mp_of (doy_of m d) = m + if m >? 2 then -3 else 9).
  { unfold mp_of, doy_of.
    assert (C : m = 1 \/ m = 2 \/ m = 3 \/ m = 4 \/ m = 5 \/ m = 6 \/ m = 7 \/ m = 8 \/ m = 9 \/
              m = 10 \/ m = 11 \/ m = 12) by lia.
    repeat (destruct C as [-> | C]); subst;
      match type of Hd with 1 <= d <= ?e => let v := eval vm_compute in e in change e with v in Hd end;
      match goal with |- (5 * (?e + d - 1) + 2) / _ = ?r =>
        let v := eval vm_compute in e in change e with v;
        let w := eval vm_compute in r in change r with w end; zdiv. }
  rewrite K. unfold month_of, doy_of. destruct (m >? 2) eqn:E; zprop.
  - rewrite (proj2 (Z.ltb_lt (m + -3) 10)) by lia. lia.
  - rewrite (proj2 (Z.ltb_ge (m + 9) 10)) by lia. lia.
Qed.

Lemma days_in_month_le y m : days_in_month y m <= days_in_month 0 m.
Proof. unfold days_in_month. change (leap_year 0) with true. repeat break_if; lia. Qed.

Lemma days_in_month_le_31 y m : days_in_month y m <= 31.
Proof. unfold days_in_month. repeat break_if; lia. Qed.

Lemma valid_civil_spec y m d :
  valid_civil y m d = true <-> 1 <= m <= 12 /\ 1 <= d <= days_in_month y m.
Proof. unfold valid_civil. lia. Qed.

Lemma civil_days_inverse y m d : valid_civil y m d = true ->
  civil_from_days (days_from_civil y m d) = (y, m, d).
Proof.
  rewrite valid_civil_spec. intros [Hm Hd].
  pose proof (days_in_month_le y m). pose proof (days_in_month_le_31 y m).
  rewrite days_from_civil_exact by lia. cbv zeta.
  pose proof (doy_of_len m d y Hm Hd) as Hdoy.
  set (y' := y - b2z (m <=? 2)) in *.
  pose proof (Z.mod_pos_bound y' 400 ltac:(lia)) as Hyoe. set (yoe := y' mod 400) in *.
  assert (Hy : yoe_of (doe_of yoe (doy_of m d)) = yoe).
  { apply yoe_of_unique; [lia|]. unfold doe_of, year_start. lia. }
  assert (Hdoe : 0 <= doe_of yoe (doy_of m d) < 146097).
  { unfold doe_of. destruct (Z.eq_dec yoe 399) as [E|].
    - rewrite E in *. change (year_len 399) with 366 in *. zdiv.
    - assert (year_len yoe <= 366) by (unfold year_len; break_if; lia). zdiv. }
  rewrite civil_from_days_exact. cbv zeta.
  replace (y' / 400 * 146097 + doe_of yoe (doy_of m d) - 719468 + 719468)
    with (doe_of yoe (doy_of m d) + y' / 400 * 146097) by lia.
  rewrite Z.mod_add, Z.div_add by lia.
  rewrite (Z.mod_small _ 146097), (Z.div_small _ 146097) by lia. rewrite Hy.
  replace (doe_of yoe (doy_of m d) - year_start yoe) with (doy_of m d)
    by (unfold doe_of, year_start; lia).
  destruct (doy_of_inv m d Hm ltac:(lia)) as [-> ->].
  do 2 f_equal. unfold yoe. rewrite Z.mod_eq by lia. unfold y'. lia.
Qed.

Lemma days_civil_inverse z :
  let '(y, m, d) := civil_from_days z in days_from_civil y m d = z /\ 1 <= m <= 12 /\ 1 <= d <= 31.
Proof.
  rewrite civil_from_days_exact. cbv zeta.
  set (z' := z + 719468). pose proof (Z.mod_pos_bound z' 146097 ltac:(lia)).
  set (doe := z' mod 146097) in *.
  destruct (yoe_of_spec doe ltac:(lia)) as [Hy Hs]. set (yoe := yoe_of doe) in *.
  assert (year_len yoe <= 366) by (unfold year_len; break_if; lia).
  destruct (mp_of_inv (doe - year_start yoe) ltac:(lia)) as (Hmp & Hm & Hdoy & Hd).
  set (m := month_of _) in *. set (d := _ + 1) in *.
  rewrite days_from_civil_exact by lia. cbv zeta. rewrite Hdoy.
  replace (yoe + z' / 146097 * 400 + b2z (m <=? 2) - b2z (m <=? 2))
    with (yoe + z' / 146097 * 400) by lia.
  rewrite Z.div_add, Z.mod_add by lia.
  rewrite (Z.div_small yoe), (Z.mod_small yoe) by lia.
  split; [|lia]. unfold doe_of. fold (year_start yoe).
  pose proof (Z.div_mod z' 146097 ltac:(lia)). unfold doe, year_start in *. lia.
Qed.

(** Days before 1 March of year [y], in one formula over all integers. *)
Lemma march_days y :
  y / 400 * 146097 + year_start (y mod 400) = 365 * y + y / 4 - y / 100 + y / 400.
Proof. unfold year_start. zdiv. Qed.

Lemma days_from_civil_closed y m d : 1 <= m <= 12 -> 1 <= d <= 31 ->
  days_from_civil y m d =
  let y' := y - b2z (m <=? 2) in
  365 * y' + y' / 4 - y' / 100 + y' / 400 + doy_of m d - 719468.
Proof.
  intros. rewrite days_from_civil_exact by lia. cbv zeta. rewrite <- march_days.
  unfold doe_of, year_start. lia.
Qed.

Lemma leap_step y :
  y / 4 - y / 100 + y / 400 - ((y - 1) / 4 - (y - 1) / 100 + (y - 1) / 400)
  = b2z (leap_year y).
Proof.
  unfold leap_year, b2z.
  destruct (y mod 4 =? 0) eqn:E1, (y mod 100 =? 0) eqn:E2, (y mod 400 =? 0) eqn:E3;
    zprop; cbn; zdiv.
Qed.

Lemma days_from_civil_step y m d : valid_civil y m d = true ->
  let '(y', m', d') := next_civil y m d in
  days_from_civil y' m' d' = days_from_civil y m d + 1.
Proof.
  rewrite valid_civil_spec. intros [Hm Hd]. pose proof (days_in_month_le_31 y m).
  unfold next_civil. destruct (d <? days_in_month y m) eqn:E; zprop.
  - rewrite !days_from_civil_closed by lia. unfold doy_of. lia.
  - assert (Hd' : d = days_in_month y m) by lia. clear E.
    destruct (m <? 12) eqn:E; zprop; rewrite !days_from_civil_closed by lia; cbv zeta.
    + destruct (Z.eq_dec m 2) as [->|].
      * change (2 + 1 <=? 2) with false. change (2 <=? 2) with true. cbn [b2z].
        pose proof (leap_step y). rewrite Hd'.
        change (doy_of (2 + 1) 1) with 0. unfold doy_of, days_in_month. cbn -[Z.add Z.div Z.mul leap_year Z.sub].
        change ((153 * (2 + 9) + 2) / 5) with 337.
        rewrite !Z.sub_0_r. destruct (leap_year y); cbn [b2z] in *; lia.
      * assert (C : m = 1 \/ m = 3 \/ m = 4 \/ m = 5 \/ m = 6 \/ m = 7 \/ m = 8 \/ m = 9 \/
                    m = 10 \/ m = 11) by lia.
        repeat (destruct C as [-> | C]); subst; cbn -[Z.add Z.div Z.mul Z.sub];
          unfold doy_of; cbn; lia.
    + assert (m = 12) by lia. subst. cbn -[Z.add Z.div Z.mul Z.sub].
      replace (y + 1 - 1) with y by lia. rewrite !Z.sub_0_r. unfold doy_of. cbn. lia.
Qed.

Lemma civil_from_days_valid z :
  let '(y, m, d) := civil_from_days z in valid_civil y m d = true.
Proof.
  rewrite civil_from_days_exact. cbv zeta.
  set (z' := z + 719468). pose proof (Z.mod_pos_bound z' 146097 ltac:(lia)).
  set (doe := z' mod 146097) in *.
  destruct (yoe_of_spec doe ltac:(lia)) as [Hy Hs]. set (yoe := yoe_of doe) in *.
  assert (Hlen : year_len yoe <= 366) by (unfold year_len; break_if; lia).
  set (doy := doe - year_start yoe) in *. assert (Hdoy : 0 <= doy < year_len yoe) by lia.
  destruct (mp_of_inv doy ltac:(lia)) as (Hmp & Hm & _ & Hd).
  apply valid_civil_spec. split; [exact Hm|]. split; [lia|].
  unfold month_of, days_in_month, mp_of in *. set (mp := (5 * doy + 2) / 153) in *.
  assert (C : mp = 0 \/ mp = 1 \/ mp = 2 \/ mp = 3 \/ mp = 4 \/ mp = 5 \/ mp = 6 \/ mp = 7 \/
              mp = 8 \/ mp = 9 \/ mp = 10 \/ mp = 11) by lia.
  destruct (Z.eq_dec mp 11) as [E11|N11].
  - rewrite E11. change (11 - 9 =? 2) with true. change (11 <? 10) with false.
    change ((153 * 11 + 2) / 5) with 337. change (11 - 9 <=? 2) with true. cbn iota.
    change (11 - 9 =? 2) with true. cbn iota.
    assert (HL : leap_year (yoe + z' / 146097 * 400 + 1) = (year_len yoe =? 366)).
    { unfold leap_year, year_len. cbn [b2z].
      assert (forall k, 0 < k -> (k | 400) ->
        (yoe + z' / 146097 * 400 + 1) mod k = (yoe + 1) mod k) as R.
      { intros k Hk [q Hq]. replace (yoe + z' / 146097 * 400 + 1)
          with (yoe + 1 + (z' / 146097 * q) * k) by (rewrite <- Z.mul_assoc, <- Hq; ring). apply Z.mod_add; lia. }
      rewrite (R 4 ltac:(lia) ltac:(now exists 100)), (R 100 ltac:(lia) ltac:(now exists 4)),
        (R 400 ltac:(lia) ltac:(now exists 1)).
      break_if; reflexivity. }
    change (b2z (11 - 9 <=? 2)) with 1. try change (b2z true) with 1.
    rewrite HL. destruct (year_len yoe =? 366) eqn:E; zprop; [lia|].
    unfold year_len in *; break_if; lia.
  - assert (B : 153 * mp <= 5 * doy + 2 < 153 * mp + 153) by (unfold mp; zdiv).
    clearbody mp. clear - B C N11.
    repeat (destruct C as [-> | C]); try subst mp; try congruence;
      cbn -[Z.add Z.sub Z.mul]; cbn; lia.
Qed.

(** ** ISO text

    An output pointer is [None] when NULL and otherwise the cell it points to;
    the returned cell is unchanged on every error path. *)

(** [parse_digits (s + i, len, &out)]; [None] stands for the result -1. *)
Fixpoint parse_digits (s : string) (i len : nat) (value : Z) : option Z :=
  match len with
  | O => Some value
  | S k =>
      let c := char_at s i in
      if (code c <? 48) || (code c >? 57) then None
      else parse_digits s (S i) k (value * 10 + (code c - 48))
  end.

Definition alpha_date_parse (iso : option string) (out_epoch_day : option Z)
  : alpha_err_t * option Z :=
  match iso, out_epoch_day with
  | Some iso, Some _ =>
      if negb (String.length iso =? 10)%nat || negb (Ascii.eqb (char_at iso 4) "-")
         || negb (Ascii.eqb (char_at iso 7) "-")
      then (ALPHA_ERR_INVALID_ARG, out_epoch_day)
      else
        match parse_digits iso 0 4 0, parse_digits iso 5 2 0, parse_digits iso 8 2 0 with
        | Some year, Some month, Some day =>
            if (month <? 1) || (month >? 12) || (day <? 1) || (day >? 31)
            then (ALPHA_ERR_INVALID_ARG, out_epoch_day)
            else (ALPHA_OK, Some (days_from_civil year (u32 month) (u32 day)))
        | _, _, _ => (ALPHA_ERR_INVALID_ARG, out_epoch_day)
        end
  | _, _ => (ALPHA_ERR_INVALID_ARG, out_epoch_day)
  end.

Definition format_civil (y m d : Z) : string :=
  (print_padded 4 y ++ String "-" (print_padded 2 m ++ String "-" (print_padded 2 d)))%string.

Definition alpha_date_format (epoch_day : Z) (out : option string) (n : nat)
  : alpha_err_t * option string :=
  match out with
  | None => (ALPHA_ERR_INVALID_ARG, None)
  | Some _ =>
      if (n <? 11)%nat then (ALPHA_ERR_INVALID_ARG, out)
      else
        let '(year, month, day) := civil_from_days epoch_day in
        (ALPHA_OK, snprintf n (format_civil year month day))
  end.

(** [None] is the overflow of the signed difference. *)
Definition alpha_date_diff_days (a b : Z) : option Z := i64 (b - a).

(** The digit fields of a ten-character ISO string. *)
Definition iso_digits (y m d : Z) : string :=
  fixed_digits 4 y (String "-" (fixed_digits 2 m (String "-" (fixed_digits 2 d "")))).

Lemma format_civil_iso y m d : 0 <= y <= 9999 -> 1 <= m <= 12 -> 1 <= d <= 31 ->
  format_civil y m d = iso_digits y m d.
Proof.
  intros. unfold format_civil. rewrite !print_padded_fixed by (cbn; lia). reflexivity.
Qed.

Lemma parse_digit_step s i k v j : char_at s i = digit_char j -> 0 <= j < 10 ->
  parse_digits s i (S k) v = parse_digits s (S i) k (v * 10 + j).
Proof.
  intros Hc Hj. cbn [parse_digits]. rewrite Hc, code_digit_char by lia.
  replace (48 + j <? 48) with false by lia. replace (48 + j >? 57) with false by lia.
  cbn [orb]. f_equal. lia.
Qed.

Lemma parse_iso_digits y m d o : 0 <= y <= 9999 -> 1 <= m <= 12 -> 1 <= d <= 31 ->
  alpha_date_parse (Some (iso_digits y m d)) (Some o) = (ALPHA_OK, Some (days_from_civil y m d)).
Proof.
  intros Hy Hm Hd. unfold alpha_date_parse, iso_digits. cbn [fixed_digits].
  set (s := String _ _).
  change (String.length s) with 10%nat. change (char_at s 4) with "-"%char.
  change (char_at s 7) with "-"%char. cbn [Nat.eqb Ascii.eqb Bool.eqb negb orb].
  assert (Hd10 : forall a, 0 <= a mod 10 < 10) by (intros; apply Z.mod_pos_bound; lia).
  repeat (erewrite (parse_digit_step s); [|reflexivity|apply Hd10]).
  cbn [parse_digits].
  assert (A1 : ((((0 * 10 + y / 10 / 10 / 10 mod 10) * 10 + y / 10 / 10 mod 10) * 10
         + y / 10 mod 10) * 10 + y mod 10) = y) by zdiv.
  assert (A2 : (0 * 10 + m / 10 mod 10) * 10 + m mod 10 = m) by zdiv.
  assert (A3 : (0 * 10 + d / 10 mod 10) * 10 + d mod 10 = d) by zdiv.
  rewrite A1, A2, A3. rewrite !u32_small by lia.
  replace (m <? 1) with false by lia. replace (m >? 12) with false by lia.
  replace (d <? 1) with false by lia. replace (d >? 31) with false by lia. reflexivity.
Qed.

Lemma length_iso_digits y m d : String.length (iso_digits y m d) = 10%nat.
Proof. reflexivity. Qed.

(** The years a four-digit field can hold, as epoch days. *)
Definition in_iso_range (z : Z) : Prop := days_from_civil 0 1 1 <= z <= days_from_civil 9999 12 31.

Lemma in_iso_range_year z : in_iso_range z ->
  let '(y, m, d) := civil_from_days z in 0 <= y <= 9999.
Proof.
  intros H. pose proof (days_civil_inverse z) as Hz.
  destruct (civil_from_days z) as [[y m] d]. destruct Hz as (Hz & Hm & Hd).
  unfold in_iso_range in H. change (days_from_civil 0 1 1) with (-719528) in H.
  change (days_from_civil 9999 12 31) with 2932896 in H.
  rewrite days_from_civil_closed in Hz by lia. cbv zeta in Hz.
  assert (0 <= doy_of m d <= 367) by (unfold doy_of; break_if; zprop; zdiv).
  assert (M2 : m <= 2 -> 306 <= doy_of m d) by (unfold doy_of; break_if; zprop; zdiv).
  assert (M3 : 2 < m -> doy_of m d <= 305) by (unfold doy_of; break_if; zprop; zdiv).
  unfold b2z in Hz. destruct (m <=? 2) eqn:E; zprop; zdiv.
Qed.

(** What the parser accepts: ten characters, two dashes and digits elsewhere,
    with month and day in their nominal ranges. *)
Lemma parse_digits_inv s i len v r : parse_digits s i len v = Some r ->
  forall k, (k < len)%nat -> isdigit (char_at s (i + k)) = true.
Proof.
  revert i v. induction len as [|len IH]; intros i v H k Hk; [lia|].
  cbn [parse_digits] in H. destruct (_ || _) eqn:E in H; [discriminate|]. zprop.
  destruct k as [|k].
  - rewrite Nat.add_0_r. unfold isdigit. lia.
  - rewrite Nat.add_succ_r. apply (IH (S i) _ H). lia.
Qed.

Lemma parse_digits_2 s i a b : char_at s i = a -> char_at s (S i) = b ->
  isdigit a = true -> isdigit b = true ->
  parse_digits s i 2 0 = Some (10 * digit_val a + digit_val b).
Proof.
  intros Ha Hb Da Db.
  rewrite <- (digit_char_digit_val a Da) in Ha. rewrite <- (digit_char_digit_val b Db) in Hb.
  rewrite (parse_digit_step s i 1 0 _ Ha (digit_val_range a Da)).
  rewrite (parse_digit_step s (S i) 0 _ _ Hb (digit_val_range b Db)).
  cbn [parse_digits]. f_equal. lia.
Qed.

Lemma iso_digits_of_chars a b c d e f g h :
  isdigit a = true -> isdigit b = true -> isdigit c = true -> isdigit d = true ->
  isdigit e = true -> isdigit f = true -> isdigit g = true -> isdigit h = true ->
  String a (String b (String c (String d (String "-" (String e (String f (String "-"
    (String g (String h "")))))))))
  = iso_digits (1000 * digit_val a + 100 * digit_val b + 10 * digit_val c + digit_val d)
      (10 * digit_val e + digit_val f) (10 * digit_val g + digit_val h).
Proof.
  intros A B C D E F G H. unfold iso_digits. cbn [fixed_digits].
  repeat match goal with
  | X : isdigit ?x = true |- _ =>
      pose proof (digit_val_range x X); pose proof (digit_char_digit_val x X); clear X
  end.
  repeat match goal with X : digit_char _ = ?x |- _ =>
    let y := fresh in set (y := digit_val x) in *; rewrite <- X; clearbody y; clear X end.
  repeat (apply f_equal2; [first [reflexivity | f_equal; zdiv]|]). reflexivity.
Qed.

Lemma length_10_inv s : String.length s = 10%nat -> exists a b c d e f g h i j,
  s = String a (String b (String c (String d (String e (String f (String g (String h
        (String i (String j ""))))))))).
Proof.
  intros H. do 10 (destruct s as [|? s]; [discriminate|]).
  destruct s; [|discriminate]. repeat eexists.
Qed.

Lemma alpha_date_parse_inv s o r : alpha_date_parse (Some s) (Some o) = (ALPHA_OK, r) ->
  exists y m d, s = iso_digits y m d /\ 0 <= y <= 9999 /\ 1 <= m <= 12 /\ 1 <= d <= 31 /\
    r = Some (days_from_civil y m d).
Proof.
  intros H. pose proof H as H0. unfold alpha_date_parse in H.
  destruct (_ || _) eqn:E in H; [discriminate|].
  apply orb_false_elim in E as [E E7]. apply orb_false_elim in E as [L E4].
  apply negb_false_iff, Nat.eqb_eq in L.
  apply negb_false_iff, Ascii.eqb_eq in E4. apply negb_false_iff, Ascii.eqb_eq in E7.
  destruct (length_10_inv s L) as (a & b & c & d & e & f & g & h & i & j & ->).
  change (e = "-"%char) in E4. change (h = "-"%char) in E7. subst e h.
  destruct (parse_digits _ 0 4 0) eqn:P1 in H; [|discriminate].
  destruct (parse_digits _ 5 2 0) as [mo|] eqn:P2 in H; [|discriminate].
  destruct (parse_digits _ 8 2 0) as [da|] eqn:P3 in H; [|discriminate].
  pose proof (parse_digits_inv _ _ _ _ _ P1) as D1. pose proof (parse_digits_inv _ _ _ _ _ P2) as D2.
  pose proof (parse_digits_inv _ _ _ _ _ P3) as D3.
  pose proof (D1 0%nat ltac:(lia)). pose proof (D1 1%nat ltac:(lia)).
  pose proof (D1 2%nat ltac:(lia)). pose proof (D1 3%nat ltac:(lia)).
  pose proof (D2 0%nat ltac:(lia)). pose proof (D2 1%nat ltac:(lia)).
  pose proof (D3 0%nat ltac:(lia)). pose proof (D3 1%nat ltac:(lia)).
  cbn [Nat.add] in *. unfold char_at in *. cbn [String.get] in *.
  rewrite (parse_digits_2 _ _ f g) in P2 by (reflexivity || assumption).
  rewrite (parse_digits_2 _ _ i j) in P3 by (reflexivity || assumption).
  assert (mo = 10 * digit_val f + digit_val g) by congruence.
  assert (da = 10 * digit_val i + digit_val j) by congruence. subst mo da. clear P1 P2 P3.
  destruct (_ || _) eqn:E in H; [discriminate|]. zprop.
  rewrite iso_digits_of_chars in * by assumption.
  pose proof (digit_val_range a ltac:(assumption)). pose proof (digit_val_range b ltac:(assumption)).
  pose proof (digit_val_range c ltac:(assumption)). pose proof (digit_val_range d ltac:(assumption)).
  match type of H0 with alpha_date_parse (Some (iso_digits ?y ?m ?d)) _ = _ =>
    set (yy := y) in *; set (mm := m) in *; set (dd := d) in * end.
  assert (0 <= yy <= 9999) by (unfold yy; lia).
  assert (1 <= mm <= 12) by lia. assert (1 <= dd <= 31) by lia.
  rewrite parse_iso_digits in H0 by assumption. injection H0 as <-.
  exists yy, mm, dd. auto.
Qed.

(** ** The signed 64-bit arithmetic stays in range *)

(** The signed intermediates of the two conversions, in the order of the code. *)
Definition civil_intermediates (y m d : Z) : list Z :=
  let y1 := y - b2z (m <=? 2) in
  let era := Z.quot (if y1 >=? 0 then y1 else y1 - 399) 400 in
  [y1; y1 - 399; era * 400; y1 - era * 400; era * 146097; days_from_civil y m d + 719468;
   days_from_civil y m d]%list.

Definition days_intermediates (z : Z) : list Z :=
  let z1 := z + 719468 in
  let era := Z.quot (if z1 >=? 0 then z1 else z1 - 146096) 146097 in
  [z1; z1 - 146096; era * 146097; z1 - era * 146097; era * 400; fst (fst (civil_from_days z))]%list.

Lemma quot_range a b lo hi : 0 < b -> lo <= 0 <= hi -> lo <= a <= hi -> lo <= Z.quot a b <= hi.
Proof.
  intros B L H. pose proof (Z.quot_rem' a b) as E.
  destruct (Z.le_gt_cases 0 a).
  - pose proof (Z.rem_bound_pos a b ltac:(lia) ltac:(lia)). nia.
  - pose proof (Z.rem_bound_pos_neg a b ltac:(lia) ltac:(lia)). nia.
Qed.

(** Every year of at most forty-four bits, and so every year of a parsed date. *)
Lemma civil_in_range y m d : - 2 ^ 44 <= y <= 2 ^ 44 -> Forall in_int64 (civil_intermediates y m d).
Proof.
  intros Y. unfold civil_intermediates, days_from_civil. set (y1 := y - b2z (m <=? 2)).
  assert (Y1 : - 2 ^ 44 - 1 <= y1 <= 2 ^ 44) by (unfold y1, b2z; break_if; lia).
  assert (E : - 2 ^ 45 <= Z.quot (if y1 >=? 0 then y1 else y1 - 399) 400 <= 2 ^ 45)
    by (apply quot_range; [lia|lia|break_if; lia]).
  set (era := Z.quot _ 400) in *. cbv zeta.
  match goal with |- context [era * 146097 + u32 ?x - 719468] => pose proof (u32_range x) end.
  repeat (apply Forall_cons; [unfold in_int64, INT64_MIN, INT64_MAX; lia|]). apply Forall_nil.
Qed.

(** Every day number of at most forty-four bits. *)
Lemma days_in_range z : - 2 ^ 44 <= z <= 2 ^ 44 -> Forall in_int64 (days_intermediates z).
Proof.
  intros Hz. unfold days_intermediates, civil_from_days. set (z1 := z + 719468).
  assert (Z1 : - 2 ^ 44 <= z1 <= 2 ^ 45) by (unfold z1; lia).
  assert (E : - 2 ^ 45 <= Z.quot (if z1 >=? 0 then z1 else z1 - 146096) 146097 <= 2 ^ 45)
    by (apply quot_range; [lia|lia|break_if; lia]).
  set (era := Z.quot _ 146097) in *. cbv zeta. cbn [fst].
  match goal with |- context [?x / 365 + era * 400 + b2z ?c] =>
    assert (A : 0 <= x < 2 ^ 32) by apply u32_range;
    assert (B : 0 <= b2z c <= 1) by (unfold b2z; break_if; lia);
    assert (D : 0 <= x / 365 <= 2 ^ 32) by (split; [apply Z.div_pos|apply Z.div_le_upper_bound]; lia);
    clear A; revert B D; generalize (b2z c); generalize (x / 365) end.
  intros q b B D. clearbody z1 era.
  repeat (apply Forall_cons; [unfold in_int64, INT64_MIN, INT64_MAX; lia|]). apply Forall_nil.
Qed.

(** ** Properties *)

(** C24: the two civil-date conversions are inverse bijections between the epoch
    days and the dates of the proleptic Gregorian calendar: every day number
    converts to an existing date (month, day and leap years included) that
    converts back to it, and every existing date is recovered from its number. *)
Theorem civil_days_bijection :
  (forall z, let '(y, m, d) := civil_from_days z in
     valid_civil y m d = true /\ days_from_civil y m d = z) /\
  (forall y m d, valid_civil y m d = true ->
     civil_from_days (days_from_civil y m d) = (y, m, d)).
Proof.
  split; [|apply civil_days_inverse].
  intros z. pose proof (civil_from_days_valid z). pose proof (days_civil_inverse z).
  destruct (civil_from_days z) as [[y m] d]. tauto.
Qed.

(** The day number counts days: 1970-01-01 is day 0 and the day after any
    existing date, by the calendar's own month lengths, has the next number. *)
Theorem days_from_civil_counts :
  days_from_civil 1970 1 1 = 0 /\
  forall y m d, valid_civil y m d = true ->
    let '(y', m', d') := next_civil y m d in
    days_from_civil y' m' d' = days_from_civil y m d + 1.
Proof. split; [reflexivity | apply days_from_civil_step]. Qed.

(** C25: formatting a day of the years 0000 to 9999 into a buffer of at least 11
    bytes succeeds and parsing the text gives the same day back. *)
Theorem date_format_parse_roundtrip z buf n cell :
  in_iso_range z -> (11 <= n)%nat ->
  exists text, alpha_date_format z (Some buf) n = (ALPHA_OK, Some text) /\
    String.length text = 10%nat /\
    alpha_date_parse (Some text) (Some cell) = (ALPHA_OK, Some z).
Proof.
  intros Hz Hn. pose proof (in_iso_range_year z Hz) as Hy.
  pose proof (days_civil_inverse z) as Hi. unfold alpha_date_format.
  destruct (n <? 11)%nat eqn:E; [apply Nat.ltb_lt in E; lia|].
  destruct (civil_from_days z) as [[y m] d]. destruct Hi as (<- & Hm & Hd).
  exists (iso_digits y m d). rewrite format_civil_iso by lia. unfold snprintf.
  destruct n as [|n]; [lia|]. rewrite substring_all by (rewrite length_iso_digits; lia).
  split; [reflexivity|]. split; [reflexivity|]. apply parse_iso_digits; lia.
Qed.

Lemma date_format_parse_roundtrip_witness :
  exists text, alpha_date_format 20513 (Some "") 11 = (ALPHA_OK, Some text) /\
    String.length text = 10%nat /\
    alpha_date_parse (Some text) (Some 0) = (ALPHA_OK, Some 20513).
Proof.
  apply (date_format_parse_roundtrip 20513 "" 11 0).
  - unfold in_iso_range. vm_compute. intuition discriminate.
  - repeat constructor.
Defined.

(** The parser accepts exactly the ten-character texts YYYY-MM-DD of digits
    whose month is 1..12 and day 1..31, returns the day number of those three
    fields, and leaves the caller's cell untouched on every rejection. *)
Theorem date_parse_accepts s cell r e :
  alpha_date_parse (Some s) (Some cell) = (e, r) <->
  (e = ALPHA_OK /\ exists y m d, s = iso_digits y m d /\ 0 <= y <= 9999 /\ 1 <= m <= 12 /\
     1 <= d <= 31 /\ r = Some (days_from_civil y m d)) \/
  (e = ALPHA_ERR_INVALID_ARG /\ r = Some cell /\
   ~ exists y m d, s = iso_digits y m d /\ 0 <= y <= 9999 /\ 1 <= m <= 12 /\ 1 <= d <= 31).
Proof.
  destruct (alpha_date_parse (Some s) (Some cell)) as [e0 r0] eqn:E.
  assert (D : e0 = ALPHA_OK \/ e0 = ALPHA_ERR_INVALID_ARG /\ r0 = Some cell).
  { unfold alpha_date_parse in E. repeat break_match; inv E; auto. }
  split.
  - intros [= <- <-]. destruct D as [-> | [-> ->]].
    + left. split; [reflexivity|]. exact (alpha_date_parse_inv s cell r0 E).
    + right. repeat split. intros (y & m & d & -> & ? & ? & ?).
      rewrite parse_iso_digits in E by lia. discriminate.
  - intros [(-> & y & m & d & -> & ? & ? & ? & ->) | (-> & -> & N)].
    + rewrite parse_iso_digits in E by lia. now inv E.
    + destruct D as [-> | [-> ->]]; [|reflexivity]. exfalso. apply N.
      destruct (alpha_date_parse_inv s cell r0 E) as (y & m & d & ? & ? & ? & ? & ?).
      now exists y, m, d.
Qed.

(** A day that does not exist in its month is accepted and read as a date of
    the next month: 2023-02-31 gives the day of 2023-03-03. *)
Theorem date_parse_accepts_february_31 :
  alpha_date_parse (Some "2023-02-31") (Some 0)
  = alpha_date_parse (Some "2023-03-03") (Some 0)
  /\ fst (alpha_date_parse (Some "2023-02-31") (Some 0)) = ALPHA_OK
  /\ valid_civil 2023 2 31 = false.
Proof. vm_compute. auto. Qed.
