(* ===== verification/Double.v ===== *)
(** * IEEE 754 double precision

    The C [double] is the kernel's primitive [float] (binary64, round to
    nearest even: [core/src/alpha.c] sets [FE_TONEAREST] and the build uses
    [-ffp-contract=off]).  The file gives the real value of a finite double and
    the facts the other files use: comparisons of finite doubles are those of
    their values, and every operation rounds its exact result monotonically
    and within one unit in the last place.  It is self-contained: the rounding
    of [SpecFloat] is analysed from its definition. *)

From Stdlib Require Import ZArith Lia Bool Reals Lra Floats.
From S2P Require Import Prelude.
Open Scope Z_scope.

(** ** Powers of two *)

Definition bpow (e : Z) : R := powerRZ 2 e.

Lemma bpow_pos e : (0 < bpow e)%R.
Proof. apply powerRZ_lt. lra. Qed.

Lemma bpow_add a b : (bpow (a + b) = bpow a * bpow b)%R.
Proof. apply powerRZ_add. lra. Qed.

Lemma bpow_0 : bpow 0 = 1%R.
Proof. reflexivity. Qed.

Lemma bpow_IZR n : 0 <= n -> bpow n = IZR (2 ^ n).
Proof.
  intros H. unfold bpow. rewrite <- (Z2Nat.id n H) at 1. rewrite <- pow_powerRZ.
  rewrite pow_IZR, Z2Nat.id; auto.
Qed.

Lemma bpow_neg n : 0 <= n -> bpow (- n) = (/ IZR (2 ^ n))%R.
Proof.
  intros H. rewrite <- bpow_IZR by exact H. apply Rmult_eq_reg_r with (bpow n).
  - rewrite <- bpow_add, Rinv_l by (pose proof (bpow_pos n); lra).
    now replace (- n + n) with 0 by lia.
  - pose proof (bpow_pos n). lra.
Qed.

Lemma bpow_le a b : a <= b -> (bpow a <= bpow b)%R.
Proof.
  intros H. replace b with (a + (b - a)) by lia. rewrite bpow_add.
  rewrite (bpow_IZR (b - a)) by lia.
  pose proof (bpow_pos a). assert (1 <= IZR (2 ^ (b - a)))%R; [|nra].
  apply (IZR_le 1). pose proof (Z.pow_pos_nonneg 2 (b - a)). lia.
Qed.

Lemma bpow_lt a b : a < b -> (bpow a < bpow b)%R.
Proof.
  intros H. apply Rlt_le_trans with (bpow (a + 1)); [|apply bpow_le; lia].
  rewrite bpow_add. pose proof (bpow_pos a). change (bpow 1) with (2 * 1)%R. lra.
Qed.

Lemma Rabs_bounds x b : (Rabs x <= b)%R -> (- b <= x <= b)%R.
Proof.
  intros H. pose proof (Rle_abs x). pose proof (Rle_abs (- x)) as H2.
  rewrite Rabs_Ropp in H2. lra.
Qed.

(** ** Values *)

Definition sgn (s : bool) : R := if s then (-1)%R else 1%R.

Definition SF2R (x : spec_float) : R :=
  match x with
  | S754_finite s m e => (sgn s * (IZR (Zpos m) * bpow e))%R
  | _ => 0%R
  end.

Definition sf_finite (x : spec_float) : bool :=
  match x with S754_finite _ _ _ | S754_zero _ => true | _ => false end.

Definition D2R (x : float) : R := SF2R (Prim2SF x).
(** [isfinite], [isnan] *)
Definition is_fin (x : float) : bool := sf_finite (Prim2SF x).
Definition is_nan_sf (x : spec_float) : bool := match x with S754_nan => true | _ => false end.
Definition isnan (x : float) : bool := is_nan_sf (Prim2SF x).

(** ** Digits and exponents *)

Lemma digits2_pos_bounds m :
  2 ^ (Zpos (digits2_pos m) - 1) <= Zpos m < 2 ^ Zpos (digits2_pos m).
Proof.
  induction m as [m IH|m IH|]; cbn [digits2_pos]; [| |cbn; lia].
  all: rewrite Pos2Z.inj_succ;
    replace (Z.succ (Zpos (digits2_pos m)) - 1) with (Z.succ (Zpos (digits2_pos m) - 1)) by lia;
    rewrite !Z.pow_succ_r by lia; lia.
Qed.

Lemma Zdigits2_bounds m : 0 <= m ->
  m < 2 ^ Zdigits2 m /\ (0 < m -> 2 ^ (Zdigits2 m - 1) <= m) /\ 0 <= Zdigits2 m.
Proof.
  destruct m as [|p|p]; intros; cbn [Zdigits2]; [cbn; lia | | lia].
  pose proof (digits2_pos_bounds p). lia.
Qed.

Lemma Zdigits2_unique m d : 0 < m -> 2 ^ (d - 1) <= m < 2 ^ d -> Zdigits2 m = d.
Proof.
  intros Hm H. destruct (Zdigits2_bounds m ltac:(lia)) as (H1 & H2 & H3). specialize (H2 Hm).
  assert (0 <= d) by (destruct (Z.le_gt_cases 0 d); [lia|]; rewrite (Z.pow_neg_r 2 d) in H; lia).
  destruct (Z.lt_trichotomy (Zdigits2 m) d) as [L|[E|L]]; [exfalso|exact E|exfalso].
  - assert (2 ^ Zdigits2 m <= 2 ^ (d - 1)) by (apply Z.pow_le_mono_r; lia). lia.
  - assert (2 ^ d <= 2 ^ (Zdigits2 m - 1)) by (apply Z.pow_le_mono_r; lia). lia.
Qed.

Definition fexp64 : Z -> Z := fexp prec emax.
Definition emin64 : Z := -1074.

Lemma fexp64_eq e : fexp64 e = Z.max (e - 53) (-1074).
Proof. reflexivity. Qed.

Lemma fexp64_mono a b : a <= b -> fexp64 a <= fexp64 b.
Proof. rewrite !fexp64_eq. lia. Qed.

(** A canonical mantissa and exponent: what validity of a finite double says. *)
Definition canonical (m e : Z) : Prop := 0 < m /\ fexp64 (Zdigits2 m + e) = e /\ e <= 971.

Lemma canonical_spec m e : canonical m e ->
  0 < m < 2 ^ 53 /\ -1074 <= e <= 971 /\ (e = -1074 \/ 2 ^ 52 <= m).
Proof.
  intros (Hm & Hf & He). rewrite fexp64_eq in Hf.
  destruct (Zdigits2_bounds m ltac:(lia)) as (H1 & H2 & H3). specialize (H2 Hm).
  assert (Zdigits2 m <= 53) by lia.
  assert (2 ^ Zdigits2 m <= 2 ^ 53) by (apply Z.pow_le_mono_r; lia).
  split; [lia|]. split; [lia|].
  destruct (Z.eq_dec e (-1074)); [now left|right].
  assert (Zdigits2 m = 53) as E by lia. rewrite E in H2. exact H2.
Qed.

Lemma valid_canonical s m e : valid_binary (S754_finite s m e) = true -> canonical (Zpos m) e.
Proof.
  unfold FloatAxioms.valid_binary, SpecFloat.valid_binary, bounded, canonical_mantissa. intros H.
  apply andb_prop in H as [H1 H2]. apply Z.eqb_eq in H1. apply Z.leb_le in H2.
  unfold canonical. split; [lia|]. split; [exact H1|]. exact H2.
Qed.

(** ** Rounding, from the definition of [SpecFloat] *)

(** [x] lies in the cell of [m] at exponent [e]; [inexact] says strictly inside. *)
Definition in_cell (m e : Z) (inexact : bool) (x : R) : Prop :=
  if inexact then (IZR m * bpow e < x < (IZR m + 1) * bpow e)%R
  else x = (IZR m * bpow e)%R.

Definition rec_inexact (mrs : shr_record) : bool := shr_r mrs || shr_s mrs.

Lemma shr_1_cell mrs e x : 0 <= shr_m mrs ->
  in_cell (shr_m mrs) e (rec_inexact mrs) x ->
  shr_m (shr_1 mrs) = shr_m mrs / 2 /\
  in_cell (shr_m (shr_1 mrs)) (e + 1) (rec_inexact (shr_1 mrs)) x.
Proof.
  destruct mrs as [m r s]. cbn [shr_m]. intros Hm H.
  unfold rec_inexact in H. cbn [shr_r shr_s] in H.
  assert (D : m = 2 * (m / 2) + m mod 2) by (apply Z.div_mod; lia).
  assert (R : exists b, shr_1 {| shr_m := m; shr_r := r; shr_s := s |}
                        = {| shr_m := m / 2; shr_r := b; shr_s := r || s |}
                        /\ m mod 2 = Z.b2z b).
  { destruct m as [|[p|p|]|p]; cbn [shr_1]; try lia.
    - now exists false.
    - exists true. split; [f_equal; rewrite Pos2Z.inj_xI, Z.mul_comm, Z.div_add_l by lia; cbn; lia|].
      now rewrite Pos2Z.inj_xI, Z.add_comm, Z.mul_comm, Z.mod_add by lia.
    - exists false. split; [f_equal; rewrite Pos2Z.inj_xO, Z.mul_comm, Z.div_mul by lia; lia|].
      now rewrite Pos2Z.inj_xO, Z.mul_comm, Z.mod_mul by lia.
    - now exists true. }
  destruct R as (b & -> & Hb). cbn [shr_m]. split; [reflexivity|].
  unfold rec_inexact. cbn [shr_r shr_s].
  rewrite Hb in D. set (q := m / 2) in *. clearbody q. subst m.
  unfold in_cell in *. rewrite bpow_add. change (bpow 1) with (2 * 1)%R.
  pose proof (bpow_pos e). rewrite plus_IZR, mult_IZR in H. set (p := bpow e) in *.
  destruct b, (r || s); cbn [Z.b2z orb] in *; try nra.
Qed.

Lemma pow2_xO p : 2 ^ Zpos p~0 = 2 ^ Zpos p * 2 ^ Zpos p.
Proof.
  replace (Zpos p~0) with (Zpos p + Zpos p) by lia. apply Z.pow_add_r; lia.
Qed.

Lemma pow2_xI p : 2 ^ Zpos p~1 = 2 * (2 ^ Zpos p * 2 ^ Zpos p).
Proof.
  replace (Zpos p~1) with (1 + Zpos p + Zpos p) by lia.
  rewrite !Z.pow_add_r by lia. change (2 ^ 1) with 2. ring.
Qed.

Lemma shr_cell mrs e n x : 0 <= shr_m mrs -> 0 <= n ->
  in_cell (shr_m mrs) e (rec_inexact mrs) x ->
  let '(mrs', e') := shr mrs e n in
  e' = e + n /\ shr_m mrs' = shr_m mrs / 2 ^ n /\
  in_cell (shr_m mrs') e' (rec_inexact mrs') x.
Proof.
  intros Hm Hn H. unfold shr. destruct n as [|p|p]; [|clear Hn|lia].
  { rewrite Z.add_0_r, Z.div_1_r. auto. }
  revert mrs e Hm H. induction p as [p IH|p IH|]; intros; cbn [iter_pos].
  - destruct (shr_1_cell mrs e x Hm H) as [E1 C1].
    assert (P1 : 0 <= shr_m (shr_1 mrs)) by (rewrite E1; apply Z.div_pos; lia).
    destruct (IH _ _ P1 C1) as (_ & E2 & C2).
    assert (P2 : 0 <= shr_m (iter_pos shr_1 p (shr_1 mrs))).
    { rewrite E2. apply Z.div_pos; [exact P1|]. apply Z.pow_pos_nonneg; lia. }
    destruct (IH _ _ P2 C2) as (_ & E3 & C3).
    split; [reflexivity|]. split.
    + rewrite E3, E2, E1, !Z.div_div by (try apply Z.pow_nonzero; try apply Z.pow_pos_nonneg; lia).
      now rewrite pow2_xI.
    + replace (e + Zpos p~1) with (e + 1 + Zpos p + Zpos p) by lia. exact C3.
  - destruct (IH _ _ Hm H) as (_ & E2 & C2).
    assert (P2 : 0 <= shr_m (iter_pos shr_1 p mrs)).
    { rewrite E2. apply Z.div_pos; [exact Hm|]. apply Z.pow_pos_nonneg; lia. }
    destruct (IH _ _ P2 C2) as (_ & E3 & C3).
    split; [reflexivity|]. split.
    + rewrite E3, E2, !Z.div_div by (try apply Z.pow_nonzero; try apply Z.pow_pos_nonneg; lia).
      now rewrite pow2_xO.
    + replace (e + Zpos p~0) with (e + Zpos p + Zpos p) by lia. exact C3.
  - destruct (shr_1_cell mrs e x Hm H) as [E1 C1]. auto.
Qed.

Definition loc_inexact (l : location) : bool := match l with loc_Exact => false | _ => true end.

Lemma rec_of_loc_inexact m l : rec_inexact (shr_record_of_loc m l) = loc_inexact l /\
  shr_m (shr_record_of_loc m l) = m.
Proof. destruct l as [|[]]; auto. Qed.

Lemma loc_of_rec_inexact mrs : loc_inexact (loc_of_shr_record mrs) = rec_inexact mrs.
Proof. destruct mrs as [m [] []]; reflexivity. Qed.

Lemma round_nearest_even_cases m l :
  round_nearest_even m l = m \/ (round_nearest_even m l = m + 1 /\ loc_inexact l = true).
Proof. destruct l as [|[]]; cbn; auto. destruct (Z.even m); auto. Qed.

(** The first shift brings the mantissa to 53 bits (or the exponent to the
    subnormal one). *)
Lemma shr_fexp_cell m e l x : 0 <= m ->
  in_cell m e (loc_inexact l) x -> e <= fexp64 (Zdigits2 m + e) ->
  exists mrs e1, shr_fexp prec emax m e l = (mrs, e1) /\
    in_cell (shr_m mrs) e1 (rec_inexact mrs) x /\
    0 <= shr_m mrs < 2 ^ 53 /\ -1074 <= e1 /\ (e1 = -1074 \/ 2 ^ 52 <= shr_m mrs).
Proof.
  intros Hm Hc He. unfold shr_fexp. fold fexp64.
  destruct (rec_of_loc_inexact m l) as [Hi Hr]. rewrite <- Hi in Hc.
  assert (Hc' : in_cell (shr_m (shr_record_of_loc m l)) e (rec_inexact (shr_record_of_loc m l)) x)
    by now rewrite Hr.
  pose proof (shr_cell _ e (fexp64 (Zdigits2 m + e) - e) x ltac:(now rewrite Hr) ltac:(lia) Hc') as H.
  destruct (shr _ e _) as [mrs e1]. destruct H as (-> & Hq & Hc1). rewrite Hr in Hq.
  exists mrs, (e + (fexp64 (Zdigits2 m + e) - e)). split; [reflexivity|]. split; [exact Hc1|].
  destruct (Zdigits2_bounds m Hm) as (B1 & B2 & B3). set (d := Zdigits2 m) in *.
  rewrite fexp64_eq in *. set (n := Z.max (d + e - 53) (-1074) - e) in *.
  assert (Hn : 0 <= n) by lia. rewrite Hq.
  assert (Hp : 0 < 2 ^ n) by (apply Z.pow_pos_nonneg; lia).
  split; [split; [apply Z.div_pos; lia|]|split; [lia|]].
  - apply Z.div_lt_upper_bound; [lia|]. apply Z.lt_le_trans with (2 ^ d); [lia|].
    rewrite <- Z.pow_add_r by lia. apply Z.pow_le_mono_r; lia.
  - destruct (Z.eq_dec (e + n) (-1074)); [now left|right].
    assert (n = d - 53) by lia. assert (0 < m).
    { destruct (Z.eq_dec m 0) as [E|]; [|lia]. assert (d = 0) by (unfold d; now rewrite E). lia. }
    apply Z.div_le_lower_bound; [lia|]. rewrite <- Z.pow_add_r by lia.
    replace (n + 52) with (d - 1) by lia. auto.
Qed.

(** The second shift renormalises after a carry. *)
Lemma shr_fexp_carry k e1 : 0 <= k <= 2 ^ 53 -> -1074 <= e1 ->
  (e1 = -1074 \/ 2 ^ 52 <= k) ->
  exists mr er, (let '(mrs, e') := shr_fexp prec emax k e1 loc_Exact in
                 (shr_m mrs, e') = (mr, er)) /\
    (IZR mr * bpow er = IZR k * bpow e1)%R /\ 0 <= mr < 2 ^ 53 /\ -1074 <= er /\
    (er = -1074 \/ 2 ^ 52 <= mr) /\ (k = 0 <-> mr = 0) /\ (mr = k \/ mr = 2 ^ 52).
Proof.
  intros Hk He Hn. unfold shr_fexp. fold fexp64. cbn [shr_record_of_loc].
  destruct (Z.eq_dec k (2 ^ 53)) as [->|Hk'].
  - exists (2 ^ 52), (e1 + 1). change (Zdigits2 (2 ^ 53)) with 54. rewrite fexp64_eq.
    replace (Z.max (54 + e1 - 53) (-1074) - e1) with 1 by lia.
    split; [reflexivity|]. split; [|split; [lia|split; [lia|split; [right; lia|split; [lia|auto]]]]].
    rewrite bpow_add. change (bpow 1) with (2 * 1)%R. change (2 ^ 53) with (2 ^ 52 * 2).
    rewrite mult_IZR. ring.
  - exists k, e1.
    assert (Z.max (Zdigits2 k + e1 - 53) (-1074) - e1 <= 0).
    { destruct (Zdigits2_bounds k ltac:(lia)) as (B1 & B2 & B3).
      destruct (Z.eq_dec k 0) as [->|]; [cbn; lia|]. specialize (B2 ltac:(lia)).
      assert (Zdigits2 k <= 53); [|lia].
      apply Z.nlt_ge. intros L. assert (2 ^ 53 <= 2 ^ (Zdigits2 k - 1)); [|lia].
      apply Z.pow_le_mono_r; lia. }
    rewrite fexp64_eq. unfold shr. destruct (_ - e1); [| lia |];
      repeat split; auto; lia.
Qed.

Lemma round_aux_spec s m e l x : 0 <= m ->
  in_cell m e (loc_inexact l) x -> e <= fexp64 (Zdigits2 m + e) ->
  exists m1 k e1 mr er,
    (IZR m1 * bpow e1 <= x < (IZR m1 + 1) * bpow e1)%R /\
    0 <= m1 < 2 ^ 53 /\ -1074 <= e1 /\ (e1 = -1074 \/ 2 ^ 52 <= m1) /\
    (k = m1 \/ (k = m1 + 1 /\ (IZR m1 * bpow e1 < x)%R)) /\
    (IZR mr * bpow er = IZR k * bpow e1)%R /\ 0 <= mr < 2 ^ 53 /\ -1074 <= er /\
    (er = -1074 \/ 2 ^ 52 <= mr) /\
    binary_round_aux prec emax s m e l =
      match mr with
      | Zpos p => if er <=? 971 then S754_finite s p er else S754_infinity s
      | _ => S754_zero s
      end.
Proof.
  intros Hm Hc He. destruct (shr_fexp_cell m e l x Hm Hc He) as (mrs & e1 & E & C & B & Be & N).
  set (k := round_nearest_even (shr_m mrs) (loc_of_shr_record mrs)).
  assert (Hk : k = shr_m mrs \/ (k = shr_m mrs + 1 /\ rec_inexact mrs = true)).
  { destruct (round_nearest_even_cases (shr_m mrs) (loc_of_shr_record mrs)) as [?|[? Hi]];
      [now left|right]. now rewrite loc_of_rec_inexact in Hi. }
  destruct (shr_fexp_carry k e1) as (mr & er & Es & V & Bm & Bx & Nr & Z0 & _); [lia|lia|lia|].
  exists (shr_m mrs), k, e1, mr, er.
  assert (Hcell : (IZR (shr_m mrs) * bpow e1 <= x < (IZR (shr_m mrs) + 1) * bpow e1)%R).
  { unfold in_cell in C. pose proof (bpow_pos e1). destruct (rec_inexact mrs); [lra|nra]. }
  split; [exact Hcell|]. split; [lia|]. split; [lia|]. split; [lia|].
  split. { destruct Hk as [?|[? Hi]]; [now left|right]. split; [assumption|].
           unfold in_cell in C. rewrite Hi in C. lra. }
  repeat (split; [assumption || lia|]).
  unfold binary_round_aux. rewrite E. fold k.
  destruct (shr_fexp prec emax k e1 loc_Exact) as [mrs2 e2]. injection Es as -> ->.
  change (emax - prec) with 971. destruct mr; [reflexivity|reflexivity|lia].
Qed.

(** ** Comparisons *)

Lemma canonical_exp_lt m1 e1 m2 e2 : canonical m1 e1 -> canonical m2 e2 -> e1 < e2 ->
  (IZR m1 * bpow e1 < IZR m2 * bpow e2)%R.
Proof.
  intros C1 C2 L. apply canonical_spec in C1, C2.
  destruct C1 as (B1 & E1 & _), C2 as (B2 & E2 & [N|N]); [lia|].
  apply Rlt_le_trans with (IZR (2 ^ 53) * bpow e1)%R.
  { apply Rmult_lt_compat_r; [apply bpow_pos|]. apply IZR_lt. lia. }
  apply Rle_trans with (IZR (2 ^ 52) * bpow e2)%R.
  { rewrite <- !bpow_IZR, <- !bpow_add by lia. apply bpow_le. lia. }
  apply Rmult_le_compat_r; [apply Rlt_le, bpow_pos|]. apply IZR_le. lia.
Qed.

Lemma pos_val p e : (0 < IZR (Zpos p) * bpow e)%R.
Proof. apply Rmult_lt_0_compat; [apply (IZR_lt 0); lia | apply bpow_pos]. Qed.

Lemma SFcompare_R x y : valid_binary x = true -> valid_binary y = true ->
  sf_finite x = true -> sf_finite y = true ->
  exists c, SFcompare x y = Some c /\
    match c with
    | Lt => (SF2R x < SF2R y)%R
    | Eq => SF2R x = SF2R y
    | Gt => (SF2R x > SF2R y)%R
    end.
Proof.
  intros Vx Vy Fx Fy.
  destruct x as [sx|sx| |sx mx ex], y as [sy|sy| |sy my ey]; try discriminate; cbn [SF2R SFcompare].
  - now exists Eq.
  - pose proof (pos_val my ey). destruct sy; [exists Gt|exists Lt]; cbn [sgn]; split; auto; lra.
  - pose proof (pos_val mx ex). destruct sx; [exists Lt|exists Gt]; cbn [sgn]; split; auto; lra.
  - pose proof (pos_val mx ex). pose proof (pos_val my ey).
    assert (M : match Z.compare ex ey with
                | Lt => (IZR (Zpos mx) * bpow ex < IZR (Zpos my) * bpow ey)%R
                | Gt => (IZR (Zpos mx) * bpow ex > IZR (Zpos my) * bpow ey)%R
                | Eq => match Pos.compare mx my with
                        | Lt => (IZR (Zpos mx) * bpow ex < IZR (Zpos my) * bpow ey)%R
                        | Gt => (IZR (Zpos mx) * bpow ex > IZR (Zpos my) * bpow ey)%R
                        | Eq => (IZR (Zpos mx) * bpow ex = IZR (Zpos my) * bpow ey)%R
                        end
                end).
    { apply valid_canonical in Vx, Vy. pose proof (bpow_pos ey).
      destruct (Z.compare_spec ex ey) as [->|L|L]; [| now apply canonical_exp_lt..].
      destruct (Pos.compare_spec mx my) as [->|L|L]; [reflexivity| |];
        apply Rmult_lt_compat_r; auto; apply IZR_lt; lia. }
    change (Pos.compare_cont Eq mx my) with (Pos.compare mx my).
    destruct sx, sy; cbn [sgn]; eexists; (split; [reflexivity|]); try lra;
      destruct (Z.compare ex ey), (Pos.compare mx my); cbn [CompOpp]; lra.
Qed.

Lemma leb_R a b : is_fin a = true -> is_fin b = true ->
  (a <=? b)%float = true <-> (D2R a <= D2R b)%R.
Proof.
  intros Fa Fb. rewrite leb_spec. unfold SFleb.
  destruct (SFcompare_R _ _ (Prim2SF_valid a) (Prim2SF_valid b) Fa Fb) as (c & -> & H).
  unfold D2R. destruct c; split; intros; try discriminate; try reflexivity; lra.
Qed.

Lemma ltb_R a b : is_fin a = true -> is_fin b = true ->
  (a <? b)%float = true <-> (D2R a < D2R b)%R.
Proof.
  intros Fa Fb. rewrite ltb_spec. unfold SFltb.
  destruct (SFcompare_R _ _ (Prim2SF_valid a) (Prim2SF_valid b) Fa Fb) as (c & -> & H).
  unfold D2R. destruct c; split; intros; try discriminate; try reflexivity; lra.
Qed.

Lemma ltb_false_R a b : is_fin a = true -> is_fin b = true ->
  (a <? b)%float = false <-> (D2R b <= D2R a)%R.
Proof.
  intros Fa Fb. rewrite <- not_true_iff_false, (ltb_R a b Fa Fb). lra.
Qed.

Lemma leb_false_R a b : is_fin a = true -> is_fin b = true ->
  (a <=? b)%float = false <-> (D2R b < D2R a)%R.
Proof.
  intros Fa Fb. rewrite <- not_true_iff_false, (leb_R a b Fa Fb). lra.
Qed.

(** The order on everything that is not a NaN is total and transitive. *)
Definition sf_key (x : spec_float) : Z :=
  match x with S754_infinity true => -1 | S754_infinity false => 1 | _ => 0 end.

Lemma leb_cases a b : isnan a = false -> isnan b = false ->
  (a <=? b)%float = true <->
  sf_key (Prim2SF a) < sf_key (Prim2SF b) \/
  (sf_key (Prim2SF a) = sf_key (Prim2SF b) /\ (D2R a <= D2R b)%R).
Proof.
  intros Na Nb. destruct (is_fin a) eqn:Fa, (is_fin b) eqn:Fb.
  - rewrite leb_R by assumption. unfold is_fin in *.
    assert (sf_key (Prim2SF a) = 0) by now destruct (Prim2SF a).
    assert (sf_key (Prim2SF b) = 0) by now destruct (Prim2SF b). lia || intuition lia.
  - rewrite leb_spec. unfold SFleb, D2R, is_fin, isnan in *.
    destruct (Prim2SF a) as [| [] | |], (Prim2SF b) as [| [] | |]; try discriminate; cbn;
      intuition (try discriminate; try lia; try lra).
  - rewrite leb_spec. unfold SFleb, D2R, is_fin, isnan in *.
    destruct (Prim2SF a) as [| [] | |], (Prim2SF b) as [| [] | |]; try discriminate; cbn;
      intuition (try discriminate; try lia; try lra).
  - rewrite leb_spec. unfold SFleb, D2R, is_fin, isnan in *.
    destruct (Prim2SF a) as [| [] | |], (Prim2SF b) as [| [] | |]; try discriminate; cbn;
      intuition (try discriminate; try lia; try lra).
Qed.

Lemma leb_nan a b : (a <=? b)%float = true -> isnan a = false /\ isnan b = false.
Proof.
  rewrite leb_spec. unfold SFleb, isnan.
  destruct (Prim2SF a), (Prim2SF b); cbn; intuition discriminate.
Qed.

Lemma ltb_nan a b : (a <? b)%float = true -> isnan a = false /\ isnan b = false.
Proof.
  rewrite ltb_spec. unfold SFltb, isnan.
  destruct (Prim2SF a), (Prim2SF b); cbn; intuition discriminate.
Qed.

Lemma leb_trans a b c : (a <=? b)%float = true -> (b <=? c)%float = true -> (a <=? c)%float = true.
Proof.
  intros H1 H2. destruct (leb_nan _ _ H1) as [Na Nb], (leb_nan _ _ H2) as [_ Nc].
  rewrite leb_cases in * by assumption. destruct H1 as [?|[? ?]], H2 as [?|[? ?]]; try (left; lia).
  right. split; [lia|lra].
Qed.

Lemma leb_total a b : isnan a = false -> isnan b = false ->
  (a <=? b)%float = true \/ (b <=? a)%float = true.
Proof.
  intros Na Nb. rewrite !leb_cases by assumption.
  destruct (Z.lt_trichotomy (sf_key (Prim2SF a)) (sf_key (Prim2SF b))) as [L|[E|L]]; auto.
  destruct (Rle_or_lt (D2R a) (D2R b)); [left|right]; right; split; auto; lra.
Qed.

Lemma leb_refl a : isnan a = false -> (a <=? a)%float = true.
Proof. intros N. apply leb_cases; auto. right. split; [reflexivity|lra]. Qed.

(** Strict order is the negation of the reverse weak one, away from NaN. *)
Lemma ltb_leb a b : isnan a = false -> isnan b = false -> (a <? b)%float = negb (b <=? a)%float.
Proof.
  rewrite ltb_spec, leb_spec. unfold SFltb, SFleb, isnan. intros Na Nb.
  assert (H : SFcompare (Prim2SF b) (Prim2SF a) = option_map CompOpp (SFcompare (Prim2SF a) (Prim2SF b))
              /\ SFcompare (Prim2SF a) (Prim2SF b) <> None).
  { destruct (Prim2SF a) as [[]|[]| |[] ma ea], (Prim2SF b) as [[]|[]| |[] mb eb];
      try discriminate; cbn; split; try reflexivity; try discriminate.
    all: change (Pos.compare_cont Eq ?x ?y) with (Pos.compare x y);
      rewrite (Z.compare_antisym ea eb), (Pos.compare_antisym ma mb);
      destruct (Z.compare ea eb), (Pos.compare ma mb); reflexivity. }
  destruct H as [-> H]. destruct (SFcompare _ _) as [[]|]; [reflexivity..|congruence].
Qed.

(** ** Correct rounding of every operation *)

Lemma canonical_intro m e : 0 < m < 2 ^ 53 -> -1074 <= e <= 971 ->
  (e = -1074 \/ 2 ^ 52 <= m) -> canonical m e.
Proof.
  intros Hm He Hn. split; [lia|]. split; [|lia]. rewrite fexp64_eq.
  destruct (Z.le_gt_cases (2 ^ 52) m).
  - rewrite (Zdigits2_unique m 53) by (try lia; exact (conj H (proj2 Hm))). lia.
  - destruct Hn as [->|]; [|lia]. destruct (Zdigits2_bounds m ltac:(lia)) as (B1 & B2 & B3).
    specialize (B2 ltac:(lia)). assert (Zdigits2 m <= 52); [|lia].
    apply Z.nlt_ge. intros L. assert (2 ^ 52 <= 2 ^ (Zdigits2 m - 1)); [|lia].
    apply Z.pow_le_mono_r; lia.
Qed.

Lemma canonical_valid s p e : canonical (Zpos p) e -> valid_binary (S754_finite s p e) = true.
Proof.
  intros (_ & H & L). unfold FloatAxioms.valid_binary, SpecFloat.valid_binary, bounded, canonical_mantissa.
  apply andb_true_intro. split; [now apply Z.eqb_eq | now apply Z.leb_le].
Qed.

(** The magnitude [v] a positive [x] rounds to: it never crosses a double. *)
Definition magnitude_ok (x v : R) : Prop :=
  (0 <= v)%R /\ (x <= 0 -> v = 0)%R /\
  (Rabs (v - x) <= bpow (-52) * x + bpow (-1074))%R /\
  forall mz ez, canonical mz ez ->
    (IZR mz * bpow ez <= x -> IZR mz * bpow ez <= v)%R /\
    (x <= IZR mz * bpow ez -> v <= IZR mz * bpow ez)%R.

Lemma grid_le (a b : Z) p : (0 < p)%R -> (IZR a * p < (IZR b + 1) * p)%R -> a <= b.
Proof.
  intros Hp H. apply Rmult_lt_reg_r in H; [|exact Hp].
  rewrite <- (plus_IZR b 1) in H. apply lt_IZR in H. lia.
Qed.

Lemma grid_lt (a b : Z) p : (0 < p)%R -> (IZR a * p < IZR b * p)%R -> a < b.
Proof. intros Hp H. apply Rmult_lt_reg_r in H; [|exact Hp]. now apply lt_IZR. Qed.

Lemma round_magnitude m1 k e1 x : (IZR m1 * bpow e1 <= x < (IZR m1 + 1) * bpow e1)%R ->
  0 <= m1 -> -1074 <= e1 -> (e1 = -1074 \/ 2 ^ 52 <= m1) ->
  (k = m1 \/ (k = m1 + 1 /\ (IZR m1 * bpow e1 < x)%R)) ->
  magnitude_ok x (IZR k * bpow e1).
Proof.
  intros Hx Hm He Hn Hk. pose proof (bpow_pos e1) as Hp.
  assert (Hm0 : (0 <= IZR m1)%R) by (apply (IZR_le 0); lia).
  assert (Hx0 : (0 <= x)%R) by nra.
  assert (Hkr : (IZR m1 <= IZR k <= IZR m1 + 1)%R).
  { rewrite <- (plus_IZR m1 1). split; apply IZR_le; lia. }
  assert (V0 : (0 <= IZR k * bpow e1)%R) by nra.
  split; [exact V0|]. split; [|split].
  - intros Hx'. assert (IZR m1 * bpow e1 = 0)%R by nra. destruct Hk as [->|[-> L]]; nra.
  - assert (Hulp : (bpow e1 <= bpow (-52) * x + bpow (-1074))%R).
    { pose proof (bpow_pos (-52)). destruct Hn as [->|N]; [nra|].
      apply Rle_trans with (bpow (-52) * (IZR (2 ^ 52) * bpow e1))%R.
      - rewrite <- bpow_IZR, <- !bpow_add by lia. right. f_equal. lia.
      - apply IZR_le in N. pose proof (bpow_pos (-1074)).
        assert (IZR (2 ^ 52) * bpow e1 <= x)%R by nra. nra. }
    apply Rabs_le. destruct Hx. split; nra.
  - intros mz ez Cz. pose proof (canonical_spec _ _ Cz) as (Bz & Ez & _).
    destruct (Z.le_gt_cases e1 ez) as [L|L].
    + assert (J : (IZR mz * bpow ez = IZR (mz * 2 ^ (ez - e1)) * bpow e1)%R).
      { rewrite mult_IZR, <- bpow_IZR, Rmult_assoc, <- bpow_add by lia. do 2 f_equal. lia. }
      rewrite J. set (j := mz * 2 ^ (ez - e1)). split; intros H.
      * assert (j <= m1) by (apply (grid_le _ _ _ Hp); lra).
        apply Rmult_le_compat_r; [lra|]. apply IZR_le. lia.
      * apply Rmult_le_compat_r; [lra|]. apply IZR_le.
        destruct Hk as [->|[-> S]].
        -- apply (grid_le _ _ _ Hp). nra.
        -- assert (m1 < j) by (apply (grid_lt _ _ _ Hp); lra). lia.
    + destruct Hn as [->|N]; [lia|].
      assert (B : (IZR mz * bpow ez < IZR m1 * bpow e1)%R).
      { apply Rlt_le_trans with (IZR (2 ^ 53) * bpow ez)%R.
        { apply Rmult_lt_compat_r; [apply bpow_pos|]. apply IZR_lt. lia. }
        apply Rle_trans with (IZR (2 ^ 52) * bpow e1)%R.
        { rewrite <- !bpow_IZR, <- !bpow_add by lia. apply bpow_le. lia. }
        apply Rmult_le_compat_r; [lra|]. apply IZR_le. lia. }
      split; intros H; [nra|lra].
Qed.

(** [r] is a correct monotone rounding of the real [x]. *)
Definition rounds_sf (x : R) (r : spec_float) : Prop :=
  valid_binary r = true /\ is_nan_sf r = false /\
  (sf_finite r = true -> (Rabs (SF2R r - x) <= bpow (-52) * Rabs x + bpow (-1074))%R) /\
  (forall z, valid_binary z = true -> sf_finite z = true ->
     ((SF2R z <= x)%R -> SFleb z r = true) /\ ((x <= SF2R z)%R -> SFleb r z = true)).

Lemma SFleb_R x y : valid_binary x = true -> valid_binary y = true ->
  sf_finite x = true -> sf_finite y = true -> (SF2R x <= SF2R y)%R -> SFleb x y = true.
Proof.
  intros Vx Vy Fx Fy H. unfold SFleb.
  destruct (SFcompare_R x y Vx Vy Fx Fy) as (c & -> & Hc). destruct c; auto; lra.
Qed.

Lemma finite_lt_1024 z : valid_binary z = true -> (Rabs (SF2R z) < bpow 1024)%R.
Proof.
  intros V. pose proof (bpow_pos 1024).
  destruct z as [| | |s m e]; cbn [SF2R]; try (rewrite Rabs_R0; lra).
  apply valid_canonical, canonical_spec in V. destruct V as (Bm & Be & _).
  pose proof (pos_val m e).
  assert (IZR (Zpos m) * bpow e < bpow 1024)%R.
  { apply Rlt_le_trans with (IZR (2 ^ 53) * bpow e)%R.
    { apply Rmult_lt_compat_r; [apply bpow_pos|]. apply IZR_lt. lia. }
    rewrite <- bpow_IZR, <- bpow_add by lia. apply bpow_le. lia. }
  destruct s; cbn [sgn]; apply Rabs_def1; lra.
Qed.

Lemma Rabs_sgn s : Rabs (sgn s) = 1%R.
Proof. destruct s; cbn [sgn]; [rewrite Rabs_left; lra | apply Rabs_R1]. Qed.

(** A rounded magnitude, as a float or as the infinity past the range. *)
Lemma packed_value s mr er :
  0 <= mr < 2 ^ 53 -> -1074 <= er -> (er = -1074 \/ 2 ^ 52 <= mr) ->
  let v := (IZR mr * bpow er)%R in
  let r := match mr with
           | Zpos p => if er <=? 971 then S754_finite s p er else S754_infinity s
           | _ => S754_zero s
           end in
  (valid_binary r = true /\ sf_finite r = true /\ SF2R r = (sgn s * v)%R)
  \/ (r = S754_infinity s /\ (bpow 1024 <= v)%R).
Proof.
  intros Bm Ber Nr v r. unfold r. destruct mr as [|p|p]; [| |lia].
  - left. split; [reflexivity|]. split; [reflexivity|]. unfold v. cbn [SF2R]. ring.
  - destruct (er <=? 971) eqn:E; zprop.
    + left. split; [apply canonical_valid, canonical_intro; lia|]. split; reflexivity.
    + right. split; [reflexivity|]. unfold v.
      apply Rle_trans with (IZR (2 ^ 52) * bpow er)%R.
      { rewrite <- bpow_IZR, <- bpow_add by lia. apply bpow_le. lia. }
      apply Rmult_le_compat_r; [apply Rlt_le, bpow_pos|]. apply IZR_le. lia.
Qed.

(** Rounding the magnitude is monotone against every float, whatever the sign. *)
Lemma signed_monotone s x v z : (0 <= x)%R -> magnitude_ok x v ->
  valid_binary z = true -> sf_finite z = true ->
  ((SF2R z <= sgn s * x)%R -> (SF2R z <= sgn s * v)%R) /\
  ((sgn s * x <= SF2R z)%R -> (sgn s * v <= SF2R z)%R).
Proof.
  intros Hx0 (V0 & Vz & _ & Vc) V F. destruct z as [sz| | |sz mz ez]; try discriminate.
  - cbn [SF2R]. destruct s; cbn [sgn]; split; intros; try lra; rewrite Vz by lra; lra.
  - apply valid_canonical in V. destruct (Vc _ _ V) as [Z1 Z2].
    pose proof (pos_val mz ez). cbn [SF2R].
    destruct s, sz; cbn [sgn]; split; intros; try lra.
    all: rewrite Vz by lra; lra.
Qed.

Lemma round_aux_rounds s m e l x : 0 <= m ->
  in_cell m e (loc_inexact l) x -> e <= fexp64 (Zdigits2 m + e) ->
  rounds_sf (sgn s * x) (binary_round_aux prec emax s m e l).
Proof.
  intros Hm Hc He.
  destruct (round_aux_spec s m e l x Hm Hc He)
    as (m1 & k & e1 & mr & er & Hx & B1 & Be1 & N1 & Hk & V & Bm & Ber & Nr & ->).
  pose proof (round_magnitude m1 k e1 x Hx (proj1 B1) Be1 N1 Hk) as M.
  assert (Hx0 : (0 <= x)%R).
  { pose proof (bpow_pos e1). assert (0 <= IZR m1)%R by (apply (IZR_le 0); lia). nra. }
  pose proof (packed_value s mr er ltac:(lia) ltac:(lia) ltac:(lia)) as R. cbv zeta in R.
  rewrite <- V in *. clear V. set (v := (IZR mr * bpow er)%R) in *.
  set (r := match mr with Zpos p => _ | _ => _ end) in *.
  clearbody r v. clear - R M Hx0. split; [|split; [|split]].
  - destruct R as [(V & _)|[-> _]]; [exact V|reflexivity].
  - destruct R as [(_ & F & _)|[-> _]]; [now destruct r|reflexivity].
  - intros F. destruct R as [(_ & _ & ->)|[-> _]]; [|discriminate].
    replace (sgn s * v - sgn s * x)%R with (sgn s * (v - x))%R by ring.
    rewrite !Rabs_mult, Rabs_sgn.
    rewrite (Rabs_right x) by lra. rewrite !Rmult_1_l. apply M.
  - intros z Vz' Fz. pose proof (signed_monotone s x v z Hx0 M Vz' Fz) as Z.
    destruct R as [(Vr & Fr & Er)|[-> Hv]].
    + split; intros H; apply SFleb_R; auto; rewrite Er; now apply Z.
    + pose proof (finite_lt_1024 z Vz') as Hz. apply Rabs_def2 in Hz.
      destruct s; cbn [sgn] in *; split; intros H.
      * apply Z in H. lra.
      * destruct z; try discriminate; reflexivity.
      * destruct z; try discriminate; reflexivity.
      * apply Z in H. lra.
Qed.

Lemma rounds_self z : valid_binary z = true -> sf_finite z = true -> rounds_sf (SF2R z) z.
Proof.
  intros V F. split; [exact V|]. split; [|split].
  - now destruct z.
  - intros _. rewrite Rminus_diag, Rabs_R0.
    pose proof (bpow_pos (-52)). pose proof (bpow_pos (-1074)). pose proof (Rabs_pos (SF2R z)). nra.
  - intros y Vy Fy. split; intros; now apply SFleb_R.
Qed.

Lemma rounds_zero s : rounds_sf 0 (S754_zero s).
Proof. exact (rounds_self (S754_zero s) eq_refl eq_refl). Qed.

Lemma iter_xO m d : Zpos (Pos.iter xO m d) = Zpos m * 2 ^ Zpos d.
Proof.
  rewrite Pos2Nat.inj_iter.
  replace (Zpos d) with (Z.of_nat (Pos.to_nat d)) by apply positive_nat_Z.
  induction (Pos.to_nat d) as [|n IH].
  - change (Zpos m = Zpos m * 1). lia.
  - rewrite Nat2Z.inj_succ, Z.pow_succ_r by lia. cbn [Nat.iter nat_rect].
    rewrite Pos2Z.inj_xO, IH. ring.
Qed.

Lemma shl_align_val m e e' : e' <= e ->
  (IZR (Zpos (fst (shl_align m e e'))) * bpow e' = IZR (Zpos m) * bpow e)%R.
Proof.
  intros H. unfold shl_align. destruct (e' - e) eqn:E; cbn [fst].
  - replace e' with e by lia. reflexivity.
  - lia.
  - rewrite iter_xO, mult_IZR, <- bpow_IZR, Rmult_assoc, <- bpow_add by lia. do 2 f_equal. lia.
Qed.

Lemma digits_shift m d : Zdigits2 (Zpos m * 2 ^ Zpos d) = Zdigits2 (Zpos m) + Zpos d.
Proof.
  destruct (Zdigits2_bounds (Zpos m) ltac:(lia)) as (B1 & B2 & B3). specialize (B2 ltac:(lia)).
  assert (0 < 2 ^ Zpos d) by (apply Z.pow_pos_nonneg; lia).
  assert (1 <= Zdigits2 (Zpos m)) by (cbn; lia).
  apply Zdigits2_unique; [nia|].
  replace (Zdigits2 (Zpos m) + Zpos d - 1) with (Zdigits2 (Zpos m) - 1 + Zpos d) by lia.
  rewrite !Z.pow_add_r by lia. nia.
Qed.

Lemma binary_round_rounds s m e :
  rounds_sf (sgn s * (IZR (Zpos m) * bpow e)) (binary_round prec emax s m e).
Proof.
  unfold binary_round. fold fexp64.
  change (Zpos (digits2_pos m)) with (Zdigits2 (Zpos m)).
  set (e' := fexp64 _). unfold shl_align. destruct (e' - e) eqn:E.
  - apply round_aux_rounds; [lia|reflexivity|]. unfold e' in E. lia.
  - apply round_aux_rounds; [lia|reflexivity|]. unfold e' in E. lia.
  - replace (IZR (Zpos m) * bpow e)%R with (IZR (Zpos m * 2 ^ Zpos p) * bpow e')%R.
    + rewrite iter_xO. apply round_aux_rounds; [lia|reflexivity|].
      rewrite digits_shift. unfold e'. apply Z.eq_le_incl.
      replace (Zdigits2 (Zpos m) + Zpos p + fexp64 (Zdigits2 (Zpos m) + e))
        with (Zdigits2 (Zpos m) + e) by (unfold e' in E; lia). reflexivity.
    + rewrite mult_IZR, <- bpow_IZR, Rmult_assoc, <- bpow_add by lia. do 2 f_equal. lia.
Qed.

Lemma binary_normalize_rounds m e b :
  rounds_sf (IZR m * bpow e) (binary_normalize prec emax m e b).
Proof.
  destruct m as [|p|p]; cbn [binary_normalize].
  - rewrite Rmult_0_l. apply rounds_zero.
  - rewrite <- (Rmult_1_l (_ * _)). apply (binary_round_rounds false).
  - replace (IZR (Zneg p) * bpow e)%R with (-1 * (IZR (Zpos p) * bpow e))%R.
    + apply (binary_round_rounds true).
    + change (IZR (Zneg p)) with (IZR (- Zpos p)). rewrite opp_IZR. ring.
Qed.

Lemma cond_Zopp_val s m e :
  (IZR (cond_Zopp s (Zpos m)) * bpow e = sgn s * (IZR (Zpos m) * bpow e))%R.
Proof. destruct s; cbn [cond_Zopp sgn]; rewrite ?opp_IZR; ring. Qed.

Lemma SFadd_rounds x y : valid_binary x = true -> valid_binary y = true ->
  sf_finite x = true -> sf_finite y = true ->
  rounds_sf (SF2R x + SF2R y) (SFadd prec emax x y).
Proof.
  intros Vx Vy Fx Fy.
  destruct x as [sx| | |sx mx ex], y as [sy| | |sy my ey]; try discriminate; cbn [SFadd].
  - cbn [SF2R]. rewrite Rplus_0_r. destruct sx, sy; apply rounds_zero.
  - change (SF2R (S754_zero sx)) with 0%R. rewrite Rplus_0_l. now apply rounds_self.
  - change (SF2R (S754_zero sy)) with 0%R. rewrite Rplus_0_r. now apply rounds_self.
  - set (ez := Z.min ex ey).
    replace (SF2R (S754_finite sx mx ex) + SF2R (S754_finite sy my ey))%R
      with (IZR (cond_Zopp sx (Zpos (fst (shl_align mx ex ez)))
                 + cond_Zopp sy (Zpos (fst (shl_align my ey ez)))) * bpow ez)%R.
    + apply binary_normalize_rounds.
    + rewrite plus_IZR, Rmult_plus_distr_r, !cond_Zopp_val, !shl_align_val by (unfold ez; lia).
      reflexivity.
Qed.

Lemma SFsub_rounds x y : valid_binary x = true -> valid_binary y = true ->
  sf_finite x = true -> sf_finite y = true ->
  rounds_sf (SF2R x - SF2R y) (SFsub prec emax x y).
Proof.
  intros Vx Vy Fx Fy.
  destruct x as [sx| | |sx mx ex], y as [sy| | |sy my ey]; try discriminate; cbn [SFsub].
  - cbn [SF2R]. rewrite Rminus_0_r. destruct sx, sy; apply rounds_zero.
  - change (SF2R (S754_zero sx)) with 0%R.
    replace (0 - SF2R (S754_finite sy my ey))%R with (SF2R (S754_finite (negb sy) my ey)).
    + now apply rounds_self.
    + cbn [SF2R]. destruct sy; cbn [sgn negb]; ring.
  - change (SF2R (S754_zero sy)) with 0%R. rewrite Rminus_0_r. now apply rounds_self.
  - set (ez := Z.min ex ey).
    replace (SF2R (S754_finite sx mx ex) - SF2R (S754_finite sy my ey))%R
      with (IZR (cond_Zopp sx (Zpos (fst (shl_align mx ex ez)))
                 - cond_Zopp sy (Zpos (fst (shl_align my ey ez)))) * bpow ez)%R.
    + apply binary_normalize_rounds.
    + rewrite minus_IZR, Rmult_minus_distr_r, !cond_Zopp_val, !shl_align_val by (unfold ez; lia).
      reflexivity.
Qed.

Lemma sgn_xorb a b : sgn (xorb a b) = (sgn a * sgn b)%R.
Proof. destruct a, b; cbn [xorb sgn]; ring. Qed.

Lemma SFmul_rounds x y : valid_binary x = true -> valid_binary y = true ->
  sf_finite x = true -> sf_finite y = true ->
  rounds_sf (SF2R x * SF2R y) (SFmul prec emax x y).
Proof.
  intros Vx Vy Fx Fy.
  destruct x as [sx| | |sx mx ex], y as [sy| | |sy my ey]; try discriminate; cbn [SFmul];
    try (cbn [SF2R]; rewrite ?Rmult_0_l, ?Rmult_0_r; apply rounds_zero).
  replace (SF2R (S754_finite sx mx ex) * SF2R (S754_finite sy my ey))%R
    with (sgn (xorb sx sy) * (IZR (Zpos (mx * my)) * bpow (ex + ey)))%R.
  - apply round_aux_rounds; [lia|reflexivity|].
    apply valid_canonical in Vx, Vy. pose proof (canonical_spec _ _ Vx) as (Bx & Ex & Nx).
    pose proof (canonical_spec _ _ Vy) as (By & Ey & Ny). rewrite fexp64_eq.
    destruct (Z.eq_dec ex (-1074)) as [E1|E1], (Z.eq_dec ey (-1074)) as [E2|E2]; try lia.
    all: assert (2 ^ 52 <= Zpos (mx * my)) by (rewrite Pos2Z.inj_mul; nia).
    all: destruct (Zdigits2_bounds (Zpos (mx * my)) ltac:(lia)) as (B1 & _ & _).
    all: assert (53 <= Zdigits2 (Zpos (mx * my))); [|lia].
    all: apply Z.nlt_ge; intros L;
      assert (2 ^ Zdigits2 (Zpos (mx * my)) <= 2 ^ 52) by (apply Z.pow_le_mono_r; lia); lia.
  - cbn [SF2R]. rewrite sgn_xorb, bpow_add, Pos2Z.inj_mul, mult_IZR. ring.
Qed.

Lemma new_location_inexact n r : loc_inexact (new_location n r) = negb (r =? 0).
Proof.
  unfold new_location, new_location_even, new_location_odd.
  destruct (Z.even n), (r =? 0); reflexivity.
Qed.

(** A quotient with remainder lies in the cell of its integer part. *)
Lemma quotient_cell m1 e1 m2 e2 e q r :
  0 <= e1 - e2 - e -> Zpos m1 * 2 ^ (e1 - e2 - e) = Zpos m2 * q + r -> 0 <= r < Zpos m2 ->
  in_cell q e (negb (r =? 0)) ((IZR (Zpos m1) * bpow e1) / (IZR (Zpos m2) * bpow e2)).
Proof.
  intros Hsh Hdiv Hmod.
  assert (Hm2 : (0 < IZR (Zpos m2))%R) by (apply (IZR_lt 0); lia).
  assert (X : ((IZR (Zpos m1) * bpow e1) / (IZR (Zpos m2) * bpow e2)
               = (IZR q + IZR r / IZR (Zpos m2)) * bpow e)%R).
  { replace (IZR q + IZR r / IZR (Zpos m2))%R
      with (IZR (Zpos m1 * 2 ^ (e1 - e2 - e)) / IZR (Zpos m2))%R.
    - rewrite mult_IZR, <- bpow_IZR by lia.
      replace e1 with (e1 - e2 - e + e + e2) at 1 by lia. rewrite !bpow_add.
      pose proof (bpow_pos e2). field. split; lra.
    - rewrite Hdiv, plus_IZR, mult_IZR. field. lra. }
  rewrite X. pose proof (bpow_pos e). unfold in_cell.
  destruct (r =? 0) eqn:R0; zprop; cbn [negb].
  - rewrite R0. field. lra.
  - assert (0 < IZR r / IZR (Zpos m2) < 1)%R; [|nra].
    assert (0 < IZR r)%R by (apply (IZR_lt 0); lia).
    assert (IZR r < IZR (Zpos m2))%R by (apply IZR_lt; lia).
    split; [now apply Rdiv_lt_0_compat|]. apply Rmult_lt_reg_r with (IZR (Zpos m2)); [exact Hm2|].
    unfold Rdiv. rewrite Rmult_assoc, Rinv_l by lra. lra.
Qed.

(** A quotient has at least as many digits as its operands differ by. *)
Lemma quotient_large m1 m2 sh t :
  0 <= sh -> 0 <= t <= Zdigits2 (Zpos m1) - Zdigits2 (Zpos m2) + sh - 1 ->
  2 ^ t <= Zpos m1 * 2 ^ sh / Zpos m2.
Proof.
  intros Hsh Ht.
  destruct (Zdigits2_bounds (Zpos m1) ltac:(lia)) as (A1 & A2 & A3).
  destruct (Zdigits2_bounds (Zpos m2) ltac:(lia)) as (B1 & B2 & B3).
  specialize (A2 ltac:(lia)). specialize (B2 ltac:(lia)).
  assert (Hp : 0 < 2 ^ sh) by (apply Z.pow_pos_nonneg; lia).
  assert (1 <= Zdigits2 (Zpos m1)) by (cbn; lia).
  apply Z.div_le_lower_bound; [lia|]. apply Z.le_trans with (2 ^ Zdigits2 (Zpos m2) * 2 ^ t).
  { apply Z.mul_le_mono_nonneg_r; [apply Z.pow_nonneg; lia|lia]. }
  rewrite <- Z.pow_add_r by lia. apply Z.le_trans with (2 ^ (Zdigits2 (Zpos m1) - 1 + sh)).
  { apply Z.pow_le_mono_r; lia. }
  rewrite Z.pow_add_r by lia. nia.
Qed.

Lemma quotient_exponent m1 e1 m2 e2 e :
  let d := Zdigits2 (Zpos m1) + e1 - (Zdigits2 (Zpos m2) + e2) in
  let q := Zpos m1 * 2 ^ (e1 - e2 - e) / Zpos m2 in
  0 <= e1 - e2 - e -> 0 <= q -> e <= fexp64 d -> e <= fexp64 (Zdigits2 q + e).
Proof.
  intros d q Hsh Hq0 He.
  pose proof (fun t => quotient_large m1 m2 _ t Hsh) as T. fold q in T. clearbody q.
  destruct (Z.eq_dec q 0) as [Q0|Q0].
  - rewrite Q0. cbn [Zdigits2]. rewrite fexp64_eq in *.
    destruct (Z.le_gt_cases e (-1074)); [lia|].
    specialize (T 0 ltac:(unfold d in *; lia)). cbn in T. lia.
  - destruct (Zdigits2_bounds q Hq0) as (C1 & C2 & C3).
    apply Z.le_trans with (fexp64 d); [exact He|]. apply fexp64_mono.
    assert (1 <= Zdigits2 q) by (destruct q; cbn in *; lia).
    assert (d - e <= Zdigits2 q); [|lia].
    destruct (Z.le_gt_cases (d - e) 0); [lia|].
    specialize (T (d - e - 1) ltac:(unfold d in *; lia)).
    apply Z.nlt_ge. intros L.
    assert (2 ^ Zdigits2 q <= 2 ^ (d - e - 1)) by (apply Z.pow_le_mono_r; lia). lia.
Qed.

Lemma SFdiv_core_cell m1 e1 m2 e2 :
  let '(q, e', l) := SFdiv_core_binary prec emax (Zpos m1) e1 (Zpos m2) e2 in
  0 <= q /\
  in_cell q e' (loc_inexact l) ((IZR (Zpos m1) * bpow e1) / (IZR (Zpos m2) * bpow e2)) /\
  e' <= fexp64 (Zdigits2 q + e').
Proof.
  unfold SFdiv_core_binary. fold fexp64. cbv zeta. set (e' := Z.min _ _).
  assert (Hsh : 0 <= e1 - e2 - e') by (unfold e'; lia).
  set (m' := match e1 - e2 - e' with Zpos _ => _ | Z0 => _ | Zneg _ => _ end).
  assert (Hm' : m' = Zpos m1 * 2 ^ (e1 - e2 - e')).
  { unfold m'. destruct (e1 - e2 - e') as [|p|p]; [cbn; lia| |lia]. now rewrite Z.shiftl_mul_pow2 by lia. }
  clearbody m'. destruct (Z.div_eucl m' (Zpos m2)) as [q r] eqn:E.
  assert (Hp : 0 < 2 ^ (e1 - e2 - e')) by (apply Z.pow_pos_nonneg; lia).
  assert (Hq : q = m' / Zpos m2) by (unfold Z.div; now rewrite E).
  assert (Hr : r = m' mod Zpos m2) by (unfold Z.modulo; now rewrite E).
  assert (Hq0 : 0 <= q) by (subst q; apply Z.div_pos; nia).
  split; [exact Hq0|]. split.
  - rewrite new_location_inexact. apply quotient_cell; [exact Hsh| |].
    + rewrite <- Hm'. subst q r. apply Z.div_mod. lia.
    + subst r. apply Z.mod_pos_bound. lia.
  - subst q. rewrite Hm' in *. apply quotient_exponent; [exact Hsh|exact Hq0|unfold e'; lia].
Qed.

Lemma SFdiv_core_rounds s m1 e1 m2 e2 :
  let '(q, e', l) := SFdiv_core_binary prec emax (Zpos m1) e1 (Zpos m2) e2 in
  rounds_sf (sgn s * ((IZR (Zpos m1) * bpow e1) / (IZR (Zpos m2) * bpow e2)))
    (binary_round_aux prec emax s q e' l).
Proof.
  pose proof (SFdiv_core_cell m1 e1 m2 e2) as H.
  destruct (SFdiv_core_binary _ _ _ _ _ _) as [[q e'] l]. destruct H as (Hq & Hc & He).
  now apply round_aux_rounds.
Qed.

Lemma SFdiv_rounds x y : valid_binary x = true -> valid_binary y = true ->
  sf_finite x = true -> sf_finite y = true -> SF2R y <> 0%R ->
  rounds_sf (SF2R x / SF2R y) (SFdiv prec emax x y).
Proof.
  intros Vx Vy Fx Fy Hy.
  destruct x as [sx| | |sx mx ex], y as [sy| | |sy my ey]; try discriminate;
    try (cbn [SF2R] in Hy; congruence); cbn [SFdiv].
  - replace (SF2R (S754_zero sx) / _)%R with 0%R by (cbn [SF2R]; unfold Rdiv; ring).
    apply rounds_zero.
  - pose proof (SFdiv_core_rounds (xorb sx sy) mx ex my ey) as H.
    destruct (SFdiv_core_binary _ _ _ _ _ _) as [[q e'] l].
    replace (SF2R (S754_finite sx mx ex) / SF2R (S754_finite sy my ey))%R
      with (sgn (xorb sx sy) * ((IZR (Zpos mx) * bpow ex) / (IZR (Zpos my) * bpow ey)))%R; [exact H|].
    rewrite sgn_xorb. cbn [SF2R]. pose proof (pos_val my ey). 
    pose proof (bpow_pos ey). assert (IZR (Zpos my) <> 0)%R by (apply not_0_IZR; lia).
    destruct sx, sy; cbn [sgn]; field; split; lra.
Qed.

(** ** The interface used by the other files *)

Definition rounds (x : R) (f : float) : Prop := rounds_sf x (Prim2SF f).

Section Operations.
Variables a b : float.
Hypotheses (Fa : is_fin a = true) (Fb : is_fin b = true).

Lemma add_rounds : rounds (D2R a + D2R b) (a + b)%float.
Proof. unfold rounds. rewrite add_spec. apply SFadd_rounds; auto using Prim2SF_valid. Qed.

Lemma sub_rounds : rounds (D2R a - D2R b) (a - b)%float.
Proof. unfold rounds. rewrite sub_spec. apply SFsub_rounds; auto using Prim2SF_valid. Qed.

Lemma mul_rounds : rounds (D2R a * D2R b) (a * b)%float.
Proof. unfold rounds. rewrite mul_spec. apply SFmul_rounds; auto using Prim2SF_valid. Qed.

Lemma div_rounds : D2R b <> 0%R -> rounds (D2R a / D2R b) (a / b)%float.
Proof. intros. unfold rounds. rewrite div_spec. apply SFdiv_rounds; auto using Prim2SF_valid. Qed.
End Operations.

Section Rounds.
Variables (x : R) (f : float).
Hypothesis H : rounds x f.

Lemma rounds_not_nan : isnan f = false.
Proof. apply H. Qed.

Lemma rounds_lower z : is_fin z = true -> (D2R z <= x)%R -> (z <=? f)%float = true.
Proof.
  intros Fz L. rewrite leb_spec. destruct H as (_ & _ & _ & Hz).
  apply (Hz (Prim2SF z) (Prim2SF_valid z) Fz), L.
Qed.

Lemma rounds_upper z : is_fin z = true -> (x <= D2R z)%R -> (f <=? z)%float = true.
Proof.
  intros Fz L. rewrite leb_spec. destruct H as (_ & _ & _ & Hz).
  apply (Hz (Prim2SF z) (Prim2SF_valid z) Fz), L.
Qed.

Lemma rounds_error : is_fin f = true ->
  (Rabs (D2R f - x) <= bpow (-52) * Rabs x + bpow (-1074))%R.
Proof. destruct H as (_ & _ & He & _). exact He. Qed.

(** A result whose exact value lies between two doubles lies between them. *)
Lemma rounds_between lo hi : is_fin lo = true -> is_fin hi = true ->
  (D2R lo <= x <= D2R hi)%R -> is_fin f = true /\ (D2R lo <= D2R f <= D2R hi)%R.
Proof.
  intros Fl Fh [L U].
  pose proof (rounds_lower lo Fl L) as HL. pose proof (rounds_upper hi Fh U) as HU.
  assert (Ff : is_fin f = true).
  { rewrite leb_spec in HL, HU. unfold SFleb, is_fin in *.
    destruct (Prim2SF f) as [| [] | |]; try reflexivity; exfalso;
      destruct (Prim2SF lo), (Prim2SF hi); discriminate. }
  split; [exact Ff|]. rewrite leb_R in HL, HU by assumption. lra.
Qed.

Lemma rounds_exact z : is_fin z = true -> x = D2R z -> is_fin f = true /\ D2R f = x.
Proof.
  intros Fz E. destruct (rounds_between z z Fz Fz ltac:(lra)) as [Ff B]. split; [exact Ff|lra].
Qed.
End Rounds.

(** ** Representable reals *)

Lemma representable s m e : 0 <= m <= 2 ^ 53 -> -1074 <= e <= 970 ->
  exists z, is_fin z = true /\ D2R z = (sgn s * (IZR m * bpow e))%R.
Proof.
  intros Hm He.
  assert (X : exists y, valid_binary y = true /\ sf_finite y = true /\
                        SF2R y = (sgn s * (IZR m * bpow e))%R).
  { destruct (Z.eq_dec m 0) as [->|]; [|destruct (Z.eq_dec m (2 ^ 53)) as [->|]].
    - exists (S754_zero false). repeat split. cbn [SF2R]. ring.
    - exists (S754_finite s (2 ^ 52) (e + 1)). split; [|split; [reflexivity|]].
      + apply canonical_valid, canonical_intro; change (Zpos (2 ^ 52)) with (2 ^ 52); lia.
      + cbn [SF2R]. change (Zpos (2 ^ 52)) with (2 ^ 52). rewrite bpow_add.
        change (bpow 1) with (2 * 1)%R. change (2 ^ 53) with (2 ^ 52 * 2). rewrite mult_IZR. ring.
    - destruct (Zdigits2_bounds m ltac:(lia)) as (B1 & B2 & B3). specialize (B2 ltac:(lia)).
      set (d := Zdigits2 m) in *.
      assert (Hd : d <= 53).
      { apply Z.nlt_ge. intros L. assert (2 ^ 53 <= 2 ^ (d - 1)) by (apply Z.pow_le_mono_r; lia). lia. }
      set (k := Z.min (53 - d) (e + 1074)). assert (Hk : 0 <= k) by lia.
      assert (Hp : 0 < 2 ^ k) by (apply Z.pow_pos_nonneg; lia).
      assert (Hpos : 0 < m * 2 ^ k) by nia.
      assert (Hlt : m * 2 ^ k < 2 ^ 53).
      { apply Z.lt_le_trans with (2 ^ d * 2 ^ k); [nia|].
        rewrite <- Z.pow_add_r by lia. apply Z.pow_le_mono_r; lia. }
      destruct (m * 2 ^ k) as [|p|p] eqn:Ep; [lia| |lia].
      exists (S754_finite s p (e - k)). split; [|split; [reflexivity|]].
      + apply canonical_valid, canonical_intro; [lia|lia|].
        destruct (Z.le_gt_cases (53 - d) (e + 1074)) as [L|L]; [right|left; lia].
        rewrite <- Ep. replace k with (53 - d) by lia.
        apply Z.le_trans with (2 ^ (d - 1) * 2 ^ (53 - d)).
        * assert (1 <= d) by (unfold d; destruct m; cbn; lia).
          rewrite <- Z.pow_add_r by lia. apply Z.pow_le_mono_r; lia.
        * apply Z.mul_le_mono_nonneg_r; [apply Z.pow_nonneg; lia|lia].
      + cbn [SF2R]. rewrite <- Ep, mult_IZR, <- bpow_IZR by lia.
        rewrite Rmult_assoc, <- bpow_add. do 3 f_equal. lia. }
  destruct X as (y & V & F & E). exists (SF2Prim y).
  unfold is_fin, D2R. rewrite Prim2SF_SF2Prim by assumption. auto.
Qed.

Lemma representable_Z z : Z.abs z <= 2 ^ 53 -> exists f, is_fin f = true /\ D2R f = IZR z.
Proof.
  intros H. destruct (representable (z <? 0) (Z.abs z) 0 ltac:(lia) ltac:(lia)) as (f & F & E).
  exists f. split; [exact F|]. rewrite E, bpow_0, Rmult_1_r.
  destruct (z <? 0) eqn:L; zprop; cbn [sgn].
  - rewrite Z.abs_neq, opp_IZR by lia. ring.
  - rewrite Z.abs_eq by lia. ring.
Qed.

Lemma representable_bpow s e : -1074 <= e <= 970 ->
  exists f, is_fin f = true /\ D2R f = (sgn s * bpow e)%R.
Proof.
  intros H. destruct (representable s 1 e ltac:(lia) H) as (f & F & E). exists f.
  split; [exact F|]. rewrite E, Rmult_1_l. reflexivity.
Qed.

(** No overflow below a bound far from the largest double. *)
Lemma rounds_finite x f : rounds x f -> (Rabs x <= bpow 970)%R ->
  is_fin f = true /\ (Rabs (D2R f) <= bpow 970)%R.
Proof.
  intros H B. destruct (representable_bpow true 970 ltac:(lia)) as (lo & Fl & El).
  destruct (representable_bpow false 970 ltac:(lia)) as (hi & Fh & Eh). cbn [sgn] in *.
  apply Rabs_bounds in B.
  destruct (rounds_between x f H lo hi Fl Fh ltac:(lra)) as [F B']. split; [exact F|].
  apply Rabs_le. lra.
Qed.

(** ** Conversions between [double] and [int64_t] *)

(** [(double)z] *)
Definition double_of_Z (z : Z) : float := SF2Prim (binary_normalize prec emax z 0 false).

Lemma double_of_Z_rounds z : rounds (IZR z) (double_of_Z z).
Proof.
  pose proof (binary_normalize_rounds z 0 false) as H. rewrite bpow_0, Rmult_1_r in H.
  unfold rounds, double_of_Z. rewrite Prim2SF_SF2Prim; [exact H|apply H].
Qed.

Lemma double_of_Z_exact z : Z.abs z <= 2 ^ 53 ->
  is_fin (double_of_Z z) = true /\ D2R (double_of_Z z) = IZR z.
Proof.
  intros H. destruct (representable_Z z H) as (f & F & E).
  apply (rounds_exact _ _ (double_of_Z_rounds z) f F). now rewrite E.
Qed.

(** Signed mantissa and exponent of a finite double. *)
Definition sf_mant (x : spec_float) : Z :=
  match x with S754_finite s m _ => cond_Zopp s (Zpos m) | _ => 0 end.
Definition sf_exp (x : spec_float) : Z :=
  match x with S754_finite _ _ e => e | _ => 0 end.

(** [floor (f)] of [math.h]: infinities, NaN and zeros are returned as they are. *)
Definition cfloor (f : float) : float :=
  match Prim2SF f with
  | S754_finite s m e =>
      if 0 <=? e then f else double_of_Z (cond_Zopp s (Zpos m) / 2 ^ (- e))
  | _ => f
  end.

(** [(int64_t)f]: truncation; undefined on NaN and outside the range. *)
Definition cast_int64 (f : float) : option Z :=
  let x := Prim2SF f in
  if sf_finite x then
    let t := if 0 <=? sf_exp x then sf_mant x * 2 ^ sf_exp x
             else Z.quot (sf_mant x) (2 ^ (- sf_exp x)) in
    if (INT64_MIN <=? t) && (t <=? INT64_MAX) then Some t else None
  else None.

Lemma D2R_mant f : is_fin f = true ->
  D2R f = (IZR (sf_mant (Prim2SF f)) * bpow (sf_exp (Prim2SF f)))%R.
Proof.
  unfold D2R, is_fin. destruct (Prim2SF f) as [| | |s m e]; try discriminate; intros _;
    cbn [SF2R sf_mant sf_exp].
  - ring.
  - now rewrite cond_Zopp_val.
Qed.

Lemma mant_bound f : is_fin f = true -> Z.abs (sf_mant (Prim2SF f)) < 2 ^ 53.
Proof.
  pose proof (Prim2SF_valid f) as V. unfold is_fin.
  destruct (Prim2SF f) as [| | |s m e]; try discriminate; intros _; cbn [sf_mant]; try lia.
  apply valid_canonical, canonical_spec in V. destruct s; cbn [cond_Zopp]; lia.
Qed.

(** Flooring a finite double is exact. *)
Lemma cfloor_spec f : is_fin f = true ->
  exists z, is_fin (cfloor f) = true /\ D2R (cfloor f) = IZR z /\ (IZR z <= D2R f < IZR z + 1)%R.
Proof.
  intros F. pose proof (D2R_mant f F) as E. pose proof (mant_bound f F) as B.
  unfold cfloor. pose proof F as F'. unfold is_fin in F'.
  destruct (Prim2SF f) as [s| | |s m e] eqn:P; try discriminate; cbn [sf_mant sf_exp] in *.
  - exists 0. rewrite Rmult_0_l in E. rewrite E. repeat split; auto; lra.
  - set (M := cond_Zopp s (Zpos m)) in *.
    destruct (0 <=? e) eqn:L; zprop.
    + exists (M * 2 ^ e). rewrite E, mult_IZR, <- bpow_IZR by lia.
      split; [exact F|]. split; [reflexivity|lra].
    + set (D := 2 ^ (- e)). assert (HD : 0 < D) by (apply Z.pow_pos_nonneg; lia).
      pose proof (Z.div_mod M D ltac:(lia)) as DM. pose proof (Z.mod_pos_bound M D HD) as MB.
      assert (HA : Z.abs (M / D) <= 2 ^ 53).
      { apply Z.abs_le. split.
        - apply Z.div_le_lower_bound; [lia|]. nia.
        - apply Z.div_le_upper_bound; [lia|]. nia. }
      destruct (double_of_Z_exact (M / D) HA) as [F2 E2].
      exists (M / D). split; [exact F2|]. split; [exact E2|].
      assert (EB : (bpow e * IZR D = 1)%R).
      { unfold D. rewrite <- bpow_IZR, <- bpow_add by lia. replace (e + - e) with 0 by lia. reflexivity. }
      assert (HDr : (0 < IZR D)%R) by (apply (IZR_lt 0); lia). pose proof (bpow_pos e).
      rewrite E.
      assert (EM : (IZR M = IZR D * IZR (M / D) + IZR (M mod D))%R)
        by (rewrite <- mult_IZR, <- plus_IZR; now f_equal).
      assert (0 <= IZR (M mod D))%R by (apply (IZR_le 0); lia).
      assert (IZR (M mod D) < IZR D)%R by (apply IZR_lt; lia).
      rewrite EM, Rmult_plus_distr_r.
      replace (IZR D * IZR (M / D) * bpow e)%R with (IZR (M / D) * (bpow e * IZR D))%R by ring.
      assert (IZR (M mod D) * bpow e < IZR D * bpow e)%R by (now apply Rmult_lt_compat_r).
      assert (0 <= IZR (M mod D) * bpow e)%R by (apply Rmult_le_pos; lra).
      rewrite EB. split; lra.
Qed.

Lemma cast_int64_integer f z : is_fin f = true -> D2R f = IZR z -> in_int64 z ->
  cast_int64 f = Some z.
Proof.
  intros F E R. rewrite (D2R_mant f F) in E. unfold cast_int64.
  unfold is_fin in F. rewrite F. set (M := sf_mant _) in *. set (e := sf_exp _) in *.
  assert (T : (if 0 <=? e then M * 2 ^ e else Z.quot M (2 ^ (- e))) = z).
  { destruct (0 <=? e) eqn:L; zprop.
    - apply eq_IZR. now rewrite mult_IZR, <- bpow_IZR by lia.
    - assert (HM : M = z * 2 ^ (- e)).
      { apply eq_IZR. rewrite mult_IZR, <- bpow_IZR, <- E, Rmult_assoc, <- bpow_add by lia.
        replace (e + - e) with 0 by lia. rewrite bpow_0. ring. }
      rewrite HM. apply Z.quot_mul. apply Z.pow_nonzero; lia. }
  rewrite T. unfold in_int64 in R.
  destruct (_ && _) eqn:C; [reflexivity|]. apply andb_false_iff in C. lia.
Qed.

(** ** Finite results come from finite operands *)

Definition isfinite (f : float) : bool := is_fin f.

Lemma mul_fin_inv a b : is_fin (a * b)%float = true -> is_fin a = true /\ is_fin b = true.
Proof.
  unfold is_fin. rewrite mul_spec.
  destruct (Prim2SF a) as [| | |], (Prim2SF b) as [| | |]; cbn; auto; discriminate.
Qed.

Lemma add_fin_inv a b : is_fin (a + b)%float = true -> is_fin a = true /\ is_fin b = true.
Proof.
  unfold is_fin. rewrite add_spec.
  destruct (Prim2SF a) as [| [] | |], (Prim2SF b) as [| [] | |]; cbn; auto; discriminate.
Qed.

Lemma sub_fin_inv a b : is_fin (a - b)%float = true -> is_fin a = true /\ is_fin b = true.
Proof.
  unfold is_fin. rewrite sub_spec.
  destruct (Prim2SF a) as [| [] | |], (Prim2SF b) as [| [] | |]; cbn; auto; discriminate.
Qed.

Lemma div_fin_inv a b : is_fin (a / b)%float = true -> is_fin a = true.
Proof.
  unfold is_fin. rewrite div_spec.
  destruct (Prim2SF a) as [| | |], (Prim2SF b) as [| | |]; cbn; auto; discriminate.
Qed.

Lemma abs_fin f : is_fin (abs f) = is_fin f.
Proof. unfold is_fin. rewrite abs_spec. destruct (Prim2SF f); reflexivity. Qed.

Lemma abs_R f : D2R (abs f) = Rabs (D2R f).
Proof.
  unfold D2R. rewrite abs_spec. destruct (Prim2SF f) as [| | |s m e]; cbn [SFabs SF2R sgn];
    try (now rewrite Rabs_R0).
  rewrite Rabs_mult, Rabs_sgn, (Rabs_pos_eq (_ * _)); [ring|apply Rlt_le, pos_val].
Qed.

Lemma fin_not_nan f : is_fin f = true -> isnan f = false.
Proof. unfold is_fin, isnan. destruct (Prim2SF f); auto; discriminate. Qed.

(** Comparisons with a finite result, read as real inequalities. *)
Ltac freal :=
  repeat match goal with
  | H : (_ <=? _)%float = true |- _ => rewrite leb_R in H by assumption
  | H : (_ <? _)%float = true |- _ => rewrite ltb_R in H by assumption
  | H : (_ <=? _)%float = false |- _ => apply leb_false_R in H; [|assumption|assumption]
  | H : (_ <? _)%float = false |- _ => apply ltb_false_R in H; [|assumption|assumption]
  end.

Lemma opp_R f : D2R (- f) = (- D2R f)%R.
Proof.
  unfold D2R. rewrite opp_spec. destruct (Prim2SF f) as [| | |s m e]; cbn [SFopp SF2R]; try ring.
  destruct s; cbn [negb sgn]; ring.
Qed.

Lemma opp_fin f : is_fin (- f) = is_fin f.
Proof. unfold is_fin. rewrite opp_spec. destruct (Prim2SF f); reflexivity. Qed.

(** ** The real value of a literal *)

Lemma bpow_Zneg p : bpow (Zneg p) = (/ IZR (Z.pow_pos 2 p))%R.
Proof. change (Zneg p) with (- Zpos p). rewrite bpow_neg by lia. reflexivity. Qed.

Lemma bpow_Zpos p : bpow (Zpos p) = IZR (Z.pow_pos 2 p).
Proof. rewrite bpow_IZR by lia. reflexivity. Qed.

Lemma D2R_0 : D2R 0 = 0%R.
Proof. reflexivity. Qed.

(** Rewrite [D2R f] in the goal to the rational it stands for. *)
Ltac d2r f :=
  let v := eval vm_compute in (Prim2SF f) in
  let E := fresh "E" in
  assert (E : Prim2SF f = v) by (vm_compute; reflexivity);
  unfold D2R; rewrite E; clear E; cbn [SF2R sgn]; rewrite ?bpow_Zneg, ?bpow_Zpos, ?bpow_0;
  repeat match goal with
  | |- context [Z.pow_pos 2 ?p] =>
      let x := eval vm_compute in (Z.pow_pos 2 p) in change (Z.pow_pos 2 p) with x
  end.

Lemma D2R_1 : D2R 1 = 1%R.
Proof. d2r 1%float. lra. Qed.

Lemma D2R_100 : D2R 100 = 100%R.
Proof. d2r 100%float. lra. Qed.

(** ** Percentage moves *)

(** A finite quantity known to be at least zero as a comparison. *)
Lemma rounds_nonneg x f : rounds x f -> is_fin f = true -> (0 <= x)%R -> (0 <= D2R f)%R.
Proof.
  intros R F H. rewrite <- D2R_0, <- leb_R by auto.
  apply (rounds_lower _ _ R); [reflexivity|]. rewrite D2R_0. exact H.
Qed.

(** [(c - p) / p * 100] for [0 <= c <= p] lies in [-100, 0] after three roundings. *)
Lemma drop_pct_bounds c p : is_fin c = true -> is_fin p = true ->
  (0 <= D2R c <= D2R p)%R -> (0 < D2R p)%R ->
  is_fin ((c - p) / p * 100)%float = true /\ (-100 <= D2R ((c - p) / p * 100)%float <= 0)%R.
Proof.
  intros Fc Fp H Pp.
  destruct (representable_Z (-1) ltac:(lia)) as (m1 & Fm1 & Em1).
  destruct (representable_Z (-100) ltac:(lia)) as (m100 & Fm & Em).
  destruct (rounds_between _ _ (sub_rounds c p Fc Fp) (- p)%float 0) as [F1 B1];
    [now rewrite opp_fin|reflexivity|rewrite opp_R, D2R_0; lra|]. rewrite opp_R, D2R_0 in B1.
  destruct (rounds_between _ _ (div_rounds _ p F1 Fp ltac:(lra)) m1 0 Fm1 eq_refl) as [F2 B2].
  { rewrite Em1, D2R_0. split; apply Rmult_le_reg_r with (D2R p); try lra; unfold Rdiv;
      rewrite Rmult_assoc, Rinv_l by lra; lra. }
  rewrite Em1, D2R_0 in B2.
  pose proof (mul_rounds _ 100 F2 eq_refl) as R3. rewrite D2R_100 in R3.
  destruct (rounds_between _ _ R3 m100 0 Fm eq_refl) as [F3 B3]; [rewrite Em, D2R_0; lra|].
  rewrite Em, D2R_0 in B3. split; [exact F3|exact B3].
Qed.

(** [(c - p) / p * 100] for [p <= c] is non-negative where it does not overflow. *)
Lemma rise_pct_nonneg c p : is_fin c = true -> is_fin p = true ->
  (0 < D2R p <= D2R c)%R -> is_fin ((c - p) / p * 100)%float = true ->
  (0 <= D2R ((c - p) / p * 100)%float)%R.
Proof.
  intros Fc Fp H F. pose proof (mul_fin_inv _ _ F) as [F2 _]. pose proof (div_fin_inv _ _ F2) as F1.
  pose proof (rounds_nonneg _ _ (sub_rounds c p Fc Fp) F1 ltac:(lra)) as P1.
  assert (P2 : (0 <= D2R ((c - p) / p)%float)%R).
  { apply (rounds_nonneg _ _ (div_rounds _ p F1 Fp ltac:(lra)) F2).
    apply Rmult_le_pos; [lra|]. apply Rlt_le, Rinv_0_lt_compat. lra. }
  pose proof (mul_rounds _ 100 F2 eq_refl) as R3. rewrite D2R_100 in R3.
  apply (rounds_nonneg _ _ R3 F). lra.
Qed.

(** Doubles with the same non-zero value are the same. *)
Lemma D2R_inj a b : is_fin a = true -> is_fin b = true -> D2R a = D2R b -> D2R a <> 0%R -> a = b.
Proof.
  intros Fa Fb E N. apply Prim2SF_inj.
  pose proof (Prim2SF_valid a) as Va. pose proof (Prim2SF_valid b) as Vb.
  unfold D2R, is_fin in *.
  destruct (Prim2SF a) as [| | |s1 m1 e1], (Prim2SF b) as [| | |s2 m2 e2]; try discriminate;
    cbn [SF2R] in *; try lra.
  apply valid_canonical in Va, Vb.
  pose proof (pos_val m1 e1). pose proof (pos_val m2 e2).
  assert (s1 = s2) as <- by (destruct s1, s2; cbn [sgn] in *; auto; lra).
  assert (E' : (IZR (Zpos m1) * bpow e1 = IZR (Zpos m2) * bpow e2)%R) by (destruct s1; cbn [sgn] in *; lra).
  assert (e1 = e2) as <-.
  { destruct (Z.lt_trichotomy e1 e2) as [L|[L|L]]; [exfalso|exact L|exfalso].
    - pose proof (canonical_exp_lt _ _ _ _ Va Vb L). lra.
    - pose proof (canonical_exp_lt _ _ _ _ Vb Va L). lra. }
  pose proof (bpow_pos e1). apply Rmult_eq_reg_r in E'; [|lra]. apply eq_IZR in E'. congruence.
Qed.

(** The same without a finiteness assumption: an overflow is +infinity. *)
Lemma rise_pct_leb c p : is_fin c = true -> is_fin p = true -> (0 < D2R p <= D2R c)%R ->
  (0 <=? (c - p) / p * 100)%float = true.
Proof.
  intros Fc Fp H.
  destruct (rounds_between _ _ (sub_rounds c p Fc Fp) 0 c eq_refl Fc) as [F1 B1];
    rewrite ?D2R_0 in *; [lra|].
  pose proof (div_rounds _ p F1 Fp ltac:(lra)) as R2.
  assert (P2 : (0 <=? (c - p) / p)%float = true).
  { apply (rounds_lower _ _ R2); [reflexivity|]. rewrite D2R_0.
    apply Rmult_le_pos; [lra|]. apply Rlt_le, Rinv_0_lt_compat. lra. }
  set (q := ((c - p) / p)%float) in *. destruct (is_fin q) eqn:Fq.
  - apply leb_R in P2; auto. rewrite D2R_0 in P2. pose proof (mul_rounds _ 100 Fq eq_refl) as R3.
    rewrite D2R_100 in R3. apply (rounds_lower _ _ R3); [reflexivity|]. rewrite D2R_0. lra.
  - pose proof (rounds_not_nan _ _ R2) as N. fold q in N.
    assert (E : q = infinity).
    { apply Prim2SF_inj. rewrite leb_spec in P2. unfold isnan, is_fin in *.
      destruct (Prim2SF q) as [| [] | |]; try discriminate; reflexivity. }
    now rewrite E.
Qed.

(** ** Non-negative doubles, infinity included *)

Definition nonneg (f : float) : Prop := (0 <=? f)%float = true.

Lemma nonneg_cases f : nonneg f <-> (is_fin f = true /\ (0 <= D2R f)%R) \/ f = infinity.
Proof.
  unfold nonneg. split.
  - intros H. destruct (is_fin f) eqn:F; [left|right].
    + apply leb_R in H; [|reflexivity|exact F]. rewrite D2R_0 in H. auto.
    + apply Prim2SF_inj. rewrite leb_spec in H. unfold is_fin in F.
      destruct (Prim2SF f) as [| [] | |]; try discriminate; reflexivity.
  - intros [[F H]| ->]; [|reflexivity]. apply leb_R; auto.
Qed.

Lemma nonneg_rounds x f : rounds x f -> (0 <= x)%R -> nonneg f.
Proof. intros R H. apply (rounds_lower _ _ R); [reflexivity|]. now rewrite D2R_0. Qed.

(** A finite non-negative double divided by a positive one. *)
Lemma div_nonneg a b : nonneg a -> (0 <? b)%float = true -> is_fin a = true \/ is_fin b = true ->
  nonneg (a / b)%float.
Proof.
  intros A B F. apply nonneg_cases in A.
  assert (B' : nonneg b).
  { destruct (ltb_nan _ _ B) as [_ N]. rewrite ltb_leb in B by auto. apply negb_true_iff in B.
    unfold nonneg. destruct (leb_total 0 b eq_refl N); congruence. }
  apply nonneg_cases in B'. destruct B' as [[Fb Pb]| ->].
  - apply ltb_R in B; auto. rewrite D2R_0 in B. destruct A as [[Fa Pa]| ->].
    + apply (nonneg_rounds _ _ (div_rounds a b Fa Fb ltac:(lra))).
      apply Rmult_le_pos; [exact Pa|apply Rlt_le, Rinv_0_lt_compat; lra].
    + unfold nonneg. rewrite leb_spec, div_spec. rewrite (D2R_mant b Fb) in B. unfold is_fin in Fb.
      destruct (Prim2SF b) as [| | |[] m e]; try discriminate; cbn in B |- *; try lra; try reflexivity.
      pose proof (bpow_pos e). assert (IZR (Zneg m) < 0)%R by (apply (IZR_lt _ 0); lia). nra.
  - destruct F as [F|F]; [|discriminate]. destruct A as [[Fa Pa]| ->]; [|discriminate].
    unfold nonneg. rewrite leb_spec, div_spec. unfold is_fin in F.
    destruct (Prim2SF a) as [[]| | |[] m e] eqn:E; try discriminate; reflexivity.
Qed.

Lemma add_nonneg_ge a b : nonneg a -> nonneg b ->
  (a <=? a + b)%float = true /\ (b <=? a + b)%float = true.
Proof.
  intros A B. apply nonneg_cases in A, B. destruct A as [[Fa Pa]| ->].
  - destruct B as [[Fb Pb]| ->].
    + pose proof (add_rounds a b Fa Fb) as R.
      split; apply (rounds_lower _ _ R); auto; lra.
    + assert (E : (a + infinity)%float = infinity).
      { apply Prim2SF_inj. rewrite add_spec. unfold is_fin in Fa. now destruct (Prim2SF a). }
      rewrite E. split; [|reflexivity]. rewrite leb_spec. unfold is_fin in Fa.
      now destruct (Prim2SF a) as [| | |[]].
  - assert (E : (infinity + b)%float = infinity).
    { apply Prim2SF_inj. rewrite add_spec. destruct B as [[Fb _]| ->]; [|reflexivity].
      unfold is_fin in Fb. now destruct (Prim2SF b). }
    rewrite E. split; [reflexivity|]. destruct B as [[Fb _]| ->]; [|reflexivity].
    rewrite leb_spec. unfold is_fin in Fb. now destruct (Prim2SF b) as [| | |[]].
Qed.

Lemma div_ge_one a b : is_fin b = true -> (0 <? b)%float = true -> (b <=? a)%float = true ->
  (1 <=? a / b)%float = true.
Proof.
  intros Fb B L. pose proof B as PB. apply ltb_R in PB; auto. rewrite D2R_0 in PB.
  assert (A : nonneg a).
  { apply leb_trans with b; [|exact L]. apply leb_R; auto. rewrite D2R_0. lra. }
  apply nonneg_cases in A. destruct A as [[Fa Pa]| ->].
  - apply leb_R in L; auto. apply (rounds_lower _ _ (div_rounds a b Fa Fb ltac:(lra))); [reflexivity|].
    rewrite D2R_1. apply Rmult_le_reg_r with (D2R b); [lra|]. unfold Rdiv.
    rewrite Rmult_assoc, Rinv_l by lra. lra.
  - rewrite leb_spec, div_spec. rewrite (D2R_mant b Fb) in PB. unfold is_fin in Fb.
    destruct (Prim2SF b) as [| | |[] m e]; try discriminate; cbn in PB |- *; try lra; try reflexivity.
    pose proof (bpow_pos e). assert (IZR (Zneg m) < 0)%R by (apply (IZR_lt _ 0); lia). nra.
Qed.

Lemma nonneg_not_nan f : nonneg f -> isnan f = false.
Proof. intros H. now apply leb_nan in H. Qed.
