(* ===== verification/Nearest.v ===== *)
(** * Rounding to nearest

    [Double] shows that the operations of [SpecFloat] round monotonically, which is
    what most of the development needs.  Here the bits that decide the direction are
    followed too: a quotient is the double nearest to the exact one, and of two at the
    same distance the one with the even significand.  This is what [strtod] promises
    for a decimal text; see [Round]. *)

From Stdlib Require Import ZArith Lia Bool Reals Lra Floats.
From S2P Require Import Prelude Double.
Open Scope Z_scope.

(** [f] is the double nearest to [x], ties going to the even significand. *)
Definition nearest (x : R) (f : float) : Prop :=
  is_fin f = true /\
  forall z, is_fin z = true ->
    (Rabs (D2R f - x) <= Rabs (D2R z - x))%R /\
    (Rabs (D2R f - x) = Rabs (D2R z - x) -> D2R z <> D2R f -> Z.even (sf_mant (Prim2SF f)) = true)%R.

(** ** Where a real lies in its cell

    The round bit says whether [x] has reached the middle of the cell of [m] at
    exponent [e], the sticky bit whether it is strictly between the ends of the half it is in. *)
Definition at_loc (m e : Z) (r s : bool) (x : R) : Prop :=
  let d := (x - IZR m * bpow e)%R in
  match r, s with
  | false, false => d = 0%R
  | false, true => (0 < 2 * d < bpow e)%R
  | true, false => (2 * d = bpow e)%R
  | true, true => (bpow e < 2 * d < 2 * bpow e)%R
  end.
Definition rec_at (mrs : shr_record) (e : Z) (x : R) : Prop := at_loc (shr_m mrs) e (shr_r mrs) (shr_s mrs) x.

Lemma at_loc_cell mrs e x : rec_at mrs e x -> in_cell (shr_m mrs) e (rec_inexact mrs) x.
Proof.
  unfold rec_at, at_loc, in_cell, rec_inexact. pose proof (bpow_pos e).
  destruct (shr_r mrs), (shr_s mrs); cbn [orb]; intros; lra.
Qed.

Lemma shr_1_eq m r s : 0 <= m ->
  exists b, shr_1 {| shr_m := m; shr_r := r; shr_s := s |} = {| shr_m := m / 2; shr_r := b; shr_s := r || s |} /\
    m = 2 * (m / 2) + Z.b2z b.
Proof.
  intros Hm. exists (Z.odd m). split; [|rewrite <- Z.div2_div; apply Z.div2_odd].
  destruct m as [|[p|p|]|p]; cbn [shr_1]; try lia; try reflexivity.
  - f_equal. rewrite Pos2Z.inj_xI, Z.mul_comm, Z.div_add_l by lia. cbn. lia.
  - f_equal. rewrite Pos2Z.inj_xO, Z.mul_comm, Z.div_mul by lia. lia.
Qed.

Lemma shr_1_at mrs e x : 0 <= shr_m mrs -> rec_at mrs e x ->
  0 <= shr_m (shr_1 mrs) /\ rec_at (shr_1 mrs) (e + 1) x.
Proof.
  destruct mrs as [m r s]. intros Hm H. cbn [shr_m] in Hm.
  destruct (shr_1_eq m r s Hm) as (b & -> & D). unfold rec_at, at_loc in *. cbn [shr_m shr_r shr_s] in *.
  split; [apply Z.div_pos; lia|]. set (q := m / 2) in *. clearbody q. subst m.
  rewrite bpow_add. change (bpow 1) with (2 * 1)%R. pose proof (bpow_pos e).
  rewrite plus_IZR, mult_IZR in H. set (p := bpow e) in *.
  destruct b, r, s; cbn [Z.b2z orb] in *; lra.
Qed.

Lemma shr_at mrs e n x : 0 <= shr_m mrs -> 0 <= n -> rec_at mrs e x ->
  let '(mrs', e') := shr mrs e n in 0 <= shr_m mrs' /\ rec_at mrs' e' x.
Proof.
  intros Hm Hn H. unfold shr. destruct n as [|p|p]; [auto|clear Hn|lia].
  revert mrs e Hm H. induction p as [p IH|p IH|]; intros; cbn [iter_pos].
  - destruct (shr_1_at mrs e x Hm H) as [P1 C1]. destruct (IH _ _ P1 C1) as [P2 C2].
    destruct (IH _ _ P2 C2) as [P3 C3]. split; [exact P3|].
    replace (e + Zpos p~1) with (e + 1 + Zpos p + Zpos p) by lia. exact C3.
  - destruct (IH _ _ Hm H) as [P2 C2]. destruct (IH _ _ P2 C2) as [P3 C3]. split; [exact P3|].
    replace (e + Zpos p~0) with (e + Zpos p + Zpos p) by lia. exact C3.
  - exact (shr_1_at mrs e x Hm H).
Qed.

(** ** The chosen neighbour *)

(** The integer [round_nearest_even] gives is the nearer end of the cell, the even
    one at the middle. *)
Lemma even_choice mrs e x :
  rec_at mrs e x ->
  let k := round_nearest_even (shr_m mrs) (loc_of_shr_record mrs) in
  let d := (x - IZR (shr_m mrs) * bpow e)%R in
  (k = shr_m mrs /\ (0 <= 2 * d <= bpow e)%R \/ k = shr_m mrs + 1 /\ (bpow e <= 2 * d < 2 * bpow e)%R) /\
  ((2 * d = bpow e)%R -> Z.even k = true).
Proof.
  destruct mrs as [m r s]. unfold rec_at, at_loc. cbn [shr_m shr_r shr_s]. pose proof (bpow_pos e). intros H0. set (k := round_nearest_even _ _). set (d := (_ - _)%R).
  fold d in H0. destruct r, s; cbn in k; subst k.
  - split; [right; split; [reflexivity|lra]|lra].
  - destruct (Z.even m) eqn:E.
    + split; [left; split; [reflexivity|lra]|auto].
    + split; [right; split; [reflexivity|lra]|]. intros _. now rewrite Z.even_add, E.
  - split; [left; split; [reflexivity|lra]|lra].
  - split; [left; split; [reflexivity|lra]|lra].
Qed.

(** The two ends of a cell are the neighbours of the doubles around it. *)
Lemma cell_neighbours m1 e1 x z : (IZR m1 * bpow e1 <= x < (IZR m1 + 1) * bpow e1)%R ->
  0 <= m1 -> -1074 <= e1 -> (e1 = -1074 \/ 2 ^ 52 <= m1) -> is_fin z = true ->
  (D2R z <= IZR m1 * bpow e1)%R \/ ((IZR m1 * bpow e1 < x)%R /\ ((IZR m1 + 1) * bpow e1 <= D2R z)%R) \/
  (x = IZR m1 * bpow e1 /\ x <= D2R z)%R.
Proof.
  intros Hx Hm He Hn Fz. pose proof (bpow_pos e1) as Hp.
  assert (Hm0 : (0 <= IZR m1)%R) by (apply (IZR_le 0); lia).
  destruct (Rle_or_lt (D2R z) x) as [L|L].
  - left. destruct (round_magnitude m1 m1 e1 x Hx Hm He Hn (or_introl eq_refl)) as (V0 & _ & _ & C).
    pose proof (Prim2SF_valid z) as V. unfold D2R, is_fin in *.
    destruct (Prim2SF z) as [s| | |s m e]; try discriminate; cbn [SF2R] in *; [nra|].
    apply valid_canonical in V. destruct (C _ _ V) as [C1 _]. pose proof (pos_val m e).
    destruct s; cbn [sgn] in *; [nra|]. lra.
  - destruct (Rlt_or_le (IZR m1 * bpow e1) x) as [S|S]; [right; left|right; right; split; [lra|lra]].
    split; [exact S|].
    destruct (round_magnitude m1 (m1 + 1) e1 x Hx Hm He Hn (or_intror (conj eq_refl S))) as (_ & _ & _ & C).
    rewrite plus_IZR in C. pose proof (Prim2SF_valid z) as V. unfold D2R, is_fin in *.
    destruct (Prim2SF z) as [s| | |s m e]; try discriminate; cbn [SF2R] in *; [nra|].
    apply valid_canonical in V. destruct (C _ _ V) as [_ C2]. pose proof (pos_val m e).
    destruct s; cbn [sgn] in *; [nra|]. lra.
Qed.

(** A magnitude rounded by [binary_round_aux], with its location: finite results are
    nearest and ties have an even significand. *)
Definition nearest_sf (x : R) (r : spec_float) : Prop :=
  sf_finite r = true ->
  forall z, is_fin z = true ->
    (Rabs (SF2R r - x) <= Rabs (D2R z - x))%R /\
    (Rabs (SF2R r - x) = Rabs (D2R z - x) -> D2R z <> SF2R r -> Z.even (sf_mant r) = true)%R.

(** Against one double, from the cell of [x]. *)
Lemma choice_nearest m1 e1 k x z :
  (IZR m1 * bpow e1 <= x < (IZR m1 + 1) * bpow e1)%R ->
  0 <= m1 -> -1074 <= e1 -> (e1 = -1074 \/ 2 ^ 52 <= m1) -> is_fin z = true ->
  let d := (x - IZR m1 * bpow e1)%R in
  (k = m1 /\ (0 <= 2 * d <= bpow e1)%R \/ k = m1 + 1 /\ (bpow e1 <= 2 * d < 2 * bpow e1)%R) ->
  let v := (IZR k * bpow e1)%R in
  (Rabs (v - x) <= Rabs (D2R z - x))%R /\
  (Rabs (v - x) = Rabs (D2R z - x) -> D2R z <> v -> 2 * d = bpow e1)%R.
Proof.
  intros Hx Hm He Hn Fz d Hk v. pose proof (bpow_pos e1) as Hp.
  destruct (cell_neighbours m1 e1 x z Hx Hm He Hn Fz) as [L|[[S U]|[E U]]];
    destruct Hk as [[-> B]|[-> B]]; subst v d; rewrite ?plus_IZR;
    unfold Rabs; repeat destruct (Rcase_abs _); split; intros; lra.
Qed.

Lemma round_aux_nearest s m e r st l x :
  0 <= m -> at_loc m e r st x -> shr_record_of_loc m l = {| shr_m := m; shr_r := r; shr_s := st |} ->
  e <= fexp64 (Zdigits2 m + e) -> nearest_sf (sgn s * x) (binary_round_aux prec emax s m e l).
Proof.
  intros Hm Ha Hl He.
  assert (Hc : in_cell m e (loc_inexact l) x).
  { pose proof (at_loc_cell {| shr_m := m; shr_r := r; shr_s := st |} e x Ha) as C.
    rewrite <- Hl, (proj1 (rec_of_loc_inexact m l)), (proj2 (rec_of_loc_inexact m l)) in C. exact C. }
  destruct (shr_fexp_cell m e l x Hm Hc He) as (mrs & e1 & E & C & B & Be & N).
  assert (A1 : rec_at mrs e1 x).
  { pose proof (shr_at (shr_record_of_loc m l) e (fexp64 (Zdigits2 m + e) - e) x) as S.
    rewrite Hl in S. specialize (S Hm ltac:(lia) Ha). unfold shr_fexp in E. fold fexp64 in E. rewrite Hl in E.
    rewrite E in S. apply S. }
  destruct (even_choice mrs e1 x A1) as [Hk Ev]. cbv zeta in Hk, Ev.
  set (k := round_nearest_even (shr_m mrs) (loc_of_shr_record mrs)) in *.
  destruct (shr_fexp_carry k e1) as (mr & er & Es & V & Bm & Bx & Nr & _ & Pr); [lia|lia|lia|].
  assert (X : (IZR (shr_m mrs) * bpow e1 <= x < (IZR (shr_m mrs) + 1) * bpow e1)%R)
    by (pose proof (bpow_pos e1); destruct Hk as [[_ K]|[_ K]]; lra).
  unfold binary_round_aux. rewrite E. fold k.
  destruct (shr_fexp prec emax k e1 loc_Exact) as [mrs2 e2]. injection Es as -> ->.
  change (emax - prec) with 971. pose proof (packed_value s mr er Bm Bx Nr) as R. cbv zeta in R.
  intros F z Fz. destruct R as [(_ & _ & R)|[R _]]; [|destruct mr; try lia; rewrite ?R in F; discriminate].
  assert (Sm : Z.even mr = true -> Z.even (sf_mant match mr with
      | 0 => S754_zero s | Zpos p => if er <=? 971 then S754_finite s p er else S754_infinity s
      | Zneg _ => S754_zero s end) = true).
  { destruct mr; auto. destruct (er <=? 971); [|auto]. destruct s; cbn; auto. }
  assert (Q : forall y, (Rabs (sgn s * y - sgn s * x) = Rabs (y - x))%R).
  { intros y. rewrite <- Rmult_minus_distr_l, Rabs_mult, Rabs_sgn. ring. }
  assert (Zs : exists y, is_fin y = true /\ (sgn s * D2R y = D2R z)%R).
  { destruct s; [exists (- z)%float|exists z]; rewrite ?opp_fin, ?opp_R; cbn [sgn]; split; auto; ring. }
  destruct Zs as (y & Fy & Ey).
  destruct (choice_nearest (shr_m mrs) e1 k x y X (proj1 B) Be N Fy Hk) as [D1 D2]. rewrite <- V in D1, D2.
  destruct mr as [|p|p]; [| |lia]; cbn [shr_m] in *; rewrite R, <- Ey, !Q; (split; [exact D1|]);
    intros T Ne; apply Sm; (destruct Pr as [Pk|Pk]; rewrite Pk; [|reflexivity]); apply Ev, (D2 T); intros Eq; apply Ne; now rewrite Eq.
Qed.

(** ** Quotients *)

(** The bits of the location of a remainder. *)
Definition round_bit (l : location) : bool := match l with loc_Inexact Eq | loc_Inexact Gt => true | _ => false end.
Definition sticky_bit (l : location) : bool := match l with loc_Inexact Lt | loc_Inexact Gt => true | _ => false end.

Lemma shr_record_bits m l :
  shr_record_of_loc m l = {| shr_m := m; shr_r := round_bit l; shr_s := sticky_bit l |}.
Proof. destruct l as [|[]]; reflexivity. Qed.

(** A remainder of zero is exact; otherwise twice the remainder against the divisor
    says which half the quotient is in. *)
Lemma new_location_spec d r : 0 < d -> 0 <= r < d ->
  new_location d r = if r =? 0 then loc_Exact else loc_Inexact (2 * r ?= d).
Proof.
  intros Hd Hr. unfold new_location, new_location_even, new_location_odd.
  destruct (Z.even d) eqn:E, (r =? 0); try reflexivity. f_equal.
  assert (O : Z.odd d = true) by (rewrite <- Z.negb_even, E; reflexivity).
  apply Z.odd_spec in O as (h & ->).
  destruct (Z.compare_spec (2 * r + 1) (2 * h + 1)), (Z.compare_spec (2 * r) (2 * h + 1)); lia || reflexivity.
Qed.

Lemma quotient_at m1 m2 e q r :
  0 <= - e -> Zpos m1 * 2 ^ (- e) = Zpos m2 * q + r -> 0 <= r < Zpos m2 ->
  at_loc q e (round_bit (new_location (Zpos m2) r)) (sticky_bit (new_location (Zpos m2) r))
    (IZR (Zpos m1) / IZR (Zpos m2)).
Proof.
  intros Hsh Hdiv Hmod.
  assert (Hm2 : (0 < IZR (Zpos m2))%R) by (apply (IZR_lt 0); lia). pose proof (bpow_pos e) as Hp.
  assert (X : (IZR (Zpos m1) / IZR (Zpos m2) - IZR q * bpow e = IZR r / IZR (Zpos m2) * bpow e)%R).
  { assert (B : (bpow e * IZR (2 ^ (- e)) = 1)%R).
    { rewrite <- bpow_IZR, <- bpow_add by lia. replace (e + - e) with 0 by lia. reflexivity. }
    apply (f_equal IZR) in Hdiv. rewrite plus_IZR, !mult_IZR in Hdiv.
    apply Rmult_eq_reg_r with (IZR (Zpos m2)); [|lra]. field_simplify; [|lra..].
    replace (IZR (Zpos m1)) with (IZR (Zpos m1) * (bpow e * IZR (2 ^ (- e))))%R by (rewrite B; ring).
    replace (IZR (Zpos m1) * (bpow e * IZR (2 ^ (- e))))%R with (IZR (Zpos m1) * IZR (2 ^ (- e)) * bpow e)%R by ring.
    rewrite Hdiv. ring. }
  assert (T : (IZR r / IZR (Zpos m2) * IZR (Zpos m2) = IZR r)%R) by (field; lra).
  unfold at_loc. rewrite X. set (t := (IZR r / IZR (Zpos m2))%R) in *.
  rewrite new_location_spec by lia. destruct (r =? 0) eqn:R0; zprop; cbn [round_bit sticky_bit].
  - subst r. assert (t = 0)%R by nra. nra.
  - assert (R1 : (0 < IZR r < IZR (Zpos m2))%R) by (split; [apply (IZR_lt 0)|apply IZR_lt]; lia).
    assert (Tp : (0 < t < 1)%R) by (split; nra).
    destruct (Z.compare_spec (2 * r) (Zpos m2)) as [E|E|E]; cbn [round_bit sticky_bit];
      [apply (f_equal IZR) in E|apply IZR_lt in E|apply IZR_lt in E]; rewrite mult_IZR in E.
    + assert (2 * t = 1)%R by nra. nra.
    + assert (2 * t < 1)%R by nra. split; nra.
    + assert (1 < 2 * t)%R by nra. split; nra.
Qed.

(** The quotient of two integers is rounded to the nearest double. *)
Lemma SFdiv_nearest s m1 m2 :
  let '(q, e', l) := SFdiv_core_binary prec emax (Zpos m1) 0 (Zpos m2) 0 in
  nearest_sf (sgn s * (IZR (Zpos m1) / IZR (Zpos m2))) (binary_round_aux prec emax s q e' l).
Proof.
  pose proof (SFdiv_core_cell m1 0 m2 0) as Cl.
  unfold SFdiv_core_binary in *. fold fexp64 in *. cbv zeta in *. set (e' := Z.min _ _) in *.
  assert (He' : e' <= 0) by (unfold e'; lia). replace (0 - 0 - e') with (- e') in * by lia.
  set (m' := match - e' with Zpos _ => _ | Z0 => _ | Zneg _ => _ end) in *.
  assert (Hm' : m' = Zpos m1 * 2 ^ (- e')).
  { unfold m'. destruct (- e') as [|p|p] eqn:Q; [cbn; lia| |lia]. now rewrite Z.shiftl_mul_pow2 by lia. }
  clearbody m'. destruct (Z.div_eucl m' (Zpos m2)) as [q r] eqn:E. destruct Cl as (Hq & _ & Fe).
  assert (Dq : q = m' / Zpos m2) by (unfold Z.div; now rewrite E).
  assert (Dr : r = m' mod Zpos m2) by (unfold Z.modulo; now rewrite E).
  apply (round_aux_nearest s q e' (round_bit (new_location (Zpos m2) r)) (sticky_bit (new_location (Zpos m2) r)));
    [exact Hq| |apply shr_record_bits|exact Fe].
  apply quotient_at; [lia| |subst r; apply Z.mod_pos_bound; lia].
  rewrite <- Hm'. subst q r. apply Z.div_mod. lia.
Qed.
