(* ===== verification/NearError.v ===== *)
(** * Propagation of rounding errors

    A small calculus over [Double]: a computed value approximates an exact real
    with a relative and an absolute error, and each rounded operation adds a
    known amount to both. *)

From Stdlib Require Import ZArith Lia Bool Reals Lra Floats.
From S2P Require Import Prelude Double.
Open Scope Z_scope.

Local Open Scope R_scope.

Definition uu : R := bpow (-52).
Definition eta : R := bpow (-1074).

Lemma uu_val : uu = / 4503599627370496.
Proof. unfold uu. rewrite bpow_Zneg. reflexivity. Qed.

Lemma uu_bounds : 0 < uu <= / 1000.
Proof. rewrite uu_val. lra. Qed.

Lemma eta_bounds : 0 < eta /\ eta <= uu.
Proof. split; [apply bpow_pos|apply bpow_le; lia]. Qed.

(** [y] approximates the non-negative real [x] with relative error [e] and
    absolute error [d]. *)
Definition near (e d x y : R) : Prop := 0 <= x /\ Rabs (y - x) <= e * x + d.

Lemma near_le e d x y : near e d x y -> y <= x * (1 + e) + d /\ x * (1 - e) - d <= y.
Proof. intros [P H]. apply Rabs_bounds in H. lra. Qed.

Lemma near_refl x : 0 <= x -> near 0 0 x x.
Proof. intros. split; [assumption|]. rewrite Rminus_diag, Rabs_R0. lra. Qed.

Lemma near_weaken e d e' d' x y : near e d x y -> e <= e' -> d <= d' -> near e' d' x y.
Proof. intros [P H] He Hd. split; [exact P|]. nra. Qed.

Lemma near_add e d1 d2 x1 x2 y1 y2 : near e d1 x1 y1 -> near e d2 x2 y2 ->
  near e (d1 + d2) (x1 + x2) (y1 + y2).
Proof.
  intros [P1 H1] [P2 H2]. apply Rabs_bounds in H1, H2. split; [lra|].
  apply Rabs_le. lra.
Qed.

(** Multiplying by an exact factor in [0, k]. *)
Lemma near_scale e d k c x y : near e d x y -> 0 <= c <= k -> 0 <= d ->
  near e (k * d) (x * c) (y * c).
Proof.
  intros [P H] Hc Hd. split; [apply Rmult_le_pos; lra|].
  replace (y * c - x * c) with ((y - x) * c) by ring. rewrite Rabs_mult, (Rabs_pos_eq c) by lra.
  apply Rle_trans with ((e * x + d) * c); [apply Rmult_le_compat_r; lra|]. nra.
Qed.

(** One more rounded operation. *)
Lemma near_round e d x y f : near e d x y -> rounds y f -> is_fin f = true ->
  0 <= e <= 1 -> 0 <= d -> near (e + 2 * uu) (2 * d + eta) x (D2R f).
Proof.
  intros [P H] R F He Hd. split; [exact P|].
  pose proof (rounds_error _ _ R F) as E. fold uu eta in E.
  pose proof uu_bounds. pose proof eta_bounds.
  assert (Rabs y <= x + (e * x + d)).
  { replace y with (x + (y - x)) by ring. apply Rle_trans with (1 := Rabs_triang _ _).
    rewrite (Rabs_pos_eq x) by lra. lra. }
  replace (D2R f - x) with ((D2R f - y) + (y - x)) by ring.
  apply Rle_trans with (1 := Rabs_triang _ _).
  assert (uu * Rabs y <= uu * (x + (e * x + d))) by (apply Rmult_le_compat_l; lra).
  assert (uu * (e * x) <= uu * x) by (apply Rmult_le_compat_l; nra). nra.
Qed.

Lemma bpow_500_970 x : 0 <= x <= bpow 500 -> 2 * x + 1 <= bpow 970.
Proof.
  intros H. assert (1 <= bpow 500) by (rewrite <- bpow_0; apply bpow_le; lia).
  assert (bpow 500 * 4 <= bpow 970); [|lra].
  replace 4 with (bpow 2) by (rewrite bpow_Zpos; reflexivity). rewrite <- bpow_add. apply bpow_le. lia.
Qed.

Lemma near_op e d x y f : near e d x y -> rounds y f -> x <= bpow 500 ->
  0 <= e <= / 2 -> 0 <= d <= / 2 ->
  is_fin f = true /\ near (e + 2 * uu) (2 * d + eta) x (D2R f).
Proof.
  intros N R Hx He Hd. pose proof N as [P _]. destruct (near_le _ _ _ _ N) as [U L].
  assert (B : Rabs y <= bpow 970).
  { pose proof (bpow_500_970 x ltac:(lra)). apply Rabs_le. nra. }
  destruct (rounds_finite _ _ R B) as [F _]. split; [exact F|].
  apply near_round with y; auto; lra.
Qed.

Lemma fmul_nonneg a b : is_fin a = true -> is_fin b = true -> is_fin (a * b)%float = true ->
  0 <= D2R a -> 0 <= D2R b -> 0 <= D2R (a * b)%float.
Proof. intros Fa Fb F Ha Hb. apply (rounds_nonneg _ _ (mul_rounds a b Fa Fb) F). nra. Qed.

Lemma fadd_nonneg a b : is_fin a = true -> is_fin b = true -> is_fin (a + b)%float = true ->
  0 <= D2R a -> 0 <= D2R b -> 0 <= D2R (a + b)%float.
Proof. intros Fa Fb F Ha Hb. apply (rounds_nonneg _ _ (add_rounds a b Fa Fb) F). lra. Qed.
