(* ===== verification/Round.v ===== *)
(** * Decimal rounding through text

    Models [core/src/domain/round.c]: [alpha_round_dp] prints the value with
    [%.*f] into a 64-byte buffer and reads the text back with [strtod].  Both steps
    round to nearest with ties to even; [Nearest] has the second. *)

From Stdlib Require Import ZArith Lia Bool Reals Lra Floats Ascii String.
From S2P Require Import Prelude CStr Double Nearest.
Set Warnings "-inexact-float".
Open Scope string_scope.
Open Scope Z_scope.

(** ** [printf("%.*f")] *)

(** [m * 2^e * 10^n] rounded to an integer, ties to even: the digits glibc
    prints for a finite value are those of the exact value correctly rounded. *)
Definition div_half_even (p d : Z) : Z :=
  let q := p / d in
  let r := p mod d in
  match Z.compare (2 * r) d with
  | Lt => q
  | Gt => q + 1
  | Eq => if Z.even q then q else q + 1
  end.

Definition scale_round (m : Z) (e : Z) (n : nat) : Z :=
  let p := m * 10 ^ Z.of_nat n in
  if 0 <=? e then p * 2 ^ e else div_half_even p (2 ^ (- e)).

(** The digits of [N / 10^n]: integer part, point, [n] decimals. *)
Definition fixed_point (N : Z) (n : nat) : string :=
  dec_digits (dec_fuel (N / 10 ^ Z.of_nat n)) (N / 10 ^ Z.of_nat n)
    (match n with
     | O => ""
     | S _ => String "." (fixed_digits n (N mod 10 ^ Z.of_nat n) "")
     end).

Definition sign_text (s : bool) (t : string) : string := if s then String "-" t else t.

Definition format_fixed (v : float) (n : nat) : string :=
  match Prim2SF v with
  | S754_nan => "nan"
  | S754_infinity s => sign_text s "inf"
  | S754_zero s => sign_text s (fixed_point 0 n)
  | S754_finite s m e => sign_text s (fixed_point (scale_round (Zpos m) e n) n)
  end.

(** ** [strtod] *)

(** The double nearest to [N / 10^k]; the sign of a zero is kept. *)
Definition dec_to_double (s : bool) (N : Z) (k : nat) : float :=
  match N with
  | Zpos p =>
      SF2Prim (SFdiv prec emax (S754_finite s p 0)
                 (S754_finite false (Z.to_pos (10 ^ Z.of_nat k)) 0))
  | _ => SF2Prim (S754_zero s)
  end.

Fixpoint scan_frac (t : string) (acc : Z) (k : nat) : Z * nat :=
  match t with
  | String c r => if isdigit c then scan_frac r (acc * 10 + digit_val c) (S k) else (acc, k)
  | EmptyString => (acc, k)
  end.

(** The texts [printf] produces: an optional sign, then inf, nan or a decimal. *)
Definition strtod (t : string) : float :=
  let '(s, t) := match t with
                 | String c r => if Ascii.eqb c "-" then (true, r) else (false, t)
                 | EmptyString => (false, t)
                 end in
  if String.eqb t "inf" then (if s : bool then neg_infinity else infinity)
  else if String.eqb t "nan" then nan
  else
    let '(ip, seen, rest) := scan_digits t 0 false in
    match rest with
    | String c r =>
        if Ascii.eqb c "." then let '(N, k) := scan_frac r ip 0 in dec_to_double s N k
        else dec_to_double s ip 0
    | EmptyString => dec_to_double s ip 0
    end.

(** ** The function *)

Definition alpha_round_dp (value : float) (ndigits : Z) : float :=
  let ndigits := if ndigits <? 0 then 0 else ndigits in
  let buffer := String.substring 0 63 (format_fixed value (Z.to_nat ndigits)) in
  strtod buffer.

(** ** Reading back what was printed *)

Lemma scan_frac_fixed w n acc v k : 0 <= n < 10 ^ Z.of_nat w ->
  scan_frac (fixed_digits w n acc) v k = scan_frac acc (v * 10 ^ Z.of_nat w + n) (w + k).
Proof.
  revert n acc v k. induction w as [|w IH]; intros n acc v k Hn.
  - cbn in *. do 2 f_equal. lia.
  - cbn [fixed_digits]. pose proof (Z.mod_pos_bound n 10 ltac:(lia)).
    rewrite Nat2Z.inj_succ, Z.pow_succ_r in * by lia.
    rewrite IH by (split; [apply Z.div_pos; lia | apply Z.div_lt_upper_bound; lia]).
    cbn [scan_frac]. rewrite isdigit_digit_char, digit_val_digit_char by lia.
    replace (S (w + k)) with (S w + k)%nat by lia. f_equal.
    pose proof (Z.div_mod n 10 ltac:(lia)). lia.
Qed.

Lemma dot_not_digit r v b : scan_digits (String "." r) v b = (v, b, String "." r).
Proof. reflexivity. Qed.

Lemma digit_not_inf k r : 0 <= k < 10 ->
  String.eqb (String (digit_char k) r) "inf" = false /\
  String.eqb (String (digit_char k) r) "nan" = false /\
  Ascii.eqb (digit_char k) "-" = false.
Proof. intros H. digit_cases H; repeat split; reflexivity. Qed.

Lemma fixed_point_head N n : 0 <= N -> exists k r, fixed_point N n = String (digit_char k) r /\ 0 <= k < 10.
Proof.
  intros H. apply dec_digits_head; [|unfold dec_fuel; congruence].
  apply Z.div_pos; [lia|]. apply Z.pow_pos_nonneg; lia.
Qed.

Lemma strtod_fixed_point s N n : 0 <= N ->
  strtod (sign_text s (fixed_point N n)) = dec_to_double s N n.
Proof.
  intros HN. destruct (fixed_point_head N n HN) as (k & r & E & Hk).
  destruct (digit_not_inf k r Hk) as (I1 & I2 & I3).
  assert (X : strtod (sign_text s (fixed_point N n)) =
    let '(ip, seen, rest) := scan_digits (fixed_point N n) 0 false in
    match rest with
    | String c r =>
        if Ascii.eqb c "." then let '(N, k) := scan_frac r ip 0 in dec_to_double s N k
        else dec_to_double s ip 0
    | EmptyString => dec_to_double s ip 0
    end).
  { unfold strtod. rewrite E. destruct s; cbn [sign_text].
    - change (Ascii.eqb "-" "-") with true. cbv iota beta. now rewrite I1, I2.
    - rewrite I3. cbv iota beta. now rewrite I1, I2. }
  rewrite X. clear X E I1 I2 I3. unfold fixed_point.
  assert (HP : 0 < 10 ^ Z.of_nat n) by (apply Z.pow_pos_nonneg; lia).
  rewrite scan_print_nonneg by (apply Z.div_pos; lia).
  destruct n as [|n].
  - change (10 ^ Z.of_nat 0) with 1. rewrite Z.div_1_r. reflexivity.
  - rewrite dot_not_digit. change (Ascii.eqb "." ".") with true. cbv iota beta.
    rewrite scan_frac_fixed by (apply Z.mod_pos_bound; lia). cbn [scan_frac].
    f_equal; [|lia]. rewrite (Z.div_mod N (10 ^ Z.of_nat (S n))) at 3 by lia. lia.
Qed.

(** ** The text fits the buffer for every value of practical size *)

Lemma length_fixed_digits w n acc :
  String.length (fixed_digits w n acc) = (w + String.length acc)%nat.
Proof. revert n acc. induction w as [|w IH]; intros; cbn [fixed_digits]; [reflexivity|]. rewrite IH. cbn. lia. Qed.

Lemma length_dec_le fuel n w : 0 <= n < 10 ^ Z.of_nat w -> w <> O ->
  (String.length (dec_digits fuel n "") <= w)%nat.
Proof.
  revert n w. induction fuel as [|f IH]; intros n w Hn Hw; [cbn; lia|].
  cbn [dec_digits]. break_if; zprop; [cbn; lia|].
  rewrite length_dec_digits. cbn [String.length].
  destruct w as [|[|w]]; [congruence|cbn in Hn; lia|].
  assert (0 <= n / 10 < 10 ^ Z.of_nat (S w)).
  { split; [apply Z.div_pos; lia|]. apply Z.div_lt_upper_bound; [lia|].
    rewrite (Nat2Z.inj_succ (S w)), Z.pow_succ_r in Hn by lia. lia. }
  specialize (IH (n / 10) (S w) H ltac:(congruence)). lia.
Qed.

Lemma length_fixed_point N n w : 0 <= N -> N / 10 ^ Z.of_nat n < 10 ^ Z.of_nat w -> w <> O ->
  (String.length (fixed_point N n) <= w + 1 + n)%nat.
Proof.
  intros HN Hw Hw0. unfold fixed_point. rewrite length_dec_digits.
  assert (0 <= N / 10 ^ Z.of_nat n) by (apply Z.div_pos; [lia|]; apply Z.pow_pos_nonneg; lia).
  pose proof (length_dec_le (dec_fuel (N / 10 ^ Z.of_nat n)) (N / 10 ^ Z.of_nat n) w (conj H Hw) Hw0).
  destruct n; cbn [String.length]; [lia|]. rewrite length_fixed_digits. cbn [String.length]. lia.
Qed.

(** ** What the printed integer is *)

Definition sf_sign (x : spec_float) : bool :=
  match x with S754_zero s | S754_infinity s | S754_finite s _ _ => s | S754_nan => false end.

(** The integer whose decimal digits are printed for a finite value. *)
Definition printed_int (v : float) (n : nat) : Z :=
  match Prim2SF v with S754_finite _ m e => scale_round (Zpos m) e n | _ => 0 end.

Lemma pow10_IZR n : (0 < IZR (10 ^ Z.of_nat n))%R.
Proof. apply (IZR_lt 0), Z.pow_pos_nonneg; lia. Qed.

Lemma half_even_close p d : 0 < d -> 2 * Z.abs (div_half_even p d * d - p) <= d.
Proof.
  intros Hd. unfold div_half_even. set (q := p / d). set (r := p mod d).
  pose proof (Z.div_mod p d ltac:(lia)). pose proof (Z.mod_pos_bound p d Hd).
  fold q r in H, H0. destruct (Z.compare_spec (2 * r) d) as [E|L|G];
    [destruct (Z.even q)|..]; nia.
Qed.

(** A tie goes to the even integer. *)
Lemma half_even_tie p d : 0 < d -> 2 * Z.abs (div_half_even p d * d - p) = d -> Z.even (div_half_even p d) = true.
Proof.
  intros Hd. unfold div_half_even. set (q := p / d). set (r := p mod d).
  pose proof (Z.div_mod p d ltac:(lia)). pose proof (Z.mod_pos_bound p d Hd).
  fold q r in H, H0. destruct (Z.compare_spec (2 * r) d) as [E|L|G]; [|nia|nia].
  intros _. destruct (Z.even q) eqn:Q; [exact Q|]. now rewrite Z.even_add, Q.
Qed.

(** [N] is the integer nearest to [y], ties going to the even one. *)
Definition nearest_even (N : Z) (y : R) : Prop :=
  (Rabs (IZR N - y) <= / 2)%R /\ (Rabs (IZR N - y) = / 2 -> Z.even N = true)%R.

(** There is only one. *)
Lemma nearest_even_unique a b y : nearest_even a y -> nearest_even b y -> a = b.
Proof.
  intros [A1 A2] [B1 B2]. apply Rabs_bounds in A1 as A, B1 as B.
  assert (D : (- 1 <= IZR a - IZR b <= 1)%R) by lra. rewrite <- minus_IZR in D.
  destruct D as [D1 D2]. apply (le_IZR (-1)) in D1. apply (le_IZR _ 1) in D2.
  destruct (Z.eq_dec a b) as [E|Ne]; [exact E|exfalso].
  assert (T : Z.even a = true /\ Z.even b = true).
  { assert (K : a = b + 1 \/ a = b - 1) by lia.
    destruct K as [K|K]; apply (f_equal IZR) in K; rewrite ?plus_IZR, ?minus_IZR in K;
      (split; [apply A2|apply B2]); unfold Rabs; destruct (Rcase_abs _); lra. }
  destruct T as [Ea Eb]. apply Z.even_spec in Ea as (i & Ea). apply Z.even_spec in Eb as (j & Eb). lia.
Qed.

Lemma scale_round_close m e n :
  (Rabs (IZR (scale_round m e n) - IZR m * bpow e * IZR (10 ^ Z.of_nat n)) <= / 2)%R.
Proof.
  unfold scale_round. set (p := m * 10 ^ Z.of_nat n).
  destruct (0 <=? e) eqn:L; zprop.
  - rewrite mult_IZR, <- bpow_IZR by lia. unfold p. rewrite mult_IZR.
    replace (_ - _)%R with 0%R by ring. rewrite Rabs_R0. lra.
  - set (d := 2 ^ (- e)). assert (Hd : 0 < d) by (apply Z.pow_pos_nonneg; lia).
    pose proof (half_even_close p d Hd) as H. cbv zeta. fold d. set (N := div_half_even p d) in *.
    assert (EB : (bpow e * IZR d = 1)%R).
    { unfold d. rewrite <- bpow_IZR, <- bpow_add by lia. replace (e + - e) with 0 by lia. reflexivity. }
    replace (IZR N - IZR m * bpow e * IZR (10 ^ Z.of_nat n))%R with (IZR (N * d - p) * bpow e)%R.
    + pose proof (bpow_pos e). rewrite Rabs_mult, (Rabs_right (bpow e)) by lra.
      rewrite <- abs_IZR. apply IZR_le in H. rewrite mult_IZR in H. nra.
    + unfold p. rewrite minus_IZR, !mult_IZR. set (t := IZR (10 ^ _)).
      replace ((IZR N * IZR d - IZR m * t) * bpow e)%R
        with (IZR N * (bpow e * IZR d) - IZR m * t * bpow e)%R by ring. rewrite EB. ring.
Qed.

Lemma scale_round_nearest m e n : nearest_even (scale_round m e n) (IZR m * bpow e * IZR (10 ^ Z.of_nat n)).
Proof.
  split; [apply scale_round_close|]. unfold scale_round. set (p := m * 10 ^ Z.of_nat n).
  destruct (0 <=? e) eqn:L; zprop.
  - rewrite mult_IZR, <- bpow_IZR by lia. unfold p. rewrite mult_IZR.
    replace (_ - _)%R with 0%R by ring. rewrite Rabs_R0. lra.
  - set (d := 2 ^ (- e)). assert (Hd : 0 < d) by (apply Z.pow_pos_nonneg; lia). intros T.
    apply half_even_tie; [exact Hd|]. set (N := div_half_even p d) in *. pose proof (bpow_pos e) as Hp.
    assert (EB : (bpow e * IZR d = 1)%R).
    { unfold d. rewrite <- bpow_IZR, <- bpow_add by lia. replace (e + - e) with 0 by lia. reflexivity. }
    apply eq_IZR. rewrite mult_IZR, abs_IZR, minus_IZR, mult_IZR. unfold p. rewrite mult_IZR.
    replace (IZR N * IZR d - IZR m * IZR (10 ^ Z.of_nat n))%R
      with ((IZR N - IZR m * bpow e * IZR (10 ^ Z.of_nat n)) * IZR d)%R.
    + rewrite Rabs_mult, T, (Rabs_right (IZR d)); [lra|]. apply Rle_ge, (IZR_le 0). lia.
    + replace (IZR m * bpow e * IZR (10 ^ Z.of_nat n) )%R
        with (IZR m * IZR (10 ^ Z.of_nat n) * bpow e)%R by ring.
      rewrite Rmult_minus_distr_r. f_equal. rewrite Rmult_assoc, EB. ring.
Qed.

Lemma printed_int_nearest v n : is_fin v = true ->
  nearest_even (printed_int v n) (Rabs (D2R v) * IZR (10 ^ Z.of_nat n)).
Proof.
  intros F. unfold printed_int, D2R, is_fin in *.
  destruct (Prim2SF v) as [s| | |s m e]; try discriminate; cbn [SF2R].
  - rewrite Rabs_R0, Rmult_0_l. split; rewrite Rminus_0_r, Rabs_R0; lra.
  - rewrite Rabs_mult, Rabs_sgn, Rmult_1_l, (Rabs_right (_ * _)); [apply scale_round_nearest|].
    pose proof (pos_val m e). lra.
Qed.

Lemma scale_round_nonneg m e n : 0 <= m -> 0 <= scale_round m e n.
Proof.
  intros Hm. pose proof (scale_round_close m e n) as H.
  assert (0 <= IZR m * bpow e * IZR (10 ^ Z.of_nat n))%R.
  { pose proof (bpow_pos e). pose proof (pow10_IZR n). apply (IZR_le 0) in Hm.
    repeat apply Rmult_le_pos; lra. }
  apply Rabs_bounds in H. apply Z.lt_pred_le. apply lt_IZR. change (IZR (Z.pred 0)) with (-1)%R. lra.
Qed.

Lemma printed_int_close v n : is_fin v = true ->
  (Rabs (IZR (printed_int v n) - Rabs (D2R v) * IZR (10 ^ Z.of_nat n)) <= / 2)%R
  /\ 0 <= printed_int v n.
Proof.
  intros F. unfold printed_int, D2R, is_fin in *.
  destruct (Prim2SF v) as [s| | |s m e]; try discriminate; cbn [SF2R].
  - rewrite Rabs_R0, Rmult_0_l, Rminus_0_r, Rabs_R0. split; [lra|lia].
  - rewrite Rabs_mult, Rabs_sgn, Rmult_1_l, (Rabs_right (_ * _)).
    + split; [apply scale_round_close | apply scale_round_nonneg; lia].
    + pose proof (pos_val m e). lra.
Qed.

Lemma dec_to_double_rounds s N k : 0 <= N ->
  rounds (sgn s * (IZR N / IZR (10 ^ Z.of_nat k))) (dec_to_double s N k).
Proof.
  intros HN. unfold rounds, dec_to_double. destruct N as [|p|p]; [| |lia].
  - rewrite Prim2SF_SF2Prim by reflexivity.
    replace (sgn s * (0 / IZR (10 ^ Z.of_nat k)))%R with 0%R by (unfold Rdiv; ring).
    apply rounds_zero.
  - assert (HP : 0 < 10 ^ Z.of_nat k) by (apply Z.pow_pos_nonneg; lia).
    pose proof (SFdiv_core_rounds s p 0 (Z.to_pos (10 ^ Z.of_nat k)) 0) as H.
    cbn [SFdiv]. rewrite xorb_false_r.
    destruct (SFdiv_core_binary _ _ _ _ _ _) as [[q e'] l].
    rewrite Z2Pos.id, bpow_0, !Rmult_1_r in H by exact HP.
    rewrite Prim2SF_SF2Prim; [exact H | apply H].
Qed.

Lemma dec_to_double_nearest s N k : 0 <= N -> is_fin (dec_to_double s N k) = true ->
  nearest (sgn s * (IZR N / IZR (10 ^ Z.of_nat k))) (dec_to_double s N k).
Proof.
  intros HN F. split; [exact F|]. unfold D2R at 1 3 6. unfold is_fin in F. unfold dec_to_double in *.
  destruct N as [|p|p]; [| |lia].
  - rewrite Prim2SF_SF2Prim by reflexivity. intros z _.
    replace (sgn s * (0 / IZR (10 ^ Z.of_nat k)))%R with 0%R by (unfold Rdiv; ring). cbn [SF2R].
    rewrite Rminus_0_r, Rabs_R0. split; [apply Rabs_pos|auto].
  - assert (HP : 0 < 10 ^ Z.of_nat k) by (apply Z.pow_pos_nonneg; lia).
    pose proof (SFdiv_nearest s p (Z.to_pos (10 ^ Z.of_nat k))) as H.
    pose proof (SFdiv_core_rounds s p 0 (Z.to_pos (10 ^ Z.of_nat k)) 0) as V.
    cbn [SFdiv] in *. rewrite xorb_false_r in *.
    destruct (SFdiv_core_binary _ _ _ _ _ _) as [[q e'] l].
    rewrite Z2Pos.id in H by exact HP. rewrite Prim2SF_SF2Prim in * by apply V. exact (H F).
Qed.

Lemma sign_text_length s t : (String.length (sign_text s t) <= S (String.length t))%nat.
Proof. destruct s; cbn; lia. Qed.

Lemma alpha_round_dp_eq v n : is_fin v = true -> (Rabs (D2R v) <= IZR (10 ^ 40))%R -> (n <= 10)%nat ->
  alpha_round_dp v (Z.of_nat n) = dec_to_double (sf_sign (Prim2SF v)) (printed_int v n) n.
Proof.
  intros F B Hn. destruct (printed_int_close v n F) as [C P0].
  assert (T : format_fixed v n = sign_text (sf_sign (Prim2SF v)) (fixed_point (printed_int v n) n)).
  { unfold format_fixed, printed_int, is_fin in *. destruct (Prim2SF v); try discriminate; reflexivity. }
  unfold alpha_round_dp. replace (Z.of_nat n <? 0) with false by lia. rewrite Nat2Z.id, T.
  assert (HP : 0 < 10 ^ Z.of_nat n) by (apply Z.pow_pos_nonneg; lia).
  assert (U : printed_int v n <= 10 ^ 40 * 10 ^ Z.of_nat n).
  { apply Rabs_bounds in C. apply Z.lt_succ_r, lt_IZR. unfold Z.succ. rewrite plus_IZR, mult_IZR.
    pose proof (pow10_IZR n). nra. }
  rewrite substring_all.
  - now apply strtod_fixed_point.
  - pose proof (sign_text_length (sf_sign (Prim2SF v)) (fixed_point (printed_int v n) n)).
    pose proof (length_fixed_point (printed_int v n) n 41 P0) as L.
    assert (printed_int v n / 10 ^ Z.of_nat n < 10 ^ Z.of_nat 41).
    { apply Z.div_lt_upper_bound; [exact HP|].
      assert (10 ^ 40 < 10 ^ Z.of_nat 41) by (vm_compute; reflexivity). nia. }
    specialize (L H0 ltac:(congruence)). lia.
Qed.

(** The rounded value is the double nearest a decimal within half a unit of the
    last kept place. *)
Lemma alpha_round_dp_spec v n : is_fin v = true -> (Rabs (D2R v) <= IZR (10 ^ 40))%R -> (n <= 10)%nat ->
  exists N, 0 <= N /\
    (Rabs (IZR N - Rabs (D2R v) * IZR (10 ^ Z.of_nat n)) <= / 2)%R /\
    rounds (sgn (sf_sign (Prim2SF v)) * (IZR N / IZR (10 ^ Z.of_nat n)))
      (alpha_round_dp v (Z.of_nat n)).
Proof.
  intros F B Hn. exists (printed_int v n). destruct (printed_int_close v n F) as [C P0].
  split; [exact P0|]. split; [exact C|].
  rewrite alpha_round_dp_eq by assumption. now apply dec_to_double_rounds.
Qed.

Lemma sgn_abs v : is_fin v = true -> (sgn (sf_sign (Prim2SF v)) * Rabs (D2R v) = D2R v)%R.
Proof.
  unfold is_fin, D2R. destruct (Prim2SF v) as [s| | |s m e]; try discriminate; intros _;
    cbn [sf_sign SF2R].
  - rewrite Rabs_R0. ring.
  - pose proof (pos_val m e). rewrite Rabs_mult, Rabs_sgn, (Rabs_right (_ * _)) by lra.
    destruct s; cbn [sgn]; ring.
Qed.

(** Rounding cannot leave an interval bounded by integers. *)
Lemma alpha_round_dp_between v n lo hi : is_fin v = true -> (n <= 10)%nat ->
  Z.abs lo <= 10 ^ 15 -> Z.abs hi <= 10 ^ 15 -> (IZR lo <= D2R v <= IZR hi)%R ->
  is_fin (alpha_round_dp v (Z.of_nat n)) = true /\
  (IZR lo <= D2R (alpha_round_dp v (Z.of_nat n)) <= IZR hi)%R.
Proof.
  intros F Hn Hlo Hhi B.
  assert (BB : (Rabs (D2R v) <= IZR (10 ^ 15))%R).
  { apply Rabs_le. rewrite <- opp_IZR. split.
    - apply Rle_trans with (IZR lo); [apply IZR_le; lia|lra].
    - apply Rle_trans with (IZR hi); [lra|apply IZR_le; lia]. }
  destruct (alpha_round_dp_spec v n F) as (N & HN & C & R); [|exact Hn|].
  { apply Rle_trans with (1 := BB). apply IZR_le. vm_compute. discriminate. }
  pose proof (sgn_abs v F) as S. pose proof (pow10_IZR n) as HT. set (T := 10 ^ Z.of_nat n) in *.
  set (s := sf_sign (Prim2SF v)) in *.
  destruct (representable_Z lo ltac:(lia)) as (fl & Fl & El).
  destruct (representable_Z hi ltac:(lia)) as (fh & Fh & Eh).
  rewrite <- El, <- Eh. apply (rounds_between _ _ R fl fh Fl Fh). rewrite El, Eh.
  assert (K : (Rabs (IZR (if s then - N else N) - D2R v * IZR T) <= / 2)%R).
  { destruct s; cbn [sgn] in S.
    - rewrite opp_IZR. replace (- IZR N - D2R v * IZR T)%R
        with (- (IZR N - Rabs (D2R v) * IZR T))%R by (rewrite <- S at 2; ring).
      now rewrite Rabs_Ropp.
    - replace (D2R v) with (Rabs (D2R v)) by lra. exact C. }
  apply Rabs_bounds in K.
  assert (KL : lo * T <= (if s then - N else N)).
  { apply Z.lt_pred_le, lt_IZR. rewrite <- Z.sub_1_r, minus_IZR, mult_IZR. nra. }
  assert (KH : (if s then - N else N) <= hi * T).
  { apply Z.lt_succ_r, lt_IZR. unfold Z.succ. rewrite plus_IZR, mult_IZR. nra. }
  apply IZR_le in KL, KH. rewrite mult_IZR in KL, KH.
  replace (sgn s * (IZR N / IZR T))%R with (IZR (if s then - N else N) / IZR T)%R
    by (destruct s; cbn [sgn]; rewrite ?opp_IZR; field; lra).
  split; apply Rmult_le_reg_r with (IZR T); try exact HT; unfold Rdiv;
    rewrite Rmult_assoc, Rinv_l by lra; lra.
Qed.

Lemma binary_round_aux_sign s m e l x : 0 <= m -> in_cell m e (loc_inexact l) x ->
  e <= fexp64 (Zdigits2 m + e) -> sf_sign (binary_round_aux prec emax s m e l) = s.
Proof.
  intros Hm Hc He. destruct (round_aux_spec s m e l x Hm Hc He)
    as (m1 & k & e1 & mr & er & _ & _ & _ & _ & _ & _ & _ & _ & _ & ->).
  destruct mr; try reflexivity. now destruct (er <=? 971).
Qed.


Lemma sign_of_dec s N k : 0 <= N -> sf_sign (Prim2SF (dec_to_double s N k)) = s.
Proof.
  intros HN. destruct (dec_to_double_rounds s N k HN) as (V & _).
  unfold dec_to_double in *. destruct N as [|p|p]; [| |lia].
  - now rewrite Prim2SF_SF2Prim.
  - cbn [SFdiv] in *. rewrite xorb_false_r in *.
    pose proof (SFdiv_core_cell p 0 (Z.to_pos (10 ^ Z.of_nat k)) 0) as H.
    pose proof (SFdiv_core_rounds s p 0 (Z.to_pos (10 ^ Z.of_nat k)) 0) as R.
    destruct (SFdiv_core_binary _ _ _ _ _ _) as [[q e'] l]. destruct H as (Hq & Hc & He).
    rewrite Prim2SF_SF2Prim by apply R. exact (binary_round_aux_sign s q e' l _ Hq Hc He).
Qed.

Lemma Z_close_eq (a b : Z) : (Rabs (IZR a - IZR b) < 1)%R -> a = b.
Proof.
  intros H. rewrite <- minus_IZR, <- abs_IZR in H. apply (lt_IZR _ 1) in H. lia.
Qed.

Lemma ulp_fifty : (bpow (-52) * bpow 50 = / 4)%R.
Proof.
  rewrite <- bpow_add. change (-52 + 50) with (- (2)). rewrite bpow_neg by lia. change (2 ^ 2) with 4. lra.
Qed.

Lemma tiny_scaled : (bpow (-1074) * IZR (10 ^ 10) <= / 8)%R.
Proof.
  apply Rle_trans with (bpow (-1074) * bpow 34)%R.
  - apply Rmult_le_compat_l; [apply Rlt_le, bpow_pos|]. rewrite bpow_IZR by lia.
    apply IZR_le. vm_compute. discriminate.
  - rewrite <- bpow_add. apply Rle_trans with (bpow (-3)); [apply bpow_le; lia|].
    change (-3) with (- (3)). rewrite bpow_neg by lia. change (2 ^ 3) with 8. lra.
Qed.

Lemma pow10_range n : (n <= 10)%nat -> (1 <= IZR (10 ^ Z.of_nat n) <= IZR (10 ^ 10))%R.
Proof.
  intros Hn. split; [apply (IZR_le 1)|apply IZR_le].
  - pose proof (Z.pow_pos_nonneg 10 (Z.of_nat n)). lia.
  - apply Z.pow_le_mono_r; lia.
Qed.

Lemma decimal_range N n : 0 <= N <= 2 ^ 50 -> (n <= 10)%nat ->
  (0 <= IZR N / IZR (10 ^ Z.of_nat n) <= bpow 50)%R.
Proof.
  intros HN Hn. pose proof (pow10_range n Hn). set (T := IZR (10 ^ Z.of_nat n)) in *.
  assert (N50 : (0 <= IZR N <= bpow 50)%R).
  { rewrite bpow_IZR by lia. split; [apply (IZR_le 0)|apply IZR_le]; lia. }
  assert (0 < / T <= 1)%R.
  { split; [apply Rinv_0_lt_compat; lra|]. rewrite <- Rinv_1. apply Rinv_le_contravar; lra. }
  unfold Rdiv. nra.
Qed.

(** Reading a decimal of at most fifty bits: finite, within one unit of rounding. *)
Lemma dec_to_double_near s N n : 0 <= N <= 2 ^ 50 -> (n <= 10)%nat ->
  let x := (IZR N / IZR (10 ^ Z.of_nat n))%R in
  is_fin (dec_to_double s N n) = true /\
  (Rabs (Rabs (D2R (dec_to_double s N n)) - x) <= bpow (-52) * x + bpow (-1074))%R.
Proof.
  intros HN Hn x. pose proof (decimal_range N n HN Hn) as X. fold x in X.
  pose proof (dec_to_double_rounds s N n (proj1 HN)) as R. fold x in R.
  assert (bpow 50 <= bpow 970)%R by (apply bpow_le; lia).
  assert (RX : Rabs (sgn s * x) = x) by (rewrite Rabs_mult, Rabs_sgn, Rabs_right; lra).
  destruct (rounds_finite _ _ R ltac:(lra)) as [F _]. split; [exact F|].
  pose proof (rounds_error _ _ R F) as E. rewrite RX in E.
  apply Rle_trans with (2 := E). rewrite <- RX at 1. apply Rabs_triang_inv2.
Qed.

(** Printing the rounded value again gives the same digits. *)
Lemma printed_int_stable s N n : 0 <= N <= 2 ^ 50 -> (n <= 10)%nat ->
  is_fin (dec_to_double s N n) = true /\ printed_int (dec_to_double s N n) n = N /\
  (Rabs (D2R (dec_to_double s N n)) <= IZR (10 ^ 40))%R.
Proof.
  intros HN Hn. destruct (dec_to_double_near s N n HN Hn) as [F E]. pose proof (decimal_range N n HN Hn) as X.
  pose proof (pow10_range n Hn) as T10. pose proof ulp_fifty as P52. pose proof tiny_scaled as P1074.
  set (f := dec_to_double s N n) in *. set (T := IZR (10 ^ Z.of_nat n)) in *. set (x := (IZR N / T)%R) in *.
  assert (EX : (x * T = IZR N)%R) by (unfold x; field; lra).
  assert (N50 : (IZR N <= bpow 50)%R) by (rewrite bpow_IZR by lia; apply IZR_le; lia).
  pose proof (bpow_pos (-52)). pose proof (bpow_pos (-1074)). pose proof (bpow_pos 50).
  split; [exact F|]. split.
  - destruct (printed_int_close f n F) as [C _]. fold T in C. apply Z_close_eq.
    replace (IZR (printed_int f n) - IZR N)%R
      with ((IZR (printed_int f n) - Rabs (D2R f) * T) + (Rabs (D2R f) - x) * T)%R by (rewrite <- EX; ring).
    apply Rle_lt_trans with (1 := Rabs_triang _ _). rewrite Rabs_mult, (Rabs_right T) by lra.
    assert (Rabs (Rabs (D2R f) - x) * T <= / 4 + / 8)%R; [|lra].
    apply Rle_trans with ((bpow (-52) * x + bpow (-1074)) * T)%R; [apply Rmult_le_compat_r; lra|].
    rewrite Rmult_plus_distr_r, Rmult_assoc, EX.
    assert (bpow (-52) * IZR N <= / 4)%R by nra.
    assert (bpow (-1074) * T <= / 8)%R by nra. lra.
  - apply Rabs_bounds in E.
    assert (bpow (-52) * x <= / 4)%R by nra.
    assert (bpow (-1074) <= 1)%R by (rewrite <- bpow_0; apply bpow_le; lia).
    apply Rle_trans with (bpow 51).
    + replace (bpow 51) with (bpow 50 * 2)%R by (rewrite !bpow_IZR by lia; rewrite <- mult_IZR; reflexivity).
      assert (2 <= bpow 50)%R by (rewrite bpow_IZR by lia; apply IZR_le; vm_compute; discriminate). lra.
    + rewrite bpow_IZR by lia. apply IZR_le. vm_compute. discriminate.
Qed.

(** ** Properties *)

(** The decimals of a value of moderate size are read as finite doubles. *)
Lemma decimal_finite v n : is_fin v = true -> (Rabs (D2R v) <= IZR (10 ^ 40))%R ->
  is_fin (dec_to_double (sf_sign (Prim2SF v)) (printed_int v n) n) = true.
Proof.
  intros F B. destruct (printed_int_close v n F) as [C P0]. pose proof (pow10_IZR n) as T.
  assert (T1 : (1 <= IZR (10 ^ Z.of_nat n))%R).
  { apply (IZR_le 1). pose proof (Z.pow_pos_nonneg 10 (Z.of_nat n)). lia. }
  destruct (rounds_finite _ _ (dec_to_double_rounds (sf_sign (Prim2SF v)) (printed_int v n) n P0)) as [G _]; [|exact G].
  rewrite Rabs_mult, Rabs_sgn, Rmult_1_l, Rabs_right.
  - apply Rle_trans with (IZR (10 ^ 41)); [|rewrite bpow_IZR by lia; apply IZR_le; vm_compute; discriminate].
    apply Rabs_bounds in C. apply Rmult_le_reg_r with (1 := T). unfold Rdiv. rewrite Rmult_assoc, Rinv_l by lra.
    assert (IZR (10 ^ 41) = 10 * IZR (10 ^ 40))%R by (rewrite <- mult_IZR; reflexivity).
    assert (1 <= IZR (10 ^ 40))%R by (apply (IZR_le 1); vm_compute; discriminate). nra.
  - apply Rle_ge, Rmult_le_pos; [apply (IZR_le 0); exact P0|apply Rlt_le, Rinv_0_lt_compat, T].
Qed.

(** C26: For a finite value of magnitude at most 10^40 and at most ten decimals,
    [alpha_round_dp] rounds half to even, twice: the decimal [N / 10^n] printed has
    for [N] the one integer nearest to |value| * 10^n, the even one at a tie, and the
    result is the double nearest to that decimal with the sign of the value, the one
    with the even significand at a tie.  Beyond these limits the text may not fit the
    buffer; see [round_dp_truncates_large]. *)
Theorem round_dp_correct v n :
  is_fin v = true -> (Rabs (D2R v) <= IZR (10 ^ 40))%R -> (n <= 10)%nat ->
  exists N, 0 <= N /\ nearest_even N (Rabs (D2R v) * IZR (10 ^ Z.of_nat n)) /\
    nearest (sgn (sf_sign (Prim2SF v)) * (IZR N / IZR (10 ^ Z.of_nat n))) (alpha_round_dp v (Z.of_nat n)) /\
    sf_sign (Prim2SF (alpha_round_dp v (Z.of_nat n))) = sf_sign (Prim2SF v).
Proof.
  intros F B Hn. exists (printed_int v n). destruct (printed_int_close v n F) as [_ P0].
  split; [exact P0|]. split; [exact (printed_int_nearest v n F)|]. rewrite alpha_round_dp_eq by assumption.
  split; [|exact (sign_of_dec _ _ n P0)]. apply dec_to_double_nearest; [exact P0|]. now apply decimal_finite.
Qed.

(** Two ties, 0.125 and 0.375 to two decimals, go to the even digit. *)
Lemma round_dp_correct_witness :
  (exists N, 0 <= N /\ nearest_even N (Rabs (D2R 0.125) * IZR (10 ^ Z.of_nat 2)) /\
    nearest (sgn (sf_sign (Prim2SF 0.125)) * (IZR N / IZR (10 ^ Z.of_nat 2))) (alpha_round_dp 0.125 (Z.of_nat 2)) /\
    sf_sign (Prim2SF (alpha_round_dp 0.125 (Z.of_nat 2))) = sf_sign (Prim2SF 0.125)) /\
  alpha_round_dp 0.125 2 = 0.12%float /\ alpha_round_dp 0.375 2 = 0.38%float.
Proof.
  split; [|split; vm_compute; reflexivity].
  apply (round_dp_correct 0.125%float 2); [reflexivity| |lia].
  assert (0 <= D2R 0.125 <= 1)%R.
  { rewrite <- D2R_0, <- D2R_1. split; apply leb_R; vm_compute; reflexivity. }
  rewrite Rabs_right by lra. apply Rle_trans with 1%R; [lra|]. apply (IZR_le 1). vm_compute. discriminate.
Defined.

(** Infinities and NaN come back unchanged, negative digit counts act as 0,
    and halves go to the even neighbour (0.5 to 0, 1.5 and 2.5 to 2). *)
Theorem round_dp_special n :
  (0 <= n)%Z ->
  alpha_round_dp infinity n = infinity /\ alpha_round_dp neg_infinity n = neg_infinity /\
  alpha_round_dp nan n = nan /\
  alpha_round_dp 0.5 (- n) = 0%float /\ alpha_round_dp 1.5 (- n) = 2%float /\
  alpha_round_dp 2.5 (- n) = 2%float.
Proof.
  intros Hn.
  assert (N0 : (if - n <? 0 then 0 else - n) = 0) by (break_if; zprop; lia).
  unfold alpha_round_dp. rewrite N0. repeat split; vm_compute; reflexivity.
Qed.

Lemma round_dp_special_witness :
  alpha_round_dp infinity 3 = infinity /\ alpha_round_dp neg_infinity 3 = neg_infinity /\
  alpha_round_dp nan 3 = nan /\
  alpha_round_dp 0.5 (- 3) = 0%float /\ alpha_round_dp 1.5 (- 3) = 2%float /\
  alpha_round_dp 2.5 (- 3) = 2%float.
Proof. apply (round_dp_special 3). lia. Defined.

(** A value whose text does not fit the 64-byte buffer is not rounded but
    cut: 1e100 to four decimals comes back as a number below 1e63. *)
Theorem round_dp_truncates_large :
  (alpha_round_dp 1e100 4 <? 1e63)%float = true.
Proof. vm_compute. reflexivity. Qed.

(** Rounding is idempotent while the scaled value stays below 2^49: rounding
    the rounded value to the same number of decimals changes nothing, bit for
    bit. *)
Theorem round_dp_idempotent v n :
  is_fin v = true -> (n <= 10)%nat -> (Rabs (D2R v) * IZR (10 ^ Z.of_nat n) <= bpow 49)%R ->
  alpha_round_dp (alpha_round_dp v (Z.of_nat n)) (Z.of_nat n) = alpha_round_dp v (Z.of_nat n).
Proof.
  intros F Hn B. destruct (printed_int_close v n F) as [C P0].
  assert (U : printed_int v n <= 2 ^ 50).
  { apply Rabs_bounds in C. apply le_IZR. rewrite <- bpow_IZR by lia.
    change 50 with (49 + 1). rewrite bpow_add. change (bpow 1) with (2 * 1)%R.
    assert (1 <= bpow 49)%R by (rewrite <- bpow_0; apply bpow_le; lia). lra. }
  assert (BV : (Rabs (D2R v) <= IZR (10 ^ 40))%R).
  { apply Rle_trans with (bpow 49); [|rewrite bpow_IZR by lia; apply IZR_le; vm_compute; discriminate].
    apply Rle_trans with (2 := B). rewrite <- (Rmult_1_r (Rabs (D2R v))) at 1.
    apply Rmult_le_compat_l; [apply Rabs_pos|]. apply (IZR_le 1).
    pose proof (Z.pow_pos_nonneg 10 (Z.of_nat n)). lia. }
  rewrite (alpha_round_dp_eq v n F BV Hn).
  set (s := sf_sign (Prim2SF v)).
  destruct (printed_int_stable s (printed_int v n) n ltac:(lia) Hn) as (F2 & E2 & B2).
  rewrite (alpha_round_dp_eq _ n F2 B2 Hn), E2. now rewrite sign_of_dec.
Qed.

Lemma round_dp_idempotent_witness :
  alpha_round_dp (alpha_round_dp 0 (Z.of_nat 6)) (Z.of_nat 6) = alpha_round_dp 0 (Z.of_nat 6).
Proof.
  apply (round_dp_idempotent 0%float 6); [reflexivity|lia|].
  replace (D2R 0) with 0%R by reflexivity. rewrite Rabs_R0, Rmult_0_l. apply Rlt_le, bpow_pos.
Defined.
