(* ===== verification/MarketHours.v ===== *)
(** * KRX trading calendar

    Models [core/src/calendar/market_hours.c]: the next trading session after
    an instant, skipping weekends, and the holiday-aware variant that fails
    closed when the calendar does not reach far enough.  Instants are UTC epoch
    seconds and days are KST epoch days. *)

From Stdlib Require Import ZArith Lia Bool List Sorted.
From S2P Require Import Prelude Domain.
Import ListNotations.
Open Scope Z_scope.

Definition SECONDS_PER_DAY : Z := 86400.
Definition ALPHA_KST_OFFSET_SECONDS : Z := 32400.
Definition ALPHA_SESSION_CALENDAR_INSUFFICIENT : Z := -1.

Definition floor_div (a b : Z) : Z :=
  let q := Z.quot a b in
  if negb (Z.rem a b =? 0) && negb (Bool.eqb (a <? 0) (b <? 0)) then q - 1 else q.

Definition is_weekend (epoch_day : Z) : bool :=
  Z.rem (Z.rem (epoch_day + 3) 7 + 7) 7 >=? 5.

Definition kst_day_of (from_epoch : Z) : Z :=
  floor_div (from_epoch + ALPHA_KST_OFFSET_SECONDS) SECONDS_PER_DAY.

Definition session_start_epoch (kst_day : Z) : Z :=
  kst_day * SECONDS_PER_DAY + 9 * 3600 - ALPHA_KST_OFFSET_SECONDS.

(** [while (is_weekend (day)) day += 1;] with at most [fuel] iterations. *)
Fixpoint skip_weekend (fuel : nat) (day : Z) : option Z :=
  if is_weekend day then
    match fuel with O => None | S f => skip_weekend f (day + 1) end
  else Some day.

(** A weekend is at most two days long, so three iterations are enough. *)
Definition alpha_next_trading_session_start (from_epoch : Z) : option Z :=
  let day := kst_day_of from_epoch + 1 in
  option_map session_start_epoch (skip_weekend 3 day).

Fixpoint is_holiday (epoch_day : Z) (holiday_days : list Z) : bool :=
  match holiday_days with
  | [] => false
  | h :: rest =>
      if h =? epoch_day then true
      else if h >? epoch_day then false
      else is_holiday epoch_day rest
  end.

(** The loop of the holiday-aware variant; [Some None] is the early return. *)
Fixpoint skip_closed (fuel : nat) (holiday_days : list Z) (calendar_max_day day : Z)
  : option (option Z) :=
  if is_weekend day || is_holiday day holiday_days then
    if day >? calendar_max_day then Some None
    else match fuel with
         | O => None
         | S f => skip_closed f holiday_days calendar_max_day (day + 1)
         end
  else Some (Some day).

(** The loop stops once the day passes the calendar's last one. *)
Definition calendar_fuel (calendar_max_day day : Z) : nat := Z.to_nat (calendar_max_day - day + 1).

Definition alpha_next_trading_session_start_holiday_aware
    (from_epoch : Z) (holiday_days : list Z) (calendar_max_day : Z) : option Z :=
  let day := kst_day_of from_epoch + 1 in
  match skip_closed (calendar_fuel calendar_max_day day) holiday_days calendar_max_day day with
  | None => None
  | Some None => Some ALPHA_SESSION_CALENDAR_INSUFFICIENT
  | Some (Some day) =>
      if day >? calendar_max_day then Some ALPHA_SESSION_CALENDAR_INSUFFICIENT
      else Some (session_start_epoch day)
  end.

(** ** Specification *)

(** A day the exchange is open, by the calendar's own terms. *)
Definition trading_day (holidays : list Z) (d : Z) : Prop :=
  (d + 3) mod 7 < 5 /\ ~ In d holidays.

(** [d] is the first trading day after [from]'s KST day. *)
Definition first_trading_day (holidays : list Z) (from d : Z) : Prop :=
  (from + 32400) / 86400 < d /\ trading_day holidays d /\
  forall x, (from + 32400) / 86400 < x < d -> ~ trading_day holidays x.

(** ** Lemmas *)

Lemma floor_div_spec a b : 0 < b -> floor_div a b = a / b.
Proof.
  intros Hb. unfold floor_div. replace (b <? 0) with false by lia.
  pose proof (Z.quot_rem a b ltac:(lia)) as Q.
  destruct (a <? 0) eqn:S; zprop; cbn [Bool.eqb negb].
  - rewrite andb_true_r.
    pose proof (Z.rem_bound_pos_neg a b ltac:(lia) ltac:(lia)) as RB.
    destruct (Z.rem a b =? 0) eqn:E; zprop; cbn [negb].
    + apply Z.div_unique with (r := 0); lia.
    + apply Z.div_unique with (r := Z.rem a b + b); lia.
  - rewrite andb_false_r. symmetry. rewrite Z.quot_div_nonneg; lia.
Qed.

Lemma kst_day_of_spec from : kst_day_of from = (from + 32400) / 86400.
Proof. apply floor_div_spec. reflexivity. Qed.

Lemma is_weekend_spec d : is_weekend d = ((d + 3) mod 7 >=? 5).
Proof.
  unfold is_weekend. f_equal.
  pose proof (Z.rem_bound_abs (d + 3) 7 ltac:(lia)).
  pose proof (Z.quot_rem (d + 3) 7 ltac:(lia)).
  rewrite Z.rem_mod_nonneg by lia.
  rewrite <- (Z.mod_add (d + 3) (1 - Z.quot (d + 3) 7) 7) by lia. f_equal. lia.
Qed.

Lemma session_start_spec d : session_start_epoch d = d * 86400.
Proof. unfold session_start_epoch, SECONDS_PER_DAY, ALPHA_KST_OFFSET_SECONDS. lia. Qed.

Lemma is_holiday_spec d hs : StronglySorted Z.lt hs -> is_holiday d hs = true <-> In d hs.
Proof.
  induction hs as [|h hs IH]; intros S; cbn [is_holiday In]; [intuition discriminate|].
  apply StronglySorted_inv in S as [S F]. rewrite Forall_forall in F.
  destruct (h =? d) eqn:E; zprop; [tauto|]. destruct (h >? d) eqn:G; zprop.
  - split; [discriminate|]. intros [->|I]; [lia|]. specialize (F d I). lia.
  - rewrite (IH S). intuition lia.
Qed.

Lemma open_day_spec d hs : StronglySorted Z.lt hs ->
  is_weekend d || is_holiday d hs = false <-> trading_day hs d.
Proof.
  intros S. pose proof (is_holiday_spec d hs S) as Hh.
  rewrite orb_false_iff, is_weekend_spec, Z.geb_leb, Z.leb_gt. unfold trading_day.
  destruct (is_holiday d hs); intuition (discriminate || auto).
Qed.

Lemma closed_day_spec d hs : StronglySorted Z.lt hs ->
  is_weekend d || is_holiday d hs = true -> ~ trading_day hs d.
Proof.
  intros S H C. apply (open_day_spec d hs S) in C. congruence.
Qed.

(** The loop scans upwards and stops at the first trading day, or past the end. *)
Lemma skip_closed_spec fuel hs maxd day : StronglySorted Z.lt hs ->
  (Z.to_nat (maxd - day + 1) <= fuel)%nat ->
  (exists d, skip_closed fuel hs maxd day = Some (Some d) /\ day <= d /\ trading_day hs d /\
     (forall x, day <= x < d -> ~ trading_day hs x)) \/
  (skip_closed fuel hs maxd day = Some None /\
     (forall x, day <= x <= maxd -> ~ trading_day hs x)).
Proof.
  intros S. revert day. induction fuel as [|f IH]; intros day Hf; cbn [skip_closed].
  - destruct (is_weekend day || is_holiday day hs) eqn:C.
    + right. replace (day >? maxd) with true by lia. split; [reflexivity|]. intros; lia.
    + left. exists day. apply open_day_spec in C; [|exact S]. split; [reflexivity|].
      split; [lia|]. split; [exact C|]. intros; lia.
  - destruct (is_weekend day || is_holiday day hs) eqn:C.
    + pose proof (closed_day_spec day hs S C) as N.
      destruct (day >? maxd) eqn:G; zprop.
      * right. split; [reflexivity|]. intros; lia.
      * destruct (IH (day + 1) ltac:(lia)) as [(d & -> & L & T & A)|[-> A]].
        -- left. exists d. split; [reflexivity|]. split; [lia|]. split; [exact T|].
           intros x Hx. destruct (Z.eq_dec x day) as [->|]; [exact N|]. apply A. lia.
        -- right. split; [reflexivity|]. intros x Hx.
           destruct (Z.eq_dec x day) as [->|]; [exact N|]. apply A. lia.
    + left. exists day. apply open_day_spec in C; [|exact S]. split; [reflexivity|].
      split; [lia|]. split; [exact C|]. intros; lia.
Qed.

Lemma skip_weekend_spec day : exists d, skip_weekend 3 day = Some d /\ day <= d <= day + 2 /\
  trading_day [] d /\ (forall x, day <= x < d -> ~ trading_day [] x).
Proof.
  cbn [skip_weekend]. rewrite !is_weekend_spec. unfold trading_day.
  repeat (break_if; zprop; [|eexists; split; [reflexivity|]; split; [lia|]; split;
    [split; [lia|tauto]|intros x Hx [Hx' _]; zdiv]]).
  exfalso. zdiv.
Qed.

Definition in_epoch_range (t : Z) : Prop := - 2 ^ 62 <= t <= 2 ^ 62.

(** The holiday-aware search answers exactly, and never runs out of fuel. *)
Lemma holiday_aware_spec from hs maxd :
  StronglySorted Z.lt hs ->
  (exists d, alpha_next_trading_session_start_holiday_aware from hs maxd = Some (d * 86400) /\
     first_trading_day hs from d /\ d <= maxd /\ from < d * 86400 /\
     d * 86400 <> ALPHA_SESSION_CALENDAR_INSUFFICIENT) \/
  (alpha_next_trading_session_start_holiday_aware from hs maxd
     = Some ALPHA_SESSION_CALENDAR_INSUFFICIENT /\
   forall d, first_trading_day hs from d -> maxd < d).
Proof.
  intros S. unfold alpha_next_trading_session_start_holiday_aware. rewrite kst_day_of_spec.
  set (k := (from + 32400) / 86400).
  destruct (skip_closed_spec (calendar_fuel maxd (k + 1)) hs maxd (k + 1) S (Nat.le_refl _))
    as [(d & -> & L & T & A)|[-> A]].
  - assert (F : first_trading_day hs from d).
    { split; [fold k; lia|]. split; [exact T|]. fold k. intros x Hx. apply A. lia. }
    destruct (d >? maxd) eqn:G; zprop.
    + right. split; [reflexivity|]. intros d' (L' & T' & A'). fold k in L', A'.
      destruct (Z.lt_trichotomy d' d) as [Lt|[->|Gt]]; [|lia|lia].
      exfalso. apply (A d'); [lia|exact T'].
    + left. exists d. rewrite session_start_spec. split; [reflexivity|]. split; [exact F|].
      split; [lia|]. unfold ALPHA_SESSION_CALENDAR_INSUFFICIENT. split; [unfold k in L; zdiv|lia].
  - right. split; [reflexivity|]. intros d (L & T & _). fold k in L.
    apply Z.nle_gt. intros Hd. apply (A d); [lia|exact T].
Qed.

(** ** Properties *)

(** The next session always exists, starts at 09:00 KST strictly after the
    given instant on the first weekday after its KST day, at most three days
    later, and every step stays in [int64_t] for instants within +-2^62. *)
Theorem next_session_weekday from :
  exists d, alpha_next_trading_session_start from = Some (d * 86400) /\
    first_trading_day [] from d /\ d <= (from + 32400) / 86400 + 3 /\
    from < d * 86400 /\ (d * 86400 + 32400) mod 86400 = 9 * 3600 /\
    (in_epoch_range from -> in_int64 (d * 86400)).
Proof.
  unfold alpha_next_trading_session_start. rewrite kst_day_of_spec.
  destruct (skip_weekend_spec ((from + 32400) / 86400 + 1)) as (d & -> & B & T & A).
  exists d. cbn [option_map]. rewrite session_start_spec. split; [reflexivity|].
  split; [|split; [lia|]].
  - split; [lia|]. split; [exact T|]. intros x Hx. apply A. lia.
  - unfold in_epoch_range, in_int64, INT64_MIN, INT64_MAX. repeat split; try zdiv.
Qed.

(** C7: with a sorted holiday list the holiday-aware search always terminates and
    answers exactly: the session of the first day after the instant that is
    neither a weekend nor a holiday when that day is covered by the calendar,
    and otherwise the fail-closed sentinel, which no session time equals. *)
Theorem next_session_holiday_aware from hs maxd :
  StronglySorted Z.lt hs ->
  (exists d, alpha_next_trading_session_start_holiday_aware from hs maxd = Some (d * 86400) /\
     first_trading_day hs from d /\ d <= maxd /\ from < d * 86400 /\
     d * 86400 <> ALPHA_SESSION_CALENDAR_INSUFFICIENT) \/
  (alpha_next_trading_session_start_holiday_aware from hs maxd
     = Some ALPHA_SESSION_CALENDAR_INSUFFICIENT /\
   forall d, first_trading_day hs from d -> maxd < d).
Proof. apply holiday_aware_spec. Qed.

Lemma next_session_holiday_aware_witness :
  (exists d, alpha_next_trading_session_start_holiday_aware 0 [1; 4] 10 = Some (d * 86400) /\
     first_trading_day [1; 4] 0 d /\ d <= 10 /\ 0 < d * 86400 /\
     d * 86400 <> ALPHA_SESSION_CALENDAR_INSUFFICIENT) \/
  (alpha_next_trading_session_start_holiday_aware 0 [1; 4] 10
     = Some ALPHA_SESSION_CALENDAR_INSUFFICIENT /\
   forall d, first_trading_day [1; 4] 0 d -> 10 < d).
Proof.
  apply (next_session_holiday_aware 0 [1; 4] 10). repeat constructor; lia.
Defined.

(** With no holidays and a calendar covering three more days, the
    holiday-aware variant agrees with the weekend-only one. *)
Theorem holiday_aware_refines_weekend from maxd :
  (from + 32400) / 86400 + 3 <= maxd ->
  alpha_next_trading_session_start_holiday_aware from [] maxd
  = alpha_next_trading_session_start from.
Proof.
  intros Hm. unfold alpha_next_trading_session_start_holiday_aware, alpha_next_trading_session_start.
  rewrite kst_day_of_spec. set (k := (from + 32400) / 86400) in *.
  destruct (skip_weekend_spec (k + 1)) as (d & -> & B & T & A). cbn [option_map].
  destruct (skip_closed_spec (calendar_fuel maxd (k + 1)) [] maxd (k + 1)
              (SSorted_nil _) (Nat.le_refl _)) as [(d' & -> & L' & T' & A')|[-> A']].
  - assert (d' = d) as ->.
    { destruct (Z.lt_trichotomy d' d) as [Lt|[E|Gt]]; [exfalso|exact E|exfalso].
      - apply (A d'); [lia|exact T'].
      - apply (A' d); [lia|exact T]. }
    replace (d >? maxd) with false by lia. reflexivity.
  - exfalso. apply (A' d); [lia|exact T].
Qed.

Lemma holiday_aware_refines_weekend_witness :
  alpha_next_trading_session_start_holiday_aware 100000 [] 50
  = alpha_next_trading_session_start 100000.
Proof. apply (holiday_aware_refines_weekend 100000 50). vm_compute. discriminate. Defined.
