(* ===== verification/RedisCache.v ===== *)
(** * The Redis cache driver and the breaker lockout

    Models [core/platform/cache/redis_cache.c].  The Redis server behind hiredis
    is a parameter: a class [RedisServer] with the one function the driver calls,
    [redisCommand].  A command is the list of its arguments, which is what
    hiredis sends for its format strings ([%s] and [%lld] each fill one
    argument). *)

From Stdlib Require Import ZArith Lia Bool List Ascii String Sorted.
From S2P Require Import Prelude CStr Domain Date MarketHours.
Import ListNotations.
Set Warnings "-register-all".
Open Scope string_scope.
Open Scope list_scope.
Open Scope Z_scope.

(** ** hiredis *)

Inductive redisReply :=
  | REDIS_REPLY_STATUS (str : string)
  | REDIS_REPLY_STRING (str : string)
  | REDIS_REPLY_NIL
  | REDIS_REPLY_INTEGER (integer : Z)
  | REDIS_REPLY_ARRAY (element : list redisReply)
  | REDIS_REPLY_ERROR (str : string).

(** A connection to a server: a command changes its state and gives a reply,
    [None] when the connection failed. *)
Class RedisServer (S : Type) := redisCommand : S -> list string -> S * option redisReply.

Definition KEY_CAP : nat := 96.
Definition SECONDS_PER_DAY : Z := 86400.
Definition MAX_HOLIDAYS : nat := 512.
Definition ALPHA_TTL_LATEST_TICKS : Z := 60.

(** [snprintf (key, KEY_CAP, ...)] and whether its result is below [KEY_CAP]. *)
Definition key_text (text : string) : string := String.substring 0 (KEY_CAP - 1) text.
Definition key_fits (text : string) : bool := snprintf_length text <? Z.of_nat KEY_CAP.

Definition breaker_key (scope : option string) : alpha_err_t * string :=
  match scope with
  | None | Some EmptyString => (ALPHA_ERR_INVALID_ARG, "")
  | Some scope =>
      let text := ("hard_stop:lockout:" ++ scope)%string in
      (if key_fits text then ALPHA_OK else ALPHA_ERR_RANGE, key_text text)
  end.

Definition parse_epoch (text : string) : option Z :=
  match strtoll text with
  | None => None
  | Some (parsed, rest, erange) =>
      if erange || negb (String.eqb rest "") || (parsed <=? 0) then None else Some parsed
  end.

(** ** Civil dates *)

Definition days_from_civil (year : Z) (month day : Z) : Z :=
  let year := year - (if month <=? 2 then 1 else 0) in
  let era := Z.quot (if year >=? 0 then year else year - 399) 400 in
  let yoe := u32 (year - era * 400) in
  let doy := u32 (u32 (u32 (u32 (153 * u32 (month + (if month >? 2 then u32 (-3) else 9))) + 2) / 5
                         + day) - 1) in
  let doe := u32 (u32 (u32 (u32 (yoe * 365) + yoe / 4) - yoe / 100) + doy) in
  era * 146097 + doe - 719468.

Definition civil_year_from_days (epoch_day : Z) : Z :=
  let z := epoch_day + 719468 in
  let era := Z.quot (if z >=? 0 then z else z - 146096) 146097 in
  let doe := u32 (z - era * 146097) in
  let yoe := u32 (u32 (u32 (doe - doe / 1460) + doe / 36524) - doe / 146096) / 365 in
  let year := yoe + era * 400 in
  let doy := u32 (doe - u32 (u32 (u32 (365 * yoe) + yoe / 4) - yoe / 100)) in
  let mp := u32 (u32 (5 * doy) + 2) / 153 in
  let month := u32 (mp + (if mp <? 10 then 3 else u32 (-9))) in
  year + (if month <=? 2 then 1 else 0).

(** ** The holiday calendar *)

Fixpoint skip_space (cursor : string) : string :=
  match cursor with
  | String c r => if isspace c then skip_space r else cursor
  | EmptyString => cursor
  end.

(** [text + k] *)
Fixpoint advance (k : nat) (text : string) : string :=
  match k, text with
  | S k, String _ r => advance k r
  | _, _ => text
  end.

Fixpoint parse_fixed_decimal (text : string) (digits : nat) (parsed : Z) : option Z :=
  match digits with
  | O => Some parsed
  | S digits =>
      if negb (isdigit (char_at text 0)) then None
      else parse_fixed_decimal (advance 1 text) digits
             (u32 (u32 (parsed * 10) + digit_val (char_at text 0)))
  end.

Definition QUOTE : ascii := "034"%char.

(** The checks of one array entry; [None] is [return false]. *)
Definition parse_holiday (cursor : string) (expected_year : Z) (days : list Z) : option Z :=
  if (List.length days =? MAX_HOLIDAYS)%nat || (String.length cursor <? 12)%nat
     || negb (Ascii.eqb (char_at cursor 0) QUOTE) || negb (Ascii.eqb (char_at cursor 5) "-")
     || negb (Ascii.eqb (char_at cursor 8) "-") || negb (Ascii.eqb (char_at cursor 11) QUOTE)
  then None
  else
    let? year := parse_fixed_decimal (advance 1 cursor) 4 0 in
    let? month := parse_fixed_decimal (advance 6 cursor) 2 0 in
    let? day := parse_fixed_decimal (advance 9 cursor) 2 0 in
    if negb (year =? u32 expected_year) || (month <? 1) || (month >? 12) || (day <? 1) || (day >? 31)
    then None
    else
      let epoch_day := days_from_civil year month day in
      if negb (civil_year_from_days epoch_day =? year)
         || match List.last (List.map Some days) None with
            | Some prev => epoch_day <=? prev
            | None => false
            end
      then None
      else Some epoch_day.

(** The loop over the entries from [cursor]; the outer [None] is out of fuel and
    the inner one is [return false]. *)
Fixpoint holiday_loop (fuel : nat) (cursor : string) (expected_year : Z) (days : list Z)
  : option (option (list Z * string)) :=
  if Ascii.eqb (char_at cursor 0) "]" then Some (Some (days, cursor))
  else
    match fuel with
    | O => None
    | S fuel =>
        match parse_holiday cursor expected_year days with
        | None => Some None
        | Some epoch_day =>
            let days := days ++ [epoch_day] in
            let cursor := skip_space (advance 12 cursor) in
            if Ascii.eqb (char_at cursor 0) "," then
              holiday_loop fuel (skip_space (advance 1 cursor)) expected_year days
            else if negb (Ascii.eqb (char_at cursor 0) "]") then Some None
            else holiday_loop fuel cursor expected_year days
        end
    end.

(** An entry takes at least twelve characters, so the text's length bounds the
    iterations. *)
Definition parse_holiday_json (json : string) (expected_year : Z) : option (option (list Z)) :=
  let cursor := skip_space json in
  if negb (Ascii.eqb (char_at cursor 0) "[") then Some None
  else
    let cursor := skip_space (advance 1 cursor) in
    match holiday_loop (String.length json) cursor expected_year [] with
    | None => None
    | Some None => Some None
    | Some (Some (days, cursor)) =>
        let cursor := skip_space (advance 1 cursor) in
        if negb (String.eqb cursor "") then Some None else Some (Some days)
    end.

(** ** Operations on the server *)

Section Operations.
Context {S : Type} {server : RedisServer S}.

Definition redis_server_time (redis : S) : S * (alpha_err_t * Z) :=
  let '(redis, reply) := redisCommand redis ["TIME"] in
  match reply with
  | Some (REDIS_REPLY_ARRAY [REDIS_REPLY_STRING secs; _]) =>
      match parse_epoch (c_str secs) with
      | Some epoch => (redis, (ALPHA_OK, epoch))
      | None => (redis, (ALPHA_ERR_IO, 0))
      end
  | _ => (redis, (ALPHA_ERR_IO, 0))
  end.

(** The calendar of a year; its days are meaningful when the status is OK. *)
Definition load_calendar (redis : S) (year : Z) : S * (alpha_err_t * list Z) :=
  let text := ("krx:holidays:" ++ print_Z year)%string in
  if negb (key_fits text) then (redis, (ALPHA_ERR_RANGE, []))
  else
    let key := key_text text in
    let '(redis, reply) := redisCommand redis ["GET"; key] in
    match reply with
    | Some (REDIS_REPLY_STRING str) =>
        match parse_holiday_json (c_str str) year with
        | Some (Some days) =>
            let '(redis, ttl) := redisCommand redis ["TTL"; key] in
            match ttl with
            | Some (REDIS_REPLY_INTEGER integer) =>
                (redis, (if integer >? 0 then ALPHA_OK else ALPHA_ERR_IO, days))
            | _ => (redis, (ALPHA_ERR_IO, days))
            end
        | _ => (redis, (ALPHA_ERR_IO, []))
        end
    | _ => (redis, (ALPHA_ERR_IO, []))
    end.

Definition reply_is_ok (reply : option redisReply) : bool :=
  match reply with
  | Some (REDIS_REPLY_STATUS str) => String.eqb (c_str str) "OK"
  | _ => false
  end.

(** [redis] is [None] for a NULL handle. *)
Definition alpha_redis_set_latest_tick (redis : option S) (ticker payload : option string)
  : option S * alpha_err_t :=
  match redis, ticker, payload with
  | Some s, Some ticker, Some payload =>
      let text := ("redis:cache:latest_ticks:" ++ ticker)%string in
      if negb (key_fits text) then (redis, ALPHA_ERR_RANGE)
      else
        let '(s, reply) := redisCommand s ["SET"; key_text text; payload; "EX";
                                           print_Z ALPHA_TTL_LATEST_TICKS] in
        (Some s, if reply_is_ok reply then ALPHA_OK else ALPHA_ERR_IO)
  | _, _, _ => (redis, ALPHA_ERR_INVALID_ARG)
  end.

Definition alpha_redis_get_latest_tick (redis : option S) (ticker out : option string) (n : nat)
    (has_value : option bool) : option S * (alpha_err_t * option string * option bool) :=
  match redis, ticker, out, has_value with
  | Some s, Some ticker, Some _, Some _ =>
      if (n =? 0)%nat then (redis, (ALPHA_ERR_INVALID_ARG, out, has_value))
      else
        let text := ("redis:cache:latest_ticks:" ++ ticker)%string in
        if negb (key_fits text) then (redis, (ALPHA_ERR_RANGE, out, has_value))
        else
          let '(s, reply) := redisCommand s ["GET"; key_text text] in
          match reply with
          | None => (Some s, (ALPHA_ERR_IO, out, has_value))
          | Some REDIS_REPLY_NIL => (Some s, (ALPHA_OK, out, Some false))
          | Some (REDIS_REPLY_STRING str) =>
              let len := if (n <=? String.length str)%nat then (n - 1)%nat else String.length str in
              (Some s, (ALPHA_OK, Some (String.substring 0 len str), Some true))
          | Some _ => (Some s, (ALPHA_ERR_IO, out, has_value))
          end
  | _, _, _, _ => (redis, (ALPHA_ERR_INVALID_ARG, out, has_value))
  end.

Definition alpha_redis_set_breaker_lockout (redis : option S) (scope : option string)
    (now_epoch expires_at_epoch : Z) : option S * alpha_err_t :=
  match redis, scope with
  | Some s, Some _ =>
      if expires_at_epoch <=? now_epoch then (redis, ALPHA_ERR_INVALID_ARG)
      else
        let '(status, key) := breaker_key scope in
        if negb (is_ok status) then (redis, status)
        else
          let '(s, (status, server_now)) := redis_server_time s in
          if negb (is_ok status) then (Some s, status)
          else if expires_at_epoch <=? server_now then (Some s, ALPHA_ERR_INVALID_ARG)
          else
            let '(s, reply) := redisCommand s ["SET"; key; print_Z expires_at_epoch; "EXAT";
                                               print_Z expires_at_epoch] in
            (Some s, if reply_is_ok reply then ALPHA_OK else ALPHA_ERR_IO)
  | _, _ => (redis, ALPHA_ERR_INVALID_ARG)
  end.

(** The holiday-aware search; its [None] (out of fuel) never happens. *)
Definition next_session (now_epoch : Z) (holidays : list Z) (calendar_max : Z) : Z :=
  match alpha_next_trading_session_start_holiday_aware now_epoch holidays calendar_max with
  | Some expiry => expiry
  | None => ALPHA_SESSION_CALENDAR_INSUFFICIENT
  end.

(** The expiry from this year's calendar, extended by the next year's when it
    does not reach far enough; [None] when that calendar is not usable. *)
Definition choose_expiry (redis : S) (now_epoch year : Z) (holidays : list Z) : S * option Z :=
  let calendar_max := days_from_civil year 12 31 in
  let expiry := next_session now_epoch holidays calendar_max in
  if expiry =? ALPHA_SESSION_CALENDAR_INSUFFICIENT then
    let '(redis, (status, next_holidays)) := load_calendar redis (year + 1) in
    if negb (is_ok status)
       || (MAX_HOLIDAYS <? List.length holidays + List.length next_holidays)%nat
    then (redis, None)
    else
      let calendar_max := days_from_civil (year + 1) 12 31 in
      (redis, Some (next_session now_epoch (holidays ++ next_holidays) calendar_max))
  else (redis, Some expiry).

Definition alpha_redis_set_breaker_lockout_next_session (redis : option S) (scope : option string)
    (now_epoch : Z) (expires_at_out : option Z) : option S * (alpha_err_t * option Z) :=
  match redis, scope with
  | Some s, Some _ =>
      let '(s, (status, server_now)) := redis_server_time s in
      if negb (is_ok status) then (Some s, (status, expires_at_out))
      else if (now_epoch <? server_now - 5) || (now_epoch >? server_now + 5) then
        (Some s, (ALPHA_ERR_INVALID_ARG, expires_at_out))
      else
        let kst_day := Z.quot (now_epoch + ALPHA_KST_OFFSET_SECONDS) SECONDS_PER_DAY in
        let year := civil_year_from_days kst_day in
        let '(s, (status, holidays)) := load_calendar s year in
        if negb (is_ok status) then (Some s, (status, expires_at_out))
        else
          let '(s, result) := choose_expiry s now_epoch year holidays in
          match result with
          | None => (Some s, (ALPHA_ERR_IO, expires_at_out))
          | Some expiry =>
              if (expiry =? ALPHA_SESSION_CALENDAR_INSUFFICIENT) || (expiry <=? server_now) then
                (Some s, (ALPHA_ERR_IO, expires_at_out))
              else
                let '(redis, status) := alpha_redis_set_breaker_lockout (Some s) scope now_epoch expiry in
                (redis, (status,
                   match expires_at_out with
                   | Some _ => if is_ok status then Some expiry else expires_at_out
                   | None => None
                   end))
          end
  | _, _ => (redis, (ALPHA_ERR_INVALID_ARG, expires_at_out))
  end.

Definition alpha_redis_is_breaker_locked (redis : option S) (scope : option string)
    (locked : option bool) (expires_at_out : option Z)
  : option S * (alpha_err_t * option bool * option Z) :=
  match redis, scope, locked with
  | Some s, Some _, Some _ =>
      let '(status, key) := breaker_key scope in
      if negb (is_ok status) then (redis, (status, locked, expires_at_out))
      else
        let '(s, reply) := redisCommand s ["GET"; key] in
        match reply with
        | None => (Some s, (ALPHA_ERR_IO, locked, expires_at_out))
        | Some REDIS_REPLY_NIL => (Some s, (ALPHA_OK, Some false, expires_at_out))
        | Some (REDIS_REPLY_STRING str) =>
            match parse_epoch (c_str str) with
            | None => (Some s, (ALPHA_ERR_IO, Some true, expires_at_out))
            | Some expiry =>
                let '(s, (status, server_now)) := redis_server_time s in
                if negb (is_ok status) then (Some s, (ALPHA_ERR_IO, Some true, expires_at_out))
                else
                  let '(s, ttl_reply) := redisCommand s ["TTL"; key] in
                  match ttl_reply with
                  | Some (REDIS_REPLY_INTEGER integer) =>
                      if (integer <=? 0) || (expiry <=? server_now) || (expiry - server_now <? integer)
                         || (expiry - server_now >? integer + 1)
                      then (Some s, (ALPHA_ERR_IO, Some true, expires_at_out))
                      else (Some s, (ALPHA_OK, Some true,
                              match expires_at_out with Some _ => Some expiry | None => None end))
                  | _ => (Some s, (ALPHA_ERR_IO, Some true, expires_at_out))
                  end
            end
        | Some _ => (Some s, (ALPHA_ERR_IO, locked, expires_at_out))
        end
  | _, _, _ => (redis, (ALPHA_ERR_INVALID_ARG, locked, expires_at_out))
  end.

End Operations.

(** ** Connections *)

(** The outcomes of [redisConnect]: NULL, a context with [err] set, or a usable one. *)
Inductive connect_result (S : Type) := CONNECT_NULL | CONNECT_ERR | CONNECT_OK (ctx : S).
Arguments CONNECT_NULL {S}.
Arguments CONNECT_ERR {S}.
Arguments CONNECT_OK {S} ctx.

(** [live] counts the contexts allocated by [redisConnect] and not yet freed. *)
Definition alpha_redis_connect {S : Type} (host : option string) (port : Z)
    (redisConnect : string -> Z -> connect_result S) (malloc_ok : bool)
    (out : option (option S)) (live : Z) : alpha_err_t * option (option S) * Z :=
  match host, out with
  | Some host, Some _ =>
      match redisConnect host port with
      | CONNECT_NULL => (ALPHA_ERR_IO, out, live)
      | CONNECT_ERR => (ALPHA_ERR_IO, out, live + 1 - 1)
      | CONNECT_OK ctx =>
          if malloc_ok then (ALPHA_OK, Some (Some ctx), live + 1)
          else (ALPHA_ERR_IO, out, live + 1 - 1)
      end
  | _, _ => (ALPHA_ERR_INVALID_ARG, out, live)
  end.

Definition alpha_redis_close {S : Type} (redis : option S) (live : Z) : Z :=
  match redis with None => live | Some _ => live - 1 end.

(** ** The civil-date helpers agree with [date.c] *)

Lemma days_from_civil_date y m d : days_from_civil y m d = Date.days_from_civil y m d.
Proof. unfold days_from_civil, Date.days_from_civil, b2z. now destruct (m <=? 2). Qed.

Lemma civil_year_date z : civil_year_from_days z = fst (fst (Date.civil_from_days z)).
Proof.
  unfold civil_year_from_days, Date.civil_from_days, b2z. cbv beta zeta. cbn [fst]. reflexivity.
Qed.

(** ** The calendar parser *)

Lemma advance_length k s : String.length (advance k s) = (String.length s - k)%nat.
Proof. revert s. induction k as [|k IH]; intros [|c s]; cbn; auto. Qed.

Lemma char_at_advance k s i : char_at (advance k s) i = char_at s (k + i).
Proof.
  revert s. induction k as [|k IH]; intros [|c s]; cbn [advance Nat.add]; auto; unfold char_at; now destruct i.
Qed.

Lemma skip_space_length s : (String.length (skip_space s) <= String.length s)%nat.
Proof. induction s as [|c s IH]; cbn [skip_space]; [lia|]. destruct (isspace c); cbn; lia. Qed.

Lemma parse_holiday_length cursor y days d : parse_holiday cursor y days = Some d ->
  (12 <= String.length cursor)%nat /\ (List.length days <> MAX_HOLIDAYS)%nat.
Proof.
  unfold parse_holiday. destruct (_ || _) eqn:E; [discriminate|]. intros _.
  rewrite !orb_false_iff in E. destruct E as [[[[[A B] _] _] _] _].
  apply Nat.eqb_neq in A. apply Nat.ltb_ge in B. auto.
Qed.

(** The loop never runs out of fuel. *)
Lemma holiday_loop_total fuel cursor y days : (String.length cursor < fuel)%nat ->
  exists r, holiday_loop fuel cursor y days = Some r.
Proof.
  revert cursor days. induction fuel as [|fuel IH]; intros cursor days L; [lia|]. cbn [holiday_loop].
  destruct (Ascii.eqb (char_at cursor 0) "]"); [eauto|].
  destruct (parse_holiday cursor y days) as [d|] eqn:P; [|eauto].
  apply parse_holiday_length in P as [P _].
  set (c := skip_space (advance 12 cursor)).
  assert (Lc : (String.length c < fuel)%nat).
  { unfold c. pose proof (skip_space_length (advance 12 cursor)). rewrite advance_length in *. lia. }
  destruct (Ascii.eqb (char_at c 0) ",").
  - apply IH. pose proof (skip_space_length (advance 1 c)). rewrite advance_length in *. lia.
  - destruct (negb _); [eauto|]. now apply IH.
Qed.

Lemma char_at_nonempty s c : char_at s 0 = c -> c <> "000"%char -> s <> EmptyString.
Proof. intros E N ->. apply N. now rewrite <- E. Qed.

Lemma parse_holiday_json_total json y : exists r, parse_holiday_json json y = Some r.
Proof.
  unfold parse_holiday_json. destruct (Ascii.eqb_spec (char_at (skip_space json) 0) "[") as [E|];
    cbn [negb]; [|eauto].
  assert (N : (0 < String.length (skip_space json))%nat).
  { destruct (skip_space json); [discriminate|cbn; lia]. }
  destruct (holiday_loop_total (String.length json) (skip_space (advance 1 (skip_space json))) y [])
    as ([[days c]|] & ->).
  - pose proof (skip_space_length (advance 1 (skip_space json))). rewrite advance_length in *.
    pose proof (skip_space_length json). lia.
  - destruct (negb _); eauto.
  - eauto.
Qed.

(** A calendar the driver may act on: strictly ascending days of its year, each
    the number of some month and day of that year, within the array. *)
Definition calendar_ok (year : Z) (days : list Z) : Prop :=
  StronglySorted Z.lt days /\ (List.length days <= MAX_HOLIDAYS)%nat /\
  Forall (fun d => exists m dd, 1 <= m <= 12 /\ 1 <= dd <= 31 /\
                    d = Date.days_from_civil year m dd /\ civil_year_from_days d = year) days.

Lemma sorted_snoc days d : StronglySorted Z.lt days ->
  match List.last (List.map Some days) None with Some prev => d <=? prev | None => false end = false ->
  StronglySorted Z.lt (days ++ [d]).
Proof.
  induction days as [|x l IH]; intros S H; [repeat constructor|].
  apply StronglySorted_inv in S as [S F]. cbn [app]. constructor.
  - destruct l as [|y l]; [repeat constructor|]. apply IH; auto.
  - apply Forall_app. split; [exact F|]. constructor; [|constructor].
    destruct l as [|y l]; cbn in H; [apply Z.leb_gt in H; lia|].
    destruct (exists_last (l := y :: l) ltac:(discriminate)) as (l' & z & E). rewrite E in *.
    change (List.map Some (y :: l)) with (Some y :: List.map Some l) in *.
    assert (HL : List.last (Some y :: List.map Some l) None = Some z).
    { change (Some y :: List.map Some l) with (List.map Some (y :: l)). rewrite E, List.map_app. apply last_last. }
    cbn [List.last] in *. rewrite HL in H. apply Z.leb_gt in H.
    rewrite Forall_forall in F. specialize (F z ltac:(apply in_or_app; right; now left)). lia.
Qed.

Lemma digit_at s i : isdigit (char_at s i) = true -> 0 <= digit_val (char_at s i) < 10.
Proof. apply digit_val_range. Qed.

(** Up to nine digits never wrap. *)
Lemma parse_fixed_decimal_range s n v r : parse_fixed_decimal s n v = Some r ->
  0 <= v -> (v + 1) * 10 ^ Z.of_nat n <= 10 ^ 9 -> v * 10 ^ Z.of_nat n <= r < (v + 1) * 10 ^ Z.of_nat n.
Proof.
  revert s v. induction n as [|n IH]; intros s v E V B; cbn [parse_fixed_decimal] in E.
  - injection E as <-. cbn. lia.
  - destruct (isdigit (char_at s 0)) eqn:D; [|discriminate]. cbn [negb] in E.
    pose proof (digit_at s 0 D) as R. set (k := digit_val (char_at s 0)) in *.
    rewrite Nat2Z.inj_succ, Z.pow_succ_r in * by lia.
    assert (P : 0 < 10 ^ Z.of_nat n) by (apply Z.pow_pos_nonneg; lia).
    assert (W : v * 10 + k < 10 ^ 9) by nia.
    rewrite (u32_small (v * 10)) in E by lia. rewrite (u32_small (v * 10 + k)) in E by lia.
    destruct (IH _ _ E ltac:(lia) ltac:(nia)). nia.
Qed.

Lemma parse_holiday_ok cursor y days d : parse_holiday cursor y days = Some d ->
  0 <= y < 2 ^ 32 -> calendar_ok y days -> calendar_ok y (days ++ [d]).
Proof.
  intros P Hy (S & L & F). pose proof (parse_holiday_length _ _ _ _ P) as [_ NE].
  unfold parse_holiday in P. destruct (_ || _) in P; [discriminate|].
  destruct (parse_fixed_decimal _ 4 0) as [yy|]; [|discriminate].
  destruct (parse_fixed_decimal _ 2 0) as [m|]; [|discriminate].
  destruct (parse_fixed_decimal (advance 9 cursor) 2 0) as [dd|]; [|discriminate].
  destruct (negb (yy =? _) || _ || _ || _ || _) eqn:R in P; [discriminate|].
  destruct (negb (civil_year_from_days _ =? _) || _) eqn:C in P; [discriminate|]. injection P as <-.
  zprop. rewrite u32_small in * by lia. subst yy.
  split; [now apply sorted_snoc|]. split; [rewrite length_app; cbn; lia|].
  apply Forall_app. split; [exact F|]. constructor; [|constructor].
  exists m, dd. split; [lia|]. split; [lia|]. split; [apply days_from_civil_date|assumption].
Qed.

Lemma holiday_loop_ok fuel cursor y days days' rest : 0 <= y < 2 ^ 32 -> calendar_ok y days ->
  holiday_loop fuel cursor y days = Some (Some (days', rest)) -> calendar_ok y days'.
Proof.
  intros Hy. revert cursor days. induction fuel as [|fuel IH]; intros cursor days C; cbn [holiday_loop];
    (destruct (Ascii.eqb (char_at cursor 0) "]"); [intros E; injection E as <- <-; exact C|]);
    [discriminate|].
  destruct (parse_holiday cursor y days) as [d|] eqn:P; [|discriminate].
  pose proof (parse_holiday_ok _ _ _ _ P Hy C) as C'.
  destruct (Ascii.eqb (char_at (skip_space (advance 12 cursor)) 0) ","); [now apply IH|].
  destruct (negb _); [discriminate|now apply IH].
Qed.

Lemma parse_holiday_json_ok json y days : 0 <= y < 2 ^ 32 ->
  parse_holiday_json json y = Some (Some days) -> calendar_ok y days.
Proof.
  intros Hy. unfold parse_holiday_json. destruct (negb _); [discriminate|].
  destruct (holiday_loop _ _ _ _) as [[[d c]|]|] eqn:E; try discriminate.
  destruct (negb _); [discriminate|]. intros H. injection H as <-.
  apply (holiday_loop_ok _ _ _ _ _ _ Hy) in E; [exact E|]. repeat split; try constructor. cbn. lia.
Qed.

(** ** Writing a calendar the way the publisher does *)

Definition entry_text (y m d : Z) (tail : string) : string :=
  String QUOTE (fixed_digits 4 y (String "-" (fixed_digits 2 m (String "-"
    (fixed_digits 2 d (String QUOTE tail)))))).

Fixpoint render_tail (y : Z) (l : list (Z * Z)) : string :=
  match l with
  | [] => "]"
  | (m, d) :: l => String "," (String " " (entry_text y m d (render_tail y l)))
  end.

(** A JSON array of ISO dates, entries separated by a comma and a space. *)
Definition render_calendar (y : Z) (l : list (Z * Z)) : string :=
  match l with
  | [] => "[]"
  | (m, d) :: l => String "[" (entry_text y m d (render_tail y l))
  end.

Lemma parse_fixed_digits w n acc k v : 0 <= n < 10 ^ Z.of_nat w -> 0 <= v ->
  v * 10 ^ Z.of_nat w + n < 10 ^ 9 ->
  parse_fixed_decimal (fixed_digits w n acc) (w + k) v
  = parse_fixed_decimal acc k (v * 10 ^ Z.of_nat w + n).
Proof.
  revert n acc k v. induction w as [|w IH]; intros n acc k v Hn Hv B.
  - cbn in *. f_equal. lia.
  - cbn [fixed_digits]. pose proof (Z.mod_pos_bound n 10 ltac:(lia)) as M.
    pose proof (Z.div_mod n 10 ltac:(lia)) as DM.
    rewrite Nat2Z.inj_succ, Z.pow_succ_r in * by lia.
    assert (P : 0 < 10 ^ Z.of_nat w) by (apply Z.pow_pos_nonneg; lia).
    replace (S w + k)%nat with (w + S k)%nat by lia.
    rewrite IH; [|split; [apply Z.div_pos|apply Z.div_lt_upper_bound]; lia|lia|lia].
    cbn [parse_fixed_decimal]. change (char_at (String (digit_char (n mod 10)) acc) 0) with (digit_char (n mod 10)).
    rewrite isdigit_digit_char, digit_val_digit_char by lia. cbn [negb advance].
    rewrite (u32_small ((v * 10 ^ Z.of_nat w + n / 10) * 10)), u32_small by lia. f_equal. lia.
Qed.

Lemma parse_entry y m d tail days : 0 <= y <= 9999 -> valid_civil y m d = true ->
  (List.length days < MAX_HOLIDAYS)%nat ->
  match List.last (List.map Some days) None with
  | Some prev => prev < Date.days_from_civil y m d | None => True end ->
  parse_holiday (entry_text y m d tail) y days = Some (Date.days_from_civil y m d) /\
  advance 12 (entry_text y m d tail) = tail /\ char_at (entry_text y m d tail) 0 = QUOTE.
Proof.
  intros Hy V L Last. pose proof V as V'. apply valid_civil_spec in V' as [Hm Hd].
  pose proof (days_in_month_le_31 y m). split; [|split; reflexivity].
  assert (P4 : parse_fixed_decimal (advance 1 (entry_text y m d tail)) 4 0 = Some y).
  { cbn [entry_text advance]. rewrite (parse_fixed_digits 4 y _ 0 0) by (cbn; lia). cbn; f_equal; lia. }
  assert (P2 : parse_fixed_decimal (advance 6 (entry_text y m d tail)) 2 0 = Some m).
  { change (advance 6 (entry_text y m d tail)) with (fixed_digits 2 m (String "-" (fixed_digits 2 d (String QUOTE tail)))).
    rewrite (parse_fixed_digits 2 m _ 0 0) by (cbn; lia). cbn; f_equal; lia. }
  assert (P3 : parse_fixed_decimal (advance 9 (entry_text y m d tail)) 2 0 = Some d).
  { change (advance 9 (entry_text y m d tail)) with (fixed_digits 2 d (String QUOTE tail)).
    rewrite (parse_fixed_digits 2 d _ 0 0) by (cbn; lia). cbn; f_equal; lia. }
  unfold parse_holiday.
  replace (List.length days =? MAX_HOLIDAYS)%nat with false by (symmetry; apply Nat.eqb_neq; lia).
  change (String.length (entry_text y m d tail)) with (12 + String.length tail)%nat.
  replace (12 + String.length tail <? 12)%nat with false by (symmetry; apply Nat.ltb_ge; lia).
  change (char_at (entry_text y m d tail) 0) with QUOTE.
  change (char_at (entry_text y m d tail) 5) with "-"%char.
  change (char_at (entry_text y m d tail) 8) with "-"%char.
  change (char_at (entry_text y m d tail) 11) with QUOTE.
  rewrite P4, P2, P3. cbn [Ascii.eqb QUOTE Bool.eqb negb orb].
  rewrite u32_small, Z.eqb_refl by lia.
  replace (m <? 1) with false by lia. replace (m >? 12) with false by lia.
  replace (d <? 1) with false by lia. replace (d >? 31) with false by lia. cbn [negb orb].
  rewrite days_from_civil_date, civil_year_date, (civil_days_inverse y m d V). cbn [fst].
  rewrite Z.eqb_refl. cbn [negb orb].
  destruct (List.last _ _) as [prev|]; [|reflexivity].
  now replace (Date.days_from_civil y m d <=? prev) with false by lia.
Qed.

Lemma skip_space_entry y m d tail : skip_space (entry_text y m d tail) = entry_text y m d tail.
Proof. reflexivity. Qed.

Definition entry_day (y : Z) (e : Z * Z) : Z := Date.days_from_civil y (fst e) (snd e).

Lemma last_of_sorted days d l : StronglySorted Z.lt (days ++ d :: l) ->
  match List.last (List.map Some days) None with Some prev => prev < d | None => True end.
Proof.
  intros S. destruct days as [|x days] using rev_ind; [exact I|].
  rewrite List.map_app. cbn [List.map]. rewrite last_last. rewrite <- app_assoc in S. clear IHdays.
  induction days as [|y days IH]; cbn [app] in S; apply StronglySorted_inv in S as [S F]; auto.
  now inv F.
Qed.

Lemma render_length y m d tail : (12 + String.length tail <= String.length (entry_text y m d tail))%nat.
Proof. apply Nat.le_refl. Qed.

Lemma holiday_loop_render y l : 0 <= y <= 9999 -> forall m d fuel days,
  Forall (fun e => valid_civil y (fst e) (snd e) = true) ((m, d) :: l) ->
  StronglySorted Z.lt (days ++ List.map (entry_day y) ((m, d) :: l)) ->
  (List.length days + List.length ((m, d) :: l) <= MAX_HOLIDAYS)%nat ->
  (List.length ((m, d) :: l) < fuel)%nat ->
  holiday_loop fuel (entry_text y m d (render_tail y l)) y days
  = Some (Some (days ++ List.map (entry_day y) ((m, d) :: l), "]")).
Proof.
  intros Hy. induction l as [|[m' d'] l IH]; intros m d fuel days V S L HF;
    (destruct fuel as [|fuel]; [cbn in HF; lia|]); inv V; cbn [fst snd List.length] in *;
    pose proof (fun t => parse_entry y m d t days Hy H1 ltac:(lia) (last_of_sorted _ _ _ S)) as PE;
    cbn [holiday_loop].
  - destruct (PE (render_tail y [])) as (P & A & C). rewrite C. cbn [Ascii.eqb QUOTE Bool.eqb]. rewrite P, A. cbn.
    destruct fuel as [|fuel]; reflexivity.
  - destruct (PE (render_tail y ((m', d') :: l))) as (P & A & C). rewrite C.
    cbn [Ascii.eqb QUOTE Bool.eqb]. rewrite P, A.
    change (skip_space (render_tail y ((m', d') :: l)))
      with (String "," (String " " (entry_text y m' d' (render_tail y l)))).
    cbn [char_at String.get Ascii.eqb Bool.eqb advance].
    change (skip_space (String " " (entry_text y m' d' (render_tail y l))))
      with (entry_text y m' d' (render_tail y l)).
    rewrite IH; auto.
    + now rewrite <- app_assoc.
    + now rewrite <- app_assoc.
    + rewrite length_app. cbn. lia.
    + lia.
Qed.

(** ** Days of a year *)

Lemma year_bounds y m d : 1 <= m <= 12 -> 1 <= d <= 31 ->
  Date.days_from_civil y 1 1 <= Date.days_from_civil y m d <= Date.days_from_civil y 12 31.
Proof.
  intros Hm Hd. rewrite !days_from_civil_closed by lia. cbv zeta.
  pose proof (leap_step y) as L. assert (0 <= b2z (leap_year y) <= 1) by (destruct (leap_year y); cbn; lia).
  change (1 <=? 2) with true. change (12 <=? 2) with false. cbn [b2z]. rewrite Z.sub_0_r.
  assert (C : m = 1 \/ m = 2 \/ m = 3 \/ m = 4 \/ m = 5 \/ m = 6 \/ m = 7 \/ m = 8 \/ m = 9 \/
              m = 10 \/ m = 11 \/ m = 12) by lia.
  unfold doy_of. repeat (destruct C as [-> | C]); subst; cbn -[Z.add Z.div Z.mul Z.sub]; cbn [b2z];
    rewrite ?Z.sub_0_r;
    repeat match goal with |- context [(153 * ?k + 2) / 5] =>
      let v := eval vm_compute in ((153 * k + 2) / 5) in change ((153 * k + 2) / 5) with v end; lia.
Qed.

Lemma next_year_start y : Date.days_from_civil (y + 1) 1 1 = Date.days_from_civil y 12 31 + 1.
Proof. apply (days_from_civil_step y 12 31). unfold valid_civil, days_in_month. reflexivity. Qed.

(** The calendars of two consecutive years, one after the other. *)
Lemma calendar_app y days days' : calendar_ok y days -> calendar_ok (y + 1) days' ->
  StronglySorted Z.lt (days ++ days').
Proof.
  intros (S & _ & F) (S' & _ & F'). rewrite Forall_forall in F, F'.
  induction S as [|x l S IH G]; cbn [app]; [exact S'|]. constructor.
  - apply IH. intros z Z. apply F. now right.
  - apply Forall_app. split; [exact G|]. apply Forall_forall. intros z Z.
    destruct (F x ltac:(now left)) as (m & d & Hm & Hd & -> & _).
    destruct (F' z Z) as (m' & d' & Hm' & Hd' & -> & _).
    pose proof (year_bounds y m d Hm Hd). pose proof (year_bounds (y + 1) m' d' Hm' Hd').
    pose proof (next_year_start y). lia.
Qed.

(** ** Recording the commands *)

(** A server that also keeps the commands it was sent, with its replies. *)
Definition logged (S : Type) : Type := S * list (list string * option redisReply).

#[export] Instance logging_server {S : Type} {server : RedisServer S} : RedisServer (logged S) :=
  fun st cmd => let '(s, r) := redisCommand (fst st) cmd in ((s, snd st ++ [(cmd, r)]), r).

(** The commands that change keys. *)
Definition changes_keys (cmd : list string) : bool :=
  match cmd with
  | c :: _ => String.eqb c "SET" || String.eqb c "DEL"
  | [] => false
  end.
Definition is_write (entry : list string * option redisReply) : bool := changes_keys (fst entry).

(** The server acknowledged a write. *)
Definition acknowledged (reply : option redisReply) : Prop :=
  exists text, reply = Some (REDIS_REPLY_STATUS text) /\ c_str text = "OK".

Lemma reply_is_ok_iff reply : reply_is_ok reply = true <-> acknowledged reply.
Proof.
  unfold reply_is_ok, acknowledged. split.
  - destruct reply as [[]|]; try discriminate. intros H. apply String.eqb_eq in H. eauto.
  - intros (text & -> & ->). reflexivity.
Qed.

(** The writes a handle has seen. *)
Definition log_of {S : Type} (st : option (logged S)) : list (list string * option redisReply) :=
  match st with Some (_, log) => List.filter is_write log | None => [] end.

Section Logging.
Context {S : Type} {server : RedisServer S}.

Lemma log_command (st : logged S) cmd : changes_keys cmd = false ->
  List.filter is_write (snd (fst (redisCommand st cmd))) = List.filter is_write (snd st).
Proof.
  intros W. unfold redisCommand at 1, logging_server. destruct (redisCommand (fst st) cmd) as [s r].
  cbn [fst snd]. rewrite List.filter_app. cbn. unfold is_write. cbn [fst]. rewrite W. apply app_nil_r.
Qed.

Lemma log_write (st : logged S) cmd : changes_keys cmd = true ->
  List.filter is_write (snd (fst (redisCommand st cmd))) =
  List.filter is_write (snd st) ++ [(cmd, snd (redisCommand st cmd))].
Proof.
  intros W. change (redisCommand st cmd) with (let '(s, r) := redisCommand (fst st) cmd in ((s, snd st ++ [(cmd, r)]), r)).
  destruct (redisCommand (fst st) cmd) as [s r].
  cbn [fst snd]. rewrite List.filter_app. cbn. unfold is_write. cbn [fst]. now rewrite W.
Qed.

Lemma time_reads (st : logged S) :
  List.filter is_write (snd (fst (redis_server_time st))) = List.filter is_write (snd st).
Proof.
  unfold redis_server_time. pose proof (log_command st ["TIME"] eq_refl) as L.
  destruct (redisCommand st ["TIME"]) as [st' r]. cbn [fst snd] in L.
  repeat break_match; cbn [fst snd]; exact L.
Qed.

Lemma calendar_reads (st : logged S) y :
  List.filter is_write (snd (fst (load_calendar st y))) = List.filter is_write (snd st).
Proof.
  unfold load_calendar. break_if; [reflexivity|].
  set (key := key_text _). pose proof (log_command st ["GET"; key] eq_refl) as L.
  destruct (redisCommand st ["GET"; key]) as [st1 r]. cbn [fst snd] in L.
  pose proof (log_command st1 ["TTL"; key] eq_refl) as L1.
  destruct (redisCommand st1 ["TTL"; key]) as [st2 ttl]. cbn [fst snd] in L1.
  repeat break_match; cbn [fst snd]; congruence.
Qed.

Lemma calendar_status st y st' status days : 0 <= y < 2 ^ 32 ->
  load_calendar (S := S) st y = (st', (status, days)) -> status = ALPHA_OK -> calendar_ok y days.
Proof.
  intros Hy H ->. unfold load_calendar in H. break_if; [discriminate|].
  destruct (redisCommand st _) as [st1 [[]|]]; try discriminate.
  destruct (parse_holiday_json (c_str str) y) as [[ds|]|] eqn:P; try discriminate.
  destruct (redisCommand st1 _) as [st2 [[]|]]; try discriminate. injection H as _ _ <-.
  now apply parse_holiday_json_ok in P.
Qed.

Lemma parse_epoch_pos t e : parse_epoch t = Some e -> 0 < e.
Proof.
  unfold parse_epoch. destruct (strtoll t) as [[[p r] er]|]; [|discriminate].
  break_if; [discriminate|]. intros H. injection H as <-. rewrite !orb_false_iff in E.
  destruct E as [_ E]. zprop. lia.
Qed.

Lemma time_positive (st : S) st' now : redis_server_time st = (st', (ALPHA_OK, now)) -> 0 < now.
Proof.
  unfold redis_server_time. destruct (redisCommand st ["TIME"]) as [st1 r]. intros H.
  repeat break_match; try discriminate; injection H as <- <-; now apply (parse_epoch_pos (c_str str)).
Qed.

(** The write of a lockout, on every branch. *)
Definition set_command (scope : string) (expiry : Z) : list string :=
  ["SET"; snd (breaker_key (Some scope)); print_Z expiry; "EXAT"; print_Z expiry].

Lemma lockout_writes (st : logged S) scope now e st' status :
  alpha_redis_set_breaker_lockout (Some st) (Some scope) now e = (st', status) ->
  (log_of st' = List.filter is_write (snd st) /\ status <> ALPHA_OK) \/
  (exists reply, log_of st' = List.filter is_write (snd st) ++ [(set_command scope e, reply)] /\ now < e /\
   fst (breaker_key (Some scope)) = ALPHA_OK /\
   status = if reply_is_ok reply then ALPHA_OK else ALPHA_ERR_IO).
Proof.
  unfold alpha_redis_set_breaker_lockout, set_command. intros H.
  destruct (e <=? now) eqn:L; [injection H as <- <-; left; split; [destruct st|]; easy|].
  destruct (breaker_key (Some scope)) as [ks key] eqn:K. cbn [snd fst] in *.
  destruct (is_ok_spec ks) as [->|N]; cbn [negb] in H;
    [|injection H as <- <-; left; split; [now destruct st|exact N]].
  pose proof (time_reads st) as T. destruct (redis_server_time st) as [st1 [ts now']]. cbn [fst snd] in T.
  destruct (is_ok_spec ts) as [->|N]; cbn [negb] in H;
    [|injection H as <- <-; left; split; [destruct st1; exact T|exact N]].
  destruct (e <=? now'); [injection H as <- <-; left; split; [destruct st1; exact T|easy]|].
  pose proof (log_write st1 ["SET"; key; print_Z e; "EXAT"; print_Z e] eq_refl) as W.
  destruct (redisCommand st1 _) as [st2 r]. cbn [fst snd] in W. injection H as <- <-. right. exists r.
  split; [destruct st2; cbn [log_of snd] in *; congruence|]. zprop. split; [lia|]. split; reflexivity.
Qed.
End Logging.

Lemma civil_year_range z : 0 <= z <= 2 ^ 36 -> 1970 <= civil_year_from_days z < 2 ^ 31 - 1.
Proof.
  intros Hz. rewrite civil_year_date. pose proof (days_civil_inverse z) as I.
  destruct (Date.civil_from_days z) as [[y m] d]. destruct I as (E & Hm & Hd). cbn [fst].
  pose proof (year_bounds y m d ltac:(lia) ltac:(lia)) as B. rewrite E in B.
  rewrite !days_from_civil_closed in B by lia. cbv zeta in B. change (1 <=? 2) with true in B.
  change (12 <=? 2) with false in B. cbn [b2z] in B.
  change (doy_of 1 1) with 306 in B. change (doy_of 12 31) with 305 in B. zdiv.
Qed.

(** ** Choosing the expiry *)

(** The holidays the driver has loaded: one calendar, or two consecutive ones. *)
Definition loaded_holidays (y : Z) (hs : list Z) : Prop :=
  calendar_ok y hs \/ exists a b, hs = a ++ b /\ calendar_ok y a /\ calendar_ok (y + 1) b.

Lemma loaded_sorted y hs : loaded_holidays y hs -> StronglySorted Z.lt hs.
Proof. intros [(S & _)|(a & b & -> & A & B)]; [exact S|now apply calendar_app with y]. Qed.

Lemma next_session_spec now y hs maxd : loaded_holidays y hs ->
  next_session now hs maxd <> ALPHA_SESSION_CALENDAR_INSUFFICIENT ->
  exists d, next_session now hs maxd = d * 86400 /\ first_trading_day hs now d /\ d <= maxd.
Proof.
  intros L N. unfold next_session in *.
  destruct (holiday_aware_spec now hs maxd (loaded_sorted y hs L)) as [(d & E & F & M & _)|[E _]];
    rewrite E in *; [eauto|congruence].
Qed.

Section NextSession.
Context {S : Type} {server : RedisServer S}.

(** The Korean calendar year of an instant. *)
Definition kst_year (now : Z) : Z :=
  civil_year_from_days (Z.quot (now + ALPHA_KST_OFFSET_SECONDS) SECONDS_PER_DAY).

(** [e] is the session start of the first trading day after [now] for the holidays
    [a] of the year [y], and, when those do not reach far enough, for the ones the
    server at [st] gives for the next year too; the day is covered by them. *)
Definition chosen (st : logged S) (now y : Z) (a : list Z) (e : Z) : Prop :=
  exists hs d,
    ((hs = a /\ d <= Date.days_from_civil y 12 31) \/
     exists st' b, load_calendar st (y + 1) = (st', (ALPHA_OK, b)) /\ hs = a ++ b /\
       d <= Date.days_from_civil (y + 1) 12 31) /\
    StronglySorted Z.lt hs /\ first_trading_day hs now d /\ e = d * 86400.

(** What an installed lockout guarantees: [now] is within five seconds of the server's
    clock, which the expiry is ahead of, and the expiry was chosen from the calendar
    the server gave for [y] right after that clock was read. *)
Definition lockout_sound (st : logged S) (y now e : Z) : Prop :=
  exists st1 server_now st2 a, redis_server_time st = (st1, (ALPHA_OK, server_now)) /\
    server_now - 5 <= now <= server_now + 5 /\ server_now < e /\
    load_calendar st1 y = (st2, (ALPHA_OK, a)) /\ chosen st2 now y a e.

Lemma choose_expiry_spec (st : logged S) now y hs st' r : calendar_ok y hs -> 0 <= y < 2 ^ 31 - 1 ->
  choose_expiry st now y hs = (st', r) ->
  List.filter is_write (snd st') = List.filter is_write (snd st) /\
  forall e, r = Some e -> e <> ALPHA_SESSION_CALENDAR_INSUFFICIENT -> chosen st now y hs e.
Proof.
  intros K Y. unfold choose_expiry. rewrite !days_from_civil_date.
  destruct (next_session now hs (Date.days_from_civil y 12 31) =? ALPHA_SESSION_CALENDAR_INSUFFICIENT).
  - pose proof (calendar_reads st (y + 1)) as C2.
    destruct (load_calendar st (y + 1)) as [st3 [cs hs2]] eqn:LC. cbn [fst snd] in C2.
    destruct (is_ok_spec cs) as [->|N]; cbn [negb orb]; [|intros H; injection H as <- <-; easy].
    destruct (_ <? _)%nat; [intros H; injection H as <- <-; easy|].
    pose proof (calendar_status st (y + 1) _ _ _ ltac:(lia) LC eq_refl) as K2.
    assert (L : loaded_holidays y (hs ++ hs2)) by (right; eauto).
    pose proof (next_session_spec now y _ (Date.days_from_civil (y + 1) 12 31) L) as NS.
    intros H. apply pair_equal_spec in H as [<- <-]. split; [exact C2|].
    intros e E NE. apply some_inj in E. rewrite <- days_from_civil_date, E in NS.
    destruct (NS NE) as (d & D & F & M). rewrite days_from_civil_date in M. exists (hs ++ hs2), d.
    split; [right; exists st3, hs2; auto|]. split; [exact (loaded_sorted y _ L)|auto].
  - pose proof (next_session_spec now y hs (Date.days_from_civil y 12 31) (or_introl K)) as NS.
    intros H. apply pair_equal_spec in H as [<- <-]. split; [reflexivity|].
    intros e E NE. apply some_inj in E. rewrite E in NS. destruct (NS NE) as (d & D & F & M).
    exists hs, d. split; [now left|]. split; [apply K|auto].
Qed.

Lemma next_session_writes (st : logged S) scope now o st' status o' :
  0 <= now <= 2 ^ 50 ->
  alpha_redis_set_breaker_lockout_next_session (Some st) (Some scope) now (Some o) = (st', (status, o')) ->
  (log_of st' = List.filter is_write (snd st) /\ status <> ALPHA_OK /\ o' = Some o) \/
  (exists e reply, log_of st' = List.filter is_write (snd st) ++ [(set_command scope e, reply)] /\
     now < e /\ lockout_sound st (kst_year now) now e /\
     ((acknowledged reply /\ status = ALPHA_OK /\ o' = Some e) \/
      (~ acknowledged reply /\ status = ALPHA_ERR_IO /\ o' = Some o))).
Proof.
  intros Hnow. unfold lockout_sound, kst_year, alpha_redis_set_breaker_lockout_next_session.
  pose proof (time_reads st) as T. destruct (redis_server_time st) as [st1 [ts snow]]. cbn [fst snd] in T.
  assert (LOG : forall (x : logged S) st' status o', List.filter is_write (snd x) = List.filter is_write (snd st) ->
    status <> ALPHA_OK -> (Some x, (status, Some o)) = (st', (status, o')) ->
    log_of st' = List.filter is_write (snd st) /\ status <> ALPHA_OK /\ o' = Some o).
  { intros [a b] s' ? o2 E N P. apply pair_equal_spec in P as [<- P].
    apply pair_equal_spec in P as [_ <-]. auto. }
  destruct (is_ok_spec ts) as [->|N]; cbn [negb];
    [|intros H; left; injection H as <- <- <-; apply (LOG st1); [exact T|exact N|reflexivity]].
  destruct (_ || _) eqn:Win; [intros H; left; injection H as <- <- <-; apply (LOG st1); [exact T|discriminate|reflexivity]|].
  assert (Wi : snow - 5 <= now <= snow + 5) by (zprop; lia). clear Win.
  assert (Y : 1970 <= civil_year_from_days (Z.quot (now + ALPHA_KST_OFFSET_SECONDS) SECONDS_PER_DAY) < 2 ^ 31 - 1).
  { apply civil_year_range. unfold ALPHA_KST_OFFSET_SECONDS, SECONDS_PER_DAY.
    rewrite Z.quot_div_nonneg by lia. zdiv. }
  revert Y. generalize (civil_year_from_days (Z.quot (now + ALPHA_KST_OFFSET_SECONDS) SECONDS_PER_DAY)) as y.
  intros y Y. cbn [fst].
  pose proof (calendar_reads st1 y) as C1. destruct (load_calendar st1 y) as [st2 [cs hs]] eqn:LC.
  cbn [fst snd] in C1.
  destruct (is_ok_spec cs) as [->|N]; cbn [negb];
    [|intros H; left; injection H as <- <- <-; apply (LOG st2); [congruence|exact N|reflexivity]].
  pose proof (calendar_status st1 y _ _ _ ltac:(lia) LC eq_refl) as K1.
  destruct (choose_expiry st2 now y hs) as [st3 r] eqn:CE.
  destruct (choose_expiry_spec st2 now _ hs st3 r K1 ltac:(lia) CE) as [R1 R2]. clear CE K1.
  assert (R3 : List.filter is_write (snd st3) = List.filter is_write (snd st)) by congruence.
  destruct r as [e|]; [|intros H; left; injection H as <- <- <-; apply (LOG st3); [exact R3|discriminate|reflexivity]].
  destruct (_ || _) eqn:G; [intros H; left; injection H as <- <- <-; apply (LOG st3); [exact R3|discriminate|reflexivity]|].
  zprop. destruct (alpha_redis_set_breaker_lockout (Some st3) (Some scope) now e) as [st4 ls] eqn:LK.
  intros HR. injection HR as <- <- <-. rewrite <- R3.
  destruct (lockout_writes _ _ _ _ _ _ LK) as [[W N]|(reply & W & L & _ & ->)].
  - left. split; [exact W|]. split; [exact N|]. destruct (is_ok_spec ls); [contradiction|reflexivity].
  - right. exists e, reply. split; [exact W|]. split; [exact L|]. split.
    { exists st1, snow, st2, hs. split; [reflexivity|]. split; [lia|]. split; [lia|]. split; [exact LC|].
      apply R2; [reflexivity|assumption]. }
    pose proof (reply_is_ok_iff reply) as A. destruct (reply_is_ok reply).
    + left. split; [now apply A|auto].
    + right. split; [intros K; apply A in K; discriminate|auto].
Qed.
End NextSession.

(** ** A healthy server *)

(** What Redis documents for the commands the lockout uses, on a connection that
    answers.  [clock] is the server's time in milliseconds, which passes between and
    during commands, and [stored] what a key was last set to, with its absolute expiry
    in seconds; a key whose expiry has come does not exist.  A command sees the clock
    at which it leaves the server.  TIME gives whole seconds, TTL the remaining time
    rounded to the nearest second. *)
Class RedisLaws (S : Type) (server : RedisServer S) := {
  clock : S -> Z;
  stored : S -> string -> option (string * Z);
  law_time : forall s, exists s' micros,
    redisCommand s ["TIME"] = (s', Some (REDIS_REPLY_ARRAY [REDIS_REPLY_STRING (print_Z (clock s' / 1000)); micros])) /\
    clock s <= clock s' /\ forall k, stored s' k = stored s k;
  law_get : forall s k, exists s',
    redisCommand s ["GET"; k] =
      (s', Some (match stored s' k with
                 | Some (v, e) => if clock s' <? 1000 * e then REDIS_REPLY_STRING v else REDIS_REPLY_NIL
                 | None => REDIS_REPLY_NIL
                 end)) /\
    clock s <= clock s' /\ forall k', stored s' k' = stored s k';
  law_ttl : forall s k, exists s' t,
    redisCommand s ["TTL"; k] = (s', Some (REDIS_REPLY_INTEGER t)) /\
    clock s <= clock s' /\ (forall k', stored s' k' = stored s k') /\
    forall v e, stored s' k = Some (v, e) -> clock s' < 1000 * e ->
      - 500 <= 1000 * t - (1000 * e - clock s') <= 500;
  law_set : forall s k v e, 0 < e <= INT64_MAX -> exists s',
    redisCommand s ["SET"; k; v; "EXAT"; print_Z e] = (s', Some (REDIS_REPLY_STATUS "OK")) /\
    clock s <= clock s' /\ stored s' k = Some (v, e) /\ forall k', k' <> k -> stored s' k' = stored s k';
  law_del : forall s k, exists s' n,
    redisCommand s ["DEL"; k] = (s', Some (REDIS_REPLY_INTEGER n)) /\
    clock s <= clock s' /\ stored s' k = None /\ forall k', k' <> k -> stored s' k' = stored s k'
}.

(** A reference server: a clock that a command moves by a millisecond, and a map of
    keys to values with an expiry. *)
Record ref_server := { ref_clock : Z; ref_map : string -> option (string * Z) }.

Definition ref_tick (s : ref_server) : ref_server := {| ref_clock := ref_clock s + 1; ref_map := ref_map s |}.

Definition ref_live (s : ref_server) (k : string) : option (string * Z) :=
  match ref_map s k with
  | Some (v, e) => if ref_clock s <? 1000 * e then Some (v, e) else None
  | None => None
  end.

Definition ref_update (s : ref_server) (k : string) (x : option (string * Z)) : ref_server :=
  {| ref_clock := ref_clock s; ref_map := fun k' => if String.eqb k' k then x else ref_map s k' |}.

#[export] Instance ref_command : RedisServer ref_server := fun s cmd =>
  let s := ref_tick s in
  match cmd with
  | [c] =>
      if String.eqb c "TIME" then
        (s, Some (REDIS_REPLY_ARRAY [REDIS_REPLY_STRING (print_Z (ref_clock s / 1000)); REDIS_REPLY_STRING "0"]))
      else (s, Some (REDIS_REPLY_ERROR "ERR unknown command"))
  | [c; k] =>
      if String.eqb c "GET" then
        (s, Some (match ref_live s k with Some (v, _) => REDIS_REPLY_STRING v | None => REDIS_REPLY_NIL end))
      else if String.eqb c "TTL" then
        (s, Some (REDIS_REPLY_INTEGER
                    (match ref_live s k with Some (_, e) => (1000 * e - ref_clock s + 500) / 1000 | None => -2 end)))
      else if String.eqb c "DEL" then (ref_update s k None, Some (REDIS_REPLY_INTEGER 1))
      else (s, Some (REDIS_REPLY_ERROR "ERR unknown command"))
  | [c; k; v; opt; t] =>
      if String.eqb c "SET" && String.eqb opt "EXAT" then
        match strtoll t with
        | Some (e, _, _) => (ref_update s k (Some (v, e)), Some (REDIS_REPLY_STATUS "OK"))
        | None => (s, Some (REDIS_REPLY_ERROR "ERR value is not an integer"))
        end
      else (s, Some (REDIS_REPLY_ERROR "ERR syntax error"))
  | _ => (s, Some (REDIS_REPLY_ERROR "ERR wrong number of arguments"))
  end.




#[export] Instance ref_laws : RedisLaws ref_server ref_command.
Proof.
  refine {| clock := ref_clock; stored := ref_map |}.
  - intros s. exists (ref_tick s). eexists. split; [reflexivity|]. cbn. split; [lia|reflexivity].
  - intros s k. exists (ref_tick s). unfold redisCommand, ref_command. cbn [String.eqb Ascii.eqb Bool.eqb].
    unfold ref_live. split; [|cbn; split; [lia|reflexivity]]. do 2 f_equal.
    destruct (ref_map (ref_tick s) k) as [[v e]|]; [|reflexivity]. now destruct (_ <? _).
  - intros s k. exists (ref_tick s). eexists. unfold redisCommand, ref_command. cbn [String.eqb Ascii.eqb Bool.eqb].
    split; [reflexivity|]. split; [cbn; lia|]. split; [reflexivity|]. intros v e K L.
    unfold ref_live. rewrite K. replace (ref_clock (ref_tick s) <? 1000 * e) with true by lia.
    pose proof (Z.div_mod (1000 * e - ref_clock (ref_tick s) + 500) 1000 ltac:(lia)).
    pose proof (Z.mod_pos_bound (1000 * e - ref_clock (ref_tick s) + 500) 1000 ltac:(lia)). lia.
  - intros s k v e B. exists (ref_update (ref_tick s) k (Some (v, e))).
    unfold redisCommand, ref_command. cbn [String.eqb Ascii.eqb Bool.eqb andb].
    rewrite strtoll_print_Z by (unfold in_int64, INT64_MIN; lia). split; [reflexivity|]. split; [cbn; lia|].
    cbn [ref_update ref_map]. rewrite String.eqb_refl. split; [reflexivity|].
    intros k' N. now apply String.eqb_neq in N as ->.
  - intros s k. exists (ref_update (ref_tick s) k None), 1. split; [reflexivity|]. split; [cbn; lia|].
    cbn [ref_update ref_map]. rewrite String.eqb_refl. split; [reflexivity|].
    intros k' N. now apply String.eqb_neq in N as ->.
Defined.

Section Healthy.
Context {S : Type} {server : RedisServer S} {laws : RedisLaws S server}.



End Healthy.

(** ** Properties *)

(** C9: installing the next-session lockout fails closed.  Against any server
    (replies of every type, failures and malformed calendars included) the call
    succeeds exactly if it sent one write, the lockout key with its own expiry as
    value and EXAT, which the server acknowledged with OK; it then reports that
    expiry.  A call that does not succeed leaves the output alone and has sent no
    write, or the one unacknowledged SET.  Whatever was sent expires after now and
    after the server's clock, which is within five seconds of now, at the session
    start of the first trading day after now for the strictly ascending holidays the
    server gave, in this very call, for the Korean year of now, and for the next year
    where the first calendar does not reach far enough. *)
Theorem lockout_next_session_fail_closed {S : Type} {server : RedisServer S} (s : S) scope now o :
  0 <= now <= 2 ^ 50 ->
  let '(st', (status, o')) :=
    alpha_redis_set_breaker_lockout_next_session (Some (s, [])) (Some scope) now (Some o) in
  (log_of st' = [] /\ status <> ALPHA_OK /\ o' = Some o) \/
  (exists e reply, log_of st' = [(set_command scope e, reply)] /\ now < e /\
     lockout_sound (s, []) (kst_year now) now e /\
     ((acknowledged reply /\ status = ALPHA_OK /\ o' = Some e) \/
      (~ acknowledged reply /\ status = ALPHA_ERR_IO /\ o' = Some o))).
Proof.
  intros H.
  destruct (alpha_redis_set_breaker_lockout_next_session (Some (s, [])) (Some scope) now (Some o))
    as [st' [status o']] eqn:E.
  exact (next_session_writes (s, []) scope now o st' status o' H E).
Qed.

(** A reference server that holds the 1970 calendar at noon of day one. *)
Definition sample_server : ref_server :=
  {| ref_clock := 43200000;
     ref_map := fun k => if String.eqb k "krx:holidays:1970"
                         then Some (render_calendar 1970 [(1, 1); (1, 2)], 2 ^ 40) else None |}.

(** The sample call sends one write, acknowledged. *)
Lemma lockout_next_session_fail_closed_witness :
  exists st' e, alpha_redis_set_breaker_lockout_next_session (Some (sample_server, [])) (Some "KRX") 43200 (Some 0)
      = (st', (ALPHA_OK, Some e)) /\
    log_of st' = [(set_command "KRX" e, Some (REDIS_REPLY_STATUS "OK"))] /\
    lockout_sound (sample_server, []) (kst_year 43200) 43200 e.
Proof.
  pose proof (lockout_next_session_fail_closed sample_server "KRX" 43200 0 ltac:(lia)) as H.
  destruct (alpha_redis_set_breaker_lockout_next_session (Some (sample_server, [])) (Some "KRX") 43200 (Some 0))
    as [st' [status o']] eqn:E.
  assert (V : forall x, alpha_redis_set_breaker_lockout_next_session (Some (sample_server, [])) (Some "KRX") 43200
    (Some 0) = x -> List.map snd (log_of (fst x)) = [Some (REDIS_REPLY_STATUS "OK")] /\ fst (snd x) = ALPHA_OK)
    by (intros x <-; split; vm_compute; reflexivity).
  destruct (V _ E) as [L St]. cbn [fst snd] in L, St. subst status. destruct H as [(_ & N & _)|(e & reply & W & _ & So & [(_ & _ & ->)|(_ & N & _)])]; try congruence.
  exists st', e. split; [reflexivity|]. rewrite W in L |- *. inv L. auto.
Defined.

(** The sample call installs the lockout until Monday 1970-01-05 09:00 KST. *)
Example lockout_sample :
  snd (alpha_redis_set_breaker_lockout_next_session (Some sample_server) (Some "KRX") 43200 (Some 0))
  = (ALPHA_OK, Some 345600).
Proof. vm_compute. reflexivity. Qed.

(** What the server has to answer for the breaker to be reported as locked: a value
    that parses as an expiry, a time before it, and a positive TTL that agrees with
    their difference to within a second. *)
Definition lockout_agrees {S : Type} {server : RedisServer S} (s : S) (key : string) (expiry : Z) : Prop :=
  exists s1 text s2 now s3 ttl,
    redisCommand s ["GET"; key] = (s1, Some (REDIS_REPLY_STRING text)) /\ parse_epoch (c_str text) = Some expiry /\
    redis_server_time s1 = (s2, (ALPHA_OK, now)) /\
    redisCommand s2 ["TTL"; key] = (s3, Some (REDIS_REPLY_INTEGER ttl)) /\
    now < expiry /\ 0 < ttl /\ ttl <= expiry - now <= ttl + 1.

(** C10: the breaker check fails closed.  Against any server: the flag is cleared
    exactly if the server answers that the key does not exist; the call succeeds with
    the flag set, and reports the expiry, exactly if the stored value is an expiry
    after the server's time that agrees with the key's TTL to within a second, all as
    answered in this call; otherwise it is an error, the expiry is not reported, and
    the flag is set if there is a value and keeps the caller's value if not.  A scope
    that makes no key is refused before anything is sent. *)
Theorem breaker_locked_fail_closed {S : Type} {server : RedisServer S} (s : S) scope l0 o :
  let '(st', (status, locked, o')) :=
    alpha_redis_is_breaker_locked (Some s) (Some scope) (Some l0) (Some o) in
  let '(keyed, key) := breaker_key (Some scope) in
  if negb (is_ok keyed) then st' = Some s /\ status = keyed /\ locked = Some l0 /\ o' = Some o
  else match snd (redisCommand s ["GET"; key]) with
  | Some REDIS_REPLY_NIL => status = ALPHA_OK /\ locked = Some false /\ o' = Some o
  | Some (REDIS_REPLY_STRING _) =>
      locked = Some true /\
      ((status = ALPHA_OK /\ exists expiry, lockout_agrees s key expiry /\ o' = Some expiry) \/
       (status = ALPHA_ERR_IO /\ o' = Some o /\ forall expiry, ~ lockout_agrees s key expiry))
  | _ => status = ALPHA_ERR_IO /\ locked = Some l0 /\ o' = Some o
  end.
Proof.
  unfold alpha_redis_is_breaker_locked. destruct (breaker_key (Some scope)) as [ks key].
  destruct (negb (is_ok ks)); [auto|]. destruct (redisCommand s ["GET"; key]) as [s1 r] eqn:G. cbn [snd].
  destruct r as [[str|str| |z|el|str]|]; auto.
  assert (No : (forall expiry, lockout_agrees s key expiry -> False) ->
     Some true = Some true /\ ((ALPHA_ERR_IO = ALPHA_OK /\ exists expiry, lockout_agrees s key expiry /\ Some o = Some expiry) \/
       (ALPHA_ERR_IO = ALPHA_ERR_IO /\ Some o = Some o /\ forall expiry, ~ lockout_agrees s key expiry))) by (intros K; auto).
  destruct (parse_epoch (c_str str)) as [e|] eqn:P.
  2:{ apply No. intros expiry (? & ? & ? & ? & ? & ? & E & E' & _). rewrite G in E. inv E. congruence. }
  destruct (redis_server_time s1) as [s2 [ts now]] eqn:T.
  destruct (is_ok_spec ts) as [->|N]; cbn [negb].
  2:{ apply No. intros expiry (? & ? & ? & ? & ? & ? & E & _ & E' & _). rewrite G in E. inv E. rewrite T in E'. inv E'. congruence. }
  destruct (redisCommand s2 ["TTL"; key]) as [s3 t] eqn:L.
  assert (Un : forall expiry, lockout_agrees s key expiry -> exists ttl, t = Some (REDIS_REPLY_INTEGER ttl) /\
            expiry = e /\ now < e /\ 0 < ttl /\ ttl <= e - now <= ttl + 1).
  { intros expiry (? & ? & ? & ? & ? & ttl & E & E1 & E2 & E3 & B). rewrite G in E. inv E. rewrite T in E2. inv E2.
    rewrite L in E3. inv E3. rewrite P in E1. inv E1. eauto 7. }
  destruct t as [[t|t| |z|t|t]|];
    try (apply No; intros expiry K; destruct (Un _ K) as (? & X & _); discriminate).
  destruct (_ || _) eqn:B.
  - apply No. intros expiry K. destruct (Un _ K) as (ttl & X & -> & H). inv X. rewrite !orb_true_iff in B.
    destruct B as [[[B|B]|B]|B]; zprop; lia.
  - split; [reflexivity|]. left. split; [reflexivity|]. exists e. split; [|reflexivity]. rewrite !orb_false_iff in B.
    destruct B as [[[B1 B2] B3] B4]. zprop. exists s1, str, s2, now, s3, z. repeat split; auto; lia.
Qed.

(** The sample server with a lockout for another ten seconds, and without. *)
Definition locked_server : ref_server :=
  {| ref_clock := 43200000;
     ref_map := fun k => if String.eqb k "hard_stop:lockout:KRX" then Some ("43210", 43210) else None |}.

Lemma breaker_locked_fail_closed_witness :
  let '(_, (status, locked, o')) :=
    alpha_redis_is_breaker_locked (Some locked_server) (Some "KRX") (Some false) (Some 0) in
  (locked = Some true /\
   ((status = ALPHA_OK /\ exists expiry, lockout_agrees locked_server "hard_stop:lockout:KRX" expiry /\ o' = Some expiry) \/
    (status = ALPHA_ERR_IO /\ o' = Some 0 /\
     forall expiry, ~ lockout_agrees locked_server "hard_stop:lockout:KRX" expiry))) /\
  status = ALPHA_OK /\ o' = Some 43210.
Proof.
  pose proof (breaker_locked_fail_closed locked_server "KRX" false 0) as H.
  destruct (alpha_redis_is_breaker_locked (Some locked_server) (Some "KRX") (Some false) (Some 0))
    as [st' [[status locked] o']] eqn:E. split; [exact H|].
  assert (V : forall x, alpha_redis_is_breaker_locked (Some locked_server) (Some "KRX") (Some false) (Some 0) = x ->
    fst (fst (snd x)) = ALPHA_OK /\ snd (snd x) = Some 43210) by (intros x <-; split; vm_compute; reflexivity).
  exact (V _ E).
Defined.

(** The steps of the round trip on a healthy server. *)
Section RoundTrip.
Context {S : Type} {server : RedisServer S} {laws : RedisLaws S server}.
Variables (scope : string) (e : Z).
Hypotheses (NS : scope <> EmptyString) (KF : key_fits ("hard_stop:lockout:" ++ scope)%string = true).
Hypothesis (HE : 0 < e <= INT64_MAX).






End RoundTrip.



(** C32: a calendar of up to 512 existing, strictly ascending dates of one year,
    written as a JSON array of ISO dates, is read back as exactly their day
    numbers. *)
Theorem holiday_json_roundtrip y l :
  0 <= y <= 9999 -> Forall (fun e => valid_civil y (fst e) (snd e) = true) l ->
  StronglySorted Z.lt (List.map (entry_day y) l) -> (List.length l <= MAX_HOLIDAYS)%nat ->
  parse_holiday_json (render_calendar y l) y = Some (Some (List.map (entry_day y) l)).
Proof.
  intros Hy V S L. destruct l as [|[m d] l]; [reflexivity|].
  assert (F : (List.length ((m, d) :: l) < String.length (render_calendar y ((m, d) :: l)))%nat).
  { clear. assert (A : forall l, (List.length l < String.length (render_tail y l))%nat).
    { induction l0 as [|[a b] l0 IH]; cbn [render_tail String.length List.length]; [lia|].
      pose proof (render_length y a b (render_tail y l0)). lia. }
    cbn [render_calendar String.length List.length]. specialize (A l).
    pose proof (render_length y m d (render_tail y l)). lia. }
  unfold parse_holiday_json, render_calendar in *.
  change (skip_space (String "[" (entry_text y m d (render_tail y l))))
    with (String "[" (entry_text y m d (render_tail y l))).
  change (advance 1 (String "[" (entry_text y m d (render_tail y l)))) with (entry_text y m d (render_tail y l)).
  rewrite skip_space_entry.
  rewrite (holiday_loop_render y l Hy m d _ []); auto.
Qed.

Lemma holiday_json_roundtrip_witness :
  parse_holiday_json (render_calendar 2025 [(1, 1); (12, 25)]) 2025
  = Some (Some (List.map (entry_day 2025) [(1, 1); (12, 25)])).
Proof.
  apply (holiday_json_roundtrip 2025 [(1, 1); (12, 25)]);
    [lia|repeat constructor|repeat constructor; vm_compute; reflexivity|vm_compute; lia].
Defined.

(** The calendar parser terminates on every text and accepts only strictly
    ascending days of the expected year, at most 512 of them. *)
Theorem holiday_json_sound json y :
  0 <= y < 2 ^ 32 ->
  exists r, parse_holiday_json json y = Some r /\
    forall days, r = Some days -> calendar_ok y days.
Proof.
  intros Hy. destruct (parse_holiday_json_total json y) as (r & E). exists r. split; [exact E|].
  intros days ->. now apply (parse_holiday_json_ok json).
Qed.

Lemma holiday_json_sound_witness :
  exists r, parse_holiday_json (render_calendar 2025 [(1, 1); (12, 25)]) 2025 = Some r /\
    forall days, r = Some days -> calendar_ok 2025 days.
Proof. apply (holiday_json_sound (render_calendar 2025 [(1, 1); (12, 25)]) 2025). lia. Defined.

(** Two leniencies of the parsers: a trailing comma is accepted in a calendar
    although it is not JSON, and a stored epoch may carry blanks, a plus sign and
    leading zeros although the header requires a canonical value. *)
Theorem lenient_parsers :
  parse_holiday_json (String "[" (entry_text 2025 1 1 ",]")) 2025
    = Some (Some [Date.days_from_civil 2025 1 1]) /\
  parse_epoch " +0012" = Some 12.
Proof. split; vm_compute; reflexivity. Qed.
