(* ===== verification/StableSort.v ===== *)
(** * Stable sorting of indexed keys

    The reference that the risk gates and the screener are compared with: a
    stable insertion sort of (index, key) pairs over any strict weak order, and
    the strict lexicographic order (key, then index) that determines it. *)

From Stdlib Require Import ZArith Lia Bool List Floats Sorted Permutation.
From S2P Require Import Prelude Double.
Import ListNotations.

(** A strict weak order on the elements that satisfy [dom]. *)
Class WeakOrder {K : Type} (dom : K -> Prop) (lt : K -> K -> bool) : Prop := {
  wo_irrefl : forall a, dom a -> lt a a = false;
  wo_trans : forall a b c, dom a -> dom b -> dom c -> lt a b = true -> lt b c = true -> lt a c = true;
  wo_cotrans : forall a b c, dom a -> dom b -> dom c ->
    lt a b = false -> lt b c = false -> lt a c = false
}.

(** Doubles other than NaN, ascending and descending. *)
Definition not_nan (f : float) : Prop := isnan f = false.

#[export] Instance float_ascending : WeakOrder not_nan PrimFloat.ltb.
Proof.
  unfold not_nan. split.
  - intros a A. rewrite ltb_leb, leb_refl by auto. reflexivity.
  - intros a b c A B C. rewrite !ltb_leb by auto. rewrite !negb_true_iff. intros H1 H2.
    apply not_true_iff_false. intros H. destruct (leb_total b c B C) as [L|L]; [|congruence].
    pose proof (leb_trans _ _ _ L H). congruence.
  - intros a b c A B C. rewrite !ltb_leb by auto. rewrite !negb_false_iff. intros H1 H2.
    now apply leb_trans with b.
Qed.

Definition float_gtb (a b : float) : bool := (b <? a)%float.

#[export] Instance float_descending : WeakOrder not_nan float_gtb.
Proof.
  unfold float_gtb. split; intros.
  - now apply wo_irrefl.
  - now apply (wo_trans (lt := PrimFloat.ltb)) with b.
  - now apply (wo_cotrans (lt := PrimFloat.ltb)) with b.
Qed.

Section Sort.
Context {K : Type} (dom : K -> Prop) (lt : K -> K -> bool) {W : WeakOrder dom lt}.

(** Insert after every element that is not greater. *)
Fixpoint insert (x : nat * K) (l : list (nat * K)) : list (nat * K) :=
  match l with
  | [] => [x]
  | y :: l => if lt (snd x) (snd y) then x :: y :: l else y :: insert x l
  end.

Definition stable_sort (l : list (nat * K)) : list (nat * K) := fold_left (fun acc x => insert x acc) l [].

(** Smaller key, or equivalent keys and smaller index. *)
Definition before (x y : nat * K) : Prop :=
  lt (snd x) (snd y) = true \/ (lt (snd y) (snd x) = false /\ (fst x < fst y)%nat).

Definition in_dom (x : nat * K) : Prop := dom (snd x).

Lemma lt_asym a b : dom a -> dom b -> lt a b = true -> lt b a = false.
Proof.
  intros A B H. apply not_true_iff_false. intros H'.
  pose proof (wo_trans a b a A B A H H') as T. rewrite wo_irrefl in T by assumption. discriminate.
Qed.

Lemma before_trans x y z : in_dom x -> in_dom y -> in_dom z ->
  before x y -> before y z -> before x z.
Proof.
  unfold before, in_dom. intros X Y Z [H1|[H1 I1]] [H2|[H2 I2]].
  - left. now apply wo_trans with (snd y).
  - left. destruct (lt (snd x) (snd z)) eqn:E; [reflexivity|exfalso].
    pose proof (wo_cotrans _ _ _ X Z Y E H2). congruence.
  - left. destruct (lt (snd x) (snd z)) eqn:E; [reflexivity|exfalso].
    pose proof (wo_cotrans _ _ _ Y X Z H1 E). congruence.
  - right. split; [now apply wo_cotrans with (snd y)|lia].
Qed.

Lemma before_asym x y : in_dom x -> in_dom y -> before x y -> before y x -> False.
Proof.
  unfold before, in_dom. intros X Y [H1|[H1 I1]] [H2|[H2 I2]]; try lia; try congruence.
  pose proof (lt_asym _ _ X Y H1). congruence.
Qed.

Lemma insert_perm x l : Permutation (x :: l) (insert x l).
Proof.
  induction l as [|y l IH]; cbn [insert]; [reflexivity|].
  destruct (lt (snd x) (snd y)); [reflexivity|]. rewrite perm_swap. now constructor.
Qed.

Lemma insert_sorted x l : in_dom x -> Forall in_dom l -> Forall (fun y => (fst y < fst x)%nat) l ->
  StronglySorted before l -> StronglySorted before (insert x l).
Proof.
  intros X D I S. induction S as [|y l S IH F]; cbn [insert].
  - repeat constructor.
  - inv D. inv I. destruct (lt (snd x) (snd y)) eqn:E.
    + constructor; [now constructor|]. constructor; [now left|].
      rewrite Forall_forall in *. intros z Z. apply before_trans with y; auto. now left.
    + constructor; [auto|]. rewrite <- insert_perm. constructor; [now right|exact F].
Qed.

Lemma stable_sort_spec l : Forall in_dom l -> StronglySorted Nat.lt (map fst l) ->
  StronglySorted before (stable_sort l) /\ Permutation l (stable_sort l).
Proof.
  induction l as [|x l IH] using rev_ind; intros D S; [split; constructor|].
  apply Forall_app in D as [D X]. inv X.
  assert (S' : StronglySorted Nat.lt (map fst l) /\ Forall (fun y => (fst y < fst x)%nat) l).
  { clear - S. induction l as [|y l IH]; [split; constructor|]. cbn in S. apply StronglySorted_inv in S as [S F].
    rewrite map_app in F. apply Forall_app in F as [F1 F2]. inv F2.
    destruct (IH S) as [A B]. split; constructor; auto. }
  destruct S' as [S1 S2]. destruct (IH D S1) as [A B].
  unfold stable_sort in *. rewrite fold_left_app. cbn [fold_left]. split.
  - apply insert_sorted; auto; rewrite <- B; assumption.
  - rewrite <- insert_perm, <- B. symmetry. apply Permutation_cons_append.
Qed.

(** The order leaves one sorted arrangement. *)
Lemma sorted_unique l l' : Forall in_dom l -> Permutation l l' ->
  StronglySorted before l -> StronglySorted before l' -> l = l'.
Proof.
  revert l'. induction l as [|x l IH]; intros l' D P S S'.
  - now apply Permutation_nil in P.
  - destruct l' as [|y l']; [apply Permutation_sym, Permutation_nil in P; discriminate|].
    apply StronglySorted_inv in S as [S F], S' as [S' F']. pose proof D as D0. inv D.
    assert (y = x) as ->.
    { assert (Hx : In x (y :: l')) by (rewrite <- P; now left).
      assert (Hy : In y (x :: l)) by (rewrite P; now left).
      destruct Hx as [Hx|Hx]; [exact Hx|]. destruct Hy as [Hy|Hy]; [congruence|].
      rewrite Forall_forall in F, F', D0. exfalso.
      apply (before_asym x y); [apply D0; now left|apply D0; now right|auto|auto]. }
    f_equal. apply IH; auto. now apply Permutation_cons_inv in P.
Qed.
End Sort.
