(* ===== verification/MarketData.v ===== *)
(** * Market-data normalisation

    Models [core/src/market_data/market_data.c]: instrument identifiers
    ("005930.KS") and the sanitised percentage change.  A [char *] argument is
    [None] when it is NULL and the buffer's text otherwise; an out-parameter is
    returned as it stands after the call. *)

From Stdlib Require Import ZArith Lia Bool Reals Lra Floats List Ascii String.
From S2P Require Import Prelude CStr Domain Double Round.
Set Warnings "-inexact-float".
Open Scope string_scope.
Open Scope Z_scope.

Definition ALPHA_MAX_ABS_CHANGE_PCT : float := 999.999.

Definition market_suffix (market : alpha_market_t) : string :=
  match market with
  | ALPHA_MARKET_KOSPI => "KS"
  | ALPHA_MARKET_KOSDAQ => "KQ"
  | ALPHA_MARKET_NYSE | ALPHA_MARKET_NASDAQ => "US"
  end.

Definition suffix_market (suffix : string) : alpha_market_t :=
  if String.eqb suffix "KS" then ALPHA_MARKET_KOSPI
  else if String.eqb suffix "KQ" then ALPHA_MARKET_KOSDAQ
  else if String.eqb suffix "US" then ALPHA_MARKET_NYSE
  else ALPHA_MARKET_KOSPI.

Definition alpha_to_instrument_id (ticker : option string) (market : alpha_market_t)
    (out : option string) (n : nat) : alpha_err_t * option string :=
  match ticker, out with
  | Some ticker, Some old =>
      let suffix := market_suffix market in
      let text := ticker ++ "." ++ suffix in
      let buffer := match snprintf n text with Some b => b | None => old end in
      let written := snprintf_length text in
      if (written <? 0) || (written >=? Z.of_nat n) then (ALPHA_ERR_RANGE, Some buffer)
      else (ALPHA_OK, Some buffer)
  | _, _ => (ALPHA_ERR_INVALID_ARG, out)
  end.

(** [strrchr (s, '.')] as the index of the last dot. *)
Fixpoint strrchr_dot (s : string) : option nat :=
  match s with
  | EmptyString => None
  | String c r =>
      match strrchr_dot r with
      | Some i => Some (S i)
      | None => if Ascii.eqb c "." then Some O else None
      end
  end.

Definition alpha_from_instrument_id (instrument_id raw_out : option string) (raw_n : nat)
    (market_out : option alpha_market_t)
  : alpha_err_t * option string * option alpha_market_t :=
  match instrument_id, raw_out, market_out with
  | Some id, Some _, Some _ =>
      let '(raw_len, suffix) :=
        match strrchr_dot id with
        | Some dot => (dot, String.substring (S dot) (String.length id) id)
        | None => (String.length id, "KS")
        end in
      if (raw_n <=? raw_len)%nat then (ALPHA_ERR_RANGE, raw_out, market_out)
      else (ALPHA_OK, Some (String.substring 0 raw_len id), Some (suffix_market suffix))
  | _, _, _ => (ALPHA_ERR_INVALID_ARG, raw_out, market_out)
  end.

Definition alpha_sanitize_change_pct (value : float) (has_value : option bool) (out : option float)
  : alpha_err_t * option bool * option float :=
  match has_value, out with
  | Some _, Some _ =>
      if negb (isfinite value) || (ALPHA_MAX_ABS_CHANGE_PCT <? abs value)%float
      then (ALPHA_OK, Some false, out)
      else (ALPHA_OK, Some true, Some (alpha_round_dp value 3))
  | _, _ => (ALPHA_ERR_INVALID_ARG, has_value, out)
  end.

Definition alpha_compute_change_pct (current : float) (has_previous : bool) (previous : float)
    (has_value : option bool) (out : option float)
  : alpha_err_t * option bool * option float :=
  match has_value, out with
  | Some _, Some _ =>
      if negb has_previous || (previous <=? 0)%float || negb (isfinite current)
         || negb (isfinite previous)
      then (ALPHA_OK, Some false, out)
      else alpha_sanitize_change_pct (((current - previous) / previous) * 100)%float has_value out
  | _, _ => (ALPHA_ERR_INVALID_ARG, has_value, out)
  end.

(** ** Specification of identifiers *)

Fixpoint no_dot (s : string) : bool :=
  match s with EmptyString => true | String c r => negb (Ascii.eqb c ".") && no_dot r end.

(** NYSE and NASDAQ share the suffix "US", which reads back as NYSE. *)
Definition canonical_market (m : alpha_market_t) : alpha_market_t :=
  match m with ALPHA_MARKET_NASDAQ => ALPHA_MARKET_NYSE | m => m end.

(** [id] splits at its last dot, or has none and the suffix is "KS". *)
Definition splits_as (id raw suffix : string) : Prop :=
  (id = raw ++ "." ++ suffix /\ no_dot suffix = true) \/
  (id = raw /\ no_dot raw = true /\ suffix = "KS").

(** ** Lemmas *)

Lemma strrchr_no_dot s : no_dot s = true -> strrchr_dot s = None.
Proof.
  induction s as [|c r IH]; cbn; [auto|]. intros H. zprop. rewrite IH by assumption. now rewrite H.
Qed.

Lemma strrchr_app s t : no_dot t = true -> strrchr_dot (s ++ "." ++ t) = Some (String.length s).
Proof.
  intros H. induction s as [|c r IH]; cbn [append strrchr_dot String.length].
  - now rewrite strrchr_no_dot.
  - change (r ++ String "." t) with (r ++ "." ++ t). now rewrite IH.
Qed.

Lemma substring_prefix s t : String.substring 0 (String.length s) (s ++ t) = s.
Proof. induction s as [|c r IH]; cbn; [now destruct t|]. now rewrite IH. Qed.

Lemma substring_suffix s t c m : (String.length t <= m)%nat ->
  String.substring (S (String.length s)) m (s ++ String c t) = t.
Proof.
  intros H. induction s as [|d r IH]; cbn [append String.length String.substring].
  - now apply substring_all.
  - exact IH.
Qed.

Lemma split_last_dot id : match strrchr_dot id with
  | Some dot => exists raw suffix, id = raw ++ "." ++ suffix /\ no_dot suffix = true /\
                  dot = String.length raw
  | None => no_dot id = true
  end.
Proof.
  induction id as [|c r IH]; cbn [strrchr_dot no_dot]; [reflexivity|].
  destruct (strrchr_dot r) as [i|].
  - destruct IH as (raw & suffix & -> & N & ->). exists (String c raw), suffix. auto.
  - destruct (Ascii.eqb_spec c ".") as [->|].
    + exists "", r. auto.
    + now rewrite IH.
Qed.

(** What [alpha_from_instrument_id] computes from a split. *)
Lemma from_instrument_id_split id raw suffix r0 n m0 : splits_as id raw suffix ->
  alpha_from_instrument_id (Some id) (Some r0) n (Some m0) =
    if (n <=? String.length raw)%nat then (ALPHA_ERR_RANGE, Some r0, Some m0)
    else (ALPHA_OK, Some raw, Some (suffix_market suffix)).
Proof.
  unfold alpha_from_instrument_id. intros [[-> N]|(-> & N & ->)].
  - rewrite strrchr_app by assumption. cbn [append].
    rewrite substring_prefix, substring_suffix; [reflexivity|].
    rewrite length_sappend. cbn [String.length]. lia.
  - rewrite strrchr_no_dot by assumption. now rewrite substring_all by lia.
Qed.

Lemma market_suffix_no_dot m : no_dot (market_suffix m) = true.
Proof. destruct m; reflexivity. Qed.

Lemma suffix_of_market m : suffix_market (market_suffix m) = canonical_market m.
Proof. destruct m; reflexivity. Qed.

Lemma substring_length s k : String.length (String.substring 0 k s) = Nat.min k (String.length s).
Proof.
  revert k. induction s as [|c r IH]; intros [|k]; cbn; auto.
Qed.

(** ** Lemmas on the percentage change *)

Lemma sanitize_value v b0 o0 out : alpha_sanitize_change_pct v (Some b0) (Some o0)
    = (ALPHA_OK, Some true, out) ->
  is_fin v = true /\ (abs v <=? ALPHA_MAX_ABS_CHANGE_PCT)%float = true /\
  out = Some (alpha_round_dp v 3).
Proof.
  unfold alpha_sanitize_change_pct, isfinite. break_if; [discriminate|].
  intros H. inv H. zprop. split; [assumption|]. split; [|reflexivity].
  rewrite ltb_leb in H0; [now apply negb_false_iff|reflexivity|].
  apply fin_not_nan. now rewrite abs_fin.
Qed.

Lemma max_change_fin : is_fin ALPHA_MAX_ABS_CHANGE_PCT = true.
Proof. reflexivity. Qed.

Lemma max_change_R : (999.9985 <= D2R ALPHA_MAX_ABS_CHANGE_PCT <= 999.9991)%R.
Proof.
  d2r ALPHA_MAX_ABS_CHANGE_PCT. lra.
Qed.

Lemma dec_999998_le s N : 0 <= N <= 999998 ->
  is_fin (dec_to_double s N 3) = true /\
  (abs (dec_to_double s N 3) <=? ALPHA_MAX_ABS_CHANGE_PCT)%float = true.
Proof.
  intros H. pose proof (dec_to_double_rounds s N 3 ltac:(lia)) as R.
  assert (HN : (0 <= IZR N <= 999998)%R) by (split; apply IZR_le; lia).
  change (10 ^ Z.of_nat 3) with 1000 in R. pose proof max_change_R as M.
  pose (hi := ALPHA_MAX_ABS_CHANGE_PCT). pose (lo := (- ALPHA_MAX_ABS_CHANGE_PCT)%float).
  assert (Fl : is_fin lo = true) by reflexivity. assert (Fh : is_fin hi = true) by reflexivity.
  assert (El : D2R lo = (- D2R hi)%R) by apply opp_R.
  fold hi in M.
  destruct (rounds_between _ _ R lo hi Fl Fh) as [F B].
  { destruct s; cbn [sgn]; lra. }
  split; [exact F|]. rewrite leb_R by (rewrite ?abs_fin; auto). rewrite abs_R. apply Rabs_le.
  fold hi. lra.
Qed.

Lemma round_3_bound v : is_fin v = true -> (abs v <=? ALPHA_MAX_ABS_CHANGE_PCT)%float = true ->
  is_fin (alpha_round_dp v 3) = true /\
  (abs (alpha_round_dp v 3) <=? ALPHA_MAX_ABS_CHANGE_PCT)%float = true.
Proof.
  intros F B. rewrite leb_R, abs_R in B by (rewrite ?abs_fin; auto). pose proof max_change_R as M.
  destruct (printed_int_close v 3 F) as [C P0].
  change 3 with (Z.of_nat 3).
  rewrite alpha_round_dp_eq; [|exact F|apply Rle_trans with 1000%R;
    [lra|apply (IZR_le 1000); vm_compute; discriminate]|lia].
  apply Rabs_bounds in C. change (10 ^ Z.of_nat 3) with 1000 in C.
  assert (HN : printed_int v 3 <= 999999).
  { apply Z.lt_succ_r, lt_IZR. change (Z.succ 999999) with 1000000. lra. }
  destruct (Z.eq_dec (printed_int v 3) 999999) as [->|]; [|apply dec_999998_le; lia].
  destruct (sf_sign (Prim2SF v)); split; vm_compute; reflexivity.
Qed.

(** ** Properties *)

(** C35: an identifier built from any ticker (dots included) and market reads back
    as the same ticker and market, except that NASDAQ comes back as NYSE because
    the two share the suffix "US". *)
Theorem instrument_id_roundtrip t m o n r raw_n m0 :
  Z.of_nat (String.length t) + 3 <= INT32_MAX ->
  (String.length t + 3 < n)%nat -> (String.length t < raw_n)%nat ->
  exists id, alpha_to_instrument_id (Some t) m (Some o) n = (ALPHA_OK, Some id) /\
    alpha_from_instrument_id (Some id) (Some r) raw_n (Some m0)
      = (ALPHA_OK, Some t, Some (canonical_market m)).
Proof.
  intros Hi Hn Hr. exists (t ++ "." ++ market_suffix m).
  assert (L : String.length (t ++ "." ++ market_suffix m) = (String.length t + 3)%nat).
  { rewrite length_sappend. f_equal. destruct m; reflexivity. }
  split.
  - unfold alpha_to_instrument_id. rewrite snprintf_length_eq, L by (rewrite L; lia).
    destruct n as [|n]; [lia|]. cbn [snprintf]. rewrite substring_all by lia.
    replace (_ || _) with false; [reflexivity|]. symmetry. apply orb_false_iff.
    rewrite Z.ltb_ge, Z.geb_leb, Z.leb_gt. lia.
  - rewrite (from_instrument_id_split _ t (market_suffix m));
      [|left; auto using market_suffix_no_dot].
    rewrite suffix_of_market. replace (raw_n <=? _)%nat with false; [reflexivity|].
    symmetry. apply Nat.leb_gt. exact Hr.
Qed.

Lemma instrument_id_roundtrip_witness :
  exists id, alpha_to_instrument_id (Some "BRK.B") ALPHA_MARKET_NASDAQ (Some "") 16
      = (ALPHA_OK, Some id) /\
    alpha_from_instrument_id (Some id) (Some "") 8 (Some ALPHA_MARKET_KOSPI)
      = (ALPHA_OK, Some "BRK.B", Some ALPHA_MARKET_NYSE).
Proof.
  apply (instrument_id_roundtrip "BRK.B" ALPHA_MARKET_NASDAQ); vm_compute; (lia || discriminate).
Defined.

(** Every identifier splits in exactly one way at its last dot (with suffix
    "KS" when there is none); the raw code is stored exactly when it fits the
    buffer with its terminator, and otherwise the buffers are left untouched. *)
Theorem from_instrument_id_total id r n m0 :
  exists raw suffix, splits_as id raw suffix /\
    (forall raw' suffix', splits_as id raw' suffix' -> raw' = raw /\ suffix' = suffix) /\
    alpha_from_instrument_id (Some id) (Some r) n (Some m0) =
      if (n <=? String.length raw)%nat then (ALPHA_ERR_RANGE, Some r, Some m0)
      else (ALPHA_OK, Some raw, Some (suffix_market suffix)).
Proof.
  assert (E : exists raw suffix, splits_as id raw suffix).
  { pose proof (split_last_dot id) as H. destruct (strrchr_dot id).
    - destruct H as (raw & suffix & -> & N & _). exists raw, suffix. now left.
    - exists id, "KS". now right. }
  destruct E as (raw & suffix & S). exists raw, suffix. split; [exact S|].
  split; [|now apply from_instrument_id_split].
  assert (A : forall a b c d, a ++ "." ++ b = c ++ "." ++ d -> no_dot b = true -> no_dot d = true ->
            a = c /\ b = d).
  { intros a b c d E Nb Nd. pose proof (strrchr_app a b Nb) as La.
    rewrite E, (strrchr_app c d Nd) in La. inversion La as [L].
    pose proof (substring_prefix a ("." ++ b)) as Pa. rewrite E, <- L, substring_prefix in Pa.
    subst c. split; [reflexivity|].
    pose proof (substring_suffix a b "." (String.length b + String.length d) ltac:(lia)) as Sb.
    pose proof (substring_suffix a d "." (String.length b + String.length d) ltac:(lia)) as Sd.
    cbn [append] in E. congruence. }
  assert (B : forall a b, no_dot b = true -> no_dot (a ++ "." ++ b) = true -> False).
  { intros a b Nb N. apply strrchr_no_dot in N. rewrite strrchr_app in N by assumption. discriminate. }
  intros raw' suffix' [[E' N']|(E' & N' & ->)]; destruct S as [[E N]|(E & N & ->)].
  - rewrite E in E'. destruct (A _ _ _ _ E' N N') as [-> ->]. auto.
  - exfalso. subst id. rewrite E' in N. exact (B _ _ N' N).
  - exfalso. subst id. subst raw'. exact (B _ _ N N').
  - now subst.
Qed.

(** [alpha_to_instrument_id] never writes past its buffer: what it stores is a
    prefix of "ticker.suffix" shorter than [n], and the result is OK exactly
    when nothing was cut. *)
Theorem to_instrument_id_bounded t m o n :
  (0 < n)%nat -> Z.of_nat (String.length t) + 3 <= INT32_MAX ->
  let text := t ++ "." ++ market_suffix m in
  exists e b, alpha_to_instrument_id (Some t) m (Some o) n = (e, Some b) /\
    (String.length b < n)%nat /\ String.prefix b text = true /\
    (e = ALPHA_OK <-> b = text) /\ (e = ALPHA_OK \/ e = ALPHA_ERR_RANGE).
Proof.
  intros Hn Hi text. unfold alpha_to_instrument_id. fold text.
  assert (L : String.length text = (String.length t + 3)%nat).
  { unfold text. rewrite length_sappend. f_equal. destruct m; reflexivity. }
  rewrite snprintf_length_eq, L by (rewrite L; lia).
  destruct n as [|n]; [lia|]. cbn [snprintf].
  assert (P : String.prefix (String.substring 0 n text) text = true).
  { clear L Hi Hn. generalize text. clear. induction n as [|n IH]; intros [|c s]; cbn; auto.
    destruct (ascii_dec c c); [apply IH|congruence]. }
  pose proof (substring_length text n) as SL. rewrite L in SL.
  break_if; do 2 eexists; (split; [reflexivity|]); rewrite SL; (split; [lia|]);
    (split; [exact P|]); (split; [|tauto]).
  - split; [discriminate|]. intros E'. exfalso. apply (f_equal String.length) in E'.
    rewrite SL, L in E'. apply orb_prop in E as [E|E]; zprop; lia.
  - zprop. split; [|reflexivity]. intros _. apply substring_all. lia.
Qed.

Lemma to_instrument_id_bounded_witness :
  let text := "005930" ++ "." ++ market_suffix ALPHA_MARKET_KOSPI in
  exists e b, alpha_to_instrument_id (Some "005930") ALPHA_MARKET_KOSPI (Some "") 4 = (e, Some b) /\
    (String.length b < 4)%nat /\ String.prefix b text = true /\
    (e = ALPHA_OK <-> b = text) /\ (e = ALPHA_OK \/ e = ALPHA_ERR_RANGE).
Proof.
  apply (to_instrument_id_bounded "005930" ALPHA_MARKET_KOSPI "" 4); vm_compute; (lia || discriminate).
Defined.

(** A sanitised change is a finite double of magnitude at most 999.999 (the
    bound itself, not one ulp more, survives the rounding to three decimals);
    non-finite values and larger magnitudes are reported as absent and leave
    the output untouched. *)
Theorem sanitize_change_pct_bounded v b0 o0 :
  exists b o, alpha_sanitize_change_pct v (Some b0) (Some o0) = (ALPHA_OK, Some b, Some o) /\
    (b = true -> is_fin o = true /\ (abs o <=? ALPHA_MAX_ABS_CHANGE_PCT)%float = true /\
                 o = alpha_round_dp v 3) /\
    (b = false -> o = o0) /\
    (b = true <-> is_fin v = true /\ (abs v <=? ALPHA_MAX_ABS_CHANGE_PCT)%float = true).
Proof.
  destruct (alpha_sanitize_change_pct v (Some b0) (Some o0)) as [[e b] o] eqn:H.
  pose proof H as H'. unfold alpha_sanitize_change_pct, isfinite in H'. break_if; inv H'.
  - exists false, o0. split; [reflexivity|]. split; [discriminate|]. split; [reflexivity|].
    split; [discriminate|]. intros [F L]. rewrite F in E. cbn [negb orb] in E.
    rewrite ltb_leb, L in E; [discriminate|reflexivity|apply fin_not_nan; now rewrite abs_fin].
  - apply sanitize_value in H as (F & L & _). exists true, (alpha_round_dp v 3).
    split; [reflexivity|]. destruct (round_3_bound v F L). repeat split; auto; discriminate.
Qed.

(** A reported change has the sign of the price move: between finite
    non-negative prices it lies in [-100, 0] when the price falls and in
    [0, 1000) when it rises, whatever the rounding of the three operations. *)
Theorem compute_change_pct_sign c p b0 o0 o :
  is_fin c = true -> is_fin p = true -> (0 <= D2R c)%R ->
  alpha_compute_change_pct c true p (Some b0) (Some o0) = (ALPHA_OK, Some true, Some o) ->
  is_fin o = true /\
  ((D2R c <= D2R p)%R -> (-100 <= D2R o <= 0)%R) /\
  ((D2R p <= D2R c)%R -> (0 <= D2R o < 1000)%R).
Proof.
  intros Fc Fp Hc. unfold alpha_compute_change_pct. break_if; [discriminate|].
  rewrite !orb_false_iff in E. destruct E as [[[_ H3] _] _].
  rewrite leb_false_R in H3 by auto. rewrite D2R_0 in H3.
  intros H. apply sanitize_value in H as (F & L & E). injection E as ->.
  destruct (round_3_bound _ F L) as [Fo Lo]. split; [exact Fo|].
  set (v := ((c - p) / p * 100)%float) in *.
  rewrite leb_R, abs_R in L, Lo by (rewrite ?abs_fin; auto). pose proof max_change_R.
  apply Rabs_bounds in L, Lo. split; intros Hcp.
  - destruct (drop_pct_bounds c p Fc Fp ltac:(lra) H3) as [_ B].
    apply (alpha_round_dp_between v 3 (-100) 0 F ltac:(lia) ltac:(lia) ltac:(lia) B).
  - pose proof (rise_pct_nonneg c p Fc Fp ltac:(lra) F) as B. fold v in B. split; [|lra].
    apply (alpha_round_dp_between v 3 0 1000 F ltac:(lia) ltac:(lia) ltac:(lia)). lra.
Qed.

Lemma compute_change_pct_sign_witness :
  let o := alpha_round_dp ((150 - 120) / 120 * 100)%float 3 in
  is_fin o = true /\ ((D2R 150 <= D2R 120)%R -> (-100 <= D2R o <= 0)%R) /\
  ((D2R 120 <= D2R 150)%R -> (0 <= D2R o < 1000)%R).
Proof.
  apply (compute_change_pct_sign 150 120 false 0);
    [reflexivity|reflexivity|d2r 150%float; lra|vm_compute; reflexivity].
Defined.
