(* ===== verification/CostModel.v ===== *)
(** * Trade cost model

    Models [core/src/backtest/cost_model.c] and [cost_model.h], and analyses the
    rounding error of one cost computation against the exact cost. *)

From Stdlib Require Import ZArith Lia Bool Reals Lra Floats.
From S2P Require Import Prelude Domain Double NearError.
Set Warnings "-inexact-float".
Open Scope Z_scope.

Record alpha_cost_model_t := {
  commission_rate : float;
  tax_rate : float;
  slippage_rate : float
}.

Record alpha_trade_cost_t := {
  commission : float;
  tax : float;
  slippage_cost : float;
  total : float
}.

Definition alpha_cost_model_make (commission_rate_pct tax_rate_pct : float) (slippage_bps : Z)
  : alpha_cost_model_t :=
  {| commission_rate := (commission_rate_pct / 100)%float;
     tax_rate := (tax_rate_pct / 100)%float;
     slippage_rate := (double_of_Z slippage_bps / 10000)%float |}.

Definition alpha_cost_model_default : alpha_cost_model_t :=
  alpha_cost_model_make ALPHA_BACKTEST_COMMISSION_RATE_PCT ALPHA_BACKTEST_TAX_RATE_PCT
    ALPHA_BACKTEST_SLIPPAGE_BPS.

Definition alpha_cost_calculate (model : alpha_cost_model_t) (side : alpha_side_t)
    (price : float) (quantity : Z) : alpha_trade_cost_t :=
  let notional := (price * double_of_Z quantity)%float in
  let c := (notional * commission_rate model)%float in
  let t := if side_eqb side ALPHA_SIDE_SELL then (notional * tax_rate model)%float else 0%float in
  let s := (notional * slippage_rate model)%float in
  {| commission := c; tax := t; slippage_cost := s; total := (c + t + s)%float |}.

(** ** Error analysis *)

Local Open Scope R_scope.

Definition rate_ok (r : float) : Prop := is_fin r = true /\ 0 <= D2R r <= 1.

Definition model_ok (m : alpha_cost_model_t) : Prop :=
  rate_ok (commission_rate m) /\ rate_ok (tax_rate m) /\ rate_ok (slippage_rate m).

(** The exact rate charged on a side. *)
Definition side_rate (m : alpha_cost_model_t) (side : alpha_side_t) : R :=
  D2R (commission_rate m) + (if side_eqb side ALPHA_SIDE_SELL then D2R (tax_rate m) else 0)
  + D2R (slippage_rate m).

Section Calculate.
Context (m : alpha_cost_model_t) (p : float) (q : Z).
Hypotheses (M : model_ok m) (Fp : is_fin p = true) (Pp : 0 <= D2R p).
Hypotheses (Hq : (0 <= q <= 2 ^ 53)%Z) (B : D2R p * IZR q <= bpow 490).

Lemma notional_near : let n := (p * double_of_Z q)%float in
  is_fin n = true /\ near (2 * uu) eta (D2R p * IZR q) (D2R n) /\ 0 <= D2R n.
Proof.
  destruct (double_of_Z_exact q ltac:(lia)) as [Fq Eq].
  assert (0 <= IZR q) by (apply (IZR_le 0); lia). intros n.
  pose proof (mul_rounds p (double_of_Z q) Fp Fq) as R. rewrite Eq in R. fold n in R.
  pose proof uu_bounds. pose proof eta_bounds.
  assert (P : 0 <= D2R p * IZR q) by (apply Rmult_le_pos; lra).
  destruct (near_op 0 0 _ _ n (near_refl _ P) R) as [F N]; try lra.
  { apply Rle_trans with (1 := B). apply bpow_le. lia. }
  split; [exact F|]. split; [apply (near_weaken _ _ _ _ _ _ N); lra|].
  apply fmul_nonneg; auto; rewrite Eq; lra.
Qed.

(** One component of the cost: the rounded notional times a rate. *)
Lemma component_near r : rate_ok r -> let n := (p * double_of_Z q)%float in
  is_fin (n * r)%float = true /\ near (4 * uu) (3 * eta) (D2R p * IZR q * D2R r) (D2R (n * r)%float) /\
  0 <= D2R (n * r)%float.
Proof.
  intros [Fr Hr] n. destruct notional_near as (Fn & N & Pn). fold n in Fn, N, Pn.
  pose proof uu_bounds. pose proof eta_bounds. pose proof N as [P _].
  pose proof (near_scale (2 * uu) eta 1 _ _ _ N Hr ltac:(lra)) as S.
  pose proof (mul_rounds n r Fn Fr) as R.
  destruct (near_op _ _ _ _ _ S R) as [F N']; try lra.
  { apply Rle_trans with (D2R p * IZR q); [nra|]. apply Rle_trans with (1 := B). apply bpow_le. lia. }
  split; [exact F|]. split; [apply (near_weaken _ _ _ _ _ _ N'); lra|].
  apply fmul_nonneg; auto; lra.
Qed.

Lemma zero_near : near (4 * uu) (3 * eta) 0 (D2R 0).
Proof.
  pose proof uu_bounds. pose proof eta_bounds. apply near_weaken with 0 0; try lra.
  rewrite D2R_0. apply near_refl. lra.
Qed.

(** The total cost is finite, non-negative and within a few ulps of the exact
    [price * quantity * rate]. *)
Lemma cost_calculate_near side : let c := alpha_cost_calculate m side p q in
  is_fin (total c) = true /\ 0 <= D2R (total c) /\
  near (8 * uu) (33 * eta) (D2R p * IZR q * side_rate m side) (D2R (total c)) /\
  0 <= D2R (commission c) /\ 0 <= D2R (tax c) /\ 0 <= D2R (slippage_cost c).
Proof.
  destruct M as (Mc & Mt & Ms). intros c. unfold alpha_cost_calculate in c.
  destruct (component_near _ Mc) as (F1 & N1 & P1). destruct (component_near _ Ms) as (F3 & N3 & P3).
  set (n := (p * double_of_Z q)%float) in *.
  set (t := if side_eqb side ALPHA_SIDE_SELL then (n * tax_rate m)%float else 0%float) in c.
  assert (T : is_fin t = true /\ near (4 * uu) (3 * eta)
      (D2R p * IZR q * (if side_eqb side ALPHA_SIDE_SELL then D2R (tax_rate m) else 0)) (D2R t) /\
      0 <= D2R t).
  { subst t. destruct (side_eqb side ALPHA_SIDE_SELL); [now apply component_near|].
    rewrite Rmult_0_r. split; [reflexivity|]. split; [apply zero_near|rewrite D2R_0; lra]. }
  destruct T as (F2 & N2 & P2).
  assert (0 <= D2R p * IZR q) by (apply Rmult_le_pos; [|apply (IZR_le 0)]; lia || lra).
  pose proof uu_bounds. pose proof eta_bounds. unfold rate_ok in *.
  assert (XB : 3 * (D2R p * IZR q) <= bpow 500).
  { apply Rle_trans with (4 * bpow 490); [lra|].
    replace 4 with (bpow 2) by (rewrite bpow_Zpos; reflexivity). rewrite <- bpow_add. apply bpow_le. lia. }
  set (tr := if side_eqb side ALPHA_SIDE_SELL then D2R (tax_rate m) else 0) in *.
  assert (0 <= tr <= 1) by (subst tr; destruct (side_eqb side ALPHA_SIDE_SELL); lra).
  pose proof (near_add _ _ _ _ _ _ _ N1 N2) as A1.
  destruct (near_op _ _ _ _ _ A1 (add_rounds _ _ F1 F2)) as [F12 N12]; try lra; [nra|].
  apply (near_weaken _ _ (6 * uu) (13 * eta)) in N12; try lra.
  apply (near_weaken _ _ (6 * uu) (3 * eta)) in N3; try lra.
  pose proof (near_add _ _ _ _ _ _ _ N12 N3) as A2.
  destruct (near_op _ _ _ _ _ A2 (add_rounds _ _ F12 F3)) as [F NT]; try lra; [nra|].
  apply (near_weaken _ _ (8 * uu) (33 * eta)) in NT; try lra.
  subst c. cbn [total commission tax slippage_cost]. fold t.
  split; [exact F|]. split; [|split; [|auto]].
  - apply fadd_nonneg; auto. now apply fadd_nonneg.
  - unfold side_rate. fold tr. rewrite !Rmult_plus_distr_l. exact NT.
Qed.
End Calculate.

(** A literal's bounds by evaluation. *)
Lemma rate_ok_eval r : (is_fin r && (0 <=? r)%float && (r <=? 1)%float)%bool = true -> rate_ok r.
Proof.
  intros H. zprop. split; [assumption|].
  match goal with H1 : (0 <=? r)%float = true, H2 : (r <=? 1)%float = true |- _ =>
    apply leb_R in H1, H2; auto; rewrite D2R_0 in H1; rewrite D2R_1 in H2; lra end.
Qed.

Lemma model_ok_default : model_ok alpha_cost_model_default.
Proof. repeat split; try reflexivity; apply rate_ok_eval; vm_compute; reflexivity. Qed.

(** ** Properties *)

(** C29: For rates between 0 and 1, a finite price of at least 0, a quantity from 0 to 2^53
    and an exact notional of at most 2^490: the computed trade cost and its three
    components are finite and non-negative, a BUY pays no tax, and the total is
    within 8 * 2^-52 times the exact cost price * quantity * (commission + tax on SELL
    + slippage), plus 33 * 2^-1074, of that cost. *)
Theorem cost_calculate_accurate m side p q :
  model_ok m -> is_fin p = true -> 0 <= D2R p -> (0 <= q <= 2 ^ 53)%Z ->
  D2R p * IZR q <= bpow 490 ->
  let c := alpha_cost_calculate m side p q in
  let exact := D2R p * IZR q * side_rate m side in
  is_fin (total c) = true /\ 0 <= D2R (total c) /\
  Rabs (D2R (total c) - exact) <= 8 * uu * exact + 33 * eta /\
  0 <= D2R (commission c) /\ 0 <= D2R (tax c) /\ 0 <= D2R (slippage_cost c) /\
  is_fin (commission c) = true /\ is_fin (tax c) = true /\ is_fin (slippage_cost c) = true /\
  (side = ALPHA_SIDE_BUY -> tax c = 0%float).
Proof.
  intros M F P Q B c exact. destruct (cost_calculate_near m p q M F P Q B side) as (H1 & H2 & [_ H3] & H4).
  fold c exact in H1, H2, H3, H4.
  destruct (add_fin_inv (commission c + tax c) (slippage_cost c) H1) as [F1 F2].
  destruct (add_fin_inv _ _ F1) as [F3 F4]. repeat split; try tauto.
  unfold c. intros ->. reflexivity.
Qed.

Lemma cost_calculate_accurate_witness :
  let c := alpha_cost_calculate alpha_cost_model_default ALPHA_SIDE_SELL 70000 10 in
  let exact := D2R 70000 * IZR 10 * side_rate alpha_cost_model_default ALPHA_SIDE_SELL in
  is_fin (total c) = true /\ 0 <= D2R (total c) /\
  Rabs (D2R (total c) - exact) <= 8 * uu * exact + 33 * eta /\
  0 <= D2R (commission c) /\ 0 <= D2R (tax c) /\ 0 <= D2R (slippage_cost c) /\
  is_fin (commission c) = true /\ is_fin (tax c) = true /\ is_fin (slippage_cost c) = true /\
  (ALPHA_SIDE_SELL = ALPHA_SIDE_BUY -> tax c = 0%float).
Proof.
  apply (cost_calculate_accurate alpha_cost_model_default ALPHA_SIDE_SELL 70000 10).
  - apply model_ok_default.
  - reflexivity.
  - d2r 70000%float. lra.
  - lia.
  - apply Rle_trans with (bpow 20); [|apply bpow_le; lia]. d2r 70000%float. lra.
Defined.
