(* ===== verification/Backtest.v ===== *)
(** * Backtest data models and the signal source

    Models [core/include/alpha/backtest.h] (configuration, trades, snapshots,
    metrics and results) and [core/src/backtest/signal_source.c]. *)

From Stdlib Require Import ZArith Lia Bool List Floats Ascii String.
From S2P Require Import Prelude CStr Domain Double CostModel.
Import ListNotations.
Open Scope Z_scope.

Definition ALPHA_TICKER_CAP : nat := 32.
Definition ALPHA_STRATEGY_CAP : nat := 16.

Record alpha_backtest_config_t := {
  cfg_ticker : string;
  cfg_strategy : string;
  train_start : Z;
  train_end : Z;
  test_start : Z;
  test_end : Z;
  initial_capital : Z;
  commission_rate_pct : float;
  tax_rate_pct : float;
  slippage_bps : Z
}.

Record alpha_trade_record_t := {
  trade_date : Z;
  side : alpha_side_t;
  ticker : string;
  price : float;
  quantity : Z;
  trade_commission : float;
  trade_tax : float;
  trade_slippage_cost : float;
  total_cost : float;
  pnl : float
}.

Record alpha_daily_snapshot_t := {
  snap_date : Z;
  close_price : float;
  snap_cash : float;
  snap_position_qty : Z;
  position_value : float;
  portfolio_value : float;
  daily_return_pct : float
}.

Record alpha_backtest_metrics_t := {
  total_return_pct : float;
  annual_return_pct : float;
  sharpe_ratio : float;
  max_drawdown_pct : float;
  win_rate : float;
  total_trades : Z;
  avg_holding_days : float;
  baseline_return_pct : float;
  excess_return_pct : float
}.

(** The two buffers with their counts are lists. *)
Record alpha_backtest_result_t := {
  res_config : alpha_backtest_config_t;
  metrics : alpha_backtest_metrics_t;
  trades : list alpha_trade_record_t;
  snapshots : list alpha_daily_snapshot_t
}.

Definition zero_metrics : alpha_backtest_metrics_t :=
  {| total_return_pct := 0; annual_return_pct := 0; sharpe_ratio := 0; max_drawdown_pct := 0;
     win_rate := 0; total_trades := 0; avg_holding_days := 0; baseline_return_pct := 0;
     excess_return_pct := 0 |}.

(** The [alpha_signal_fn] seam: a context that the callback may update, the
    date, the whole price array, the number of bars seen and the position. *)
Definition alpha_signal_fn (C : Type) : Type :=
  C -> Z -> list float -> nat -> Z -> C * alpha_signal_t.

(** The [days] and [signals] arrays have [count] entries each. *)
Record alpha_replay_source_t := {
  days : list Z;
  signals : list alpha_signal_t
}.

Fixpoint replay_scan (days : list Z) (signals : list alpha_signal_t) (epoch_day : Z)
  : alpha_signal_t :=
  match days, signals with
  | d :: days, s :: signals => if d =? epoch_day then s else replay_scan days signals epoch_day
  | _, _ => ALPHA_SIGNAL_HOLD
  end.

Definition alpha_replay_signal : alpha_signal_fn alpha_replay_source_t :=
  fun source epoch_day prices n position =>
    (source, replay_scan (days source) (signals source) epoch_day).

(** ** Lemmas *)

(** A callback that looks only at the bars it has been shown. *)
Class CausalSignal {C : Type} (fn : alpha_signal_fn C) : Prop :=
  causal_signal : forall c d ps ps' n pos,
    firstn n ps = firstn n ps' -> fn c d ps n pos = fn c d ps' n pos.

#[export] Instance replay_causal : CausalSignal alpha_replay_signal.
Proof. intros c d ps ps' n pos _. reflexivity. Qed.

Lemma replay_scan_spec ds ss day : List.length ds = List.length ss ->
  (exists i, nth_error ds i = Some day /\ nth_error ss i = Some (replay_scan ds ss day) /\
     forall j, (j < i)%nat -> nth_error ds j <> Some day) \/
  (~ In day ds /\ replay_scan ds ss day = ALPHA_SIGNAL_HOLD).
Proof.
  revert ss. induction ds as [|d ds IH]; intros [|s ss] L; try discriminate; cbn [replay_scan].
  - right. auto.
  - destruct (d =? day) eqn:E; zprop.
    + left. exists O. subst. repeat split; auto. intros j Hj. lia.
    + destruct (IH ss ltac:(cbn in L; lia)) as [(i & H1 & H2 & H3)|[H1 H2]].
      * left. exists (S i). cbn. repeat split; auto. intros [|j] Hj; cbn; [congruence|].
        apply H3. lia.
      * right. cbn. intuition congruence.
Qed.

(** ** Properties *)

(** The replay source answers with the first entry recorded for the day and
    HOLD when the day is absent, whatever the prices and position, and leaves
    its table unchanged. *)
Theorem replay_signal_first_match src day prices n pos :
  List.length (days src) = List.length (signals src) ->
  exists s, alpha_replay_signal src day prices n pos = (src, s) /\
    ((exists i, nth_error (days src) i = Some day /\ nth_error (signals src) i = Some s /\
        forall j, (j < i)%nat -> nth_error (days src) j <> Some day) \/
     (~ In day (days src) /\ s = ALPHA_SIGNAL_HOLD)).
Proof.
  intros L. eexists. split; [reflexivity|]. now apply replay_scan_spec.
Qed.

Lemma replay_signal_first_match_witness :
  let src := {| days := [3; 5; 3]; signals := [ALPHA_SIGNAL_BUY; ALPHA_SIGNAL_SELL; ALPHA_SIGNAL_CLOSE] |} in
  exists s, alpha_replay_signal src 3 [] 0%nat 0 = (src, s) /\
    ((exists i, nth_error (days src) i = Some 3 /\ nth_error (signals src) i = Some s /\
        forall j, (j < i)%nat -> nth_error (days src) j <> Some 3) \/
     (~ In 3 (days src) /\ s = ALPHA_SIGNAL_HOLD)).
Proof. intros src. apply (replay_signal_first_match src 3 [] 0%nat 0). reflexivity. Defined.
