(* ===== verification/Metrics.v ===== *)
(** * Backtest metrics

    Models [core/src/backtest/metrics.c]: Sharpe ratio, maximum drawdown, FIFO
    holding days, win rate and the assembled metrics.  [pow] of [math.h] is a
    parameter (C leaves its rounding open); [malloc] outcomes are arguments.  The
    dates are unchecked [int64_t]s: their differences and sums are [None] where they
    overflow. *)

From Stdlib Require Import ZArith Lia Bool List Reals Lra Floats.
From S2P Require Import Prelude Domain Double Round CostModel Backtest.
Import ListNotations.
Set Warnings "-inexact-float".
Open Scope Z_scope.

Definition TRADING_DAYS_PER_YEAR : float := 252.

Definition compute_sharpe (returns : list float) : float :=
  let n := Z.of_nat (List.length returns) in
  if n <? 2 then 0%float
  else
    let sum := fold_left (fun sum r => (sum + r)%float) returns 0%float in
    let mean := (sum / double_of_Z n)%float in
    let sq := fold_left (fun sq r => let d := (r - mean)%float in (sq + d * d)%float)
                returns 0%float in
    let variance := (sq / double_of_Z (n - 1))%float in
    let std := sqrt variance in
    if (std <=? 0)%float then 0%float
    else (mean / std * sqrt TRADING_DAYS_PER_YEAR)%float.

(** One iteration of the drawdown loop on [(peak, mdd)]. *)
Definition mdd_step (st : float * float) (s : alpha_daily_snapshot_t) : float * float :=
  let '(peak, mdd) := st in
  let value := portfolio_value s in
  let peak := if (peak <? value)%float then value else peak in
  let dd := ((value - peak) / peak * 100)%float in
  let mdd := if (dd <? mdd)%float then dd else mdd in
  (peak, mdd).

Definition compute_mdd (snapshots : list alpha_daily_snapshot_t) : float :=
  match snapshots with
  | [] => 0%float
  | s0 :: _ => snd (fold_left mdd_step snapshots (portfolio_value s0, 0%float))
  end.

(** ** FIFO matching over a scratch array *)

(** [a[i] = v]; [None] outside the array. *)
Fixpoint array_set (a : list Z) (i : nat) (v : Z) : option (list Z) :=
  match a, i with
  | [], _ => None
  | _ :: a, O => Some (v :: a)
  | x :: a, S i => let? a' := array_set a i v in Some (x :: a')
  end.

Record fifo := {
  head : nat;
  tail : nat;
  buy_queue : list Z;
  total_holding : Z;
  matched : Z
}.

Definition fifo_step (q : fifo) (t : alpha_trade_record_t) : option fifo :=
  if side_eqb (side t) ALPHA_SIDE_BUY then
    let? buf := array_set (buy_queue q) (tail q) (trade_date t) in
    Some {| head := head q; tail := S (tail q); buy_queue := buf;
            total_holding := total_holding q; matched := matched q |}
  else if (head q <? tail q)%nat then
    let? bought := nth_error (buy_queue q) (head q) in
    let? holding := i64 (trade_date t - bought) in
    let? total := i64 (total_holding q + (if holding >? 0 then holding else 0)) in
    let? count := i64 (matched q + 1) in
    Some {| head := S (head q); tail := tail q; buy_queue := buy_queue q;
            total_holding := total; matched := count |}
  else Some q.

Fixpoint fifo_run (q : fifo) (ts : list alpha_trade_record_t) : option fifo :=
  match ts with
  | [] => Some q
  | t :: ts => let? q' := fifo_step q t in fifo_run q' ts
  end.

Definition compute_avg_holding_days (trades : list alpha_trade_record_t) (buffer : list Z)
  : option float :=
  let? q := fifo_run {| head := 0; tail := 0; buy_queue := buffer; total_holding := 0; matched := 0 |}
              trades in
  Some (if matched q =? 0 then 0%float
        else (double_of_Z (total_holding q) / double_of_Z (matched q))%float).

(** ** The metrics *)

(** [(sells, wins)] *)
Definition count_step (c : Z * Z) (t : alpha_trade_record_t) : Z * Z :=
  let '(sells, wins) := c in
  if side_eqb (side t) ALPHA_SIDE_SELL then
    (sells + 1, if (0 <? pnl t)%float then wins + 1 else wins)
  else c.

Definition compute_win_rate (trades : list alpha_trade_record_t) : float :=
  let '(sells, wins) := fold_left count_step trades (0, 0) in
  if sells >? 0 then (double_of_Z wins / double_of_Z sells * 100)%float else 0%float.

(** Entries of [stack_returns] and [stack_queue]. *)
Definition STACK_CAP : nat := 512.

Definition alpha_compute_metrics (pow : float -> float -> float)
    (returns_alloc queue_alloc : bool)
    (snapshots : list alpha_daily_snapshot_t) (trades : list alpha_trade_record_t)
    (initial_capital : Z) : option alpha_backtest_metrics_t :=
  match snapshots with
  | [] => Some zero_metrics
  | s0 :: _ =>
      let ns := List.length snapshots in
      let nt := List.length trades in
      let s_last := List.last snapshots s0 in
      let initial := double_of_Z initial_capital in
      let final_value := portfolio_value s_last in
      let total_return := ((final_value - initial) / initial)%float in
      let total_return_pct := (total_return * 100)%float in
      let annual_return_pct :=
        if (1 <? ns)%nat && (-1 <? total_return)%float then
          ((pow (1 + total_return) (TRADING_DAYS_PER_YEAR / double_of_Z (Z.of_nat ns)) - 1)
             * 100)%float
        else 0%float in
      let sharpe :=
        if (STACK_CAP <? ns)%nat && negb returns_alloc then 0%float
        else compute_sharpe (List.map (fun s => (daily_return_pct s / 100)%float) snapshots) in
      let mdd := compute_mdd snapshots in
      let win_rate := compute_win_rate trades in
      let? avg_holding_days :=
        (if (nt =? 0)%nat then Some 0%float
         else if (STACK_CAP <? nt)%nat then
           if queue_alloc then compute_avg_holding_days trades (repeat 0 nt) else Some 0%float
         else compute_avg_holding_days trades (repeat 0 STACK_CAP)) in
      let first_price := close_price s0 in
      let last_price := close_price s_last in
      let baseline_return_pct :=
        if (0 <? first_price)%float then ((last_price / first_price - 1) * 100)%float else 0%float in
      let excess_return_pct := (total_return_pct - baseline_return_pct)%float in
      Some {| total_return_pct := alpha_round_dp total_return_pct 4;
              annual_return_pct := alpha_round_dp annual_return_pct 4;
              sharpe_ratio := alpha_round_dp sharpe 4;
              max_drawdown_pct := alpha_round_dp mdd 4;
              win_rate := alpha_round_dp win_rate 4;
              total_trades := Z.of_nat nt;
              avg_holding_days := alpha_round_dp avg_holding_days 1;
              baseline_return_pct := alpha_round_dp baseline_return_pct 4;
              excess_return_pct := alpha_round_dp excess_return_pct 4 |}
  end.

(** ** Specification of the FIFO matching *)

(** Dates of open buys as a queue; each matched sale's days since its buy, in order. *)
Fixpoint fifo_gaps (open : list Z) (ts : list alpha_trade_record_t) : list Z :=
  match ts with
  | [] => []
  | t :: ts =>
      if side_eqb (side t) ALPHA_SIDE_BUY then fifo_gaps (open ++ [trade_date t]) ts
      else match open with
           | [] => fifo_gaps [] ts
           | b :: open => (trade_date t - b) :: fifo_gaps open ts
           end
  end.

(** The holding periods: a sale dated before its buy counts as no day. *)
Definition days_held (gap : Z) : Z := Z.max 0 gap.
Definition sum (l : list Z) : Z := fold_right Z.add 0 l.
Definition fifo_spec (open : list Z) (ts : list alpha_trade_record_t) : list Z :=
  List.map days_held (fifo_gaps open ts).

(** The signed 64-bit integers of the loop hold the differences, their sum and count. *)
Definition gaps_fit (total count : Z) (gaps : list Z) : bool :=
  forallb in_int64b gaps && (total + sum (List.map days_held gaps) <=? INT64_MAX) &&
  (count + Z.of_nat (List.length gaps) <=? INT64_MAX).
Definition fifo_fits (ts : list alpha_trade_record_t) : bool := gaps_fit 0 0 (fifo_gaps [] ts).

Definition mean_days (hs : list Z) : float :=
  match hs with
  | [] => 0%float
  | _ => (double_of_Z (sum hs) / double_of_Z (Z.of_nat (List.length hs)))%float
  end.

(** The queue is the array between [head] and [tail]. *)
Definition represents (q : fifo) (open : list Z) : Prop :=
  (head q <= tail q)%nat /\ firstn (tail q - head q) (skipn (head q) (buy_queue q)) = open /\
  List.length open = (tail q - head q)%nat.

(** ** Lemmas *)

Lemma array_set_spec a i v : (i < List.length a)%nat ->
  exists a', array_set a i v = Some a' /\ List.length a' = List.length a /\
    firstn (S i) a' = firstn i a ++ [v].
Proof.
  revert i. induction a as [|x a IH]; intros [|i] H; cbn [List.length] in *; try lia.
  - exists (v :: a). auto.
  - destruct (IH i ltac:(lia)) as (a' & E & L & F). exists (x :: a'). cbn [array_set].
    rewrite E. split; [reflexivity|]. split; [cbn; lia|]. cbn [firstn app]. f_equal. exact F.
Qed.

Lemma skipn_snoc {A} (l : list A) (x : A) n : (n <= List.length l)%nat ->
  skipn n (l ++ [x]) = skipn n l ++ [x].
Proof.
  intros H. rewrite skipn_app. replace (n - List.length l)%nat with O by lia. reflexivity.
Qed.

Lemma represents_push q open buf d : represents q open -> (tail q < List.length (buy_queue q))%nat ->
  array_set (buy_queue q) (tail q) d = Some buf ->
  represents {| head := head q; tail := S (tail q); buy_queue := buf;
                total_holding := total_holding q; matched := matched q |} (open ++ [d]).
Proof.
  intros (H1 & H2 & H3) L E. destruct (array_set_spec (buy_queue q) (tail q) d L) as (a & E' & _ & F).
  rewrite E in E'. injection E' as ->. split; [cbn; lia|]. cbn [head tail buy_queue].
  split; [|rewrite length_app; cbn [List.length]; lia].
  replace (S (tail q) - head q)%nat with (S (tail q - head q)) by lia.
  rewrite firstn_skipn_comm. replace (head q + S (tail q - head q))%nat with (S (tail q)) by lia.
  rewrite F, skipn_snoc by (rewrite length_firstn; lia). f_equal.
  rewrite <- H2, firstn_skipn_comm. do 2 f_equal. lia.
Qed.

Lemma skipn_S_of q (l : list Z) x rest : skipn q l = x :: rest -> skipn (S q) l = rest.
Proof. intros H. change (S q) with (1 + q)%nat. now rewrite <- skipn_skipn, H. Qed.

Lemma represents_pop q b open : represents q (b :: open) ->
  (head q < tail q)%nat /\ nth_error (buy_queue q) (head q) = Some b /\
  forall t m, represents {| head := S (head q); tail := tail q; buy_queue := buy_queue q;
                            total_holding := t; matched := m |} open.
Proof.
  intros (H1 & H2 & H3). cbn [List.length] in H3. assert (L : (head q < tail q)%nat) by lia.
  split; [exact L|]. destruct (tail q - head q)%nat as [|k] eqn:K; [lia|].
  destruct (skipn (head q) (buy_queue q)) as [|x rest] eqn:S; [discriminate|].
  cbn [firstn] in H2. injection H2 as -> H2. split.
  - rewrite <- (Nat.add_0_r (head q)), <- nth_error_skipn, S. reflexivity.
  - intros t m. split; [cbn; lia|]. cbn [head tail buy_queue].
    replace (tail q - Datatypes.S (head q))%nat with k by lia.
    split; [|lia]. rewrite <- H2. f_equal.
    now rewrite (skipn_S_of _ _ _ _ S).
Qed.

Lemma days_sum_nonneg l : 0 <= sum (List.map days_held l).
Proof. unfold sum. induction l as [|x l IH]; cbn [List.map fold_right]; [lia|]. apply Z.add_nonneg_nonneg; [apply Z.le_max_l|exact IH]. Qed.

(** The loop computes the sum and the count, and is undefined exactly if they, or a
    difference of dates, leave the type. *)
Lemma fifo_run_spec ts q open : represents q open ->
  (tail q + List.length ts <= List.length (buy_queue q))%nat ->
  0 <= total_holding q <= INT64_MAX -> 0 <= matched q <= INT64_MAX ->
  match fifo_run q ts with
  | Some q' => gaps_fit (total_holding q) (matched q) (fifo_gaps open ts) = true /\
      total_holding q' = total_holding q + sum (fifo_spec open ts) /\
      matched q' = matched q + Z.of_nat (List.length (fifo_gaps open ts))
  | None => gaps_fit (total_holding q) (matched q) (fifo_gaps open ts) = false
  end.
Proof.
  revert q open. induction ts as [|t ts IH]; intros q open R C T M; cbn [fifo_run fifo_gaps List.length] in *.
  - unfold gaps_fit, fifo_spec, sum. cbn [forallb andb List.map List.length fold_right Z.of_nat fifo_gaps].
    rewrite !Z.add_0_r, andb_true_iff, !Z.leb_le. lia.
  - unfold fifo_step. destruct (side_eqb (side t) ALPHA_SIDE_BUY) eqn:Sd.
    + destruct (array_set_spec (buy_queue q) (tail q) (trade_date t) ltac:(lia)) as (buf & E & L & _).
      rewrite E. unfold fifo_spec. cbn [fifo_gaps]. rewrite Sd.
      apply (IH {| head := head q; tail := S (tail q); buy_queue := buf;
                   total_holding := total_holding q; matched := matched q |}); auto.
      * apply represents_push; auto. lia.
      * cbn [tail buy_queue]. lia.
    + unfold fifo_spec. cbn [fifo_gaps]. rewrite Sd. destruct open as [|b open].
      * destruct R as (R1 & R2 & R3). cbn [List.length] in R3.
        replace (head q <? tail q)%nat with false by (symmetry; apply Nat.ltb_ge; lia).
        apply IH; auto; [split; auto|lia].
      * destruct (represents_pop q b open R) as (L & N & P). apply Nat.ltb_lt in L. rewrite L, N.
        set (gap := trade_date t - b). pose proof (days_sum_nonneg (fifo_gaps open ts)) as S0.
        assert (Mx : (if gap >? 0 then gap else 0) = days_held gap) by (unfold days_held; break_if; zprop; lia).
        assert (H0 : 0 <= days_held gap) by apply Z.le_max_l.
        unfold gaps_fit. cbn [forallb List.map List.length]. change (sum (days_held gap :: ?l)) with (days_held gap + sum l).
        unfold i64 at 1. destruct (in_int64b gap) eqn:G; cbn [andb]; [|reflexivity].
        rewrite Mx. unfold i64 at 1. destruct (in_int64b (total_holding q + days_held gap)) eqn:H1.
        2:{ apply not_true_iff_false in H1. rewrite in_int64b_iff in H1. unfold in_int64, INT64_MIN in H1.
            apply not_true_iff_false. rewrite !andb_true_iff, !Z.leb_le. lia. }
        apply in_int64b_iff in H1. unfold in_int64 in H1.
        unfold i64. destruct (in_int64b (matched q + 1)) eqn:H2.
        2:{ apply not_true_iff_false in H2. rewrite in_int64b_iff in H2. unfold in_int64, INT64_MIN in H2.
            apply not_true_iff_false. rewrite !andb_true_iff, !Z.leb_le. lia. }
        apply in_int64b_iff in H2. unfold in_int64 in H2.
        specialize (IH _ _ (P (total_holding q + days_held gap) (matched q + 1))). unfold gaps_fit in IH.
        cbn [tail buy_queue total_holding matched] in IH.
        specialize (IH ltac:(lia) ltac:(lia) ltac:(lia)).
        replace (total_holding q + (days_held gap + sum (List.map days_held (fifo_gaps open ts))))
          with (total_holding q + days_held gap + sum (List.map days_held (fifo_gaps open ts))) by lia.
        rewrite Nat2Z.inj_succ.
        replace (matched q + Z.succ (Z.of_nat (List.length (fifo_gaps open ts))))
          with (matched q + 1 + Z.of_nat (List.length (fifo_gaps open ts))) by lia.
        exact IH.
Qed.

(** Any scratch buffer large enough gives the mean of the FIFO holding periods. *)
Lemma avg_holding_days_spec ts buffer : (List.length ts <= List.length buffer)%nat ->
  compute_avg_holding_days ts buffer = if fifo_fits ts then Some (mean_days (fifo_spec [] ts)) else None.
Proof.
  intros C. unfold compute_avg_holding_days, fifo_fits.
  pose proof (fifo_run_spec ts {| head := 0; tail := 0; buy_queue := buffer; total_holding := 0; matched := 0 |} [])
    as S. cbn [total_holding matched tail buy_queue] in S.
  specialize (S ltac:(repeat split; auto) C ltac:(unfold INT64_MAX; lia) ltac:(unfold INT64_MAX; lia)).
  destruct (fifo_run _ ts) as [q|]; [|now rewrite S]. destruct S as (-> & HT & HM). rewrite HT, HM.
  unfold mean_days, fifo_spec. destruct (fifo_gaps [] ts) as [|h hs]; [reflexivity|].
  replace (_ =? 0) with false; [|symmetry; apply Z.eqb_neq; cbn [List.length]; lia].
  cbn [List.map]. do 3 f_equal. cbn [List.length]. now rewrite length_map.
Qed.

(** *** When the sum fits *)

(** Dates so close that [n] holding periods add up within the type. *)
Definition dates_close (n : nat) (dates : list Z) : Prop :=
  exists base span, 0 <= span /\ Forall (fun d => base <= d <= base + span) dates /\
    (span + 1) * Z.of_nat n <= INT64_MAX.

Lemma fifo_gaps_range base span ts open :
  Forall (fun d => base <= d <= base + span) open ->
  Forall (fun t => base <= trade_date t <= base + span) ts ->
  Forall (fun g => - span <= g <= span) (fifo_gaps open ts) /\
  (List.length (fifo_gaps open ts) <= List.length ts)%nat.
Proof.
  intros O T. revert open O. induction T as [|t ts H _ IH]; intros open O; cbn [fifo_gaps List.length]; [auto|].
  destruct (side_eqb (side t) ALPHA_SIDE_BUY).
  - destruct (IH (open ++ [trade_date t])) as [A B]; [apply Forall_app; auto|]. split; [exact A|lia].
  - destruct open as [|b open]; [destruct (IH [] O); split; [assumption|lia]|].
    inv O. destruct (IH open H3) as [A B]. split; [constructor; [lia|exact A]|cbn; lia].
Qed.

Lemma sum_bounded span l : 0 <= span -> Forall (fun g => - span <= g <= span) l ->
  sum (List.map days_held l) <= span * Z.of_nat (List.length l).
Proof.
  intros P H. induction H as [|g l G _ IH]; cbn [List.map List.length sum fold_right]; [lia|].
  rewrite Nat2Z.inj_succ. unfold sum in IH. assert (days_held g <= span) by (unfold days_held; lia). lia.
Qed.

Lemma fifo_fits_close n dates ts : dates_close n dates ->
  Forall (fun t => In (trade_date t) dates) ts -> (List.length ts <= n)%nat -> fifo_fits ts = true.
Proof.
  intros (base & span & P & D & B) T L. rewrite Forall_forall in D.
  destruct (fifo_gaps_range base span ts []) as [G N]; [constructor|eapply Forall_impl; [|exact T]; auto|].
  pose proof (sum_bounded span _ P G) as S. unfold fifo_fits, gaps_fit.
  rewrite !andb_true_iff, !Z.leb_le, forallb_forall. rewrite Forall_forall in G.
  destruct (Nat.eq_dec n 0) as [->|Z0].
  { destruct ts; [|cbn in L; lia]. cbn. unfold INT64_MAX. split; [split; [tauto|lia]|lia]. }
  assert (span <= INT64_MAX) by nia. split; [split|]; [|nia|nia].
  intros g I. specialize (G g I). apply in_int64b_iff. unfold in_int64, INT64_MIN, INT64_MAX in *. lia.
Qed.

Lemma fifo_gaps_app ts later open : exists more, fifo_gaps open (ts ++ later) = fifo_gaps open ts ++ more.
Proof.
  revert open. induction ts as [|t ts IH]; intros open; cbn [app fifo_gaps]; [eauto|].
  destruct (side_eqb (side t) ALPHA_SIDE_BUY); [apply IH|]. destruct open as [|b open]; [apply IH|].
  destruct (IH open) as (more & ->). exists more. reflexivity.
Qed.

(** Fewer trades fit when more do. *)
Lemma fifo_fits_prefix ts later : fifo_fits (ts ++ later) = true -> fifo_fits ts = true.
Proof.
  unfold fifo_fits, gaps_fit. destruct (fifo_gaps_app ts later []) as (more & ->).
  rewrite forallb_app, List.map_app, length_app, !andb_true_iff, !Z.leb_le.
  assert (A : forall a b, sum (a ++ b) = sum a + sum b).
  { intros a b. unfold sum. induction a as [|x a IH]; cbn [app fold_right]; lia. }
  rewrite A. pose proof (days_sum_nonneg more). intros [[[F _] S] C]. repeat split; auto; lia.
Qed.

(** ** Maximum drawdown *)

(** A portfolio value that is finite and not negative. *)
Definition value_ok (s : alpha_daily_snapshot_t) : Prop :=
  is_fin (portfolio_value s) = true /\ (0 <= D2R (portfolio_value s))%R.

(** [peak] is the largest portfolio value of the list. *)
Definition is_peak (l : list alpha_daily_snapshot_t) (peak : float) : Prop :=
  (exists s, In s l /\ portfolio_value s = peak) /\
  (forall s, In s l -> (D2R (portfolio_value s) <= D2R peak)%R).

(** [d] is the computed drawdown of the last day of a prefix from the peak of
    that prefix. *)
Definition drawdown_of (l : list alpha_daily_snapshot_t) (d : float) : Prop :=
  exists l1 s l2 peak, l = l1 ++ s :: l2 /\ is_peak (l1 ++ [s]) peak /\
    d = ((portfolio_value s - peak) / peak * 100)%float.

(** What the drawdown loop has computed after the prefix [l]. *)
Definition mdd_inv (l : list alpha_daily_snapshot_t) (st : float * float) : Prop :=
  let '(peak, mdd) := st in
  is_fin peak = true /\ (0 < D2R peak)%R /\ is_peak l peak /\
  is_fin mdd = true /\ (-100 <= D2R mdd <= 0)%R /\
  (forall d, drawdown_of l d -> (D2R mdd <= D2R d)%R) /\
  (mdd = 0%float \/ drawdown_of l mdd).

Lemma drawdown_of_snoc l x d : drawdown_of (l ++ [x]) d ->
  drawdown_of l d \/ exists peak, is_peak (l ++ [x]) peak /\
    d = ((portfolio_value x - peak) / peak * 100)%float.
Proof.
  intros (l1 & s & l2 & peak & E & P & D).
  destruct (exists_last (l := s :: l2) ltac:(discriminate)) as (l2' & y & E2).
  rewrite E2, app_assoc in E. apply app_inj_tail in E as [E <-].
  destruct l2' as [|z l2'].
  - injection E2 as -> ->. right. rewrite app_nil_r in E. subst l1. eauto.
  - injection E2 as -> ->. left. exists l1, z, l2', peak. auto.
Qed.

Lemma drawdown_of_app l x d : drawdown_of l d -> drawdown_of (l ++ [x]) d.
Proof.
  intros (l1 & s & l2 & peak & -> & P & D). exists l1, s, (l2 ++ [x]), peak.
  split; [now rewrite <- app_assoc|auto].
Qed.

(** The drawdown from a positive peak is a percentage between -100 and 0. *)
Lemma peak_drop l x peak : Forall value_ok (l ++ [x]) -> is_peak (l ++ [x]) peak ->
  (0 < D2R peak)%R ->
  is_fin peak = true /\ is_fin ((portfolio_value x - peak) / peak * 100)%float = true /\
  (-100 <= D2R ((portfolio_value x - peak) / peak * 100)%float <= 0)%R.
Proof.
  intros V [(s & I & <-) B] Pp. rewrite Forall_forall in V.
  destruct (V s I) as [Fs _]. destruct (V x) as [Fx Px]; [apply in_or_app; cbn; auto|].
  split; [exact Fs|]. apply drop_pct_bounds; auto. split; [exact Px|].
  apply B. apply in_or_app. cbn. auto.
Qed.

(** Two peaks of a list are the same double. *)
Lemma peak_unique l p p' : Forall value_ok l -> is_peak l p -> is_peak l p' -> (0 < D2R p)%R -> p = p'.
Proof.
  intros V [(s & I & <-) B] [(s' & I' & <-) B'] P. rewrite Forall_forall in V.
  pose proof (B s' I'). pose proof (B' s I). apply D2R_inj; try apply V; auto; lra.
Qed.

Lemma mdd_step_inv l x st : Forall value_ok (l ++ [x]) -> mdd_inv l st -> mdd_inv (l ++ [x]) (mdd_step st x).
Proof.
  destruct st as [peak mdd]. intros V (Fp & Pp & [PE PB] & Fm & Bm & ML & MW).
  pose proof V as V'. apply Forall_app in V' as [Vl Vx]. inv Vx. destruct H1 as [Fx Px].
  unfold mdd_step. set (v := portfolio_value x).
  set (pk := if (peak <? v)%float then v else peak).
  assert (K : is_peak (l ++ [x]) pk /\ (0 < D2R pk)%R).
  { unfold pk. destruct (peak <? v)%float eqn:C.
    - apply ltb_R in C; auto. split; [|lra]. split; [exists x; split; [apply in_or_app; cbn|]; auto|].
      intros s I. apply in_app_or in I as [I|[<-|[]]]; [|unfold v; lra]. specialize (PB s I). lra.
    - apply ltb_false_R in C; auto. split; [|lra]. destruct PE as (s & I & E).
      split; [exists s; split; [apply in_or_app|]; auto|].
      intros s' I'. apply in_app_or in I' as [I'|[<-|[]]]; auto. }
  destruct K as [K Pk]. destruct (peak_drop l x pk V K Pk) as (Fk & Fd & Bd). fold v in Fd, Bd.
  set (dd := ((v - pk) / pk * 100)%float) in *.
  assert (DD : drawdown_of (l ++ [x]) dd) by (exists l, x, [], pk; auto).
  assert (ALL : forall d, drawdown_of (l ++ [x]) d -> drawdown_of l d \/ d = dd).
  { intros d H. apply drawdown_of_snoc in H as [H|(pk' & K' & ->)]; [auto|right].
    now rewrite <- (peak_unique _ _ _ V K K' Pk). }
  cbn [mdd_inv]. destruct (dd <? mdd)%float eqn:C; freal; repeat split; try apply K; auto; try lra.
  - intros d H. apply ALL in H as [H| ->]; [|lra]. apply ML in H. lra.
  - intros d H. apply ALL in H as [H| ->]; [|lra]. now apply ML in H.
  - destruct MW; [auto|right; now apply drawdown_of_app].
Qed.

Lemma mdd_fold_inv s0 l : Forall value_ok (s0 :: l) -> (0 < D2R (portfolio_value s0))%R ->
  mdd_inv (s0 :: l) (fold_left mdd_step (s0 :: l) (portfolio_value s0, 0%float)).
Proof.
  intros V P. induction l as [|x l IH] using rev_ind.
  - pose proof V as V'. inv V'. destruct H1 as [F _].
    assert (N : (portfolio_value s0 <? portfolio_value s0)%float = false)
      by (apply ltb_false_R; auto; lra).
    assert (K : is_peak ([] ++ [s0]) (portfolio_value s0)).
    { split; [exists s0; cbn; auto|]. intros s [<-|[]]. lra. }
    destruct (peak_drop [] s0 (portfolio_value s0) V K P) as (_ & Fd & Bd).
    cbn [fold_left mdd_step]. rewrite N. set (dd := (_ * 100)%float) in *.
    assert (DD : drawdown_of ([] ++ [s0]) dd) by (exists [], s0, [], (portfolio_value s0); auto).
    assert (ALL : forall d, drawdown_of ([] ++ [s0]) d -> d = dd).
    { intros d H. apply drawdown_of_snoc in H as [(l1 & s & l2 & pk & E & _)|(pk' & K' & ->)].
      - destruct l1; discriminate.
      - now rewrite <- (peak_unique _ _ _ V K K' P). }
    cbn [mdd_inv]. assert (F0 : is_fin 0 = true) by reflexivity.
    destruct (dd <? 0)%float eqn:C; freal; rewrite ?D2R_0 in *; repeat split; try apply K; auto; try lra;
      intros d H; apply ALL in H as ->; lra.
  - change (s0 :: l ++ [x]) with ((s0 :: l) ++ [x]). rewrite fold_left_app. apply mdd_step_inv; [exact V|].
    apply IH. change (s0 :: l ++ [x]) with ((s0 :: l) ++ [x]) in V. now apply Forall_app in V as [V _].
Qed.

(** ** Win rate *)

Lemma count_bounds ts sells wins : 0 <= wins <= sells ->
  let '(s, w) := fold_left count_step ts (sells, wins) in
  0 <= w <= s /\ sells <= s <= sells + Z.of_nat (List.length ts).
Proof.
  revert sells wins. induction ts as [|t ts IH]; intros sells wins H.
  - cbn. lia.
  - cbn [fold_left count_step]. destruct (side_eqb (side t) ALPHA_SIDE_SELL).
    + specialize (IH (sells + 1) (if (0 <? pnl t)%float then wins + 1 else wins)).
      destruct (fold_left _ _ _) as [s w]. cbn [List.length].
      destruct (0 <? pnl t)%float; lia.
    + specialize (IH sells wins H). destruct (fold_left _ _ _) as [s w]. cbn [List.length]. lia.
Qed.

Lemma win_rate_bounds ts : Z.of_nat (List.length ts) <= 2 ^ 53 ->
  is_fin (compute_win_rate ts) = true /\ (0 <= D2R (compute_win_rate ts) <= 100)%R.
Proof.
  intros H. unfold compute_win_rate. pose proof (count_bounds ts 0 0 ltac:(lia)) as B.
  destruct (fold_left _ _ _) as [s w]. destruct (s >? 0) eqn:S; zprop;
    [|split; [reflexivity|rewrite D2R_0; lra]].
  destruct (double_of_Z_exact s ltac:(lia)) as [Fs Es].
  destruct (double_of_Z_exact w ltac:(lia)) as [Fw Ew].
  assert (0 < IZR s)%R by (apply (IZR_lt 0); lia). assert (0 <= IZR w)%R by (apply (IZR_le 0); lia).
  assert (IZR w <= IZR s)%R by (apply IZR_le; lia).
  pose proof (div_rounds _ _ Fw Fs ltac:(lra)) as R1. rewrite Es, Ew in R1.
  destruct (rounds_between _ _ R1 0 1 eq_refl eq_refl) as [F1 B1].
  { rewrite D2R_0, D2R_1. split; [apply Rmult_le_pos; [lra|apply Rlt_le, Rinv_0_lt_compat; lra]|].
    apply Rmult_le_reg_r with (IZR s); [lra|]. unfold Rdiv. rewrite Rmult_assoc, Rinv_l; lra. }
  rewrite D2R_0, D2R_1 in B1.
  pose proof (mul_rounds _ 100 F1 eq_refl) as R2. rewrite D2R_100 in R2.
  destruct (rounds_between _ _ R2 0 100 eq_refl eq_refl) as [F2 B2]; rewrite ?D2R_0, ?D2R_100 in *; [lra|].
  split; [exact F2|lra].
Qed.

(** ** Properties *)


Definition sample_snapshot (v : float) : alpha_daily_snapshot_t :=
  {| snap_date := 0; close_price := v; snap_cash := 0; snap_position_qty := 1; position_value := v;
     portfolio_value := v; daily_return_pct := 0 |}.


(** C8: the FIFO matching over the scratch array agrees with a queue: no index
    leaves a buffer of at least as many entries as trades, no unwritten cell is
    read (the buffer's contents do not matter), and the result is the mean of
    max(0, sell date - oldest open buy date) over the matched sells.  The loop is
    undefined exactly if a difference of two matched dates, the sum of the holding
    days or the number of matches overflows its signed 64-bit integer, which dates
    within a span of [(INT64_MAX / n) - 1] days of each other exclude for [n] trades. *)
Theorem avg_holding_days_fifo ts buffer :
  (List.length ts <= List.length buffer)%nat ->
  compute_avg_holding_days ts buffer =
    (if fifo_fits ts then Some (mean_days (fifo_spec [] ts)) else None) /\
  (dates_close (List.length ts) (List.map trade_date ts) -> fifo_fits ts = true).
Proof.
  intros L. split; [exact (avg_holding_days_spec ts buffer L)|]. intros D.
  apply (fifo_fits_close _ _ _ D); [|lia]. apply Forall_forall. intros t I. now apply in_map.
Qed.

(** Bought on days 10 and 12, sold on day 15: one match of five days. *)
Definition sample_trade (s : alpha_side_t) (day : Z) : alpha_trade_record_t :=
  {| trade_date := day; side := s; ticker := Stdlib.Strings.String.EmptyString; price := 1; quantity := 1; trade_commission := 0;
     trade_tax := 0; trade_slippage_cost := 0; total_cost := 1; pnl := 0 |}.
Definition sample_trades : list alpha_trade_record_t :=
  [sample_trade ALPHA_SIDE_BUY 10; sample_trade ALPHA_SIDE_BUY 12; sample_trade ALPHA_SIDE_SELL 15].

(** A sale dated further from its buy than the type reaches. *)
Definition distant_trades : list alpha_trade_record_t :=
  [sample_trade ALPHA_SIDE_BUY (-2); sample_trade ALPHA_SIDE_SELL INT64_MAX].

Lemma avg_holding_days_fifo_witness :
  compute_avg_holding_days sample_trades [7; 8; 9; 9] = Some (mean_days (fifo_spec [] sample_trades)) /\
  mean_days (fifo_spec [] sample_trades) = 5%float /\
  compute_avg_holding_days distant_trades [0; 0] = None.
Proof.
  split; [|split; [vm_compute; reflexivity|]].
  - destruct (avg_holding_days_fifo sample_trades [7; 8; 9; 9]) as [E F]; [cbn; lia|]. rewrite E, F; [reflexivity|].
    exists 10, 5. split; [lia|]. split; [repeat constructor; cbn; lia|unfold INT64_MAX; cbn; lia].
  - destruct (avg_holding_days_fifo distant_trades [0; 0]) as [E _]; [cbn; lia|]. rewrite E. vm_compute. reflexivity.
Defined.

(** The holding days of the metrics, by allocation and size. *)
Lemma holding_days_cases (qa : bool) ts :
  (if (List.length ts =? 0)%nat then Some 0%float
   else if (STACK_CAP <? List.length ts)%nat then
     if qa then compute_avg_holding_days ts (repeat 0 (List.length ts)) else Some 0%float
   else compute_avg_holding_days ts (repeat 0 STACK_CAP))
  = if qa || (List.length ts <=? STACK_CAP)%nat
    then if fifo_fits ts then Some (mean_days (fifo_spec [] ts)) else None
    else Some 0%float.
Proof.
  destruct (Nat.eqb_spec (List.length ts) 0) as [E|E].
  - destruct ts; [|discriminate]. now destruct qa.
  - destruct (Nat.ltb_spec STACK_CAP (List.length ts)) as [L|L].
    + replace (List.length ts <=? STACK_CAP)%nat with false by (symmetry; apply Nat.leb_gt; lia).
      destruct qa; cbn [orb]; [|reflexivity]. apply avg_holding_days_spec. now rewrite repeat_length.
    + replace (List.length ts <=? STACK_CAP)%nat with true by (symmetry; apply Nat.leb_le; lia).
      rewrite orb_true_r. apply avg_holding_days_spec. now rewrite repeat_length.
Qed.

(** The metrics are computed whatever the allocations do, unless the holding days
    overflow: no array access is out of bounds, the trade count is reported as it is,
    no snapshot gives all zeros, a failed allocation only zeroes the metric that
    needed it, and the reported holding days are the rounded FIFO mean otherwise. *)
Theorem compute_metrics_total pow ra qa ss ts capital :
  fifo_fits ts = true ->
  exists m, alpha_compute_metrics pow ra qa ss ts capital = Some m /\
    (ss = [] -> m = zero_metrics) /\
    (ss <> [] -> total_trades m = Z.of_nat (List.length ts) /\
      avg_holding_days m =
        alpha_round_dp (if qa || (List.length ts <=? STACK_CAP)%nat
                        then mean_days (fifo_spec [] ts) else 0%float) 1 /\
      sharpe_ratio m =
        alpha_round_dp (if ra || (List.length ss <=? STACK_CAP)%nat
                        then compute_sharpe (List.map (fun s => (daily_return_pct s / 100)%float) ss)
                        else 0%float) 4).
Proof.
  intros Fi. unfold alpha_compute_metrics. destruct ss as [|s0 ss]; [eexists; split; [reflexivity|]; split; congruence|].
  set (l := s0 :: ss). rewrite (holding_days_cases qa ts), Fi.
  destruct (qa || _); (eexists; split; [reflexivity|]; split; [discriminate|]; intros _);
    cbn [total_trades avg_holding_days sharpe_ratio]; (split; [reflexivity|]; split; [reflexivity|]);
    f_equal; rewrite (Nat.leb_antisym STACK_CAP); now destruct ra, (STACK_CAP <? List.length l)%nat.
Qed.

(** The converse: only the holding days can make the metrics undefined. *)
Lemma metrics_undefined pow ra qa ss ts capital :
  alpha_compute_metrics pow ra qa ss ts capital = None -> fifo_fits ts = false.
Proof.
  intros H. apply not_true_iff_false. intros F.
  destruct (compute_metrics_total pow ra qa ss ts capital F) as (m & E & _). congruence.
Qed.

Lemma metrics_defined_fits pow ra ss ts capital m :
  alpha_compute_metrics pow ra true ss ts capital = Some m -> ss <> [] -> fifo_fits ts = true.
Proof.
  unfold alpha_compute_metrics. destruct ss as [|s0 ss]; [congruence|]. rewrite (holding_days_cases true ts).
  cbn [orb]. now destruct (fifo_fits ts).
Qed.

Lemma compute_metrics_total_witness :
  exists m, alpha_compute_metrics (fun x y => x) true true [sample_snapshot 100] sample_trades 100 = Some m /\
    total_trades m = 3.
Proof.
  destruct (compute_metrics_total (fun x y => x) true true [sample_snapshot 100] sample_trades 100) as (m & E & _ & T);
    [vm_compute; reflexivity|]. exists m. split; [exact E|]. apply T. discriminate.
Defined.

(** The reported maximum drawdown lies in [-100, 0] and the reported win rate
    in [0, 100], after their rounding to four decimals too. *)
Theorem metrics_ranges pow ra qa s0 l ts capital m :
  Forall value_ok (s0 :: l) -> (0 < D2R (portfolio_value s0))%R ->
  Z.of_nat (List.length ts) <= 2 ^ 53 ->
  alpha_compute_metrics pow ra qa (s0 :: l) ts capital = Some m ->
  is_fin (max_drawdown_pct m) = true /\ (-100 <= D2R (max_drawdown_pct m) <= 0)%R /\
  is_fin (win_rate m) = true /\ (0 <= D2R (win_rate m) <= 100)%R.
Proof.
  intros V P HN E.
  assert (X : max_drawdown_pct m = alpha_round_dp (compute_mdd (s0 :: l)) 4 /\
              win_rate m = alpha_round_dp (compute_win_rate ts) 4).
  { unfold alpha_compute_metrics in E. destruct (if (_ =? 0)%nat then _ else _) in E; [|discriminate].
    injection E as <-. auto. }
  destruct X as [-> ->].
  pose proof (mdd_fold_inv s0 l V P) as I. destruct (win_rate_bounds ts HN) as [F2 B2].
  assert (M : is_fin (compute_mdd (s0 :: l)) = true /\ (-100 <= D2R (compute_mdd (s0 :: l)) <= 0)%R).
  { unfold compute_mdd. destruct (fold_left _ _ _) as [pk d]. cbn [mdd_inv snd] in *. tauto. }
  destruct M as [F1 B1].
  pose proof (alpha_round_dp_between _ 4 (-100) 0 F1 ltac:(lia) ltac:(lia) ltac:(lia) B1).
  pose proof (alpha_round_dp_between _ 4 0 100 F2 ltac:(lia) ltac:(lia) ltac:(lia) B2).
  tauto.
Qed.

Lemma metrics_ranges_witness :
  let ss := [sample_snapshot 100; sample_snapshot 90] in
  exists m, alpha_compute_metrics (fun x y => x) true true ss [] 100 = Some m /\
  is_fin (max_drawdown_pct m) = true /\ (-100 <= D2R (max_drawdown_pct m) <= 0)%R /\
  is_fin (win_rate m) = true /\ (0 <= D2R (win_rate m) <= 100)%R.
Proof.
  intros ss. eexists. split; [reflexivity|].
  apply (metrics_ranges (fun x y => x) true true (sample_snapshot 100) [sample_snapshot 90] [] 100);
    [| |cbn; lia|reflexivity].
  - repeat constructor; cbn [sample_snapshot portfolio_value]; [rewrite D2R_100|d2r 90%float]; lra.
  - cbn [sample_snapshot portfolio_value]. rewrite D2R_100. lra.
Defined.
