(* ===== verification/Engine.v ===== *)
(** * The backtest engine

    Models [core/src/backtest/engine.c]: opening and closing positions, the
    daily snapshot and the bar loop of [alpha_backtest_run].  A [None] result is
    undefined behaviour of the C program: a [double] outside the range of
    [int64_t] being cast, an index outside an array, or the overflow of the holding
    days in the metrics. *)

From Stdlib Require Import ZArith Lia Bool List Reals Lra Floats Ascii String.
From S2P Require Import Prelude CStr Domain Double NearError Round CostModel Backtest Metrics.
Import ListNotations.
Set Warnings "-inexact-float".
Open Scope list_scope.
Open Scope Z_scope.

Record engine_state_t := {
  cash : float;
  position_qty : Z;
  avg_buy_price : float;
  prev_portfolio_value : float
}.

Definition copy_ticker (src : string) : string :=
  let len := String.length src in
  let len := if (ALPHA_TICKER_CAP <=? len)%nat then (ALPHA_TICKER_CAP - 1)%nat else len in
  String.substring 0 len src.

(** The tail of [open_position], once quantity and cost are settled. *)
Definition open_commit (state : engine_state_t) (config : alpha_backtest_config_t) (date : Z)
    (price : float) (quantity : Z) (c : alpha_trade_cost_t)
  : engine_state_t * option alpha_trade_record_t :=
  ({| cash := (cash state - (price * double_of_Z quantity + total c))%float;
      position_qty := quantity;
      avg_buy_price := price;
      prev_portfolio_value := prev_portfolio_value state |},
   Some {| trade_date := date; side := ALPHA_SIDE_BUY; ticker := copy_ticker (cfg_ticker config);
           price := price; quantity := quantity; trade_commission := commission c;
           trade_tax := tax c; trade_slippage_cost := slippage_cost c; total_cost := total c;
           pnl := 0%float |}).

Definition open_position (state : engine_state_t) (cost : alpha_cost_model_t)
    (config : alpha_backtest_config_t) (date : Z) (price : float)
  : option (engine_state_t * option alpha_trade_record_t) :=
  let unit := alpha_cost_calculate cost ALPHA_SIDE_BUY price 1 in
  let effective_price := (price + total unit)%float in
  if (effective_price <=? 0)%float then Some (state, None)
  else
    let? quantity := cast_int64 (cfloor (cash state / effective_price)%float) in
    if quantity <=? 0 then Some (state, None)
    else
      let c := alpha_cost_calculate cost ALPHA_SIDE_BUY price quantity in
      let total_outlay := (price * double_of_Z quantity + total c)%float in
      if (cash state <? total_outlay)%float then
        let quantity := quantity - 1 in
        if quantity <=? 0 then Some (state, None)
        else
          let c := alpha_cost_calculate cost ALPHA_SIDE_BUY price quantity in
          Some (open_commit state config date price quantity c)
      else Some (open_commit state config date price quantity c).

Definition close_position (state : engine_state_t) (cost : alpha_cost_model_t)
    (config : alpha_backtest_config_t) (date : Z) (price : float)
  : engine_state_t * alpha_trade_record_t :=
  let qty := position_qty state in
  let c := alpha_cost_calculate cost ALPHA_SIDE_SELL price qty in
  let pnl := ((price - avg_buy_price state) * double_of_Z qty - total c)%float in
  ({| cash := (cash state + (price * double_of_Z qty - total c))%float;
      position_qty := 0;
      avg_buy_price := 0%float;
      prev_portfolio_value := prev_portfolio_value state |},
   {| trade_date := date; side := ALPHA_SIDE_SELL; ticker := copy_ticker (cfg_ticker config);
      price := price; quantity := qty; trade_commission := commission c; trade_tax := tax c;
      trade_slippage_cost := slippage_cost c; total_cost := total c; pnl := pnl |}).

Definition take_snapshot (state : engine_state_t) (date : Z) (close_price : float)
  : engine_state_t * alpha_daily_snapshot_t :=
  let position_value := (double_of_Z (position_qty state) * close_price)%float in
  let portfolio_value := (cash state + position_value)%float in
  let daily_return_pct :=
    if (0 <? prev_portfolio_value state)%float then
      ((portfolio_value - prev_portfolio_value state) / prev_portfolio_value state * 100)%float
    else 0%float in
  ({| cash := cash state; position_qty := position_qty state;
      avg_buy_price := avg_buy_price state; prev_portfolio_value := portfolio_value |},
   {| snap_date := date; close_price := close_price; snap_cash := cash state;
      snap_position_qty := position_qty state; position_value := position_value;
      portfolio_value := portfolio_value; daily_return_pct := daily_return_pct |}).

Section Run.
Context {C : Type}.

(** The locals of the bar loop: the callback's context, the simulation state
    and the filled part of the two buffers. *)
Record engine_run := {
  ctx : C;
  state : engine_state_t;
  run_trades : list alpha_trade_record_t;
  run_snapshots : list alpha_daily_snapshot_t
}.

(** Writing the next entry of a buffer of [cap] entries. *)
Definition push {A} (cap : nat) (buf : list A) (x : A) : option (list A) :=
  if (List.length buf <? cap)%nat then Some (buf ++ [x]) else None.

Variables (config : alpha_backtest_config_t) (cost : alpha_cost_model_t).
Variable signal_fn : alpha_signal_fn C.

Definition initial_run (c : C) : engine_run :=
  {| ctx := c;
     state := {| cash := double_of_Z (initial_capital config); position_qty := 0;
                 avg_buy_price := 0%float;
                 prev_portfolio_value := double_of_Z (initial_capital config) |};
     run_trades := []; run_snapshots := [] |}.

Section Bars.
Variables (prices : list float) (dates : list Z) (n : nat).

(** The body of the bar loop. *)
Definition engine_bar (i : nat) (r : engine_run) : option engine_run :=
  let? date := nth_error dates i in
  let? close_price := nth_error prices i in
  let '(ctx', signal) := signal_fn (ctx r) date prices (i + 1)%nat (position_qty (state r)) in
  let? p :=
    (if signal_eqb signal ALPHA_SIGNAL_BUY && (position_qty (state r) =? 0) then
       let? o := open_position (state r) cost config date close_price in
       match o with
       | (st, Some trade) => let? ts := push n (run_trades r) trade in Some (st, ts)
       | (st, None) => Some (st, run_trades r)
       end
     else if (signal_eqb signal ALPHA_SIGNAL_SELL || signal_eqb signal ALPHA_SIGNAL_CLOSE)
             && (position_qty (state r) >? 0) then
       let '(st, trade) := close_position (state r) cost config date close_price in
       let? ts := push n (run_trades r) trade in Some (st, ts)
     else Some (state r, run_trades r)) in
  let '(st, ts) := p in
  let '(st, snapshot) := take_snapshot st date close_price in
  let? ss := push n (run_snapshots r) snapshot in
  Some {| ctx := ctx'; state := st; run_trades := ts; run_snapshots := ss |}.

(** [k] iterations from index [i]. *)
Fixpoint engine_loop (k i : nat) (r : engine_run) : option engine_run :=
  match k with
  | O => Some r
  | S k => let? r' := engine_bar i r in engine_loop k (S i) r'
  end.
End Bars.
End Run.
Arguments engine_run : clear implicits.

(** [sizeof]-zeroed result with the configuration copied in. *)
Definition cleared_result (config : alpha_backtest_config_t) : alpha_backtest_result_t :=
  {| res_config := config; metrics := zero_metrics; trades := []; snapshots := [] |}.

(** The outcomes of the four [malloc] calls. *)
Record allocs := { trades_ok : bool; snapshots_ok : bool; returns_ok : bool; queue_ok : bool }.

Definition alpha_backtest_run {C : Type} (pow : float -> float -> float) (al : allocs)
    (config : option alpha_backtest_config_t) (prices : option (list float))
    (dates : option (list Z)) (n : nat) (signal_fn : option (alpha_signal_fn C)) (signal_ctx : C)
    (cost : option alpha_cost_model_t) (out : option alpha_backtest_result_t)
  : option (alpha_err_t * option alpha_backtest_result_t) :=
  match config, prices, dates, signal_fn, cost, out with
  | Some config, Some prices, Some dates, Some signal_fn, Some cost, Some _ =>
      if train_end config >=? test_start config then Some (ALPHA_ERR_INVALID_ARG, out)
      else if (0 <? n)%nat && (negb (trades_ok al) || negb (snapshots_ok al)) then
        Some (ALPHA_ERR_IO, Some (cleared_result config))
      else
        let? r := engine_loop config cost signal_fn prices dates n n 0 (initial_run config signal_ctx) in
        let? m := alpha_compute_metrics pow (returns_ok al) (queue_ok al) (run_snapshots r)
                    (run_trades r) (initial_capital config) in
        Some (ALPHA_OK, Some {| res_config := config; metrics := m; trades := run_trades r;
                                snapshots := run_snapshots r |})
  | _, _, _, _, _, _ => Some (ALPHA_ERR_INVALID_ARG, out)
  end.

Definition alpha_backtest_result_free (result : option alpha_backtest_result_t)
  : option alpha_backtest_result_t :=
  match result with
  | None => None
  | Some r => Some {| res_config := res_config r; metrics := metrics r; trades := []; snapshots := [] |}
  end.

(** ** Specification of a run *)

(** What the trades say is held: a quantity with its purchase price, or nothing. *)
Definition holding : Type := option (Z * float).

(** One trade against the book: a BUY opens a position only from flat with a
    positive quantity; a SELL closes all of it and books the profit over the
    purchase price net of its own cost. *)
Inductive ledger_step (cost : alpha_cost_model_t) : holding -> alpha_trade_record_t -> holding -> Prop :=
  | ledger_buy t : side t = ALPHA_SIDE_BUY -> 0 < quantity t ->
      total_cost t = total (alpha_cost_calculate cost ALPHA_SIDE_BUY (price t) (quantity t)) ->
      pnl t = 0%float ->
      ledger_step cost None t (Some (quantity t, price t))
  | ledger_sell t bought : side t = ALPHA_SIDE_SELL ->
      total_cost t = total (alpha_cost_calculate cost ALPHA_SIDE_SELL (price t) (quantity t)) ->
      pnl t = ((price t - bought) * double_of_Z (quantity t) - total_cost t)%float ->
      ledger_step cost (Some (quantity t, bought)) t None.

(** The book after a sequence of trades, starting flat. *)
Inductive ledger (cost : alpha_cost_model_t) : list alpha_trade_record_t -> holding -> Prop :=
  | ledger_flat : ledger cost [] None
  | ledger_trade ts h t h' : ledger cost ts h -> ledger_step cost h t h' -> ledger cost (ts ++ [t]) h'.

Definition holding_of (st : engine_state_t) : holding :=
  if position_qty st =? 0 then None else Some (position_qty st, avg_buy_price st).

(** A snapshot's own arithmetic, and its return against the previous value. *)
Definition snapshot_ok (prev : float) (s : alpha_daily_snapshot_t) : Prop :=
  position_value s = (double_of_Z (snap_position_qty s) * close_price s)%float /\
  portfolio_value s = (snap_cash s + position_value s)%float /\
  0 <= snap_position_qty s /\
  daily_return_pct s = if (0 <? prev)%float then ((portfolio_value s - prev) / prev * 100)%float
                       else 0%float.

Fixpoint snapshots_linked (prev : float) (ss : list alpha_daily_snapshot_t) : Prop :=
  match ss with
  | [] => True
  | s :: ss => snapshot_ok prev s /\ snapshots_linked (portfolio_value s) ss
  end.

Definition last_value (prev : float) (ss : list alpha_daily_snapshot_t) : float :=
  fold_left (fun _ s => portfolio_value s) ss prev.

(** The position of the last snapshot, zero before the first. *)
Definition last_qty (ss : list alpha_daily_snapshot_t) : Z :=
  fold_left (fun _ s => snap_position_qty s) ss 0.

Definition held (h : holding) : Z := match h with None => 0 | Some (q, _) => q end.

(** ** Lemmas on the operations *)

Lemma push_some {A} cap (buf b : list A) x : push cap buf x = Some b ->
  b = buf ++ [x] /\ (List.length buf < cap)%nat.
Proof.
  unfold push. destruct (Nat.ltb_spec (List.length buf) cap); [|discriminate].
  intros H'. injection H' as <-. auto.
Qed.

Lemma push_ok {A} cap (buf : list A) x : (List.length buf < cap)%nat -> push cap buf x = Some (buf ++ [x]).
Proof. intros H. unfold push. apply Nat.ltb_lt in H. now rewrite H. Qed.

(** A buy either leaves the state alone or takes a positive quantity. *)
Lemma open_position_cases st cost cfg d p st' o :
  open_position st cost cfg d p = Some (st', o) ->
  (o = None /\ st' = st) \/
  (exists q c, 0 < q /\ c = alpha_cost_calculate cost ALPHA_SIDE_BUY p q /\
     (st', o) = open_commit st cfg d p q c).
Proof.
  unfold open_position. intros H.
  repeat (break_if || break_match); inv H; zprop; auto; right; eauto.
Qed.

Lemma snapshots_linked_app prev ss s : snapshots_linked prev ss ->
  snapshot_ok (last_value prev ss) s -> snapshots_linked prev (ss ++ [s]).
Proof.
  revert prev. induction ss as [|x ss IH]; intros prev L H; cbn [snapshots_linked app] in *; [auto|].
  split; [apply L|]. apply IH; [apply L|exact H].
Qed.

Lemma last_value_app prev ss s : last_value prev (ss ++ [s]) = portfolio_value s.
Proof. unfold last_value. now rewrite fold_left_app. Qed.

(** ** The invariant of the bar loop *)

Section Invariant.
Context {C : Type} (config : alpha_backtest_config_t) (cost : alpha_cost_model_t).
Context (signal_fn : alpha_signal_fn C) (prices : list float) (dates : list Z) (n : nat).

Abbreviation bar := (engine_bar config cost signal_fn prices dates n).
Abbreviation loop := (engine_loop config cost signal_fn prices dates n).

Definition bar_of (s : alpha_daily_snapshot_t) : Z * float := (snap_date s, close_price s).

Definition run_inv (i : nat) (r : engine_run C) : Prop :=
  List.length (run_snapshots r) = i /\
  (List.length (run_trades r) <= i)%nat /\
  0 <= position_qty (state r) /\
  ledger cost (run_trades r) (holding_of (state r)) /\
  snapshots_linked (double_of_Z (initial_capital config)) (run_snapshots r) /\
  prev_portfolio_value (state r)
    = last_value (double_of_Z (initial_capital config)) (run_snapshots r) /\
  List.map bar_of (run_snapshots r) = firstn i (combine dates prices) /\
  last_qty (run_snapshots r) = position_qty (state r).

Lemma initial_inv c : run_inv 0 (initial_run config c).
Proof. repeat split; cbn; auto; try lia. constructor. Qed.

(** The trading half of a bar: at most one trade, recorded in the ledger. *)
Definition trading (st : engine_state_t) (ts : list alpha_trade_record_t)
    (st' : engine_state_t) (ts' : list alpha_trade_record_t) : Prop :=
  0 <= position_qty st' /\ prev_portfolio_value st' = prev_portfolio_value st /\
  ((st' = st /\ ts' = ts) \/
   exists t, ts' = ts ++ [t] /\ ledger_step cost (holding_of st) t (holding_of st')).

Lemma open_trading st d p st' t :
  position_qty st = 0 -> open_position st cost config d p = Some (st', Some t) ->
  forall ts, trading st ts st' (ts ++ [t]).
Proof.
  intros Z0 E ts. apply open_position_cases in E as [[E _]|(q & c & Hq & -> & E)]; [discriminate|].
  unfold open_commit in E. inv E. split; [cbn; lia|]. split; [reflexivity|]. right. eexists.
  split; [reflexivity|]. unfold holding_of. rewrite Z0. cbn [Z.eqb position_qty avg_buy_price].
  replace (q =? 0) with false by lia. now apply ledger_buy.
Qed.

Lemma close_trading st d p : position_qty st > 0 ->
  let '(st', t) := close_position st cost config d p in forall ts, trading st ts st' (ts ++ [t]).
Proof.
  intros Hq. cbn [close_position]. intros ts. split; [cbn; lia|]. split; [reflexivity|]. right.
  eexists. split; [reflexivity|]. unfold holding_of at 1.
  replace (position_qty st =? 0) with false by lia.
  match goal with |- ledger_step _ _ ?t _ =>
    exact (ledger_sell cost t (avg_buy_price st) eq_refl eq_refl eq_refl) end.
Qed.

(** Every bar that completes trades at most once and appends one snapshot. *)
Lemma bar_cases i r r' : bar i r = Some r' -> 0 <= position_qty (state r) ->
  exists d p st ts, nth_error dates i = Some d /\ nth_error prices i = Some p /\
    trading (state r) (run_trades r) st ts /\
    (List.length ts <= S (List.length (run_trades r)))%nat /\
    run_trades r' = ts /\ state r' = fst (take_snapshot st d p) /\
    run_snapshots r' = run_snapshots r ++ [snd (take_snapshot st d p)].
Proof.
  unfold engine_bar. intros H Hq.
  destruct (nth_error dates i) as [d|]; [|discriminate].
  destruct (nth_error prices i) as [p|]; [|discriminate].
  destruct (signal_fn _ _ _ _ _) as [c sig].
  destruct (if signal_eqb sig ALPHA_SIGNAL_BUY && _ then _ else _) as [[st ts]|] eqn:T; [|discriminate].
  destruct (take_snapshot st d p) as [st' s] eqn:S.
  destruct (push n (run_snapshots r) s) as [ss|] eqn:P; [|discriminate].
  apply push_some in P as [-> _]. injection H as <-.
  exists d, p, st, ts. rewrite S. cbn [fst snd run_trades state run_snapshots].
  do 2 (split; [reflexivity|]). split; [|split; [|auto]].
  - clear S. repeat (break_if || break_match); try discriminate; zprop.
    + injection T as <- <-. apply push_some in E3 as [-> _]. now apply (open_trading _ d p).
    + injection T as <- <-. apply open_position_cases in E0 as [[_ ->]|(? & ? & _ & _ & E0)];
        [|discriminate]. repeat split; auto; lia.
    + injection T as <- <-. apply push_some in E2 as [-> _].
      pose proof (close_trading (state r) d p ltac:(lia)) as CT. rewrite E1 in CT. apply CT.
    + injection T as <- <-. repeat split; auto; lia.
  - repeat (break_if || break_match); try discriminate; injection T as <- <-;
      repeat match goal with H : push _ _ _ = Some _ |- _ => apply push_some in H as [-> _] end;
      rewrite ?length_app; cbn [List.length]; lia.
Qed.

Lemma firstn_combine_S i d p : nth_error dates i = Some d -> nth_error prices i = Some p ->
  firstn (S i) (combine dates prices) = firstn i (combine dates prices) ++ [(d, p)].
Proof.
  generalize prices. clear prices. revert i. induction dates as [|x ds IH]; intros [|i] [|y ps] Hd Hp;
    cbn in *; try discriminate.
  - congruence.
  - f_equal. now apply IH.
Qed.

Lemma bar_inv i r r' : run_inv i r -> bar i r = Some r' -> run_inv (S i) r'.
Proof.
  intros (I1 & I2 & I3 & I4 & I5 & I6 & I7 & _) H.
  destruct (bar_cases i r r' H I3) as (d & p & st & ts & Hd & Hp & (T1 & T2 & T3) & L & Et & Es & Ess).
  unfold run_inv. rewrite Et, Es, Ess, length_app, last_value_app. cbn [take_snapshot fst snd List.length position_qty].
  split; [lia|]. split; [lia|]. split; [exact T1|].
  split; [|split; [|split; [reflexivity|split]]].
  - change (holding_of _) with (holding_of st).
    destruct T3 as [[-> ->]|(t & -> & E)]; [exact I4|]. now apply ledger_trade with (holding_of (state r)).
  - apply snapshots_linked_app; [exact I5|]. rewrite <- I6, <- T2. repeat split; auto.
  - rewrite List.map_app, I7, (firstn_combine_S i d p) by assumption. reflexivity.
  - unfold last_qty. now rewrite fold_left_app.
Qed.

Lemma loop_inv k i r r' : run_inv i r -> loop k i r = Some r' -> run_inv (i + k) r'.
Proof.
  revert i r. induction k as [|k IH]; intros i r I H; cbn [engine_loop] in H.
  - injection H as <-. now rewrite Nat.add_0_r.
  - destruct (bar i r) as [r1|] eqn:B; [|discriminate]. replace (i + S k)%nat with (S i + k)%nat by lia.
    apply (IH _ r1); [|exact H]. now apply (bar_inv i r).
Qed.

(** Every trade is dated by its bar. *)
Definition dated (ts : list alpha_trade_record_t) : Prop := Forall (fun t => In (trade_date t) dates) ts.

Lemma bar_dated i r r' : dated (run_trades r) -> bar i r = Some r' -> dated (run_trades r').
Proof.
  unfold engine_bar, dated. intros D H.
  destruct (nth_error dates i) as [d|] eqn:Nd; [|discriminate]. apply nth_error_In in Nd.
  destruct (nth_error prices i) as [p|]; [|discriminate]. destruct (signal_fn _ _ _ _ _) as [c sig].
  destruct (if signal_eqb sig ALPHA_SIGNAL_BUY && _ then _ else _) as [[st ts]|] eqn:T; [|discriminate].
  destruct (take_snapshot st d p) as [st' s]. destruct (push n (run_snapshots r) s) as [ss|]; [|discriminate].
  injection H as <-. cbn [run_trades].
  repeat (break_if || break_match); try discriminate; injection T as <- <-; auto;
    match goal with P : push _ _ _ = Some _ |- _ => apply push_some in P as [-> _] end;
    apply Forall_app; (split; [exact D|]); constructor; auto.
  - match goal with Op : open_position _ _ _ _ _ = Some _ |- _ =>
      apply open_position_cases in Op as [[Op _]|(q & k & _ & _ & Op)]; [discriminate|];
      unfold open_commit in Op; now inv Op end.
  - match goal with Cl : close_position _ _ _ _ _ = _ |- _ => unfold close_position in Cl; now inv Cl end.
Qed.

Lemma loop_dated k i r r' : dated (run_trades r) -> loop k i r = Some r' -> dated (run_trades r').
Proof.
  revert i r. induction k as [|k IH]; intros i r D H; cbn [engine_loop] in H; [now injection H as <-|].
  destruct (bar i r) as [r1|] eqn:B; [|discriminate]. exact (IH _ _ (bar_dated _ _ _ D B) H).
Qed.

(** Inside the arrays, a bar is undefined only when the buy's cast is. *)
Lemma bar_undefined i r : run_inv i r -> (i < n)%nat ->
  (n <= List.length prices)%nat -> (n <= List.length dates)%nat -> bar i r = None ->
  exists d p, nth_error prices i = Some p /\ position_qty (state r) = 0 /\
    open_position (state r) cost config d p = None.
Proof.
  intros (I1 & I2 & I3 & _) Hi Lp Ld. unfold engine_bar.
  destruct (nth_error dates i) as [d|] eqn:D; [|apply nth_error_None in D; lia].
  destruct (nth_error prices i) as [p|] eqn:P; [|apply nth_error_None in P; lia].
  destruct (signal_fn _ _ _ _ _) as [c sig]. intros H. exists d, p.
  assert (PU : forall t, push n (run_trades r) t = Some (run_trades r ++ [t]))
    by (intros; apply push_ok; lia).
  assert (PS : forall s, push n (run_snapshots r) s = Some (run_snapshots r ++ [s]))
    by (intros; apply push_ok; lia).
  split; [reflexivity|].
  destruct (signal_eqb sig ALPHA_SIGNAL_BUY && _) eqn:B.
  - zprop. destruct (open_position (state r) cost config d p) as [[st [t|]]|]; [| |auto];
      rewrite ?PU in H; cbv beta iota zeta delta [take_snapshot] in H; rewrite PS in H; discriminate.
  - destruct ((signal_eqb sig ALPHA_SIGNAL_SELL || _) && _); cbv beta iota zeta delta [close_position] in H;
      rewrite ?PU in H; cbv beta iota zeta delta [take_snapshot] in H; rewrite PS in H; discriminate.
Qed.
End Invariant.

(** ** Causality *)

Section Causality.
Context {C : Type} (config : alpha_backtest_config_t) (cost : alpha_cost_model_t).
Context (signal_fn : alpha_signal_fn C) {causal : CausalSignal signal_fn}.
Context (prices prices' : list float) (dates dates' : list Z) (n n' : nat).

Lemma nth_error_agree {A} (l l' : list A) k i : firstn k l = firstn k l' -> (i < k)%nat ->
  nth_error l i = nth_error l' i.
Proof.
  intros E L. assert (H : nth_error (firstn k l) i = nth_error (firstn k l') i) by congruence.
  rewrite !nth_error_firstn in H. apply Nat.ltb_lt in L. now rewrite L in H.
Qed.

Lemma push_agree {A} (buf : list A) x : (List.length buf < n)%nat -> (List.length buf < n')%nat ->
  push n buf x = push n' buf x.
Proof. intros. now rewrite !push_ok. Qed.

(** A bar depends on nothing past it, nor on the capacity of the buffers. *)
Lemma bar_causal i r : run_inv config cost prices dates i r -> (i < n)%nat -> (i < n')%nat ->
  firstn (S i) prices = firstn (S i) prices' -> firstn (S i) dates = firstn (S i) dates' ->
  engine_bar config cost signal_fn prices dates n i r
  = engine_bar config cost signal_fn prices' dates' n' i r.
Proof.
  intros (I1 & I2 & _) Hn Hn' Ep Ed. unfold engine_bar.
  rewrite (nth_error_agree _ _ _ i Ep), (nth_error_agree _ _ _ i Ed) by lia.
  destruct (nth_error dates' i) as [d|]; [|reflexivity].
  destruct (nth_error prices' i) as [p|]; [|reflexivity].
  replace (i + 1)%nat with (S i) by lia. rewrite (causal (ctx r) d prices prices' (S i) _ Ep).
  destruct (signal_fn _ _ _ _ _) as [c sig].
  assert (PT : forall t, push n (run_trades r) t = push n' (run_trades r) t)
    by (intros; apply push_agree; lia).
  assert (PS : forall s, push n (run_snapshots r) s = push n' (run_snapshots r) s)
    by (intros; apply push_agree; lia).
  repeat (break_if || break_match); rewrite ?PT, ?PS in *; congruence.
Qed.

Lemma loop_causal k i r : run_inv config cost prices dates i r -> (i + k <= n)%nat -> (i + k <= n')%nat ->
  firstn (i + k) prices = firstn (i + k) prices' -> firstn (i + k) dates = firstn (i + k) dates' ->
  engine_loop config cost signal_fn prices dates n k i r
  = engine_loop config cost signal_fn prices' dates' n' k i r.
Proof.
  revert i r. induction k as [|k IH]; intros i r I Hn Hn' Ep Ed; cbn [engine_loop]; [reflexivity|].
  assert (P : forall {A} (l l' : list A) a b, (a <= b)%nat -> firstn b l = firstn b l' -> firstn a l = firstn a l').
  { intros A l l' a b L E. replace a with (Nat.min a b) by lia. now rewrite <- !firstn_firstn, E. }
  rewrite <- (bar_causal i r); try lia; try (apply (P _ _ _ _ (i + S k)%nat); [lia|]); try assumption.
  destruct (engine_bar config cost signal_fn prices dates n i r) as [r1|] eqn:B; [|reflexivity].
  replace (i + S k)%nat with (S i + k)%nat in * by lia.
  apply IH; auto. now apply (bar_inv config cost signal_fn prices dates n i r).
Qed.
End Causality.

Lemma loop_split {C} cfg cost (fn : alpha_signal_fn C) prices dates n k m i r :
  engine_loop cfg cost fn prices dates n (k + m) i r =
  let? r1 := engine_loop cfg cost fn prices dates n k i r in
  engine_loop cfg cost fn prices dates n m (i + k) r1.
Proof.
  revert i r. induction k as [|k IH]; intros i r; cbn [engine_loop Nat.add].
  - now rewrite Nat.add_0_r.
  - destruct (engine_bar cfg cost fn prices dates n i r); [|reflexivity].
    rewrite IH. now replace (S i + k)%nat with (i + S k)%nat by lia.
Qed.

Lemma loop_extends {C} cfg cost (fn : alpha_signal_fn C) prices dates n k i r r' :
  run_inv cfg cost prices dates i r -> engine_loop cfg cost fn prices dates n k i r = Some r' ->
  exists ss ts, run_snapshots r' = run_snapshots r ++ ss /\ run_trades r' = run_trades r ++ ts.
Proof.
  revert i r. induction k as [|k IH]; intros i r I H; cbn [engine_loop] in H.
  - injection H as <-. exists [], []. now rewrite !app_nil_r.
  - destruct (engine_bar cfg cost fn prices dates n i r) as [r1|] eqn:B; [|discriminate].
    pose proof (bar_inv _ _ _ _ _ _ _ _ _ I B) as I1.
    destruct (IH _ _ I1 H) as (ss & ts & -> & ->).
    destruct (bar_cases _ _ _ _ _ _ _ _ _ B ltac:(apply I)) as (d & p & st & tr & _ & _ & (_ & _ & T) & _ & -> & _ & ->).
    rewrite <- app_assoc. exists ([snd (take_snapshot st d p)] ++ ss).
    destruct T as [[_ ->]|(t & -> & _)]; [exists ts; auto|]. exists ([t] ++ ts). now rewrite <- app_assoc.
Qed.

(** ** Solvency *)

Local Open Scope R_scope.

Definition price_ok (p : float) : Prop := is_fin p = true /\ 1 <= D2R p <= bpow 40.

Lemma bpow_44 : bpow 44 = 17592186044416.
Proof. rewrite bpow_Zpos. reflexivity. Qed.

Lemma bpow_40 : bpow 40 = 1099511627776.
Proof. rewrite bpow_Zpos. reflexivity. Qed.

Lemma eta_tiny : 0 < eta <= / 1267650600228229401496703205376.
Proof.
  split; [apply bpow_pos|]. apply Rle_trans with (bpow (-100)); [apply bpow_le; lia|].
  rewrite bpow_Zneg. apply Req_le. reflexivity.
Qed.

Section Solvency.
Context (m : alpha_cost_model_t) (M : model_ok m).
Context (p : float) (P : price_ok p).

Let rate := side_rate m ALPHA_SIDE_BUY.
Let unit_price := D2R p * (1 + rate).

Lemma buy_rate_range : 0 <= rate <= 2.
Proof.
  destruct M as ((_ & ?) & _ & (_ & ?)). unfold rate, side_rate. cbn [side_eqb]. lra.
Qed.

Lemma unit_price_range : 1 <= D2R p <= unit_price /\ unit_price <= 4 * bpow 40.
Proof. pose proof buy_rate_range. destruct P as [_ ?]. unfold unit_price. nra. Qed.

Lemma notional_small q : (0 <= q <= 2 ^ 44)%Z -> D2R p * IZR q <= bpow 490.
Proof.
  intros H. destruct P as [_ HP]. assert (0 <= IZR q <= bpow 44).
  { rewrite bpow_44. split; apply IZR_le; lia. }
  apply Rle_trans with (bpow 40 * bpow 44); [apply Rmult_le_compat; lra|].
  rewrite <- bpow_add. apply bpow_le. lia.
Qed.

(** What [q] shares cost, fees included. *)
Definition outlay (q : Z) : float :=
  (p * double_of_Z q + total (alpha_cost_calculate m ALPHA_SIDE_BUY p q))%float.

Lemma outlay_near q : (0 <= q <= 2 ^ 44)%Z ->
  is_fin (outlay q) = true /\ 0 <= D2R (outlay q) /\
  near (10 * uu) (69 * eta) (unit_price * IZR q) (D2R (outlay q)).
Proof.
  intros H. destruct P as [Fp HP]. pose proof (notional_small q H) as B. assert (0 <= IZR q) by (apply (IZR_le 0); lia).
  destruct (notional_near p q Fp ltac:(lra) ltac:(lia) B) as (Fn & N & Pn).
  destruct (cost_calculate_near m p q M Fp ltac:(lra) ltac:(lia) B ALPHA_SIDE_BUY) as (Ft & Pt & T & _).
  pose proof uu_bounds. pose proof eta_tiny. pose proof uu_val.
  apply (near_weaken _ _ (8 * uu) eta) in N; try lra.
  pose proof (near_add _ _ _ _ _ _ _ N T) as A.
  destruct (near_op _ _ _ _ _ A (add_rounds _ _ Fn Ft)) as [F O]; try lra.
  { pose proof buy_rate_range. fold rate. destruct N as [PN _]. set (x := D2R p * IZR q) in *.
    apply Rle_trans with (4 * bpow 490); [nra|].
    replace 4 with (bpow 2) by (rewrite bpow_Zpos; reflexivity). rewrite <- bpow_add. apply bpow_le. lia. }
  split; [exact F|]. split; [now apply fadd_nonneg|].
  apply (near_weaken _ _ (10 * uu) (69 * eta)) in O; try lra.
  replace (unit_price * IZR q) with (D2R p * IZR q + D2R p * IZR q * side_rate m ALPHA_SIDE_BUY)
    by (unfold unit_price, rate; ring). exact O.
Qed.

Let effective := (p + total (alpha_cost_calculate m ALPHA_SIDE_BUY p 1))%float.

Lemma effective_near : is_fin effective = true /\ D2R p <= D2R effective /\
  near (10 * uu) (67 * eta) unit_price (D2R effective).
Proof.
  destruct P as [Fp HP]. pose proof (notional_small 1 ltac:(lia)) as B. pose proof buy_rate_range.
  destruct (cost_calculate_near m p 1 M Fp ltac:(lra) ltac:(lia) B ALPHA_SIDE_BUY) as (Ft & Pt & T & _).
  pose proof uu_bounds. pose proof eta_tiny. pose proof uu_val.
  assert (N : near (8 * uu) 0 (D2R p) (D2R p))
    by (apply near_weaken with 0 0; [apply near_refl|..]; lra).
  pose proof (near_add _ _ _ _ _ _ _ N T) as A. rewrite Rmult_1_r in A.
  replace (D2R p + D2R p * side_rate m ALPHA_SIDE_BUY) with unit_price in A
    by (unfold unit_price, rate; ring).
  pose proof (add_rounds _ _ Fp Ft) as R. fold effective in R.
  destruct (near_op _ _ _ _ _ A R) as [F O]; try lra.
  { pose proof unit_price_range as [_ U]. apply Rle_trans with (1 := U).
    replace 4 with (bpow 2) by (rewrite bpow_Zpos; reflexivity). rewrite <- bpow_add. apply bpow_le. lia. }
  split; [exact F|]. split; [|apply (near_weaken _ _ _ _ _ _ O); lra].
  rewrite <- leb_R by auto. apply (rounds_lower _ _ R); [exact Fp|lra].
Qed.

(** A share count the floored quotient allows overshoots the cash by less than
    one share: one share fewer is always affordable. *)
Lemma affordable c q : 0 <= c <= bpow 44 -> (0 < q <= 2 ^ 44)%Z ->
  IZR q <= c / D2R effective * (1 + uu) + eta -> D2R (outlay (q - 1)) <= c.
Proof.
  intros Hc Hq H. destruct effective_near as (_ & Pe & E). destruct unit_price_range as [[P1 P2] P3].
  destruct (outlay_near (q - 1) ltac:(lia)) as (_ & _ & O).
  apply near_le in O as [O _]. apply near_le in E as [EU EL].
  rewrite minus_IZR in O. pose proof eta_tiny as T. rewrite uu_val, bpow_44, bpow_40 in *.
  set (x := unit_price) in *. set (e := D2R effective) in *.
  assert (Q : 0 <= IZR q <= 17592186044416) by (split; apply IZR_le; lia).
  assert (K : IZR q * e <= c * (1 + / 4503599627370496) + eta * e).
  { apply Rmult_le_compat_r with (r := e) in H; [|lra].
    replace ((c / e * (1 + / 4503599627370496) + eta) * e)
      with (c * (1 + / 4503599627370496) * (e * / e) + eta * e) in H by (unfold Rdiv; ring).
    rewrite Rinv_r in H by lra. lra. }
  assert (L : IZR q * (x * (1 - 10 * / 4503599627370496) - 67 * eta) <= IZR q * e)
    by (apply Rmult_le_compat_l; lra).
  assert (T1 : eta * e <= / 1000000) by nra.
  assert (T2 : IZR q * (67 * eta) <= / 1000000) by nra.
  set (a := x * IZR q). assert (A : x * (IZR q - 1) = a - x) by (unfold a; ring).
  rewrite A in O. replace (IZR q * (x * (1 - 10 * / 4503599627370496) - 67 * eta))
    with (a * (1 - 10 * / 4503599627370496) - IZR q * (67 * eta)) in L by (unfold a; ring).
  lra.
Qed.

Lemma quotient_cast c : is_fin c = true -> 0 <= D2R c <= bpow 44 ->
  exists q, cast_int64 (cfloor (c / effective)%float) = Some q /\ (0 <= q <= 2 ^ 44)%Z /\
    IZR q <= D2R c / D2R effective * (1 + uu) + eta.
Proof.
  intros Fc Hc. destruct effective_near as (Fe & Pe & _). destruct unit_price_range as [[P1 _] _].
  assert (Q : 0 <= D2R c / D2R effective <= bpow 44).
  { assert (0 < / D2R effective <= 1).
    { split; [apply Rinv_0_lt_compat; lra|]. rewrite <- Rinv_1. apply Rinv_le_contravar; lra. }
    unfold Rdiv. nra. }
  destruct (representable_bpow false 44 ltac:(lia)) as (hi & Fh & Eh). cbn [sgn] in Eh.
  pose proof (div_rounds c effective Fc Fe ltac:(lra)) as R.
  destruct (rounds_between _ _ R 0 hi eq_refl Fh) as [Fq B]; [rewrite Eh, D2R_0; lra|].
  rewrite Eh, D2R_0 in B.
  pose proof (rounds_error _ _ R Fq) as E. fold uu eta in E. rewrite (Rabs_pos_eq (_ / _)) in E by lra.
  apply Rabs_bounds in E.
  destruct (cfloor_spec _ Fq) as (z & Ff & Ez & Bz). exists z.
  assert (Z0 : (0 <= z)%Z) by (apply Z.lt_succ_r, lt_IZR; rewrite succ_IZR; lra).
  assert (Z1 : (z <= 2 ^ 44)%Z) by (apply le_IZR; rewrite <- bpow_IZR by lia; lra).
  split; [|split; [lia|lra]]. apply cast_int64_integer; auto.
  unfold in_int64, INT64_MIN, INT64_MAX. lia.
Qed.

Definition state_ok (st : engine_state_t) : Prop :=
  is_fin (cash st) = true /\ 0 <= D2R (cash st) /\ (0 <= position_qty st <= 2 ^ 44)%Z.

(** Buying: the cast is defined, and the cash stays finite and non-negative. *)
Lemma open_position_solvent cfg d st : state_ok st -> D2R (cash st) <= bpow 44 ->
  exists st' o, open_position st m cfg d p = Some (st', o) /\ state_ok st' /\
    D2R (cash st') <= D2R (cash st).
Proof.
  intros (Fc & Pc & Pq) Hc. unfold open_position. fold effective.
  destruct effective_near as (Fe & Pe & _). destruct unit_price_range as [[P1 _] _].
  assert (E0 : (effective <=? 0)%float = false) by (apply leb_false_R; auto; rewrite D2R_0; lra).
  rewrite E0. destruct (quotient_cast (cash st) Fc ltac:(lra)) as (q & -> & Hq & U).
  assert (COMMIT : forall k, (0 < k <= 2 ^ 44)%Z -> D2R (outlay k) <= D2R (cash st) ->
    let st' := fst (open_commit st cfg d p k (alpha_cost_calculate m ALPHA_SIDE_BUY p k)) in
    state_ok st' /\ D2R (cash st') <= D2R (cash st)).
  { intros k Hk L. destruct (outlay_near k ltac:(lia)) as (Fo & Po & _).
    cbn [open_commit fst cash position_qty]. unfold state_ok. cbn [cash position_qty]. fold (outlay k).
    destruct (rounds_between _ _ (sub_rounds _ _ Fc Fo) 0 (cash st) eq_refl Fc) as [F B];
      [rewrite D2R_0; lra|]. rewrite D2R_0 in B. repeat split; try lia; try tauto; lra. }
  assert (ST : state_ok st) by (repeat split; auto; lia).
  destruct (q <=? 0)%Z eqn:Q0; zprop; [exists st, None; repeat split; auto; lia || lra|].
  fold (outlay q). destruct (outlay_near q ltac:(lia)) as (Fo & _ & _).
  destruct (cash st <? outlay q)%float eqn:O; freal.
  - destruct (q - 1 <=? 0)%Z eqn:Q1; zprop; [exists st, None; repeat split; auto; lia || lra|].
    do 2 eexists. split; [reflexivity|]. apply COMMIT; [lia|]. apply affordable; auto; lia || lra.
  - do 2 eexists. split; [reflexivity|]. apply COMMIT; [lia|lra].
Qed.

(** Selling at fees of at most half the notional never loses cash. *)
Lemma close_position_solvent cfg d st : state_ok st -> (0 < position_qty st)%Z ->
  side_rate m ALPHA_SIDE_SELL <= / 2 -> D2R (cash st) <= bpow 500 ->
  state_ok (fst (close_position st m cfg d p)) /\
  D2R (cash st) <= D2R (cash (fst (close_position st m cfg d p))).
Proof.
  intros (Fc & Pc & Pq) Hq SR Hc. destruct P as [Fp HP]. set (q := position_qty st) in *.
  pose proof (notional_small q ltac:(lia)) as B.
  destruct (notional_near p q Fp ltac:(lra) ltac:(lia) B) as (Fn & N & Pn).
  destruct (cost_calculate_near m p q M Fp ltac:(lra) ltac:(lia) B ALPHA_SIDE_SELL) as (Ft & Pt & T & _).
  apply near_le in N as [NU NL]. apply near_le in T as [TU _].
  assert (Q1 : 1 <= IZR q) by (apply IZR_le; lia).
  set (x := D2R p * IZR q) in *. assert (X1 : 1 <= x) by (unfold x; nra).
  set (c := alpha_cost_calculate m ALPHA_SIDE_SELL p q) in *. set (nt := (p * double_of_Z q)%float) in *.
  pose proof eta_tiny. rewrite uu_val in *.
  assert (TB : x * side_rate m ALPHA_SIDE_SELL <= x * / 2) by (apply Rmult_le_compat_l; lra).
  assert (LE : D2R (total c) <= D2R nt) by nra.
  assert (NB : D2R nt <= bpow 970).
  { pose proof (bpow_500_970 x). assert (bpow 490 <= bpow 500) by (apply bpow_le; lia). nra. }
  pose proof (sub_rounds nt (total c) Fn Ft) as R1.
  destruct (rounds_between _ _ R1 0 nt eq_refl Fn) as [F1 B1]; [rewrite D2R_0; lra|]. rewrite D2R_0 in B1.
  pose proof (add_rounds (cash st) (nt - total c)%float Fc F1) as R2.
  assert (XB : D2R nt <= bpow 500).
  { apply Rle_trans with (4 * bpow 490); [nra|].
    replace 4 with (bpow 2) by (rewrite bpow_Zpos; reflexivity). rewrite <- bpow_add. apply bpow_le. lia. }
  destruct (rounds_finite _ _ R2) as [F2 _].
  { pose proof (bpow_500_970 (bpow 500) ltac:(lra)). rewrite Rabs_pos_eq; lra. }
  assert (LO : D2R (cash st) <= D2R (cash st + (nt - total c))%float).
  { rewrite <- leb_R by auto. apply (rounds_lower _ _ R2); [exact Fc|lra]. }
  unfold state_ok. cbn [close_position fst cash position_qty]. fold q nt c.
  repeat split; auto; lia || lra.
Qed.
End Solvency.

Section SolventRun.
Context {C : Type} (config : alpha_backtest_config_t) (m : alpha_cost_model_t).
Context (signal_fn : alpha_signal_fn C) (prices : list float) (dates : list Z) (n : nat).
Hypotheses (M : model_ok m) (SR : side_rate m ALPHA_SIDE_SELL <= / 2).
Hypotheses (PO : Forall price_ok prices).
Hypotheses (Lp : (n <= List.length prices)%nat) (Ld : (n <= List.length dates)%nat).

Abbreviation bar := (engine_bar config m signal_fn prices dates n).
Abbreviation loop := (engine_loop config m signal_fn prices dates n).

Definition solvent (st : engine_state_t) : Prop :=
  state_ok st /\ ((0 < position_qty st)%Z -> D2R (cash st) <= bpow 44).

Definition snapshot_solvent (s : alpha_daily_snapshot_t) : Prop :=
  is_fin (snap_cash s) = true /\ 0 <= D2R (snap_cash s) /\ (0 <= snap_position_qty s <= 2 ^ 44)%Z.

Lemma bar_solvent i r : run_inv config m prices dates i r -> (i < n)%nat -> solvent (state r) ->
  D2R (cash (state r)) <= bpow 44 -> Forall snapshot_solvent (run_snapshots r) ->
  exists r', bar i r = Some r' /\ solvent (state r') /\ Forall snapshot_solvent (run_snapshots r').
Proof.
  intros (I1 & I2 & _) Hi [S1 S2] HC FS. unfold engine_bar.
  destruct (nth_error dates i) as [d|] eqn:D; [|apply nth_error_None in D; lia].
  destruct (nth_error prices i) as [p|] eqn:P; [|apply nth_error_None in P; lia].
  assert (HP : price_ok p) by (rewrite Forall_forall in PO; apply PO, (nth_error_In _ _ P)).
  destruct (signal_fn _ _ _ _ _) as [c sig].
  assert (SNAP : forall st ts, solvent st -> exists r',
    (let '(st', snapshot) := take_snapshot st d p in
     let? ss := push n (run_snapshots r) snapshot in
     Some {| ctx := c; state := st'; run_trades := ts; run_snapshots := ss |}) = Some r' /\
    solvent (state r') /\ Forall snapshot_solvent (run_snapshots r')).
  { intros st ts [T1 T2]. cbn [take_snapshot]. rewrite push_ok by lia. eexists. split; [reflexivity|].
    cbn [state run_snapshots]. split; [split; auto|]. apply Forall_app. split; [exact FS|].
    constructor; [exact T1|constructor]. }
  destruct (signal_eqb sig ALPHA_SIGNAL_BUY && _) eqn:B.
  - destruct (open_position_solvent m M p HP config d (state r) S1 HC) as (st & o & E & T1 & T2).
    rewrite E. assert (T : solvent st) by (split; [exact T1|intros; lra]).
    destruct o as [t|]; [rewrite push_ok by lia|]; now apply SNAP.
  - destruct ((signal_eqb sig ALPHA_SIGNAL_SELL || _) && _) eqn:S; [|now apply SNAP; split].
    zprop. destruct (close_position_solvent m M p HP config d (state r) S1) as [T1 _]; auto; try lia.
    { apply Rle_trans with (1 := HC). apply bpow_le. lia. }
    destruct (close_position (state r) m config d p) as [st t] eqn:E.
    rewrite push_ok by lia. apply SNAP. split; [exact T1|].
    unfold close_position in E. injection E as <- _. cbn. intros. lia.
Qed.

Lemma loop_solvent k i r : run_inv config m prices dates i r -> (i + k <= n)%nat -> solvent (state r) ->
  Forall snapshot_solvent (run_snapshots r) ->
  (exists r', loop k i r = Some r' /\ Forall snapshot_solvent (run_snapshots r')) \/
  (exists j r', (j < k)%nat /\ loop j i r = Some r' /\ bpow 44 < D2R (cash (state r'))).
Proof.
  revert i r. induction k as [|k IH]; intros i r I L S FS.
  - left. exists r. auto.
  - destruct (Rle_or_lt (D2R (cash (state r))) (bpow 44)) as [HC|HC].
    + destruct (bar_solvent i r I ltac:(lia) S HC FS) as (r1 & B & S1 & F1). cbn [engine_loop]. rewrite B.
      destruct (IH (Datatypes.S i) r1) as [H|(j & r' & Hj & E & H)]; auto; try lia.
      * now apply (bar_inv config m signal_fn prices dates n i r).
      * right. exists (Datatypes.S j), r'. split; [lia|]. cbn [engine_loop]. rewrite B. auto.
    + right. exists O, r. split; [lia|]. auto.
Qed.
End SolventRun.

(** ** From the loop to [alpha_backtest_run] *)

Local Open Scope Z_scope.

(** The run succeeds when the loop does and its holding days add up within their
    type, with the loop's buffers. *)
Lemma run_of_loop {C} pow al cfg prices dates n (fn : alpha_signal_fn C) c cost out :
  train_end cfg < test_start cfg -> trades_ok al = true -> snapshots_ok al = true ->
  match engine_loop cfg cost fn prices dates n n 0 (initial_run cfg c) with
  | Some r => fifo_fits (run_trades r) = true -> exists m, alpha_backtest_run pow al (Some cfg) (Some prices) (Some dates) n (Some fn) c
                (Some cost) (Some out) =
      Some (ALPHA_OK, Some {| res_config := cfg; metrics := m; trades := run_trades r;
                              snapshots := run_snapshots r |})
  | None => alpha_backtest_run pow al (Some cfg) (Some prices) (Some dates) n (Some fn) c
              (Some cost) (Some out) = None
  end.
Proof.
  intros HT A1 A2. unfold alpha_backtest_run. replace (_ >=? _) with false by lia.
  rewrite A1, A2, andb_false_r.
  destruct (engine_loop _ _ _ _ _ _ _ _ _) as [r|]; [|reflexivity]. intros F.
  destruct (compute_metrics_total pow (returns_ok al) (queue_ok al) (run_snapshots r) (run_trades r)
              (initial_capital cfg) F) as (m & -> & _). eauto.
Qed.

(** A successful run came from its loop. *)
Lemma run_ok_inv {C} pow al cfg prices dates n (fn : alpha_signal_fn C) c cost out res :
  alpha_backtest_run pow al (Some cfg) (Some prices) (Some dates) n (Some fn) c (Some cost) (Some out)
    = Some (ALPHA_OK, Some res) ->
  train_end cfg < test_start cfg /\ res_config res = cfg /\
  exists r, engine_loop cfg cost fn prices dates n n 0 (initial_run cfg c) = Some r /\
    trades res = run_trades r /\ snapshots res = run_snapshots r /\
    (queue_ok al = true -> run_snapshots r <> [] -> fifo_fits (run_trades r) = true).
Proof.
  unfold alpha_backtest_run. break_if; [discriminate|]. break_if; [discriminate|].
  destruct (engine_loop _ _ _ _ _ _ _ _ _) as [r|]; [|discriminate].
  destruct (alpha_compute_metrics _ _ _ _ _ _) as [m|] eqn:M; [|discriminate]. intros H. injection H as <-.
  zprop. split; [lia|]. split; [reflexivity|]. exists r. do 3 (split; [reflexivity|]).
  intros Q. rewrite Q in M. exact (metrics_defined_fits _ _ _ _ _ _ M).
Qed.

Definition all_allocs : allocs :=
  {| trades_ok := true; snapshots_ok := true; returns_ok := true; queue_ok := true |}.

Definition sample_config : alpha_backtest_config_t :=
  {| cfg_ticker := "005930.KS"; cfg_strategy := "replay"; train_start := 0; train_end := 9;
     test_start := 10; test_end := 20; initial_capital := 1000;
     commission_rate_pct := 0.015; tax_rate_pct := 0.18; slippage_bps := 3 |}.

Definition sample_source : alpha_replay_source_t :=
  {| days := [10; 12]; signals := [ALPHA_SIGNAL_BUY; ALPHA_SIGNAL_SELL] |}.

Definition sample_prices : list float := [100%float; 110%float; 120%float].
Definition sample_dates : list Z := [10; 11; 12].

Definition sample_out : alpha_backtest_result_t := cleared_result sample_config.

(** A sample run of [n] bars. *)
Definition sample_run (n : nat) : option (alpha_err_t * option alpha_backtest_result_t) :=
  alpha_backtest_run (fun x y => x) all_allocs (Some sample_config) (Some sample_prices)
    (Some sample_dates) n (Some alpha_replay_signal) sample_source
    (Some alpha_cost_model_default) (Some sample_out).

(** The sample run buys nine shares on the first bar and sells them on the third. *)
Example sample_run_trades :
  match sample_run 3 with
  | Some (ALPHA_OK, Some res) =>
      List.map (fun t => (side t, quantity t)) (trades res) = [(ALPHA_SIDE_BUY, 9); (ALPHA_SIDE_SELL, 9)]
  | _ => False
  end.
Proof. vm_compute. reflexivity. Qed.

(** ** Properties *)

(** C3: the books of every successful run balance: one snapshot per bar in bar
    order with its date and price, at most one trade per bar, the trades are an
    alternation of BUYs from flat and full SELLs whose costs and profits follow
    from the price paid, the book they leave agrees with the last snapshot, and
    every snapshot's position value, portfolio value and return are consistent
    with the one before. *)
Theorem backtest_books_balance {C} pow al cfg prices dates n (fn : alpha_signal_fn C) c cost out res :
  (n <= List.length prices)%nat -> (n <= List.length dates)%nat ->
  alpha_backtest_run pow al (Some cfg) (Some prices) (Some dates) n (Some fn) c (Some cost) (Some out)
    = Some (ALPHA_OK, Some res) ->
  List.length (snapshots res) = n /\
  List.map bar_of (snapshots res) = firstn n (combine dates prices) /\
  (List.length (trades res) <= n)%nat /\
  snapshots_linked (double_of_Z (initial_capital cfg)) (snapshots res) /\
  exists h, ledger cost (trades res) h /\ held h = last_qty (snapshots res).
Proof.
  intros Lp Ld H. apply run_ok_inv in H as (_ & _ & r & L & -> & -> & _).
  apply (loop_inv cfg cost fn prices dates n n 0) in L; [|apply initial_inv].
  destruct L as (I1 & I2 & I3 & I4 & I5 & I6 & I7 & I8). cbn [Nat.add] in *.
  repeat (split; [assumption|]). exists (holding_of (state r)). split; [exact I4|].
  rewrite I8. unfold holding_of. destruct (Z.eqb_spec (position_qty (state r)) 0); auto.
Qed.

Lemma backtest_books_balance_witness :
  exists res, sample_run 3 = Some (ALPHA_OK, Some res) /\
  List.length (snapshots res) = 3%nat /\
  List.map bar_of (snapshots res) = firstn 3 (combine sample_dates sample_prices) /\
  (List.length (trades res) <= 3)%nat /\
  snapshots_linked (double_of_Z (initial_capital sample_config)) (snapshots res) /\
  exists h, ledger alpha_cost_model_default (trades res) h /\ held h = last_qty (snapshots res).
Proof.
  destruct (sample_run 3) as [[[] [res|]]|] eqn:E; try (vm_compute in E; discriminate).
  exists res. split; [reflexivity|].
  apply (backtest_books_balance (fun x y => x) all_allocs sample_config sample_prices sample_dates 3
           alpha_replay_signal sample_source alpha_cost_model_default sample_out); [cbn; lia|cbn; lia|exact E].
Defined.

(** C2: the engine never looks ahead: with a signal source that reads only the
    bars it is shown, a run over more bars (whatever they contain) succeeds only if
    the run over the first [n] does, and repeats its snapshots and trades before
    adding its own.  The allocations of the trades and snapshots succeed; that of the
    matching queue does too, or the dates are close (without the queue the longer run
    skips the holding days, whose sums could overflow in the shorter one). *)
Theorem backtest_no_lookahead {C} pow al cfg prices prices' dates dates' n n'
    (fn : alpha_signal_fn C) c cost out out' res' :
  CausalSignal fn -> (n <= n')%nat -> trades_ok al = true -> snapshots_ok al = true ->
  queue_ok al = true \/ dates_close n dates ->
  firstn n prices = firstn n prices' -> firstn n dates = firstn n dates' ->
  alpha_backtest_run pow al (Some cfg) (Some prices') (Some dates') n' (Some fn) c (Some cost) (Some out')
    = Some (ALPHA_OK, Some res') ->
  exists res later,
    alpha_backtest_run pow al (Some cfg) (Some prices) (Some dates) n (Some fn) c (Some cost) (Some out)
      = Some (ALPHA_OK, Some res) /\
    snapshots res = firstn n (snapshots res') /\ trades res' = trades res ++ later.
Proof.
  intros CS Hn A1 A2 A3 Ep Ed H. apply run_ok_inv in H as (HT & _ & r' & L & -> & -> & Fi).
  pose proof (loop_inv _ _ _ _ _ _ _ _ _ _ (initial_inv cfg cost prices' dates' c) L) as (J1 & J2 & _).
  replace n' with (n + (n' - n))%nat in L at 2 by lia. rewrite loop_split in L.
  rewrite <- (loop_causal cfg cost fn prices prices' dates dates' n n' n 0) in L;
    [|apply initial_inv|lia|lia|exact Ep|exact Ed].
  destruct (engine_loop cfg cost fn prices dates n n 0 (initial_run cfg c)) as [r|] eqn:L1; [|discriminate].
  pose proof (run_of_loop pow al cfg prices dates n fn c cost out HT A1 A2) as R. rewrite L1 in R.
  pose proof (loop_inv _ _ _ _ _ _ _ _ _ _ (initial_inv cfg cost prices dates c) L1) as (I1 & I2 & _).
  assert (I' : run_inv cfg cost prices' dates' n r).
  { rewrite (loop_causal cfg cost fn prices prices' dates dates' n n' n 0) in L1;
      [|apply initial_inv|lia|lia|exact Ep|exact Ed].
    exact (loop_inv _ _ _ _ _ _ _ _ _ _ (initial_inv cfg cost prices' dates' c) L1). }
  destruct (loop_extends _ _ _ _ _ _ _ _ _ _ I' L) as (ss & ts & Es & Et). rewrite Es, Et in *.
  assert (F : fifo_fits (run_trades r) = true).
  { destruct A3 as [A3|A3].
    - specialize (Fi A3). destruct (run_trades r) as [|t0 ts0] eqn:T0; [reflexivity|].
      apply (fifo_fits_prefix _ ts), Fi. intros N. rewrite N in J1. cbn in J1, J2. lia.
    - apply (fifo_fits_close n dates); [exact A3| |exact I2]. eapply loop_dated; [|exact L1]. constructor. }
  destruct (R F) as (m & E). do 2 eexists. split; [exact E|]. cbn [snapshots trades]. split; [|reflexivity].
  rewrite firstn_app. replace (n - _)%nat with O by (cbn in I1; lia).
  rewrite firstn_all2 by (cbn in I1; lia). cbn [firstn]. now rewrite app_nil_r.
Qed.

Lemma backtest_no_lookahead_witness :
  exists res' res later, sample_run 3 = Some (ALPHA_OK, Some res') /\
    sample_run 2 = Some (ALPHA_OK, Some res) /\
    snapshots res = firstn 2 (snapshots res') /\ trades res' = trades res ++ later.
Proof.
  destruct (sample_run 3) as [[[] [res'|]]|] eqn:E; try (vm_compute in E; discriminate).
  exists res'.
  destruct (backtest_no_lookahead (fun x y => x) all_allocs sample_config sample_prices sample_prices
    sample_dates sample_dates 2 3 alpha_replay_signal sample_source alpha_cost_model_default
    sample_out sample_out res' replay_causal ltac:(lia) eq_refl eq_refl (or_introl eq_refl) eq_refl eq_refl E)
    as (res & later & H). exists res, later. split; [reflexivity|exact H].
Defined.

(** C1: solvency: with prices between 1 and 2^40, fee rates in [0, 1] that take at
    most half a sale, a starting capital of at most 2^44, and dates close enough for
    [n] holding periods to add up within 64 bits, the run completes
    with finite, non-negative cash in every snapshot (the single-share rounding
    guard of the buy is enough) and no undefined behaviour, unless some bar is reached
    with more than 2^44 in cash. *)
Theorem backtest_solvent {C} pow al cfg prices dates n (fn : alpha_signal_fn C) c m out :
  model_ok m -> (side_rate m ALPHA_SIDE_SELL <= / 2)%R -> Forall price_ok prices ->
  (n <= List.length prices)%nat -> (n <= List.length dates)%nat ->
  0 <= initial_capital cfg <= 2 ^ 44 -> train_end cfg < test_start cfg ->
  trades_ok al = true -> snapshots_ok al = true -> dates_close n dates ->
  (exists res, alpha_backtest_run pow al (Some cfg) (Some prices) (Some dates) n (Some fn) c
                 (Some m) (Some out) = Some (ALPHA_OK, Some res) /\
     Forall snapshot_solvent (snapshots res)) \/
  (exists j r, (j < n)%nat /\
     engine_loop cfg m fn prices dates n j 0 (initial_run cfg c) = Some r /\
     (bpow 44 < D2R (cash (state r)))%R).
Proof.
  intros M SR PO Lp Ld HC HT A1 A2 DC.
  destruct (double_of_Z_exact (initial_capital cfg) ltac:(lia)) as [F E].
  assert (S0 : solvent (state (initial_run cfg c))).
  { split; [|cbn; intros; lia]. split; [exact F|]. cbn [initial_run state cash position_qty].
    split; [rewrite E; apply (IZR_le 0); lia|lia]. }
  destruct (loop_solvent cfg m fn prices dates n M SR PO Lp Ld n 0 (initial_run cfg c)
              (initial_inv cfg m prices dates c) ltac:(lia) S0 (Forall_nil _))
    as [(r & L & FS)|H]; [left|now right].
  pose proof (run_of_loop pow al cfg prices dates n fn c m out HT A1 A2) as R. rewrite L in R.
  pose proof (loop_inv _ _ _ _ _ _ _ _ _ _ (initial_inv cfg m prices dates c) L) as (_ & N & _).
  destruct R as (mt & R); [|eexists; split; [exact R|exact FS]].
  apply (fifo_fits_close n dates); [exact DC| |exact N].
  eapply loop_dated; [|exact L]. constructor.
Qed.

Lemma price_ok_eval p : is_fin p && (1 <=? p)%float && (p <=? 0x1p40)%float = true -> price_ok p.
Proof.
  intros H. zprop. split; [assumption|].
  match goal with H1 : (1 <=? p)%float = true, H2 : (p <=? _)%float = true |- _ =>
    apply leb_R in H1, H2; auto; rewrite D2R_1 in H1 end.
  replace (D2R 0x1p40) with (bpow 40) in *; [lra|]. rewrite bpow_40. d2r 0x1p40%float. lra.
Qed.

Lemma backtest_solvent_witness :
  (exists res, sample_run 3 = Some (ALPHA_OK, Some res) /\ Forall snapshot_solvent (snapshots res)) \/
  (exists j r, (j < 3)%nat /\
     engine_loop sample_config alpha_cost_model_default alpha_replay_signal sample_prices sample_dates
       3 j 0 (initial_run sample_config sample_source) = Some r /\
     (bpow 44 < D2R (cash (state r)))%R).
Proof.
  apply (backtest_solvent (fun x y => x) all_allocs sample_config sample_prices sample_dates 3
           alpha_replay_signal sample_source alpha_cost_model_default sample_out);
    try reflexivity; try (cbn; lia);
    [| | |exists 10, 2; split; [lia|]; split; [repeat constructor; lia|unfold INT64_MAX; cbn; lia]].
  - apply model_ok_default.
  - unfold side_rate, alpha_cost_model_default, alpha_cost_model_make. cbn [side_eqb commission_rate tax_rate slippage_rate].
    let x := eval vm_compute in (ALPHA_BACKTEST_COMMISSION_RATE_PCT / 100)%float in
      change (ALPHA_BACKTEST_COMMISSION_RATE_PCT / 100)%float with x; d2r x.
    let x := eval vm_compute in (ALPHA_BACKTEST_TAX_RATE_PCT / 100)%float in
      change (ALPHA_BACKTEST_TAX_RATE_PCT / 100)%float with x; d2r x.
    let x := eval vm_compute in (double_of_Z ALPHA_BACKTEST_SLIPPAGE_BPS / 10000)%float in
      change (double_of_Z ALPHA_BACKTEST_SLIPPAGE_BPS / 10000)%float with x; d2r x.
    lra.
  - repeat (apply Forall_cons; [apply price_ok_eval; vm_compute; reflexivity|]). apply Forall_nil.
Defined.

(** An undefined loop is undefined at the cast of some bar. *)
Lemma loop_undefined {C} cfg prices dates n (fn : alpha_signal_fn C) c cost :
  (n <= List.length prices)%nat -> (n <= List.length dates)%nat ->
  engine_loop cfg cost fn prices dates n n 0 (initial_run cfg c) = None ->
  exists i r d p, (i < n)%nat /\ nth_error prices i = Some p /\
    engine_loop cfg cost fn prices dates n i 0 (initial_run cfg c) = Some r /\
    cast_int64 (cfloor (cash (state r) /
      (p + total (alpha_cost_calculate cost ALPHA_SIDE_BUY p 1)))%float) = None /\
    open_position (state r) cost cfg d p = None.
Proof.
  intros Lp Ld L.
  assert (G : forall k, (k <= n)%nat -> engine_loop cfg cost fn prices dates n k 0 (initial_run cfg c) = None ->
    exists i r, (i < k)%nat /\ engine_loop cfg cost fn prices dates n i 0 (initial_run cfg c) = Some r /\
      engine_bar cfg cost fn prices dates n i r = None).
  { induction k as [|k IH]; intros Hk E; [discriminate|].
    replace (S k) with (k + 1)%nat in E by lia. rewrite loop_split in E.
    destruct (engine_loop cfg cost fn prices dates n k 0 (initial_run cfg c)) as [r|] eqn:E'.
    - exists k, r. split; [lia|]. split; [exact E'|]. cbn [engine_loop Nat.add] in E.
      destruct (engine_bar cfg cost fn prices dates n k r); [discriminate|reflexivity].
    - destruct (IH ltac:(lia) eq_refl) as (i & r & Hi & X). exists i, r. split; [lia|exact X]. }
  destruct (G n (Nat.le_refl n) L) as (i & r & Hi & Lr & B).
  pose proof (loop_inv _ _ _ _ _ _ _ _ _ _ (initial_inv cfg cost prices dates c) Lr) as I.
  destruct (bar_undefined _ _ _ _ _ _ _ _ I Hi Lp Ld B) as (d & p & Hp & _ & O).
  exists i, r, d, p. split; [exact Hi|]. split; [exact Hp|]. split; [exact Lr|]. split; [|exact O].
  unfold open_position in O. break_if; [discriminate|].
  destruct (cast_int64 _); [|reflexivity]. repeat break_if; discriminate.
Qed.

(** An undefined run is undefined at that cast or at the sum of the holding days. *)
Lemma run_undefined {C} pow al cfg prices dates n (fn : alpha_signal_fn C) c cost out :
  (n <= List.length prices)%nat -> (n <= List.length dates)%nat ->
  alpha_backtest_run pow al (Some cfg) (Some prices) (Some dates) n (Some fn) c (Some cost) (Some out)
    = None ->
  (exists i r d p, (i < n)%nat /\ nth_error prices i = Some p /\
     engine_loop cfg cost fn prices dates n i 0 (initial_run cfg c) = Some r /\
     cast_int64 (cfloor (cash (state r) /
       (p + total (alpha_cost_calculate cost ALPHA_SIDE_BUY p 1)))%float) = None /\
     open_position (state r) cost cfg d p = None) \/
  (exists r, engine_loop cfg cost fn prices dates n n 0 (initial_run cfg c) = Some r /\
     fifo_fits (run_trades r) = false /\ ~ dates_close n dates).
Proof.
  intros Lp Ld H. unfold alpha_backtest_run in H. break_if; [discriminate|]. break_if; [discriminate|].
  destruct (engine_loop cfg cost fn prices dates n n 0 (initial_run cfg c)) as [r|] eqn:L.
  - right. exists r. split; [reflexivity|].
    destruct (alpha_compute_metrics _ _ _ _ _ _) eqn:M; [discriminate|]. apply metrics_undefined in M.
    split; [exact M|]. intros D.
    pose proof (loop_inv _ _ _ _ _ _ _ _ _ _ (initial_inv cfg cost prices dates c) L) as (_ & N & _).
    rewrite (fifo_fits_close n dates) in M; [discriminate|exact D| |exact N].
    eapply loop_dated; [|exact L]. constructor.
  - left. exact (loop_undefined cfg prices dates n fn c cost Lp Ld L).
Qed.

(** C4: memory safety: over arrays of at least [n] entries every access to the price,
    date, trade and snapshot arrays is in bounds, and a run is undefined in two ways
    only: at the cast of the affordable quantity when a buy is attempted, or because
    the holding days of its trades overflow their signed 64-bit integers, which
    dates close to each other exclude. *)
Theorem backtest_undefined_causes {C} pow al cfg prices dates n (fn : alpha_signal_fn C) c cost out :
  (n <= List.length prices)%nat -> (n <= List.length dates)%nat ->
  alpha_backtest_run pow al (Some cfg) (Some prices) (Some dates) n (Some fn) c (Some cost) (Some out)
    = None ->
  (exists i r d p, (i < n)%nat /\ nth_error prices i = Some p /\
     engine_loop cfg cost fn prices dates n i 0 (initial_run cfg c) = Some r /\
     cast_int64 (cfloor (cash (state r) /
       (p + total (alpha_cost_calculate cost ALPHA_SIDE_BUY p 1)))%float) = None /\
     open_position (state r) cost cfg d p = None) \/
  (exists r, engine_loop cfg cost fn prices dates n n 0 (initial_run cfg c) = Some r /\
     fifo_fits (run_trades r) = false /\ ~ dates_close n dates).
Proof. apply run_undefined. Qed.

(** Both ways: a buy at a NaN price, and a sale dated out of reach of its buy. *)
Lemma backtest_undefined_causes_witness :
  (exists i r d p, (i < 1)%nat /\ nth_error [nan] i = Some p /\
     engine_loop sample_config alpha_cost_model_default alpha_replay_signal [nan] [10] 1 i 0
       (initial_run sample_config sample_source) = Some r /\
     cast_int64 (cfloor (cash (state r) /
       (p + total (alpha_cost_calculate alpha_cost_model_default ALPHA_SIDE_BUY p 1)))%float) = None /\
     open_position (state r) alpha_cost_model_default sample_config d p = None) /\
  (exists r, engine_loop sample_config alpha_cost_model_default alpha_replay_signal [100%float; 110%float]
       [-2; INT64_MAX] 2 2 0 (initial_run sample_config
         {| days := [-2; INT64_MAX]; signals := [ALPHA_SIGNAL_BUY; ALPHA_SIGNAL_SELL] |}) = Some r /\
     fifo_fits (run_trades r) = false /\ ~ dates_close 2 [-2; INT64_MAX]).
Proof.
  split.
  - destruct (backtest_undefined_causes (fun x y => x) all_allocs sample_config [nan] [10] 1
      alpha_replay_signal sample_source alpha_cost_model_default sample_out) as [H|(r & L & _)];
      [cbn; lia|cbn; lia|vm_compute; reflexivity|exact H|]. exfalso. vm_compute in L. discriminate.
  - destruct (backtest_undefined_causes (fun x y => x) all_allocs sample_config [100%float; 110%float]
      [-2; INT64_MAX] 2 alpha_replay_signal
      {| days := [-2; INT64_MAX]; signals := [ALPHA_SIGNAL_BUY; ALPHA_SIGNAL_SELL] |}
      alpha_cost_model_default sample_out) as [(i & r & d & p & Hi & Hp & L & K & _)|H];
      [cbn; lia|cbn; lia|vm_compute; reflexivity| |exact H].
    exfalso. destruct i as [|[|i]]; [| |lia]; cbn in Hp; injection Hp as <-; vm_compute in L; injection L as <-;
      vm_compute in K; discriminate.
Defined.

(** A NaN close price on a buy signal reaches that cast: the guard
    [effective_price <= 0.0] lets it through for every state and cost model. *)
Theorem open_position_nan_undefined st cost cfg d : open_position st cost cfg d nan = None.
Proof.
  assert (N : forall x, isnan (x : float) = true -> x = nan).
  { intros x H. apply Prim2SF_inj. unfold isnan in H. destruct (Prim2SF x); try discriminate. reflexivity. }
  assert (E : (nan + total (alpha_cost_calculate cost ALPHA_SIDE_BUY nan 1))%float = nan).
  { apply N. unfold isnan. rewrite add_spec. reflexivity. }
  assert (D : (cash st / nan)%float = nan).
  { apply N. unfold isnan. rewrite div_spec. now destruct (Prim2SF (cash st)). }
  unfold open_position. rewrite E, D. reflexivity.
Qed.

(** The checks of a run come first and in order: a NULL argument or an
    overlapping train/test window is an invalid argument and leaves the output
    untouched; a failed allocation is an I/O error with the output cleared; with
    no bars the allocations do not matter and the run succeeds with all-zero
    metrics. *)
Theorem backtest_run_errors {C} pow al cfg prices dates n (fn : alpha_signal_fn C) c cost out :
  (test_start cfg <= train_end cfg ->
   alpha_backtest_run pow al (Some cfg) (Some prices) (Some dates) n (Some fn) c (Some cost) (Some out)
     = Some (ALPHA_ERR_INVALID_ARG, Some out)) /\
  (train_end cfg < test_start cfg -> (0 < n)%nat -> trades_ok al && snapshots_ok al = false ->
   alpha_backtest_run pow al (Some cfg) (Some prices) (Some dates) n (Some fn) c (Some cost) (Some out)
     = Some (ALPHA_ERR_IO, Some (cleared_result cfg))) /\
  (train_end cfg < test_start cfg ->
   alpha_backtest_run pow al (Some cfg) (Some prices) (Some dates) 0 (Some fn) c (Some cost) (Some out)
     = Some (ALPHA_OK, Some (cleared_result cfg))) /\
  alpha_backtest_run pow al None (Some prices) (Some dates) n (Some fn) c (Some cost) (Some out)
    = Some (ALPHA_ERR_INVALID_ARG, Some out) /\
  alpha_backtest_run pow al (Some cfg) (Some prices) (Some dates) n None c (Some cost) (Some out)
    = Some (ALPHA_ERR_INVALID_ARG, Some out) /\
  alpha_backtest_run pow al (Some cfg) (Some prices) (Some dates) n (Some fn) c (Some cost) None
    = Some (ALPHA_ERR_INVALID_ARG, None).
Proof.
  unfold alpha_backtest_run. repeat split; intros.
  - now replace (_ >=? _) with true by lia.
  - replace (_ >=? _) with false by lia. apply Nat.ltb_lt in H0. rewrite H0.
    rewrite <- negb_andb, H1. reflexivity.
  - now replace (_ >=? _) with false by lia.
Qed.

Lemma backtest_run_errors_witness :
  sample_run 0 = Some (ALPHA_OK, Some (cleared_result sample_config)).
Proof.
  destruct (backtest_run_errors (fun x y => x) all_allocs sample_config sample_prices sample_dates 0
    alpha_replay_signal sample_source alpha_cost_model_default sample_out) as (_ & _ & H & _).
  apply H. reflexivity.
Defined.
