(* ===== verification/Risk.v ===== *)
(** * Risk gates and position sizing

    Models [core/src/risk/gates.c], [core/src/portfolio/sizing.c] and [risk.h].
    The caller arrays [out_indices]/[out_kinds] are the lists of entries written
    in order; an optional out-parameter is [None] when the pointer is NULL. *)

From Stdlib Require Import ZArith Lia Bool List Reals Lra Floats String Sorted Permutation.
From S2P Require Import Prelude Domain Double NearError StableSort.
Import ListNotations.
Set Warnings "-inexact-float".
Open Scope Z_scope.

Record alpha_risk_config_t := {
  max_position_pct : Z;
  daily_loss_limit_pct : Z;
  individual_stop_loss_pct : Z;
  take_profit_pct : Z;
  portfolio_drawdown_limit_pct : Z
}.

Definition alpha_risk_config_default : alpha_risk_config_t :=
  {| max_position_pct := 20; daily_loss_limit_pct := 3; individual_stop_loss_pct := 7;
     take_profit_pct := 5; portfolio_drawdown_limit_pct := 8 |}.

Record alpha_position_t := {
  pos_ticker : string;
  pos_quantity : Z;
  avg_fill_price : float;
  current_price : float
}.

Inductive alpha_exit_kind_t := ALPHA_EXIT_NONE | ALPHA_EXIT_TAKE_PROFIT | ALPHA_EXIT_STOP_LOSS.

(** A store through an optional out-pointer. *)
Definition store {A} (cell : option A) (v : A) : option A :=
  match cell with Some _ => Some v | None => None end.

(** [(double)pct] and its negation for a percent [int]. *)
Definition pct (z : Z) : float := double_of_Z z.

Definition alpha_check_rule_based_exit (position : alpha_position_t) (config : alpha_risk_config_t)
    (pnl_pct_out : option float) : alpha_exit_kind_t * option float :=
  if pos_quantity position <=? 0 then (ALPHA_EXIT_NONE, pnl_pct_out)
  else
    let avg_fill := avg_fill_price position in
    let current := current_price position in
    if (avg_fill <=? 0)%float || (current <=? 0)%float then (ALPHA_EXIT_NONE, pnl_pct_out)
    else
      let pnl_pct := ((current - avg_fill) / avg_fill * 100)%float in
      if (pct (take_profit_pct config) <=? pnl_pct)%float then
        (ALPHA_EXIT_TAKE_PROFIT, store pnl_pct_out pnl_pct)
      else if (pnl_pct <=? - pct (individual_stop_loss_pct config))%float then
        (ALPHA_EXIT_STOP_LOSS, store pnl_pct_out pnl_pct)
      else (ALPHA_EXIT_NONE, pnl_pct_out).

Definition exit_is_none (k : alpha_exit_kind_t) : bool :=
  match k with ALPHA_EXIT_NONE => true | _ => false end.

(** The loop from index [i] with the entries written so far. *)
Fixpoint rule_exits_loop (positions : list alpha_position_t) (config : alpha_risk_config_t) (i : nat)
    (out : list (nat * alpha_exit_kind_t)) : list (nat * alpha_exit_kind_t) :=
  match positions with
  | [] => out
  | position :: rest =>
      let '(kind, _) := alpha_check_rule_based_exit position config (Some 0%float) in
      rule_exits_loop rest config (S i) (if exit_is_none kind then out else out ++ [(i, kind)])
  end.

Definition alpha_check_rule_based_exits (positions : list alpha_position_t)
    (config : alpha_risk_config_t) : list (nat * alpha_exit_kind_t) :=
  rule_exits_loop positions config 0 [].

(** The locals of the weakest-two scan; an index of -1 is none. *)
Record weakest := { first : Z; second : Z; first_pnl : float; second_pnl : float }.

Definition weakest_step (i : nat) (position : alpha_position_t) (w : weakest) : weakest :=
  let avg_fill := avg_fill_price position in
  let current := current_price position in
  if (pos_quantity position <=? 0) || (avg_fill <=? 0)%float || (current <=? 0)%float then w
  else
    let pnl_pct := ((current - avg_fill) / avg_fill * 100)%float in
    if (first w <? 0) || (pnl_pct <? first_pnl w)%float then
      {| first := Z.of_nat i; second := first w; first_pnl := pnl_pct; second_pnl := first_pnl w |}
    else if (second w <? 0) || (pnl_pct <? second_pnl w)%float then
      {| first := first w; second := Z.of_nat i; first_pnl := first_pnl w; second_pnl := pnl_pct |}
    else w.

Fixpoint weakest_loop (positions : list alpha_position_t) (i : nat) (w : weakest) : weakest :=
  match positions with
  | [] => w
  | position :: rest => weakest_loop rest (S i) (weakest_step i position w)
  end.

Definition alpha_check_portfolio_drawdown (positions : list alpha_position_t)
    (current_equity baseline_equity : float) (config : alpha_risk_config_t)
    (dd_pct_out : option float) : list nat * option float :=
  if (current_equity <=? 0)%float || (baseline_equity <=? 0)%float then ([], dd_pct_out)
  else
    let dd_pct := ((current_equity - baseline_equity) / baseline_equity * 100)%float in
    let dd_pct_out := store dd_pct_out dd_pct in
    if (- pct (portfolio_drawdown_limit_pct config) <? dd_pct)%float then ([], dd_pct_out)
    else
      let w := weakest_loop positions 0
                 {| first := -1; second := -1; first_pnl := 0; second_pnl := 0 |} in
      let out := if first w >=? 0 then [Z.to_nat (first w)] else [] in
      let out := if second w >=? 0 then out ++ [Z.to_nat (second w)] else out in
      (out, dd_pct_out).

Definition alpha_is_daily_loss_blocked (daily_realized_pnl_pct : float)
    (config : alpha_risk_config_t) : bool :=
  (daily_realized_pnl_pct <=? - pct (daily_loss_limit_pct config))%float.

Definition alpha_max_position_denominator (is_paper : bool)
    (total_value paper_seed_capital intended_buy_value : float) : float :=
  if is_paper then
    let denom := total_value in
    let denom := if (denom <? paper_seed_capital)%float then paper_seed_capital else denom in
    if (denom <? 1)%float then 1%float else denom
  else
    let denom := (total_value + intended_buy_value)%float in
    if (1 <? denom)%float then denom else 1%float.

Definition alpha_max_position_allows_buy (config : alpha_risk_config_t)
    (existing_position_value intended_buy_value denominator : float)
    (next_weight_pct_out : option float) : bool * option float :=
  let next_value := (existing_position_value + intended_buy_value)%float in
  let next_weight_pct := (next_value / denominator * 100)%float in
  ((next_weight_pct <=? pct (max_position_pct config))%float,
   store next_weight_pct_out next_weight_pct).

(** ** Specification of the weakest-two selection *)

Definition eligible (position : alpha_position_t) : bool :=
  negb ((pos_quantity position <=? 0) || (avg_fill_price position <=? 0)%float
        || (current_price position <=? 0)%float).

Definition position_pnl (position : alpha_position_t) : float :=
  ((current_price position - avg_fill_price position) / avg_fill_price position * 100)%float.

(** The eligible positions with their indices from [i]. *)
Fixpoint candidates_from (i : nat) (positions : list alpha_position_t) : list (nat * float) :=
  match positions with
  | [] => []
  | p :: rest =>
      if eligible p then (i, position_pnl p) :: candidates_from (S i) rest
      else candidates_from (S i) rest
  end.

(** The scan's locals as the first two entries of a list. *)
Definition weakest_of (l : list (nat * float)) : weakest :=
  match l with
  | [] => {| first := -1; second := -1; first_pnl := 0; second_pnl := 0 |}
  | [(i, p)] => {| first := Z.of_nat i; second := -1; first_pnl := p; second_pnl := 0 |}
  | (i, p) :: (j, q) :: _ =>
      {| first := Z.of_nat i; second := Z.of_nat j; first_pnl := p; second_pnl := q |}
  end.

(** ** Lemmas *)

Lemma weakest_step_insert i p l : eligible p = true ->
  weakest_step i p (weakest_of l) = weakest_of (insert PrimFloat.ltb (i, position_pnl p) l).
Proof.
  unfold weakest_step, eligible. intros E. apply negb_true_iff in E. rewrite E.
  fold (position_pnl p). destruct l as [|[a pa] [|[b pb] l]]; cbn [weakest_of insert snd first].
  - reflexivity.
  - rewrite of_nat_ltb_0. cbn [orb first_pnl second].
    now destruct (position_pnl p <? pa)%float.
  - rewrite of_nat_ltb_0. cbn [orb first_pnl second second_pnl].
    rewrite of_nat_ltb_0. cbn [orb].
    destruct (position_pnl p <? pa)%float; [reflexivity|].
    now destruct (position_pnl p <? pb)%float.
Qed.

Lemma weakest_loop_spec ps i l : weakest_loop ps i (weakest_of l) =
  weakest_of (fold_left (fun acc x => insert PrimFloat.ltb x acc) (candidates_from i ps) l).
Proof.
  revert i l. induction ps as [|p ps IH]; intros i l; cbn [weakest_loop candidates_from]; [reflexivity|].
  destruct (eligible p) eqn:E.
  - rewrite weakest_step_insert by assumption. apply IH.
  - unfold weakest_step, eligible in *. apply negb_false_iff in E. rewrite E. apply IH.
Qed.

Lemma weakest_indices l :
  (let w := weakest_of l in
   let out := if first w >=? 0 then [Z.to_nat (first w)] else [] in
   if second w >=? 0 then out ++ [Z.to_nat (second w)] else out) = map fst (firstn 2 l).
Proof.
  destruct l as [|[a pa] [|[b pb] l]]; cbn [weakest_of first second firstn map fst]; [reflexivity| |];
    rewrite ?Nat2Z.id; rewrite of_nat_geb_0; [reflexivity|].
  now rewrite of_nat_geb_0.
Qed.

(** When the gate fires. *)
Definition drawdown_triggered (current_equity baseline_equity : float) (config : alpha_risk_config_t)
  : bool :=
  negb ((current_equity <=? 0)%float || (baseline_equity <=? 0)%float) &&
  negb (- pct (portfolio_drawdown_limit_pct config)
          <? (current_equity - baseline_equity) / baseline_equity * 100)%float.

Lemma drawdown_selection ps ce be cfg o :
  fst (alpha_check_portfolio_drawdown ps ce be cfg o) =
  if drawdown_triggered ce be cfg
  then map fst (firstn 2 (stable_sort PrimFloat.ltb (candidates_from 0 ps))) else [].
Proof.
  unfold alpha_check_portfolio_drawdown, drawdown_triggered.
  destruct (_ || _); [reflexivity|]. cbn [negb andb].
  destruct (_ <? _)%float; [reflexivity|]. cbn [negb fst].
  change {| first := -1; second := -1; first_pnl := 0; second_pnl := 0 |} with (weakest_of []).
  rewrite weakest_loop_spec. apply weakest_indices.
Qed.

Lemma candidates_sorted i ps : StronglySorted Nat.lt (map fst (candidates_from i ps)) /\
  Forall (fun x => (i <= fst x)%nat) (candidates_from i ps).
Proof.
  revert i. induction ps as [|p ps IH]; intros i; cbn [candidates_from]; [split; constructor|].
  destruct (IH (S i)) as [S F]. rewrite Forall_forall in F.
  destruct (eligible p); [|split; [exact S|apply Forall_forall; intros x I; specialize (F x I); lia]].
  split; constructor; cbn [fst]; auto; apply Forall_forall.
  - intros j J. apply in_map_iff in J as (x & <- & I). specialize (F x I). unfold Nat.lt. lia.
  - intros x I. specialize (F x I). lia.
Qed.

Lemma candidates_spec i ps j q : In (j, q) (candidates_from i ps) <->
  exists p, nth_error ps (j - i) = Some p /\ (i <= j)%nat /\ eligible p = true /\ q = position_pnl p.
Proof.
  revert i. induction ps as [|p ps IH]; intros i; cbn [candidates_from].
  - split; [intros []|]. intros (p & H & _). destruct (j - i)%nat; discriminate.
  - assert (T : In (j, q) (candidates_from (S i) ps) <->
      exists p', nth_error (p :: ps) (j - i) = Some p' /\ (S i <= j)%nat /\ eligible p' = true /\
        q = position_pnl p').
    { rewrite IH. split; intros (p' & H & L & R); exists p'; (split; [|split; [exact L|exact R]]).
      - replace (j - i)%nat with (S (j - S i)) by lia. exact H.
      - replace (j - i)%nat with (S (j - S i)) in H by lia. exact H. }
    destruct (eligible p) eqn:E; cbn [In]; rewrite T; split.
    + intros [H|(p' & H & L & R)]; [injection H as <- <-; exists p; rewrite Nat.sub_diag; auto|].
      exists p'. split; [exact H|]. split; [lia|exact R].
    + intros (p' & H & L & R). destruct (Nat.eq_dec j i) as [->|N].
      * rewrite Nat.sub_diag in H. injection H as <-. left. destruct R as [_ ->]. reflexivity.
      * right. exists p'. split; [exact H|]. split; [lia|exact R].
    + intros (p' & H & L & R). exists p'. split; [exact H|]. split; [lia|exact R].
    + intros (p' & H & L & R). destruct (Nat.eq_dec j i) as [->|N].
      * rewrite Nat.sub_diag in H. injection H as <-. destruct R. congruence.
      * exists p'. split; [exact H|]. split; [lia|exact R].
Qed.

(** ** Rule-based exits *)

Definition exit_kind (config : alpha_risk_config_t) (p : alpha_position_t) : alpha_exit_kind_t :=
  fst (alpha_check_rule_based_exit p config (Some 0%float)).

(** The positions with an exit, with their indices from [i]. *)
Fixpoint exits_from (config : alpha_risk_config_t) (i : nat) (ps : list alpha_position_t)
  : list (nat * alpha_exit_kind_t) :=
  match ps with
  | [] => []
  | p :: ps =>
      (if exit_is_none (exit_kind config p) then [] else [(i, exit_kind config p)])
        ++ exits_from config (S i) ps
  end.

Lemma rule_exits_loop_spec ps cfg i out : rule_exits_loop ps cfg i out = out ++ exits_from cfg i ps.
Proof.
  revert i out. induction ps as [|p ps IH]; intros i out; cbn [rule_exits_loop exits_from].
  - now rewrite app_nil_r.
  - destruct (alpha_check_rule_based_exit p cfg (Some 0%float)) as [k o] eqn:E.
    assert (exit_kind cfg p = k) as -> by (unfold exit_kind; now rewrite E).
    rewrite IH. destruct (exit_is_none k); [reflexivity|]. now rewrite <- app_assoc.
Qed.

Lemma exits_from_spec cfg i ps j k : In (j, k) (exits_from cfg i ps) <->
  exists p, nth_error ps (j - i) = Some p /\ (i <= j)%nat /\ k = exit_kind cfg p /\ k <> ALPHA_EXIT_NONE.
Proof.
  revert i. induction ps as [|p ps IH]; intros i; cbn [exits_from].
  - split; [intros []|]. intros (p & H & _). destruct (j - i)%nat; discriminate.
  - rewrite in_app_iff, IH. split.
    + intros [H|(p' & H & L & R)].
      * destruct (exit_kind cfg p) eqn:K; cbn in H; [tauto| |]; destruct H as [H|[]]; injection H as <- <-;
          exists p; rewrite Nat.sub_diag, K; repeat split; auto; discriminate.
      * exists p'. replace (j - i)%nat with (S (j - S i)) by lia. split; [exact H|]. split; [lia|exact R].
    + intros (p' & H & L & -> & N). destruct (Nat.eq_dec j i) as [->|NE].
      * rewrite Nat.sub_diag in H. injection H as <-. left.
        destruct (exit_kind cfg p); [congruence| |]; now left.
      * right. exists p'. replace (j - i)%nat with (S (j - S i)) in H by lia.
        split; [exact H|]. split; [lia|auto].
Qed.

Lemma exits_from_sorted cfg i ps : StronglySorted Nat.lt (map fst (exits_from cfg i ps)) /\
  (List.length (exits_from cfg i ps) <= List.length ps)%nat.
Proof.
  revert i. induction ps as [|p ps IH]; intros i; cbn [exits_from List.length]; [split; [constructor|cbn; lia]|].
  destruct (IH (S i)) as [S L]. destruct (exit_is_none _); cbn [app map List.length fst]; [split; auto; lia|].
  split; [|lia]. constructor; [exact S|]. apply Forall_forall. intros j J.
  apply in_map_iff in J as ([j' k] & <- & I). apply exits_from_spec in I as (_ & _ & H & _).
  unfold Nat.lt. cbn. lia.
Qed.

(** ** Properties *)

(** C5: when the drawdown gate fires it selects the first two entries of the
    stable ascending sort of the eligible positions by profit (ties in input
    order), as the Python original does with [sort] and a slice; otherwise it
    selects nothing.  Profits are assumed not to be NaN. *)
Theorem drawdown_two_weakest ps ce be cfg o :
  Forall (in_dom not_nan) (candidates_from 0 ps) ->
  exists sorted, Permutation (candidates_from 0 ps) sorted /\
    StronglySorted (before PrimFloat.ltb) sorted /\
    fst (alpha_check_portfolio_drawdown ps ce be cfg o) =
      (if drawdown_triggered ce be cfg then map fst (firstn 2 sorted) else []) /\
    (forall i, In i (fst (alpha_check_portfolio_drawdown ps ce be cfg o)) ->
       exists p, nth_error ps i = Some p /\ eligible p = true).
Proof.
  intros D. exists (stable_sort PrimFloat.ltb (candidates_from 0 ps)).
  destruct (stable_sort_spec not_nan PrimFloat.ltb _ D (proj1 (candidates_sorted 0 ps))) as [S P].
  split; [exact P|]. split; [exact S|]. split; [apply drawdown_selection|].
  rewrite drawdown_selection. intros i. destruct (drawdown_triggered ce be cfg); [|intros []].
  intros I. apply in_map_iff in I as ([j q] & <- & I).
  assert (J : In (j, q) (candidates_from 0 ps)).
  { rewrite P. rewrite <- (firstn_skipn 2 (stable_sort _ _)). apply in_or_app. now left. }
  apply candidates_spec in J as (p & H & _ & E & _). rewrite Nat.sub_0_r in H. eauto.
Qed.

Definition sample_position (q : Z) (avg cur : float) : alpha_position_t :=
  {| pos_ticker := "005930"; pos_quantity := q; avg_fill_price := avg; current_price := cur |}.

Lemma drawdown_two_weakest_witness :
  let ps := [sample_position 1 100 90; sample_position 1 100 50; sample_position 1 100 90] in
  exists sorted, Permutation (candidates_from 0 ps) sorted /\
    StronglySorted (before PrimFloat.ltb) sorted /\
    fst (alpha_check_portfolio_drawdown ps 80 100 alpha_risk_config_default None) =
      (if drawdown_triggered 80 100 alpha_risk_config_default then map fst (firstn 2 sorted) else []) /\
    (forall i, In i (fst (alpha_check_portfolio_drawdown ps 80 100 alpha_risk_config_default None)) ->
       exists p, nth_error ps i = Some p /\ eligible p = true).
Proof.
  intros ps. apply (drawdown_two_weakest ps 80 100 alpha_risk_config_default None).
  repeat (apply Forall_cons; [vm_compute; reflexivity|]). apply Forall_nil.
Defined.

(** The drawdown gate stays quiet while equity has not fallen below its
    baseline, for every positive limit and finite equities, and reports a
    non-negative drawdown. *)
Theorem drawdown_quiet_without_loss ps ce be cfg o0 :
  is_fin ce = true -> is_fin be = true -> (0 < D2R be <= D2R ce)%R ->
  0 < portfolio_drawdown_limit_pct cfg <= INT32_MAX ->
  exists dd, alpha_check_portfolio_drawdown ps ce be cfg (Some o0) = ([], Some dd) /\
    (0 <=? dd)%float = true.
Proof.
  intros Fc Fb H HL. pose proof (rise_pct_leb ce be Fc Fb H) as R.
  set (dd := ((ce - be) / be * 100)%float) in *. exists dd. split; [|exact R].
  unfold alpha_check_portfolio_drawdown. fold dd.
  assert (C : (ce <=? 0)%float = false) by (apply leb_false_R; auto; rewrite D2R_0; lra).
  assert (B : (be <=? 0)%float = false) by (apply leb_false_R; auto; rewrite D2R_0; lra).
  rewrite C, B. cbn [orb].
  destruct (double_of_Z_exact (portfolio_drawdown_limit_pct cfg)) as [Fl El];
    [unfold INT32_MAX in HL; lia|]. fold (pct (portfolio_drawdown_limit_pct cfg)) in Fl, El.
  assert (T : (- pct (portfolio_drawdown_limit_pct cfg) <? dd)%float = true).
  { destruct (leb_nan _ _ R) as [_ N]. rewrite ltb_leb; [|apply fin_not_nan; now rewrite opp_fin|apply N].
    apply negb_true_iff, not_true_iff_false. intros L. pose proof (leb_trans _ _ _ R L) as T.
    apply leb_R in T; [|reflexivity|now rewrite opp_fin]. rewrite opp_R, El, D2R_0 in T.
    assert (0 < IZR (portfolio_drawdown_limit_pct cfg))%R by (apply (IZR_lt 0); lia). lra. }
  now rewrite T.
Qed.

Lemma drawdown_quiet_without_loss_witness :
  exists dd, alpha_check_portfolio_drawdown [sample_position 1 100 50] 120 100
      alpha_risk_config_default (Some 0%float) = ([], Some dd) /\ (0 <=? dd)%float = true.
Proof.
  apply (drawdown_quiet_without_loss [sample_position 1 100 50] 120 100 alpha_risk_config_default 0);
    [reflexivity|reflexivity|rewrite D2R_100; d2r 120%float; lra|cbn; unfold INT32_MAX; lia].
Defined.

(** The exit scan reports exactly the positions whose own check fires, with
    its kind, in input order and never more entries than positions. *)
Theorem rule_exits_complete ps cfg :
  (forall i k, In (i, k) (alpha_check_rule_based_exits ps cfg) <->
     exists p, nth_error ps i = Some p /\ k <> ALPHA_EXIT_NONE /\
       k = fst (alpha_check_rule_based_exit p cfg (Some 0%float))) /\
  StronglySorted Nat.lt (map fst (alpha_check_rule_based_exits ps cfg)) /\
  (List.length (alpha_check_rule_based_exits ps cfg) <= List.length ps)%nat.
Proof.
  unfold alpha_check_rule_based_exits. rewrite rule_exits_loop_spec. cbn [app].
  split; [|apply exits_from_sorted]. intros i k. rewrite exits_from_spec, Nat.sub_0_r. fold exit_kind.
  split; intros (p & H); exists p; unfold exit_kind in *; intuition lia.
Qed.

(** With positive thresholds a take-profit exit means the price is above the
    average fill and a stop-loss exit means it is below, for finite prices and
    despite the rounding of the percentage. *)
Theorem exit_direction p cfg o :
  is_fin (avg_fill_price p) = true -> is_fin (current_price p) = true ->
  0 < take_profit_pct cfg <= INT32_MAX -> 0 < individual_stop_loss_pct cfg <= INT32_MAX ->
  (fst (alpha_check_rule_based_exit p cfg o) = ALPHA_EXIT_TAKE_PROFIT ->
   0 < pos_quantity p /\ (0 < D2R (avg_fill_price p) < D2R (current_price p))%R) /\
  (fst (alpha_check_rule_based_exit p cfg o) = ALPHA_EXIT_STOP_LOSS ->
   0 < pos_quantity p /\ (0 < D2R (current_price p) < D2R (avg_fill_price p))%R).
Proof.
  intros Fa Fc HT HS. unfold alpha_check_rule_based_exit.
  set (a := avg_fill_price p) in *. set (c := current_price p) in *.
  destruct (double_of_Z_exact (take_profit_pct cfg)) as [Ft Et]; [unfold INT32_MAX in *; lia|].
  destruct (double_of_Z_exact (individual_stop_loss_pct cfg)) as [Fs Es]; [unfold INT32_MAX in *; lia|].
  fold (pct (take_profit_pct cfg)) in Ft, Et. fold (pct (individual_stop_loss_pct cfg)) in Fs, Es.
  assert (PT : (0 < IZR (take_profit_pct cfg))%R) by (apply (IZR_lt 0); lia).
  assert (PS : (0 < IZR (individual_stop_loss_pct cfg))%R) by (apply (IZR_lt 0); lia).
  destruct (pos_quantity p <=? 0) eqn:Q; zprop; [split; discriminate|].
  destruct ((a <=? 0)%float || (c <=? 0)%float) eqn:Z; [split; discriminate|].
  apply orb_false_iff in Z as [Za Zc]. apply leb_false_R in Za, Zc; auto. rewrite D2R_0 in *.
  set (pnl := ((c - a) / a * 100)%float) in *.
  destruct (pct (take_profit_pct cfg) <=? pnl)%float eqn:T.
  - split; [|discriminate]. intros _. split; [lia|]. split; [exact Za|].
    apply Rnot_le_lt. intros L. destruct (drop_pct_bounds c a Fc Fa ltac:(lra) Za) as [F B].
    fold pnl in F, B. apply leb_R in T; auto. lra.
  - destruct (pnl <=? _)%float eqn:S; [|split; discriminate].
    split; [discriminate|]. intros _. split; [lia|]. split; [exact Zc|].
    apply Rnot_le_lt. intros L. pose proof (rise_pct_leb c a Fc Fa ltac:(lra)) as R. fold pnl in R.
    pose proof (leb_trans _ _ _ R S) as C. apply leb_R in C; [|reflexivity|now rewrite opp_fin].
    rewrite opp_R, Es, D2R_0 in C. lra.
Qed.

Lemma exit_direction_witness :
  let p := sample_position 3 100 90 in
  (fst (alpha_check_rule_based_exit p alpha_risk_config_default None) = ALPHA_EXIT_TAKE_PROFIT ->
   0 < pos_quantity p /\ (0 < D2R (avg_fill_price p) < D2R (current_price p))%R) /\
  (fst (alpha_check_rule_based_exit p alpha_risk_config_default None) = ALPHA_EXIT_STOP_LOSS ->
   0 < pos_quantity p /\ (0 < D2R (current_price p) < D2R (avg_fill_price p))%R).
Proof.
  intros p. apply (exit_direction p alpha_risk_config_default None);
    try reflexivity; cbn; unfold INT32_MAX; lia.
Defined.

(** ** Sizing *)

(** The computed weight against the exact one. *)
Lemma buy_weight_near ex buy denom :
  is_fin ex = true -> is_fin buy = true -> is_fin denom = true ->
  (0 <= D2R ex <= bpow 400)%R -> (0 <= D2R buy <= bpow 400)%R -> (1 <= D2R denom)%R ->
  let computed := ((ex + buy) / denom * 100)%float in
  let weight := ((D2R ex + D2R buy) / D2R denom * 100)%R in
  is_fin computed = true /\
  (weight * (1 - 6 * uu) - 601 * eta <= D2R computed <= weight * (1 + 6 * uu) + 601 * eta)%R.
Proof.
  intros Fe Fb Fd He Hb Hd computed weight. pose proof uu_bounds. pose proof eta_bounds. pose proof uu_val.
  assert (400 < 490)%Z by lia. assert (B4 : (bpow 400 * 256 <= bpow 490)%R).
  { replace 256%R with (bpow 8) by (rewrite bpow_Zpos; reflexivity). rewrite <- bpow_add. apply bpow_le. lia. }
  assert (B5 : (bpow 490 <= bpow 500)%R) by (apply bpow_le; lia). pose proof (bpow_pos 400).
  assert (I1 : (0 < / D2R denom <= 1)%R).
  { split; [apply Rinv_0_lt_compat; lra|]. rewrite <- Rinv_1. apply Rinv_le_contravar; lra. }
  destruct (near_op _ _ _ _ _ (near_refl (D2R ex + D2R buy) ltac:(lra)) (add_rounds _ _ Fe Fb))
    as [F1 N1]; try lra.
  apply (near_weaken _ _ (2 * uu) eta) in N1; try lra.
  pose proof (near_scale _ _ 1 _ _ _ N1 (conj (Rlt_le _ _ (proj1 I1)) (proj2 I1)) ltac:(lra)) as S1.
  destruct (near_op _ _ _ _ _ S1 (div_rounds _ _ F1 Fd ltac:(lra))) as [F2 N2]; try lra; [nra|].
  apply (near_weaken _ _ (4 * uu) (3 * eta)) in N2; try lra.
  pose proof (near_scale _ _ 100 _ _ _ N2 (conj (ltac:(lra) : (0 <= 100)%R) (Rle_refl 100)) ltac:(lra)) as S2.
  pose proof (mul_rounds _ 100 F2 eq_refl) as R3. rewrite D2R_100 in R3.
  destruct (near_op _ _ _ _ _ S2 R3) as [F3 N3]; try lra; [nra|]. split; [exact F3|].
  apply near_le in N3. unfold weight, Rdiv, computed. lra.
Qed.

(** A NaN amount makes the weight a NaN. *)
Lemma nan_weight ex buy denom :
  isnan ex = true \/ isnan buy = true \/ isnan denom = true -> isnan ((ex + buy) / denom * 100) = true.
Proof.
  unfold isnan. rewrite mul_spec, div_spec, add_spec. intros N.
  assert (D : is_nan_sf (SFdiv prec emax (SFadd prec emax (Prim2SF ex) (Prim2SF buy)) (Prim2SF denom)) = true).
  { destruct N as [N|[N|N]].
    - destruct (Prim2SF ex); discriminate || reflexivity.
    - destruct (Prim2SF ex), (Prim2SF buy); discriminate || reflexivity.
    - destruct (Prim2SF denom); try discriminate. now destruct (SFadd _ _ _ _). }
  unfold SF64div, SF64add, SF64mul. destruct (SFdiv _ _ _ _); discriminate || reflexivity.
Qed.

(** C34: The position gate decides the exposure.  For finite amounts from 0 to 2^400, a
    finite denominator of at least one and a limit from 0 to 2^31 - 1 percent: an
    allowed buy keeps the exact weight of the resulting position at most a relative
    6 * 2^-52 and an absolute 601 * 2^-1074 above the limit, and a buy whose exact
    weight is below the limit by that margin is allowed.  For any amounts at all, a
    buy whose weight is not a number is refused, in particular when an amount or the
    denominator is a NaN. *)
Theorem allows_buy_bounds_exposure cfg ex buy denom o :
  is_fin ex = true -> is_fin buy = true -> is_fin denom = true ->
  (0 <= D2R ex <= bpow 400)%R -> (0 <= D2R buy <= bpow 400)%R -> (1 <= D2R denom)%R ->
  0 <= max_position_pct cfg <= INT32_MAX ->
  let weight := ((D2R ex + D2R buy) / D2R denom * 100)%R in
  let limit := IZR (max_position_pct cfg) in
  (fst (alpha_max_position_allows_buy cfg ex buy denom o) = true ->
   (weight * (1 - 6 * uu) <= limit + 601 * eta)%R) /\
  ((weight * (1 + 6 * uu) + 601 * eta <= limit)%R ->
   fst (alpha_max_position_allows_buy cfg ex buy denom o) = true) /\
  (forall ex' buy' denom',
     isnan ((ex' + buy') / denom' * 100) = true \/ isnan ex' = true \/ isnan buy' = true \/ isnan denom' = true ->
     fst (alpha_max_position_allows_buy cfg ex' buy' denom' o) = false).
Proof.
  intros Fe Fb Fd He Hb Hd HM weight limit.
  destruct (buy_weight_near ex buy denom Fe Fb Fd He Hb Hd) as [F N]. cbv zeta in N.
  destruct (double_of_Z_exact (max_position_pct cfg)) as [Fm Em]; [unfold INT32_MAX in *; lia|].
  unfold alpha_max_position_allows_buy, pct. cbn [fst]. split; [|split].
  - intros A. apply leb_R in A; auto. rewrite Em in A. unfold weight, limit. lra.
  - intros L. apply leb_R; auto. rewrite Em. fold limit. fold weight in N. lra.
  - intros ex' buy' denom' Nn. apply not_true_iff_false. intros A. apply leb_nan in A as [A _].
    destruct Nn as [Nn|Nn]; [|apply nan_weight in Nn]; congruence.
Qed.

(** A buy of 5 on a position of 5 out of 100 is allowed against 20 percent and within
    it; buying 100 on 100 is refused, as the bound demands. *)
Lemma allows_buy_bounds_exposure_witness :
  (fst (alpha_max_position_allows_buy alpha_risk_config_default 5 5 100 None) = true /\
   ((D2R 5 + D2R 5) / D2R 100 * 100 * (1 - 6 * uu) <= IZR 20 + 601 * eta)%R) /\
  fst (alpha_max_position_allows_buy alpha_risk_config_default 100 100 100 None) = false /\
  fst (alpha_max_position_allows_buy alpha_risk_config_default 100 nan 100 None) = false.
Proof.
  assert (H : (100 <= bpow 400)%R).
  { apply Rle_trans with (bpow 7); [rewrite bpow_Zpos; apply IZR_le; cbn; lia|apply bpow_le; lia]. }
  assert (D5 : (0 <= D2R 5 <= 100)%R).
  { rewrite <- D2R_0 at 1. rewrite <- D2R_100. split; apply leb_R; vm_compute; reflexivity. }
  pose proof D2R_100 as D100. pose proof uu_bounds. pose proof eta_bounds.
  assert (M : 0 <= max_position_pct alpha_risk_config_default <= INT32_MAX) by (cbn; unfold INT32_MAX; lia).
  destruct (allows_buy_bounds_exposure alpha_risk_config_default 5 5 100 None) as (A & _ & _); try reflexivity;
    try exact M; try lra.
  destruct (allows_buy_bounds_exposure alpha_risk_config_default 100 100 100 None) as (B & _ & C); try reflexivity;
    try exact M; try lra.
  split; [split; [reflexivity|exact (A eq_refl)]|]. split.
  - apply not_true_iff_false. intros T. specialize (B T). rewrite D100 in B.
    change (IZR (max_position_pct alpha_risk_config_default)) with 20%R in B. lra.
  - apply C. right. right. left. reflexivity.
Defined.

(** The sizing denominator is the maximum it claims to be: in paper mode the
    largest of total value, seed capital and one, otherwise the larger of one
    and total plus intended buy; either way at least one. *)
Theorem denominator_is_max paper total seed buy :
  isnan total = false -> isnan seed = false ->
  let d := alpha_max_position_denominator paper total seed buy in
  (1 <=? d)%float = true /\
  (if paper then (total <=? d)%float = true /\ (seed <=? d)%float = true /\
                 (d = total \/ d = seed \/ d = 1%float)
   else (d = (total + buy)%float \/ d = 1%float) /\
        (isnan (total + buy)%float = false -> (total + buy <=? d)%float = true)).
Proof.
  intros Nt Ns d. assert (N1 : isnan 1 = false) by reflexivity.
  unfold alpha_max_position_denominator in d. destruct paper; subst d; cbv zeta.
  - set (x := if (total <? seed)%float then seed else total).
    assert (X : isnan x = false /\ (total <=? x)%float = true /\ (seed <=? x)%float = true /\ (x = total \/ x = seed)).
    { unfold x. destruct (total <? seed)%float eqn:C; rewrite ltb_leb in C by auto.
      - apply negb_true_iff in C. destruct (leb_total total seed Nt Ns); [|congruence].
        rewrite leb_refl by auto. auto.
      - apply negb_false_iff in C. rewrite leb_refl by auto. auto. }
    destruct X as (Nx & Tx & Sx & Cx). destruct (x <? 1)%float eqn:C; rewrite ltb_leb in C by auto.
    + apply negb_true_iff in C. destruct (leb_total x 1 Nx N1) as [L|L]; [|congruence].
      rewrite (leb_trans _ _ _ Tx L), (leb_trans _ _ _ Sx L). split; [reflexivity|]. auto 6.
    + apply negb_false_iff in C. rewrite C, Tx, Sx. intuition auto.
  - destruct (1 <? total + buy)%float eqn:C.
    + pose proof (ltb_nan _ _ C) as [_ N]. rewrite ltb_leb in C by auto. apply negb_true_iff in C.
      destruct (leb_total 1 (total + buy)%float N1 N) as [L|L]; [|congruence].
      rewrite L. split; [reflexivity|]. split; [auto|]. intros _. now apply leb_refl.
    + split; [reflexivity|]. split; [auto|]. intros N. rewrite ltb_leb in C by auto.
      now apply negb_false_iff in C.
Qed.

Lemma denominator_is_max_witness :
  let d := alpha_max_position_denominator true 5 100 7 in
  (1 <=? d)%float = true /\
  ((5 <=? d)%float = true /\ (100 <=? d)%float = true /\ (d = 5%float \/ d = 100%float \/ d = 1%float)).
Proof. apply (denominator_is_max true 5 100 7); reflexivity. Defined.
