(* ===== verification/Screener.v ===== *)
(** * Daily screener

    Models [core/src/indicators/screener.c] and [screener.h]: the score of one
    ticker's bars and the repeated-maximum selection, compared with a stable
    descending sort. *)

From Stdlib Require Import ZArith Lia Bool List Reals Lra Floats Sorted Permutation.
From S2P Require Import Prelude Domain Double StableSort.
Import ListNotations.
Set Warnings "-inexact-float".
Open Scope Z_scope.

Definition ALPHA_SCREENER_MIN_DATA_DAYS : nat := 5.

Record alpha_screener_bar_t := { volume : float; change_pct : float; has_change_pct : bool }.

Record alpha_screener_score_t := { passes : bool; score : float }.

Definition alpha_screener_score (bars : list alpha_screener_bar_t) (vol_threshold pct_threshold : float)
  : alpha_screener_score_t :=
  if (List.length bars <? ALPHA_SCREENER_MIN_DATA_DAYS)%nat then {| passes := false; score := 0 |}
  else
    match bars with
    | [] => {| passes := false; score := 0 |}
    | today :: past =>
        let today_volume := volume today in
        let change_pct := if has_change_pct today then abs (change_pct today) else 0%float in
        let past_sum := fold_left (fun sum b => (sum + volume b)%float) past 0%float in
        let past_count := List.length past in
        let avg_volume :=
          if (0 <? past_count)%nat then (past_sum / double_of_Z (Z.of_nat past_count))%float
          else 0%float in
        let volume_ratio :=
          if (0 <? avg_volume)%float then (today_volume / avg_volume)%float else 0%float in
        {| passes := (vol_threshold <=? volume_ratio)%float || (pct_threshold <=? change_pct)%float;
           score := (volume_ratio / vol_threshold + change_pct / pct_threshold)%float |}
    end.

(** [candidates[i]] *)
Definition candidate (candidates : list alpha_screener_score_t) (i : nat) : alpha_screener_score_t :=
  nth i candidates {| passes := false; score := 0 |}.

(** The inner loop from index [i]; [best] is -1 before a candidate is found. *)
Fixpoint scan_best (candidates rest : list alpha_screener_score_t) (i : nat) (out_indices : list nat)
    (best : Z) : Z :=
  match rest with
  | [] => best
  | c :: rest =>
      let best :=
        if negb (passes c) then best
        else if existsb (Nat.eqb i) out_indices then best
        else if (best <? 0) || (score (candidate candidates (Z.to_nat best)) <? score c)%float
        then Z.of_nat i else best in
      scan_best candidates rest (S i) out_indices best
  end.

(** The outer loop; each iteration writes one index, so [cap] bounds them. *)
Fixpoint select_loop (remaining : nat) (candidates : list alpha_screener_score_t)
    (out_indices : list nat) : list nat :=
  match remaining with
  | O => out_indices
  | S remaining =>
      let best := scan_best candidates candidates 0 out_indices (-1) in
      if best <? 0 then out_indices
      else select_loop remaining candidates (out_indices ++ [Z.to_nat best])
  end.

Definition alpha_screener_select (candidates : list alpha_screener_score_t) (cap : nat) : list nat :=
  select_loop cap candidates [].

(** ** Specification *)

(** The passing candidates with their indices from [i]. *)
Fixpoint passing_from (i : nat) (l : list alpha_screener_score_t) : list (nat * float) :=
  match l with
  | [] => []
  | c :: l => if passes c then (i, score c) :: passing_from (S i) l else passing_from (S i) l
  end.

(** ** Lemmas *)

Lemma passing_spec i l j s : In (j, s) (passing_from i l) <->
  exists c, nth_error l (j - i) = Some c /\ (i <= j)%nat /\ passes c = true /\ s = score c.
Proof.
  revert i. induction l as [|c l IH]; intros i; cbn [passing_from].
  - split; [intros []|]. intros (c & H & _). destruct (j - i)%nat; discriminate.
  - assert (T : (exists d, nth_error (c :: l) (j - i) = Some d /\ (i <= j)%nat /\ passes d = true /\ s = score d)
      <-> (j = i /\ passes c = true /\ s = score c) \/ In (j, s) (passing_from (S i) l)).
    { rewrite IH. split.
      - intros (d & H & L & R). destruct (Nat.eq_dec j i) as [->|N].
        + rewrite Nat.sub_diag in H. injection H as <-. auto.
        + right. exists d. replace (j - i)%nat with (S (j - S i)) in H by lia. split; [exact H|]. split; [lia|exact R].
      - intros [(-> & R)|(d & H & L & R)].
        + exists c. rewrite Nat.sub_diag. split; [reflexivity|]. split; [lia|exact R].
        + exists d. replace (j - i)%nat with (S (j - S i)) by lia. split; [exact H|]. split; [lia|exact R]. }
    rewrite T. destruct (passes c); cbn [In]; [|intuition discriminate].
    split; [intros [H|H]; [injection H as <- <-|]; auto|intros [(-> & _ & ->)|H]; auto].
Qed.

Lemma passing_sorted i l : StronglySorted Nat.lt (map fst (passing_from i l)).
Proof.
  revert i. induction l as [|c l IH]; intros i; cbn [passing_from]; [constructor|].
  destruct (passes c); [|apply IH]. cbn [map fst]. constructor; [apply IH|].
  apply Forall_forall. intros j J. apply in_map_iff in J as ([j' s] & <- & I).
  apply passing_spec in I as (_ & _ & L & _). unfold Nat.lt. cbn. lia.
Qed.

Section Selection.
Variable candidates : list alpha_screener_score_t.
Let P := passing_from 0 candidates.
Hypothesis NN : Forall (in_dom not_nan) P.

Abbreviation bef := (before float_gtb).

(** What [best] stands for after the first [n] candidates. *)
Definition best_inv (n : nat) (out : list nat) (best : Z) : Prop :=
  (best = -1 /\ forall x, In x P -> (fst x < n)%nat -> In (fst x) out) \/
  (exists x, In x P /\ best = Z.of_nat (fst x) /\ (fst x < n)%nat /\ ~ In (fst x) out /\
     forall y, In y P -> (fst y < n)%nat -> ~ In (fst y) out -> y = x \/ bef x y).

Lemma in_P x : In x P <-> passes (candidate candidates (fst x)) = true /\
  snd x = score (candidate candidates (fst x)) /\ (fst x < List.length candidates)%nat.
Proof.
  destruct x as [j s]. unfold P. rewrite passing_spec, Nat.sub_0_r. cbn [fst snd]. unfold candidate. split.
  - intros (c & H & _ & E & ->). rewrite (nth_error_nth _ _ _ H).
    repeat split; auto. apply nth_error_Some. congruence.
  - intros (E & -> & L). exists (nth j candidates {| passes := false; score := 0 |}).
    split; [now apply nth_error_nth'|]. split; [lia|]. auto.
Qed.

Lemma dom_P x : In x P -> not_nan (snd x).
Proof. intros H. rewrite Forall_forall in NN. apply (NN x H). Qed.

Lemma existsb_In i out : existsb (Nat.eqb i) out = true <-> In i out.
Proof.
  rewrite existsb_exists. split; [intros (x & H & E); apply Nat.eqb_eq in E; now subst|].
  intros H. exists i. split; [exact H|apply Nat.eqb_refl].
Qed.

Lemma P_index_unique x y : In x P -> In y P -> fst x = fst y -> x = y.
Proof.
  intros X Y E. apply in_P in X as (_ & X & _), Y as (_ & Y & _). destruct x, y. cbn in *. congruence.
Qed.

(** One iteration of the inner loop. *)
Lemma scan_step n out best : (n < List.length candidates)%nat -> best_inv n out best ->
  let c := candidate candidates n in
  best_inv (S n) out
    (if negb (passes c) then best
     else if existsb (Nat.eqb n) out then best
     else if (best <? 0) || (score (candidate candidates (Z.to_nat best)) <? score c)%float
     then Z.of_nat n else best).
Proof.
  intros L I c.
  assert (OLD : (passes c = false \/ In n out) -> best_inv (S n) out best).
  { intros H. assert (K : forall y, In y P -> (fst y < S n)%nat -> ~ In (fst y) out -> (fst y < n)%nat).
    { intros y Y Ly Ny. destruct (Nat.eq_dec (fst y) n) as [E|]; [exfalso|lia].
      apply in_P in Y as (Y & _). rewrite E in *. fold c in Y. destruct H; [congruence|contradiction]. }
    destruct I as [[-> A]|(x & X & E & Lx & Nx & A)]; [left|right].
    - split; [reflexivity|]. intros y Y Ly. destruct (in_dec Nat.eq_dec (fst y) out) as [|N]; auto.
    - exists x. repeat split; auto; lia. }
  destruct (passes c) eqn:Pc; cbn [negb]; [|now apply OLD; left].
  destruct (existsb (Nat.eqb n) out) eqn:X; [apply existsb_In in X; now apply OLD; right|].
  assert (Nn : ~ In n out) by (rewrite <- existsb_In; congruence).
  set (xn := (n, score c)). assert (Xn : In xn P) by (apply in_P; cbn; auto).
  assert (SPLIT : forall y, In y P -> (fst y < S n)%nat -> y = xn \/ (fst y < n)%nat).
  { intros y Y Ly. destruct (Nat.eq_dec (fst y) n) as [E|]; [left|right; lia].
    now apply P_index_unique. }
  destruct I as [[-> A]|(x & Xx & E & Lx & Nx & A)].
  - cbn [Z.ltb Z.compare orb]. right. exists xn. repeat split; auto; cbn; try lia.
    intros y Y Ly Ny. destruct (SPLIT y Y Ly) as [|Lt]; auto. exfalso. auto.
  - subst best. rewrite of_nat_ltb_0, Nat2Z.id. cbn [orb].
    pose proof Xx as Xx'. apply in_P in Xx' as (_ & Sx & _). rewrite <- Sx.
    destruct (snd x <? score c)%float eqn:C; right.
    + exists xn. repeat split; auto; cbn; try lia.
      assert (B : bef xn x) by (left; exact C).
      intros y Y Ly Ny. destruct (SPLIT y Y Ly) as [|Lt]; auto. right.
      destruct (A y Y Lt Ny) as [->|By]; [exact B|].
      apply (before_trans not_nan float_gtb) with x; auto; apply dom_P; auto.
    + exists x. repeat split; auto; try lia.
      intros y Y Ly Ny. destruct (SPLIT y Y Ly) as [->|Lt]; auto. right. right. split; [exact C|exact Lx].
Qed.

Lemma scan_best_inv rest n out best : skipn n candidates = rest ->
  best_inv n out best -> best_inv (List.length candidates) out (scan_best candidates rest n out best).
Proof.
  revert n best. induction rest as [|c rest IH]; intros n best E I; cbn [scan_best].
  - assert (List.length candidates <= n)%nat.
    { rewrite <- (firstn_skipn n candidates), E, app_nil_r, length_firstn. lia. }
    destruct I as [[-> A]|(x & X & -> & Lx & Nx & A)]; [left|right].
    + split; [reflexivity|]. intros y Y Ly. apply A; auto; lia.
    + exists x. pose proof X as X'. apply in_P in X' as (_ & _ & L). repeat split; auto.
      intros y Y Ly. apply A; auto; lia.
  - assert (L : (n < List.length candidates)%nat).
    { destruct (Nat.lt_ge_cases n (List.length candidates)) as [|G]; [assumption|].
      rewrite skipn_all2 in E by lia. discriminate. }
    assert (Ec : candidate candidates n = c).
    { unfold candidate. rewrite <- (firstn_skipn n candidates), E, app_nth2; rewrite length_firstn;
        replace (Nat.min n (List.length candidates)) with n by lia; [now rewrite Nat.sub_diag|lia]. }
    apply IH.
    + change (S n) with (1 + n)%nat. rewrite <- skipn_skipn, E. reflexivity.
    + rewrite <- Ec. now apply scan_step.
Qed.

Lemma scan_best_spec out : best_inv (List.length candidates) out
  (scan_best candidates candidates 0 out (-1)).
Proof. apply scan_best_inv; [reflexivity|]. left. split; [reflexivity|]. intros; lia. Qed.

Lemma sorted_after {A} (R : A -> A -> Prop) l x rest y :
  StronglySorted R (l ++ x :: rest) -> In y rest -> R x y.
Proof.
  intros HS Y. induction l as [|z l IH]; cbn [app] in HS; apply StronglySorted_inv in HS as [HS F]; auto.
  rewrite Forall_forall in F. auto.
Qed.

Lemma firstn_next {A} (l : list A) k x rest : skipn k l = x :: rest ->
  firstn (S k) l = firstn k l ++ [x] /\ (k < List.length l)%nat.
Proof.
  revert l. induction k as [|k IH]; intros [|y l] E; try discriminate.
  - cbn in E. injection E as -> ->. split; [reflexivity|cbn; lia].
  - destruct (IH l E) as [E' L]. split; [|cbn; lia]. cbn [firstn app]. f_equal. exact E'.
Qed.

Lemma P_nodup : NoDup P.
Proof.
  apply (NoDup_map_inv fst). pose proof (passing_sorted 0 candidates) as S. fold P in S.
  induction S as [|i l S IH F]; constructor; auto.
  intros I. rewrite Forall_forall in F. specialize (F _ I). unfold Nat.lt in F. lia.
Qed.

(** The selection is the sorted list, one element at a time. *)
Lemma select_loop_spec sorted : Permutation P sorted -> StronglySorted bef sorted ->
  forall remaining k, (k <= List.length sorted)%nat ->
  select_loop remaining candidates (map fst (firstn k sorted)) = map fst (firstn (k + remaining) sorted).
Proof.
  intros HP HS. induction remaining as [|r IH]; intros k Hk; cbn [select_loop].
  - now rewrite Nat.add_0_r.
  - set (out := map fst (firstn k sorted)).
    assert (OUT : forall x, In x P -> In x (firstn k sorted) <-> In (fst x) out).
    { intros x X. unfold out. rewrite in_map_iff. split; [eauto|]. intros (y & E & Y).
      rewrite (P_index_unique x y); auto. rewrite HP, <- (firstn_skipn k sorted). apply in_or_app. now left. }
    destruct (skipn k sorted) as [|x rest] eqn:SK.
    + pose proof (scan_best_spec out) as [[-> _]|(y & Y & _ & _ & N & _)].
      * cbn [Z.ltb Z.compare]. unfold out. rewrite <- (firstn_skipn k sorted) at 2.
        rewrite SK, app_nil_r, firstn_firstn. f_equal. f_equal. lia.
      * exfalso. apply N. rewrite <- (OUT y Y). rewrite HP, <- (firstn_skipn k sorted), SK, app_nil_r in Y.
        exact Y.
    + assert (X : In x P) by (rewrite HP, <- (firstn_skipn k sorted), SK; apply in_or_app; right; now left).
      pose proof (Permutation_NoDup HP P_nodup) as ND.
      rewrite <- (firstn_skipn k sorted), SK in ND, HS.
      assert (Nx : ~ In (fst x) out).
      { rewrite <- (OUT x X). intros I. apply (NoDup_remove_2 _ _ _ ND), in_or_app. now left. }
      assert (HEAD : forall y, In y P -> ~ In (fst y) out -> y = x \/ bef x y).
      { intros y Y Ny. rewrite <- (OUT y Y) in Ny. rewrite HP, <- (firstn_skipn k sorted), SK in Y.
        apply in_app_or in Y as [Y|[<-|Y]]; [contradiction|now left|right].
        now apply (sorted_after _ _ _ _ _ HS). }
      pose proof (scan_best_spec out) as [[_ A]|(y & Y & -> & _ & Ny & A)].
      * exfalso. apply Nx, (A x X). now apply in_P in X.
      * assert (y = x) as ->.
        { destruct (HEAD y Y Ny) as [|B1]; auto.
          destruct (A x X) as [->|B2]; auto; [now apply in_P in X|].
          exfalso. apply (before_asym not_nan float_gtb x y); auto; now apply dom_P. }
        rewrite of_nat_ltb_0, Nat2Z.id.
        destruct (firstn_next _ _ _ _ SK) as [E L].
        assert (E' : out ++ [fst x] = map fst (firstn (S k) sorted)) by (now rewrite E, map_app).
        rewrite E', IH; [f_equal; f_equal; lia|lia].
Qed.
End Selection.

(** ** Scores *)

Definition bar_ok (b : alpha_screener_bar_t) : Prop :=
  is_fin (volume b) = true /\ (0 <= D2R (volume b))%R /\ is_fin (change_pct b) = true.

Definition threshold_ok (t : float) : Prop := is_fin t = true /\ (0 <? t)%float = true.

Lemma sum_nonneg bars s : Forall bar_ok bars -> nonneg s ->
  nonneg (fold_left (fun sum b => (sum + volume b)%float) bars s).
Proof.
  revert s. induction bars as [|b bars IH]; intros s F N; cbn [fold_left]; [exact N|].
  inv F. apply IH; [assumption|].
  assert (V : nonneg (volume b)) by (apply nonneg_cases; left; split; apply H1).
  apply leb_trans with s; [exact N|]. now apply add_nonneg_ge.
Qed.

Lemma screener_score_parts bars vt pt : Forall bar_ok bars -> threshold_ok vt -> threshold_ok pt ->
  passes (alpha_screener_score bars vt pt) = true -> (1 <=? score (alpha_screener_score bars vt pt))%float = true.
Proof.
  intros F [Fv Pv] [Fp Pp]. unfold alpha_screener_score.
  destruct (_ <? _)%nat; [discriminate|]. destruct bars as [|today past]; [discriminate|]. inv F.
  destruct H1 as (F0 & P0 & C0). set (avg := if (0 <? List.length past)%nat then _ else _).
  set (ratio := if (0 <? avg)%float then _ else _). set (chg := if has_change_pct today then _ else _).
  cbn [passes score].
  assert (R : nonneg ratio).
  { unfold ratio. destruct (0 <? avg)%float eqn:A; [|reflexivity].
    apply div_nonneg; [apply nonneg_cases; auto|exact A|now left]. }
  assert (C : nonneg chg).
  { unfold chg. destruct (has_change_pct today); [|reflexivity]. apply nonneg_cases. left.
    rewrite abs_fin, abs_R. split; [exact C0|apply Rabs_pos]. }
  assert (R' : nonneg (ratio / vt)%float) by (apply div_nonneg; auto).
  assert (C' : nonneg (chg / pt)%float) by (apply div_nonneg; auto).
  destruct (add_nonneg_ge _ _ R' C') as [G1 G2]. intros H. apply orb_prop in H as [H|H].
  - apply leb_trans with (2 := G1). now apply div_ge_one.
  - apply leb_trans with (2 := G2). now apply div_ge_one.
Qed.

(** ** Properties *)

(** C6: the repeated-maximum selection is the first [cap] entries of the stable
    descending sort of the passing candidates by score (ties in input order),
    as the Python original sorts and slices.  Scores of passing candidates are
    assumed not to be NaN. *)
Theorem screener_select_top candidates cap :
  Forall (in_dom not_nan) (passing_from 0 candidates) ->
  exists sorted, Permutation (passing_from 0 candidates) sorted /\
    StronglySorted (before float_gtb) sorted /\
    alpha_screener_select candidates cap = map fst (firstn cap sorted).
Proof.
  intros NN. exists (stable_sort float_gtb (passing_from 0 candidates)).
  destruct (stable_sort_spec not_nan float_gtb _ NN (passing_sorted 0 candidates)) as [S P].
  split; [exact P|]. split; [exact S|].
  apply (select_loop_spec candidates NN _ P S cap 0). lia.
Qed.

Lemma screener_select_top_witness :
  let cs := [{| passes := true; score := 1 |}; {| passes := false; score := 9 |};
             {| passes := true; score := 4 |}; {| passes := true; score := 1 |}] in
  exists sorted, Permutation (passing_from 0 cs) sorted /\
    StronglySorted (before float_gtb) sorted /\
    alpha_screener_select cs 2 = map fst (firstn 2 sorted).
Proof.
  intros cs. apply (screener_select_top cs 2).
  repeat (apply Forall_cons; [vm_compute; reflexivity|]). apply Forall_nil.
Defined.

(** With positive thresholds and finite bars every passing score is at least
    one (so never NaN), even when a volume ratio overflows; together with the
    ordering of the selection this ranks passing tickers only. *)
Theorem screener_passing_score bars vt pt :
  Forall bar_ok bars -> threshold_ok vt -> threshold_ok pt ->
  passes (alpha_screener_score bars vt pt) = true ->
  (1 <=? score (alpha_screener_score bars vt pt))%float = true /\
  isnan (score (alpha_screener_score bars vt pt)) = false /\
  (ALPHA_SCREENER_MIN_DATA_DAYS <= List.length bars)%nat.
Proof.
  intros F V P H. pose proof (screener_score_parts bars vt pt F V P H) as S.
  split; [exact S|]. split; [now apply leb_nan in S|].
  unfold alpha_screener_score in H. destruct (Nat.ltb_spec (List.length bars) ALPHA_SCREENER_MIN_DATA_DAYS);
    [discriminate|assumption].
Qed.

Lemma screener_passing_score_witness :
  let b v := {| volume := v; change_pct := 0; has_change_pct := false |} in
  let s := alpha_screener_score [b 100%float; b 1%float; b 1%float; b 1%float; b 1%float]
             ALPHA_SCREENER_VOLUME_SURGE_RATIO ALPHA_SCREENER_CHANGE_PCT_THRESHOLD in
  (1 <=? score s)%float = true /\ isnan (score s) = false /\ (ALPHA_SCREENER_MIN_DATA_DAYS <= 5)%nat.
Proof.
  intros b s.
  apply (screener_passing_score [b 100%float; b 1%float; b 1%float; b 1%float; b 1%float]
    ALPHA_SCREENER_VOLUME_SURGE_RATIO ALPHA_SCREENER_CHANGE_PCT_THRESHOLD).
  - assert (O : bar_ok (b 1%float)) by (split; [reflexivity|]; split; [cbn [volume b]; rewrite D2R_1; lra|reflexivity]).
    assert (H : bar_ok (b 100%float)) by (split; [reflexivity|]; split; [cbn [volume b]; rewrite D2R_100; lra|reflexivity]).
    repeat (apply Forall_cons; [assumption|]). apply Forall_nil.
  - split; reflexivity.
  - split; reflexivity.
  - vm_compute. reflexivity.
Defined.
