(* ===== verification/Blending.v ===== *)
(** * Signal blending

    Models [core/src/portfolio/blending.c] and [blending.h]: the N-way weighted
    blend of strategy signals and its two-way wrapper. *)

From Stdlib Require Import ZArith Lia Bool List Reals Lra Floats.
From S2P Require Import Prelude Domain Double Round.
Import ListNotations.
Set Warnings "-inexact-float".
Open Scope Z_scope.

Definition ALPHA_BLEND_THRESHOLD : float := 0.15.

Record alpha_blend_input_t := {
  in_signal : alpha_signal_t;
  in_confidence : float;
  in_weight : float
}.

Record alpha_blend_result_t := {
  out_signal : alpha_signal_t;
  out_confidence : float;
  weighted_score : float;
  conflict : bool
}.

Definition clamp01 (value : float) : float :=
  if (value <? 0)%float then 0%float else if (1 <? value)%float then 1%float else value.

Definition signal_score (signal : alpha_signal_t) : float :=
  match signal with
  | ALPHA_SIGNAL_BUY => 1%float
  | ALPHA_SIGNAL_SELL => (-1)%float
  | _ => 0%float
  end.

Definition raw_weight (i : alpha_blend_input_t) : float :=
  if (0 <? in_weight i)%float then in_weight i else 0%float.

(** Pass 1. *)
Definition total_weight (inputs : list alpha_blend_input_t) : float :=
  fold_left (fun total i => (total + raw_weight i)%float) inputs 0%float.

(** The locals of pass 2. *)
Record blend_acc := {
  acc_score : float;
  acc_confidence : float;
  has_buy : bool;
  has_sell : bool
}.

Definition blend_step (total norm_factor equal_weight : float) (a : blend_acc) (i : alpha_blend_input_t)
  : blend_acc :=
  let signal := in_signal i in
  let confidence := clamp01 (in_confidence i) in
  let weight := if (0 <? total)%float then (raw_weight i / norm_factor)%float else equal_weight in
  {| acc_score := (acc_score a + signal_score signal * weight * confidence)%float;
     acc_confidence := (acc_confidence a + confidence * weight)%float;
     has_buy := has_buy a || signal_eqb signal ALPHA_SIGNAL_BUY;
     has_sell := has_sell a || signal_eqb signal ALPHA_SIGNAL_SELL |}.

Definition decide_signal (score : float) : alpha_signal_t :=
  if (ALPHA_BLEND_THRESHOLD <? score)%float then ALPHA_SIGNAL_BUY
  else if (score <? - ALPHA_BLEND_THRESHOLD)%float then ALPHA_SIGNAL_SELL
  else ALPHA_SIGNAL_HOLD.

Definition blend_empty : alpha_blend_result_t :=
  {| out_signal := ALPHA_SIGNAL_HOLD; out_confidence := 0; weighted_score := 0; conflict := false |}.

Definition blend_init : blend_acc :=
  {| acc_score := 0; acc_confidence := 0; has_buy := false; has_sell := false |}.

(** [inputs] is [None] when the pointer is NULL; [count] is the list's length. *)
Definition alpha_blend_signals (inputs : option (list alpha_blend_input_t)) : alpha_blend_result_t :=
  match inputs with
  | None | Some [] => blend_empty
  | Some inputs =>
      let total := total_weight inputs in
      let norm_factor := if (0 <? total)%float then total else 1%float in
      let equal_weight :=
        if (total <=? 0)%float then (1 / double_of_Z (Z.of_nat (List.length inputs)))%float
        else 0%float in
      let a := fold_left (blend_step total norm_factor equal_weight) inputs blend_init in
      {| out_signal := decide_signal (acc_score a);
         out_confidence := alpha_round_dp (clamp01 (acc_confidence a)) 4;
         weighted_score := alpha_round_dp (acc_score a) 6;
         conflict := has_buy a && has_sell a |}
  end.

Definition alpha_blend_ab (has_a : bool) (a_signal : alpha_signal_t) (a_confidence : float)
    (has_b : bool) (b_signal : alpha_signal_t) (b_confidence : float) (blend_ratio : float)
  : alpha_blend_result_t :=
  let ratio := clamp01 blend_ratio in
  let a := if has_a then [{| in_signal := a_signal; in_confidence := a_confidence;
                             in_weight := (1 - ratio)%float |}] else [] in
  let b := if has_b then [{| in_signal := b_signal; in_confidence := b_confidence;
                             in_weight := ratio |}] else [] in
  alpha_blend_signals (Some (a ++ b)).

(** ** Lemmas *)

Lemma clamp01_range v : isnan v = false ->
  is_fin (clamp01 v) = true /\ (0 <= D2R (clamp01 v) <= 1)%R.
Proof.
  intros N. unfold clamp01. rewrite !ltb_leb by auto.
  destruct (0 <=? v)%float eqn:L; cbn [negb]; [|split; [reflexivity|rewrite D2R_0; lra]].
  destruct (v <=? 1)%float eqn:U; cbn [negb]; [|split; [reflexivity|rewrite D2R_1; lra]].
  apply nonneg_cases in L as [[F P]| ->]; [|discriminate].
  split; [exact F|]. apply leb_R in U; auto. rewrite D2R_1 in U. lra.
Qed.

Lemma clamp01_id v : is_fin v = true -> (0 <= D2R v <= 1)%R -> clamp01 v = v.
Proof.
  intros F B. unfold clamp01.
  assert (L : (v <? 0)%float = false) by (apply ltb_false_R; auto; rewrite D2R_0; lra).
  assert (U : (1 <? v)%float = false) by (apply ltb_false_R; auto; rewrite D2R_1; lra).
  now rewrite L, U.
Qed.

(** A usable input: its confidence is a number and its weight is finite. *)
Definition input_ok (i : alpha_blend_input_t) : Prop :=
  isnan (in_confidence i) = false /\ is_fin (in_weight i) = true.

Lemma raw_weight_ok i : input_ok i -> is_fin (raw_weight i) = true /\ (0 <= D2R (raw_weight i))%R.
Proof.
  intros [_ F]. unfold raw_weight. destruct (0 <? in_weight i)%float eqn:W.
  - apply ltb_R in W; auto. rewrite D2R_0 in W. split; [exact F|lra].
  - split; [reflexivity|rewrite D2R_0; lra].
Qed.

Lemma raw_weight_nonneg i : input_ok i -> nonneg (raw_weight i).
Proof. intros H. apply nonneg_cases. left. now apply raw_weight_ok. Qed.

(** Every weight is at most the rounded total. *)
Lemma total_weight_ge inputs s : Forall input_ok inputs -> nonneg s ->
  let t := fold_left (fun total i => (total + raw_weight i)%float) inputs s in
  (s <=? t)%float = true /\ forall i, In i inputs -> (raw_weight i <=? t)%float = true.
Proof.
  revert s. induction inputs as [|x l IH]; intros s F N; cbn [fold_left].
  - split; [apply leb_refl, nonneg_not_nan, N|intros i []].
  - inv F. destruct (add_nonneg_ge s (raw_weight x) N (raw_weight_nonneg x H1)) as [G1 G2].
    assert (N' : nonneg (s + raw_weight x)%float) by (now apply leb_trans with s).
    destruct (IH _ H2 N') as [A B]. split; [now apply leb_trans with (s + raw_weight x)%float|].
    intros i [<-|I]; [|auto]. now apply leb_trans with (s + raw_weight x)%float.
Qed.

(** The weight pass 2 gives an input. *)
Definition norm_weight (inputs : list alpha_blend_input_t) (i : alpha_blend_input_t) : float :=
  let total := total_weight inputs in
  if (0 <? total)%float then (raw_weight i / (if (0 <? total)%float then total else 1%float))%float
  else if (total <=? 0)%float then (1 / double_of_Z (Z.of_nat (List.length inputs)))%float
  else 0%float.

Lemma unit_div a b : is_fin a = true -> is_fin b = true -> (0 <= D2R a <= D2R b)%R -> (0 < D2R b)%R ->
  is_fin (a / b)%float = true /\ (0 <= D2R (a / b)%float <= 1)%R.
Proof.
  intros Fa Fb H P.
  destruct (rounds_between _ _ (div_rounds a b Fa Fb ltac:(lra)) 0 1 eq_refl eq_refl) as [F B].
  { rewrite D2R_0, D2R_1. split; [apply Rmult_le_pos; [lra|apply Rlt_le, Rinv_0_lt_compat; lra]|].
    apply Rmult_le_reg_r with (D2R b); [lra|]. unfold Rdiv. rewrite Rmult_assoc, Rinv_l; lra. }
  rewrite D2R_0, D2R_1 in B. auto.
Qed.

Lemma norm_weight_range inputs i : Forall input_ok inputs -> In i inputs ->
  is_fin (total_weight inputs) = true -> Z.of_nat (List.length inputs) <= 2 ^ 50 ->
  is_fin (norm_weight inputs i) = true /\ (0 <= D2R (norm_weight inputs i) <= 1)%R.
Proof.
  intros F I FT HN. unfold norm_weight.
  pose proof (total_weight_ge inputs 0 F eq_refl) as [_ G]. specialize (G i I).
  fold (total_weight inputs) in G.
  destruct (0 <? total_weight inputs)%float eqn:T.
  - apply ltb_R in T; auto. rewrite D2R_0 in T.
    rewrite Forall_forall in F. destruct (raw_weight_ok i (F i I)) as [Fr Pr].
    apply leb_R in G; auto. now apply unit_div.
  - destruct (total_weight inputs <=? 0)%float; [|split; [reflexivity|rewrite D2R_0; lra]].
    destruct (double_of_Z_exact (Z.of_nat (List.length inputs)) ltac:(lia)) as [Fn En].
    assert (1 <= IZR (Z.of_nat (List.length inputs)))%R.
    { apply IZR_le. destruct inputs; [destruct I|cbn [List.length]; lia]. }
    apply unit_div; auto; rewrite ?D2R_1, En; lra.
Qed.

(** Rounded sums and products between integers. *)
Lemma add_between a b lo hi : is_fin a = true -> is_fin b = true ->
  Z.abs lo <= 2 ^ 53 -> Z.abs hi <= 2 ^ 53 -> (IZR lo <= D2R a + D2R b <= IZR hi)%R ->
  is_fin (a + b)%float = true /\ (IZR lo <= D2R (a + b)%float <= IZR hi)%R.
Proof.
  intros Fa Fb Hl Hh B. destruct (representable_Z lo Hl) as (l & Fl & El).
  destruct (representable_Z hi Hh) as (h & Fh & Eh).
  destruct (rounds_between _ _ (add_rounds a b Fa Fb) l h Fl Fh) as [F R]; rewrite El, Eh in *; auto.
Qed.

Lemma mul_between a b lo hi : is_fin a = true -> is_fin b = true ->
  Z.abs lo <= 2 ^ 53 -> Z.abs hi <= 2 ^ 53 -> (IZR lo <= D2R a * D2R b <= IZR hi)%R ->
  is_fin (a * b)%float = true /\ (IZR lo <= D2R (a * b)%float <= IZR hi)%R.
Proof.
  intros Fa Fb Hl Hh B. destruct (representable_Z lo Hl) as (l & Fl & El).
  destruct (representable_Z hi Hh) as (h & Fh & Eh).
  destruct (rounds_between _ _ (mul_rounds a b Fa Fb) l h Fl Fh) as [F R]; rewrite El, Eh in *; auto.
Qed.

Definition score_lo (s : alpha_signal_t) : Z := if signal_eqb s ALPHA_SIGNAL_SELL then -1 else 0.
Definition score_hi (s : alpha_signal_t) : Z := if signal_eqb s ALPHA_SIGNAL_BUY then 1 else 0.

Lemma signal_score_R s : is_fin (signal_score s) = true /\
  (IZR (score_lo s) <= D2R (signal_score s) <= IZR (score_hi s))%R.
Proof.
  destruct s; (split; [reflexivity|]); cbn [signal_score score_lo score_hi signal_eqb];
    rewrite ?D2R_0, ?D2R_1; try (d2r (-1)%float); lra.
Qed.

(** One input's contribution. *)
Lemma term_between s w c : is_fin w = true -> is_fin c = true -> (0 <= D2R w <= 1)%R -> (0 <= D2R c <= 1)%R ->
  is_fin (signal_score s * w * c)%float = true /\
  (IZR (score_lo s) <= D2R (signal_score s * w * c)%float <= IZR (score_hi s))%R /\
  is_fin (c * w)%float = true /\ (0 <= D2R (c * w)%float <= 1)%R.
Proof.
  intros Fw Fc Hw Hc. destruct (signal_score_R s) as [Fs Bs].
  assert (LO : (-1 <= IZR (score_lo s) <= 0)%R) by (destruct s; cbn; lra).
  assert (HI : (0 <= IZR (score_hi s) <= 1)%R) by (destruct s; cbn; lra).
  assert (ZL : Z.abs (score_lo s) <= 2 ^ 53) by (destruct s; cbn; lia).
  assert (ZH : Z.abs (score_hi s) <= 2 ^ 53) by (destruct s; cbn; lia).
  destruct (mul_between (signal_score s) w (score_lo s) (score_hi s) Fs Fw ZL ZH) as [F1 B1]; [nra|].
  destruct (mul_between (signal_score s * w)%float c (score_lo s) (score_hi s) F1 Fc ZL ZH) as [F2 B2]; [nra|].
  destruct (mul_between c w 0 1 Fc Fw ltac:(lia) ltac:(lia)) as [F3 B3]; [nra|]. auto.
Qed.

Definition has_signal (s : alpha_signal_t) (l : list alpha_blend_input_t) : bool :=
  existsb (fun i => signal_eqb (in_signal i) s) l.

Definition steps (inputs : list alpha_blend_input_t) (l : list alpha_blend_input_t) : blend_acc :=
  let total := total_weight inputs in
  fold_left (blend_step total (if (0 <? total)%float then total else 1%float)
    (if (total <=? 0)%float then (1 / double_of_Z (Z.of_nat (List.length inputs)))%float else 0%float))
    l blend_init.

(** The accumulators after a prefix of the inputs. *)
Definition acc_inv (l : list alpha_blend_input_t) (a : blend_acc) : Prop :=
  let k := Z.of_nat (List.length l) in
  is_fin (acc_score a) = true /\
  (IZR (if has_signal ALPHA_SIGNAL_SELL l then - k else 0) <= D2R (acc_score a)
     <= IZR (if has_signal ALPHA_SIGNAL_BUY l then k else 0))%R /\
  is_fin (acc_confidence a) = true /\ (0 <= D2R (acc_confidence a) <= IZR k)%R /\
  has_buy a = has_signal ALPHA_SIGNAL_BUY l /\ has_sell a = has_signal ALPHA_SIGNAL_SELL l.

Lemma steps_inv inputs l : Forall input_ok inputs -> incl l inputs ->
  is_fin (total_weight inputs) = true -> Z.of_nat (List.length inputs) <= 2 ^ 50 ->
  Z.of_nat (List.length l) <= 2 ^ 50 -> acc_inv l (steps inputs l).
Proof.
  intros F I FT HN. induction l as [|i l IH] using rev_ind; intros HL.
  - repeat split; cbn; rewrite ?D2R_0; lra.
  - rewrite length_app in HL. cbn [List.length] in HL.
    assert (Il : incl l inputs) by (intros x X; apply I, in_or_app; now left).
    assert (Ii : In i inputs) by (apply I, in_or_app; right; now left).
    destruct (IH Il ltac:(lia)) as (F1 & B1 & F2 & B2 & HB & HS).
    destruct (norm_weight_range inputs i F Ii FT HN) as [Fw Bw].
    destruct (clamp01_range (in_confidence i)) as [Fc Bc].
    { rewrite Forall_forall in F. apply (F i Ii). }
    destruct (term_between (in_signal i) _ _ Fw Fc Bw Bc) as (Ft & Bt & Fp & Bp).
    unfold steps in *. rewrite fold_left_app. cbn [fold_left].
    set (a := fold_left _ l blend_init) in *. unfold acc_inv. unfold has_signal in *.
    rewrite !existsb_app, length_app. cbn [existsb List.length].
    set (k := Z.of_nat (List.length l)) in *.
    set (hs := existsb _ l) in *. set (hb := existsb (fun i => signal_eqb (in_signal i) ALPHA_SIGNAL_BUY) l) in *.
    unfold blend_step. cbn [acc_score acc_confidence has_buy has_sell].
    change (if (0 <? total_weight inputs)%float then _ else _) with (norm_weight inputs i).
    assert (Ek : Z.of_nat (List.length l + 1) = k + 1) by (unfold k; lia).
    rewrite !Ek, !orb_false_r, HB, HS.
    assert (K0 : 0 <= k) by (unfold k; lia). assert (K0R : (0 <= IZR k)%R) by (apply (IZR_le 0); lia).
    destruct (add_between (acc_score a) _ (if hs || signal_eqb (in_signal i) ALPHA_SIGNAL_SELL then - (k + 1) else 0)
      (if hb || signal_eqb (in_signal i) ALPHA_SIGNAL_BUY then k + 1 else 0) F1 Ft) as [G1 G2].
    1,2: break_if; lia.
    { unfold score_lo, score_hi in Bt.
      destruct hs, hb, (signal_eqb (in_signal i) ALPHA_SIGNAL_SELL), (signal_eqb (in_signal i) ALPHA_SIGNAL_BUY);
        cbn [orb]; rewrite ?opp_IZR, ?plus_IZR in *; lra. }
    destruct (add_between (acc_confidence a) _ 0 (k + 1) F2 Fp ltac:(lia) ltac:(lia)) as [G3 G4];
      [rewrite plus_IZR; lra|].
    repeat split; auto; apply G2 || apply G4.
Qed.

Lemma blend_unfold inputs : inputs <> [] -> alpha_blend_signals (Some inputs) =
  let a := steps inputs inputs in
  {| out_signal := decide_signal (acc_score a);
     out_confidence := alpha_round_dp (clamp01 (acc_confidence a)) 4;
     weighted_score := alpha_round_dp (acc_score a) 6;
     conflict := has_buy a && has_sell a |}.
Proof. destruct inputs; [congruence|reflexivity]. Qed.

Lemma threshold_pos : (0 < D2R ALPHA_BLEND_THRESHOLD)%R.
Proof. d2r ALPHA_BLEND_THRESHOLD. lra. Qed.

Lemma decide_signal_cases s : is_fin s = true ->
  match decide_signal s with
  | ALPHA_SIGNAL_BUY => (D2R ALPHA_BLEND_THRESHOLD < D2R s)%R
  | ALPHA_SIGNAL_SELL => (D2R s < - D2R ALPHA_BLEND_THRESHOLD)%R
  | ALPHA_SIGNAL_HOLD => (- D2R ALPHA_BLEND_THRESHOLD <= D2R s <= D2R ALPHA_BLEND_THRESHOLD)%R
  | ALPHA_SIGNAL_CLOSE => False
  end.
Proof.
  intros F. unfold decide_signal. destruct (ALPHA_BLEND_THRESHOLD <? s)%float eqn:B.
  - apply ltb_R in B; auto.
  - apply ltb_false_R in B; auto. destruct (s <? - ALPHA_BLEND_THRESHOLD)%float eqn:S.
    + apply ltb_R in S; auto. now rewrite opp_R in S.
    + apply ltb_false_R in S; auto. rewrite opp_R in S. lra.
Qed.

(** ** One input *)

Lemma fadd_0_l x : is_fin x = true -> is_fin (0 + x)%float = true /\ D2R (0 + x)%float = D2R x.
Proof.
  intros F. pose proof (add_rounds 0 x eq_refl F) as R. rewrite D2R_0, Rplus_0_l in R.
  now apply (rounds_exact _ _ R x).
Qed.

Lemma fmul_1_l x : is_fin x = true -> is_fin (1 * x)%float = true /\ D2R (1 * x)%float = D2R x.
Proof.
  intros F. pose proof (mul_rounds 1 x eq_refl F) as R. rewrite D2R_1, Rmult_1_l in R.
  now apply (rounds_exact _ _ R x).
Qed.

Lemma fmul_1_r x : is_fin x = true -> is_fin (x * 1)%float = true /\ D2R (x * 1)%float = D2R x.
Proof.
  intros F. pose proof (mul_rounds x 1 F eq_refl) as R. rewrite D2R_1, Rmult_1_r in R.
  now apply (rounds_exact _ _ R x).
Qed.

Lemma fdiv_self x : is_fin x = true -> (0 < D2R x)%R -> (x / x)%float = 1%float.
Proof.
  intros F P. pose proof (div_rounds x x F F ltac:(lra)) as R.
  replace (D2R x / D2R x)%R with (D2R 1) in R by (rewrite D2R_1; field; lra).
  destruct (rounds_exact _ _ R 1 eq_refl eq_refl) as [F1 E1]. rewrite D2R_1 in E1.
  apply D2R_inj; auto; rewrite ?D2R_1; lra.
Qed.

(** A lone input has weight one, whatever its nominal weight. *)
Lemma norm_weight_single i : is_fin (in_weight i) = true -> norm_weight [i] i = 1%float.
Proof.
  intros F. unfold norm_weight, total_weight, raw_weight. cbn [fold_left List.length].
  destruct (0 <? in_weight i)%float eqn:W.
  - pose proof W as W'. apply ltb_R in W'; auto. rewrite D2R_0 in W'.
    destruct (fadd_0_l (in_weight i) F) as [F1 E1].
    assert ((0 + in_weight i)%float = in_weight i) as -> by (apply D2R_inj; auto; lra).
    rewrite W. now apply fdiv_self.
  - vm_compute. reflexivity.
Qed.

Lemma steps_single i : input_ok i ->
  let a := steps [i] [i] in let c := D2R (clamp01 (in_confidence i)) in
  is_fin (acc_score a) = true /\ D2R (acc_score a) = (D2R (signal_score (in_signal i)) * c)%R /\
  is_fin (acc_confidence a) = true /\ D2R (acc_confidence a) = c.
Proof.
  intros [N F] a c. destruct (clamp01_range _ N) as [Fc Bc].
  unfold a, steps. cbn [fold_left]. unfold blend_step.
  change (if (0 <? total_weight [i])%float then _ else _) with (norm_weight [i] i).
  rewrite norm_weight_single by assumption. cbn [blend_init acc_score acc_confidence].
  destruct (fmul_1_r _ Fc) as [F1 E1]. destruct (fadd_0_l _ F1) as [F2 E2]. fold c in E1.
  assert (S : is_fin (signal_score (in_signal i) * 1 * clamp01 (in_confidence i))%float = true /\
    D2R (signal_score (in_signal i) * 1 * clamp01 (in_confidence i))%float =
      (D2R (signal_score (in_signal i)) * c)%R).
  { assert (K : forall s, is_fin s = true -> (s = 1%float \/ s = (-1)%float \/ s = 0%float) ->
      is_fin (s * clamp01 (in_confidence i))%float = true /\
      D2R (s * clamp01 (in_confidence i))%float = (D2R s * c)%R).
    { intros s Fs Hs. pose proof (mul_rounds s _ Fs Fc) as R. fold c in R.
      destruct Hs as [->|[->| ->]].
      - rewrite D2R_1, Rmult_1_l in *. now apply (rounds_exact _ _ R (clamp01 (in_confidence i))).
      - apply (rounds_exact _ _ R (- clamp01 (in_confidence i))%float); [now rewrite opp_fin|].
        rewrite opp_R. fold c. replace (D2R (-1)) with (-1)%R; [ring|]. d2r (-1)%float. lra.
      - rewrite D2R_0, Rmult_0_l in *. now apply (rounds_exact _ _ R 0). }
    destruct (in_signal i); cbn [signal_score];
      match goal with |- context [(?s * 1)%float] =>
        let v := eval vm_compute in (s * 1)%float in change (s * 1)%float with v end; apply K; auto. }
  destruct S as [F3 E3]. destruct (fadd_0_l _ F3) as [F4 E4].
  split; [exact F4|]. split; [now rewrite E4|]. split; [exact F2|]. now rewrite E2.
Qed.

(** The decision of a lone signal of clamped confidence [c]. *)
Definition lone_decision (s : alpha_signal_t) (c : float) : alpha_signal_t :=
  if (ALPHA_BLEND_THRESHOLD <? c)%float then
    match s with
    | ALPHA_SIGNAL_BUY => ALPHA_SIGNAL_BUY
    | ALPHA_SIGNAL_SELL => ALPHA_SIGNAL_SELL
    | _ => ALPHA_SIGNAL_HOLD
    end
  else ALPHA_SIGNAL_HOLD.

Lemma D2R_m1 : D2R (-1) = (-1)%R.
Proof. d2r (-1)%float. lra. Qed.

Lemma single_decision i : input_ok i ->
  out_signal (alpha_blend_signals (Some [i])) = lone_decision (in_signal i) (clamp01 (in_confidence i)) /\
  D2R (out_confidence (alpha_blend_signals (Some [i])))
    = D2R (alpha_round_dp (clamp01 (in_confidence i)) 4).
Proof.
  intros O. rewrite blend_unfold by discriminate. cbn [out_signal out_confidence].
  destruct (steps_single i O) as (F1 & E1 & F2 & E2). destruct O as [N _].
  destruct (clamp01_range _ N) as [Fc Bc]. set (c := clamp01 (in_confidence i)) in *.
  pose proof threshold_pos as T.
  assert (FT : is_fin ALPHA_BLEND_THRESHOLD = true) by reflexivity. split.
  - pose proof (decide_signal_cases _ F1) as D. unfold lone_decision.
    destruct (ALPHA_BLEND_THRESHOLD <? c)%float eqn:C; freal;
      destruct (in_signal i), (decide_signal _); cbn [signal_score] in E1;
      rewrite ?D2R_0, ?D2R_1, ?D2R_m1 in E1; try reflexivity; exfalso; lra.
  - rewrite clamp01_id by (auto; lra).
    destruct (Req_dec (D2R c) 0) as [Z|NZ]; [|f_equal; f_equal; apply D2R_inj; auto; lra].
    assert (R0 : forall x, is_fin x = true -> D2R x = 0%R -> D2R (alpha_round_dp x 4) = 0%R).
    { intros x Fx Ex.
      destruct (alpha_round_dp_between x 4 0 0 Fx ltac:(lia) ltac:(lia) ltac:(lia) ltac:(lra)) as [_ B].
      change (Z.of_nat 4) with 4 in B. lra. }
    rewrite !R0; auto; lra.
Qed.

(** ** Properties *)

(** C28: For one to 10^15 inputs whose confidences are numbers (not NaN) and whose weights are
    finite with a total that does not overflow, the blended confidence is a finite
    value in [0, 1] and the reported score is finite with magnitude at most the
    number of inputs.  The condition on the confidences is needed, see
    [blend_nan_confidence]. *)
Theorem blend_result_range inputs :
  inputs <> [] -> Forall input_ok inputs -> is_fin (total_weight inputs) = true ->
  Z.of_nat (List.length inputs) <= 10 ^ 15 ->
  let r := alpha_blend_signals (Some inputs) in
  let n := IZR (Z.of_nat (List.length inputs)) in
  is_fin (out_confidence r) = true /\ (0 <= D2R (out_confidence r) <= 1)%R /\
  is_fin (weighted_score r) = true /\ (- n <= D2R (weighted_score r) <= n)%R.
Proof.
  intros NE F FT HN r n. unfold r. rewrite blend_unfold by assumption.
  destruct (steps_inv inputs inputs F (incl_refl _) FT ltac:(lia) ltac:(lia)) as (F1 & B1 & F2 & B2 & _).
  cbn [out_confidence weighted_score]. set (a := steps inputs inputs) in *.
  destruct (clamp01_range (acc_confidence a) (fin_not_nan _ F2)) as [Fc Bc].
  destruct (alpha_round_dp_between _ 4 0 1 Fc ltac:(lia) ltac:(lia) ltac:(lia) Bc) as [G1 G2].
  assert (0 <= n)%R by (apply (IZR_le 0); lia).
  destruct (alpha_round_dp_between (acc_score a) 6 (- Z.of_nat (List.length inputs))
    (Z.of_nat (List.length inputs)) F1) as [G3 G4]; try lia.
  { rewrite opp_IZR. fold n. destruct (has_signal _ _), (has_signal _ _); rewrite ?opp_IZR in B1;
      fold n in B1; lra. }
  rewrite opp_IZR in G4. fold n in G4. auto.
Qed.

Definition sample_input (s : alpha_signal_t) (c w : float) : alpha_blend_input_t :=
  {| in_signal := s; in_confidence := c; in_weight := w |}.

Lemma blend_result_range_witness :
  let inputs := [sample_input ALPHA_SIGNAL_BUY 0.9 2; sample_input ALPHA_SIGNAL_SELL 3 (-1)] in
  let r := alpha_blend_signals (Some inputs) in
  let n := IZR (Z.of_nat (List.length inputs)) in
  is_fin (out_confidence r) = true /\ (0 <= D2R (out_confidence r) <= 1)%R /\
  is_fin (weighted_score r) = true /\ (- n <= D2R (weighted_score r) <= n)%R.
Proof.
  intros inputs. apply (blend_result_range inputs);
    [discriminate|repeat constructor|vm_compute; reflexivity|cbn; lia].
Defined.



(** With one leg present the two-way blend ignores the ratio: the other leg's
    data and any numeric ratio (which may give the present leg weight zero)
    change nothing, the decision is the leg's own signal when its clamped
    confidence exceeds 0.15 and HOLD otherwise, and its confidence is reported
    rounded.  With no leg the result is HOLD with zero confidence. *)
Theorem blend_ab_single_leg s c s' c' ratio :
  isnan c = false -> isnan ratio = false ->
  let ra := alpha_blend_ab true s c false s' c' ratio in
  let rb := alpha_blend_ab false s' c' true s c ratio in
  out_signal ra = lone_decision s (clamp01 c) /\ out_signal rb = lone_decision s (clamp01 c) /\
  D2R (out_confidence ra) = D2R (alpha_round_dp (clamp01 c) 4) /\
  D2R (out_confidence rb) = D2R (alpha_round_dp (clamp01 c) 4) /\
  alpha_blend_ab false s c false s' c' ratio = blend_empty.
Proof.
  intros Nc Nr ra rb. destruct (clamp01_range ratio Nr) as [Fr Br].
  assert (Fm : is_fin (1 - clamp01 ratio)%float = true).
  { destruct (rounds_between _ _ (sub_rounds 1 _ eq_refl Fr) 0 1 eq_refl eq_refl) as [H _];
      [rewrite D2R_0, D2R_1; lra|exact H]. }
  destruct (single_decision {| in_signal := s; in_confidence := c; in_weight := (1 - clamp01 ratio)%float |}
    (conj Nc Fm)) as [A1 A2].
  destruct (single_decision {| in_signal := s; in_confidence := c; in_weight := clamp01 ratio |}
    (conj Nc Fr)) as [B1 B2].
  split; [exact A1|]. split; [exact B1|]. split; [exact A2|]. split; [exact B2|]. reflexivity.
Qed.

Lemma blend_ab_single_leg_witness :
  let ra := alpha_blend_ab true ALPHA_SIGNAL_SELL 0.5 false ALPHA_SIGNAL_BUY 1 1 in
  let rb := alpha_blend_ab false ALPHA_SIGNAL_BUY 1 true ALPHA_SIGNAL_SELL 0.5 1 in
  out_signal ra = ALPHA_SIGNAL_SELL /\ out_signal rb = ALPHA_SIGNAL_SELL /\
  D2R (out_confidence ra) = D2R (alpha_round_dp (clamp01 0.5) 4) /\
  D2R (out_confidence rb) = D2R (alpha_round_dp (clamp01 0.5) 4) /\
  alpha_blend_ab false ALPHA_SIGNAL_SELL 0.5 false ALPHA_SIGNAL_BUY 1 1 = blend_empty.
Proof.
  apply (blend_ab_single_leg ALPHA_SIGNAL_SELL 0.5 ALPHA_SIGNAL_BUY 1 1); reflexivity.
Defined.

(** A NaN confidence passes through the clamp: the result is HOLD with a NaN
    confidence, although the header promises a value in [0, 1]. *)
Theorem blend_nan_confidence :
  let r := alpha_blend_signals (Some [sample_input ALPHA_SIGNAL_BUY nan 1]) in
  out_signal r = ALPHA_SIGNAL_HOLD /\ isnan (out_confidence r) = true.
Proof. vm_compute. split; reflexivity. Qed.
