(* ===== verification/Postgres.v ===== *)
(** * The PostgreSQL client

    Models [core/platform/db/postgres.c]: the readiness-driven state machine over
    a libpq connection, its ring buffer of pending requests and the decoding of
    results.  libpq is a parameter: the class [LibPQ] lists the calls the client
    makes.  Callbacks are identifiers, and the calls made to them are the list of
    completions an operation returns. *)

From Stdlib Require Import ZArith Lia Bool List Floats Ascii String.
From S2P Require Import Prelude CStr Domain Double Round.
Import ListNotations.
Open Scope string_scope.
Open Scope list_scope.
Open Scope Z_scope.

Definition ALPHA_PG_TEXT_CAP : nat := 64.
Definition ALPHA_PG_MIN_PIPELINE_DEPTH : nat := 1.
Definition ALPHA_PG_MAX_PIPELINE_DEPTH : nat := 64.

Inductive alpha_pg_state_t := ALPHA_PG_CONNECTING | ALPHA_PG_READY | ALPHA_PG_FAILED.

Record alpha_pg_position_t := {
  pos_ticker : string;
  name : string;
  pos_quantity : Z;
  avg_price : Z;
  current_price : Z;
  is_paper : bool;
  account_scope : string;
  strategy_id : string
}.

Record alpha_pg_exposure_t := {
  exp_ticker : string;
  total_quantity : Z;
  total_market_value : Z;
  total_aum : Z;
  strategy_count : Z;
  exposure_pct : float
}.

Inductive alpha_pg_result_kind_t := ALPHA_PG_RESULT_POSITION | ALPHA_PG_RESULT_EXPOSURE.

(** The union of a result; [VALUE_NONE] when nothing was decoded. *)
Inductive result_value :=
  | VALUE_POSITION (position : alpha_pg_position_t)
  | VALUE_EXPOSURE (exposure : alpha_pg_exposure_t)
  | VALUE_NONE.

Record alpha_pg_result_t := {
  result_kind : alpha_pg_result_kind_t;
  result_status : alpha_err_t;
  value : result_value
}.

(** A callback pointer ([None] is NULL) and its user data. *)
Record pending_request_t := { kind : alpha_pg_result_kind_t; callback : option Z; user_data : Z }.

(** ** libpq *)

Inductive PostgresPollingStatusType :=
  | PGRES_POLLING_FAILED | PGRES_POLLING_READING | PGRES_POLLING_WRITING | PGRES_POLLING_OK.

Inductive ExecStatusType :=
  | PGRES_TUPLES_OK | PGRES_PIPELINE_SYNC | PGRES_PIPELINE_ABORTED | PGRES_OTHER.

(** A result: its status, number of rows, the fields of its first row and its
    error message. *)
Record PGresult := {
  PQresultStatus : ExecStatusType;
  PQntuples : Z;
  PQgetvalue : nat -> string;
  PQresultErrorMessage : string
}.

(** The calls on a connection; each returns the connection afterwards. *)
Class LibPQ (P : Type) := {
  PQstatus_bad : P -> bool;
  PQsetnonblocking : P -> P * Z;
  PQsocket : P -> Z;
  PQconnectPoll : P -> P * PostgresPollingStatusType;
  PQenterPipelineMode : P -> P * Z;
  PQpipelineSync : P -> P * Z;
  PQflush : P -> P * Z;
  PQconsumeInput : P -> P * Z;
  PQisBusy : P -> bool;
  PQgetResult : P -> P * option PGresult;
  PQsendQueryParams : P -> string -> list string -> P * Z;
  PQerrorMessage : P -> string
}.

Definition UPSERT_POSITION_SQL : string :=
  "INSERT INTO portfolio_positions (ticker,name,quantity,avg_price,current_price,is_paper,account_scope,strategy_id,opened_at,updated_at) VALUES ($1,$2,$3::integer,$4::integer,$5::integer,$6::boolean,$7,NULLIF($8,''),NOW(),NOW()) ON CONFLICT (ticker,account_scope,COALESCE(strategy_id,'')) DO UPDATE SET name=EXCLUDED.name,quantity=EXCLUDED.quantity,avg_price=EXCLUDED.avg_price,current_price=EXCLUDED.current_price,is_paper=EXCLUDED.is_paper,updated_at=NOW() RETURNING ticker,name,quantity,avg_price,current_price,is_paper,account_scope,COALESCE(strategy_id,'')".

Definition EXPOSURE_SQL : string :=
  "SELECT $1::text AS ticker,COALESCE(SUM(quantity),0)::bigint AS total_quantity,COALESCE(SUM(quantity*current_price),0)::bigint AS total_market_value,(SELECT COALESCE(SUM(quantity*current_price),0)::bigint FROM portfolio_positions WHERE quantity>0) AS total_aum,COUNT(DISTINCT COALESCE(strategy_id,'default'))::integer AS strategy_count FROM portfolio_positions WHERE ticker=$1 AND quantity>0".

(** ** Decoding *)

Definition copy_text (cap : nat) (src : string) : option string :=
  if (cap <=? String.length src)%nat then None else snprintf cap src.

Definition parse_i64 (text : string) : option Z :=
  match strtoll text with
  | None => None
  | Some (v, rest, erange) => if erange || negb (String.eqb rest "") then None else Some v
  end.

Definition parse_i32 (text : string) : option Z :=
  let? v := parse_i64 text in
  if (v <? INT32_MIN) || (v >? INT32_MAX) then None else Some v.

Definition parse_position (pg : PGresult) : option alpha_pg_position_t :=
  if negb (PQntuples pg =? 1) then None
  else
    let? t := copy_text ALPHA_PG_TEXT_CAP (PQgetvalue pg 0) in
    let? n := copy_text ALPHA_PG_TEXT_CAP (PQgetvalue pg 1) in
    let? q := parse_i32 (PQgetvalue pg 2) in
    let? a := parse_i32 (PQgetvalue pg 3) in
    let? c := parse_i32 (PQgetvalue pg 4) in
    let? s := copy_text ALPHA_PG_TEXT_CAP (PQgetvalue pg 6) in
    let? i := copy_text ALPHA_PG_TEXT_CAP (PQgetvalue pg 7) in
    Some {| pos_ticker := t; name := n; pos_quantity := q; avg_price := a; current_price := c;
            is_paper := String.eqb (PQgetvalue pg 5) "t"; account_scope := s; strategy_id := i |}.

Definition parse_exposure (pg : PGresult) : option alpha_pg_exposure_t :=
  if negb (PQntuples pg =? 1) then None
  else
    let? t := copy_text ALPHA_PG_TEXT_CAP (PQgetvalue pg 0) in
    let? q := parse_i64 (PQgetvalue pg 1) in
    let? v := parse_i64 (PQgetvalue pg 2) in
    let? a := parse_i64 (PQgetvalue pg 3) in
    let? n := parse_i32 (PQgetvalue pg 4) in
    let unrounded := if a >? 0 then (double_of_Z v / double_of_Z a * 100)%float else 0%float in
    Some {| exp_ticker := t; total_quantity := q; total_market_value := v; total_aum := a;
            strategy_count := n; exposure_pct := alpha_round_dp unrounded 2 |}.

(** ** The client *)

Section Client.
Context {P : Type} {pq : LibPQ P}.

Record alpha_pg := {
  conn : P;
  state : alpha_pg_state_t;
  connect_poll : PostgresPollingStatusType;
  flush_pending : bool;
  sync_sent : bool;
  fifo : list (option pending_request_t);
  capacity : nat;
  head : nat;
  count : nat;
  error : string
}.

Definition set_conn (db : alpha_pg) (c : P) : alpha_pg :=
  {| conn := c; state := state db; connect_poll := connect_poll db; flush_pending := flush_pending db;
     sync_sent := sync_sent db; fifo := fifo db; capacity := capacity db; head := head db;
     count := count db; error := error db |}.
Definition set_state (db : alpha_pg) (s : alpha_pg_state_t) : alpha_pg :=
  {| conn := conn db; state := s; connect_poll := connect_poll db; flush_pending := flush_pending db;
     sync_sent := sync_sent db; fifo := fifo db; capacity := capacity db; head := head db;
     count := count db; error := error db |}.
Definition set_poll (db : alpha_pg) (p : PostgresPollingStatusType) : alpha_pg :=
  {| conn := conn db; state := state db; connect_poll := p; flush_pending := flush_pending db;
     sync_sent := sync_sent db; fifo := fifo db; capacity := capacity db; head := head db;
     count := count db; error := error db |}.
Definition set_flush (db : alpha_pg) (b : bool) : alpha_pg :=
  {| conn := conn db; state := state db; connect_poll := connect_poll db; flush_pending := b;
     sync_sent := sync_sent db; fifo := fifo db; capacity := capacity db; head := head db;
     count := count db; error := error db |}.
Definition set_sync (db : alpha_pg) (b : bool) : alpha_pg :=
  {| conn := conn db; state := state db; connect_poll := connect_poll db;
     flush_pending := flush_pending db; sync_sent := b; fifo := fifo db; capacity := capacity db;
     head := head db; count := count db; error := error db |}.
Definition set_ring (db : alpha_pg) (f : list (option pending_request_t)) (h c : nat) : alpha_pg :=
  {| conn := conn db; state := state db; connect_poll := connect_poll db;
     flush_pending := flush_pending db; sync_sent := sync_sent db; fifo := f; capacity := capacity db;
     head := h; count := c; error := error db |}.

(** [None] is a NULL message. *)
Definition set_error (db : alpha_pg) (message : option string) : alpha_pg :=
  let source := match message with Some m => m | None => "unknown libpq error" end in
  {| conn := conn db; state := state db; connect_poll := connect_poll db;
     flush_pending := flush_pending db; sync_sent := sync_sent db; fifo := fifo db;
     capacity := capacity db; head := head db; count := count db;
     error := String.substring 0 255 source |}.

(** [alloc] are the outcomes of the two [calloc]s; [connect] that of
    [PQconnectStart].  The cell [out] holds the handle. *)
Definition alpha_pg_connect_start (conninfo : option string) (pipeline_depth : nat)
    (alloc : bool * bool) (connect : string -> option P) (out : option (option alpha_pg))
  : alpha_err_t * option (option alpha_pg) :=
  match conninfo, out with
  | Some conninfo, Some _ =>
      if (pipeline_depth <? ALPHA_PG_MIN_PIPELINE_DEPTH)%nat
         || (ALPHA_PG_MAX_PIPELINE_DEPTH <? pipeline_depth)%nat
      then (ALPHA_ERR_INVALID_ARG, out)
      else if negb (fst alloc) then (ALPHA_ERR_IO, Some None)
      else if negb (snd alloc) then (ALPHA_ERR_IO, Some None)
      else
        match connect conninfo with
        | None => (ALPHA_ERR_DB, Some None)
        | Some c =>
            let db := {| conn := c; state := ALPHA_PG_CONNECTING; connect_poll := PGRES_POLLING_WRITING;
                         flush_pending := false; sync_sent := false;
                         fifo := repeat None pipeline_depth; capacity := pipeline_depth;
                         head := 0; count := 0; error := "" |} in
            let '(db, bad) :=
              if PQstatus_bad c then (db, true)
              else let '(c, r) := PQsetnonblocking c in (set_conn db c, negb (r =? 0)) in
            if bad then
              (ALPHA_ERR_DB, Some (Some (set_state (set_error db (Some (PQerrorMessage (conn db)))) ALPHA_PG_FAILED)))
            else (ALPHA_OK, Some (Some db))
        end
  | _, _ => (ALPHA_ERR_INVALID_ARG, out)
  end.

Definition alpha_pg_state (db : option alpha_pg) : alpha_pg_state_t :=
  match db with Some db => state db | None => ALPHA_PG_FAILED end.

Definition alpha_pg_socket (db : option alpha_pg) : Z :=
  match db with Some db => PQsocket (conn db) | None => -1 end.

Definition is_connecting (s : alpha_pg_state_t) : bool :=
  match s with ALPHA_PG_CONNECTING => true | _ => false end.
Definition is_ready (s : alpha_pg_state_t) : bool := match s with ALPHA_PG_READY => true | _ => false end.
Definition is_failed (s : alpha_pg_state_t) : bool := match s with ALPHA_PG_FAILED => true | _ => false end.
Definition poll_reading (p : PostgresPollingStatusType) : bool :=
  match p with PGRES_POLLING_READING => true | _ => false end.
Definition poll_writing (p : PostgresPollingStatusType) : bool :=
  match p with PGRES_POLLING_WRITING => true | _ => false end.

Definition alpha_pg_wants_read (db : option alpha_pg) : bool :=
  match db with
  | None => false
  | Some db =>
      if is_connecting (state db) && poll_reading (connect_poll db) then true
      else if is_ready (state db) && ((0 <? count db)%nat || sync_sent db) then true
      else false
  end.

Definition alpha_pg_wants_write (db : option alpha_pg) : bool :=
  match db with
  | None => false
  | Some db =>
      if is_connecting (state db) && poll_writing (connect_poll db) then true
      else if is_ready (state db)
              && (flush_pending db || ((0 <? count db)%nat && negb (sync_sent db))) then true
      else false
  end.

Definition alpha_pg_pending (db : option alpha_pg) : nat :=
  match db with Some db => count db | None => O end.
Definition alpha_pg_capacity (db : option alpha_pg) : nat :=
  match db with Some db => capacity db | None => O end.
Definition alpha_pg_is_idle (db : option alpha_pg) : bool :=
  match db with
  | None => false
  | Some db => if negb (count db =? 0)%nat || sync_sent db || flush_pending db then false else true
  end.
Definition alpha_pg_error (db : option alpha_pg) : string :=
  match db with Some db => error db | None => "invalid db" end.

(** A call of a callback: its identity, the result it is given and its user data. *)
Record completion := { called : Z; call_result : alpha_pg_result_t; call_user_data : Z }.

(** [None] stands for reading a slot that holds no request, which
    [ring_head_present] excludes. *)
Definition complete_head (db : alpha_pg) (result : alpha_pg_result_t) : option (alpha_pg * list completion) :=
  let? request := match nth_error (fifo db) (head db) with Some r => r | None => None end in
  let db := set_ring db (fifo db) ((head db + 1) mod capacity db)%nat (count db - 1) in
  Some (db, match callback request with
            | Some c => [{| called := c; call_result := result; call_user_data := user_data request |}]
            | None => []
            end).

Definition status_eqb (a b : ExecStatusType) : bool :=
  match a, b with
  | PGRES_TUPLES_OK, PGRES_TUPLES_OK | PGRES_PIPELINE_SYNC, PGRES_PIPELINE_SYNC
  | PGRES_PIPELINE_ABORTED, PGRES_PIPELINE_ABORTED | PGRES_OTHER, PGRES_OTHER => true
  | _, _ => false
  end.

(** The result given to a callback for one libpq result of a request of kind [k]. *)
Definition decode_result (k : alpha_pg_result_kind_t) (pg : PGresult) : alpha_pg_result_t :=
  let parsed :=
    if status_eqb (PQresultStatus pg) PGRES_TUPLES_OK then
      match k with
      | ALPHA_PG_RESULT_POSITION => option_map VALUE_POSITION (parse_position pg)
      | ALPHA_PG_RESULT_EXPOSURE => option_map VALUE_EXPOSURE (parse_exposure pg)
      end
    else None in
  match parsed with
  | Some v => {| result_kind := k; result_status := ALPHA_OK; value := v |}
  | None => {| result_kind := k; result_status := ALPHA_ERR_DB; value := VALUE_NONE |}
  end.

Definition result_ok (r : alpha_pg_result_t) : bool :=
  match result_status r with ALPHA_OK => true | _ => false end.

(** One turn of the loop on a result that is not NULL: go on with a state, or
    return an error. *)
Definition drain_one (db : alpha_pg) (pg : PGresult) : option (bool * alpha_pg * list completion) :=
  if status_eqb (PQresultStatus pg) PGRES_PIPELINE_SYNC then Some (true, set_sync db false, [])
  else if (count db =? 0)%nat then
    Some (false,
          set_state (set_error db (Some "libpq result arrived without a queued request")) ALPHA_PG_FAILED, [])
  else
    let? request := match nth_error (fifo db) (head db) with Some r => r | None => None end in
    let result := decode_result (kind request) pg in
    let db :=
      if result_ok result then db
      else set_error db (Some (if status_eqb (PQresultStatus pg) PGRES_PIPELINE_ABORTED
                               then "request aborted by an earlier pipeline statement"
                               else PQresultErrorMessage pg)) in
    let? (db, out) := complete_head db result in
    Some (true, db, out).

(** [fuel] bounds the turns of the loop; see [drain_terminates]. *)
Fixpoint drain_results (fuel : nat) (db : alpha_pg) : option (alpha_pg * alpha_err_t * list completion) :=
  match fuel with
  | O => None
  | S fuel =>
      if PQisBusy (conn db) then Some (db, ALPHA_OK, [])
      else
        let '(c, pg) := PQgetResult (conn db) in
        let db := set_conn db c in
        match pg with
        | None =>
            if (0 <? count db)%nat || sync_sent db then drain_results fuel db
            else Some (db, ALPHA_OK, [])
        | Some pg =>
            let? (go, db, out) := drain_one db pg in
            if go then
              let? (db, e, outs) := drain_results fuel db in
              Some (db, e, (out ++ outs)%list)
            else Some (db, ALPHA_ERR_DB, out)
        end
  end.

Definition fail (db : alpha_pg) : alpha_pg :=
  set_state (set_error db (Some (PQerrorMessage (conn db)))) ALPHA_PG_FAILED.

Definition service_connect (db : alpha_pg) (readable writable : bool) : alpha_pg * alpha_err_t :=
  let expected :=
    (poll_reading (connect_poll db) && readable) || (poll_writing (connect_poll db) && writable) in
  if negb expected then (db, ALPHA_OK)
  else
    let '(c, p) := PQconnectPoll (conn db) in
    let db := set_poll (set_conn db c) p in
    match p with
    | PGRES_POLLING_FAILED => (fail db, ALPHA_ERR_DB)
    | PGRES_POLLING_OK =>
        let '(c, r) := PQenterPipelineMode (conn db) in
        let db := set_conn db c in
        if negb (r =? 1) then (fail db, ALPHA_ERR_DB)
        else (set_state db ALPHA_PG_READY, ALPHA_OK)
    | _ => (db, ALPHA_OK)
    end.

(** The three stages of [alpha_pg_service] on a connection that is ready: the
    sync, the flush, the drain.  A stage that returns early yields [inr]. *)
Definition service_sync (db : alpha_pg) (writable : bool) : alpha_pg + (alpha_pg * alpha_err_t) :=
  if writable && (0 <? count db)%nat && negb (sync_sent db) then
    let '(c, r) := PQpipelineSync (conn db) in
    let db := set_conn db c in
    if negb (r =? 1) then inr (fail db, ALPHA_ERR_DB)
    else inl (set_flush (set_sync db true) true)
  else inl db.

Definition service_flush (db : alpha_pg) (writable : bool) : alpha_pg + (alpha_pg * alpha_err_t) :=
  if writable && flush_pending db then
    let '(c, flushed) := PQflush (conn db) in
    let db := set_conn db c in
    if flushed <? 0 then inr (set_error db (Some (PQerrorMessage (conn db))), ALPHA_ERR_DB)
    else inl (set_flush db (negb (flushed =? 0)))
  else inl db.

Definition service_read (fuel : nat) (db : alpha_pg) (readable : bool)
  : option (alpha_pg * alpha_err_t * list completion) :=
  if readable then
    let '(c, r) := PQconsumeInput (conn db) in
    let db := set_conn db c in
    if negb (r =? 1) then Some (set_error db (Some (PQerrorMessage (conn db))), ALPHA_ERR_DB, [])
    else drain_results fuel db
  else Some (db, ALPHA_OK, []).

Definition alpha_pg_service (fuel : nat) (db : option alpha_pg) (readable writable : bool)
  : option (option alpha_pg * alpha_err_t * list completion) :=
  match db with
  | None => Some (None, ALPHA_ERR_INVALID_ARG, [])
  | Some db =>
      if is_failed (state db) then Some (Some db, ALPHA_ERR_INVALID_ARG, [])
      else if is_connecting (state db) then
        let '(db, e) := service_connect db readable writable in Some (Some db, e, [])
      else
        match service_sync db writable with
        | inr (db, e) => Some (Some db, e, [])
        | inl db =>
            match service_flush db writable with
            | inr (db, e) => Some (Some db, e, [])
            | inl db =>
                let? (db, e, out) := service_read fuel db readable in Some (Some db, e, out)
            end
        end
  end.

(** [sql] is never NULL: the two callers pass the constants. *)
Definition send_request (db : option alpha_pg) (k : alpha_pg_result_kind_t) (sql : string)
    (params : list string) (cb : option Z) (ud : Z) : option alpha_pg * alpha_err_t :=
  match db with
  | None => (None, ALPHA_ERR_INVALID_ARG)
  | Some db =>
      if negb (is_ready (state db)) then (Some db, ALPHA_ERR_INVALID_ARG)
      else if (count db =? capacity db)%nat then (Some db, ALPHA_ERR_RANGE)
      else if sync_sent db then (Some db, ALPHA_ERR_RANGE)
      else
        let '(c, r) := PQsendQueryParams (conn db) sql params in
        let db := set_conn db c in
        if negb (r =? 1) then (Some (set_error db (Some (PQerrorMessage (conn db)))), ALPHA_ERR_DB)
        else
          let tail := ((head db + count db) mod capacity db)%nat in
          let request := {| kind := k; callback := cb; user_data := ud |} in
          let db := set_ring db (list_set (fifo db) tail (Some request)) (head db) (count db + 1) in
          let '(c, flushed) := PQflush (conn db) in
          (Some (set_flush (set_conn db c) (negb (flushed =? 0))), ALPHA_OK)
  end.

Definition decimal_text (v : Z) : string :=
  match snprintf 16 (print_Z v) with Some s => s | None => "" end.

Definition upsert_params (p : alpha_pg_position_t) : list string :=
  [pos_ticker p; name p; decimal_text (pos_quantity p); decimal_text (avg_price p);
   decimal_text (current_price p); (if is_paper p then "true" else "false"); account_scope p;
   strategy_id p].

Definition alpha_pg_upsert_position (db : option alpha_pg) (position : option alpha_pg_position_t)
    (cb : option Z) (ud : Z) : option alpha_pg * alpha_err_t :=
  match position with
  | None => (db, ALPHA_ERR_INVALID_ARG)
  | Some p =>
      if String.eqb (pos_ticker p) "" || String.eqb (name p) "" || (pos_quantity p <=? 0)
         || String.eqb (account_scope p) ""
      then (db, ALPHA_ERR_INVALID_ARG)
      else send_request db ALPHA_PG_RESULT_POSITION UPSERT_POSITION_SQL (upsert_params p) cb ud
  end.

Definition alpha_pg_query_exposure (db : option alpha_pg) (ticker : option string)
    (cb : option Z) (ud : Z) : option alpha_pg * alpha_err_t :=
  match ticker with
  | None => (db, ALPHA_ERR_INVALID_ARG)
  | Some t =>
      if String.eqb t "" || (ALPHA_PG_TEXT_CAP <=? String.length t)%nat then (db, ALPHA_ERR_INVALID_ARG)
      else send_request db ALPHA_PG_RESULT_EXPOSURE EXPOSURE_SQL [t] cb ud
  end.

(** [PQfinish] and the two [free]s: the connection handed back, none for NULL. *)
Definition alpha_pg_close (db : option alpha_pg) : option P :=
  match db with Some db => Some (conn db) | None => None end.

(** ** The ring buffer as a queue *)

(** [db] holds exactly the requests [q], oldest first. *)
Record holds (db : alpha_pg) (q : list pending_request_t) : Prop := {
  holds_cap : (ALPHA_PG_MIN_PIPELINE_DEPTH <= capacity db <= ALPHA_PG_MAX_PIPELINE_DEPTH)%nat;
  holds_len : List.length (fifo db) = capacity db;
  holds_head : (head db < capacity db)%nat;
  holds_count : count db = List.length q;
  holds_fits : (List.length q <= capacity db)%nat;
  holds_slot : forall i r, nth_error q i = Some r ->
    nth_error (fifo db) ((head db + i) mod capacity db) = Some (Some r)
}.

Definition same_ring (db db' : alpha_pg) : Prop :=
  fifo db' = fifo db /\ capacity db' = capacity db /\ head db' = head db /\ count db' = count db.

Lemma holds_same_ring db db' q : same_ring db db' -> holds db q -> holds db' q.
Proof.
  intros (F & C & H & N) [A B D E G S].
  split; rewrite ?F, ?C, ?H, ?N in *; auto.
Qed.

Lemma mod_slot_inj h i j c : (h < c -> i < c -> j < c -> (h + i) mod c = (h + j) mod c -> i = j)%nat.
Proof.
  intros H I J E.
  pose proof (Nat.div_mod_eq (h + i) c). pose proof (Nat.div_mod_eq (h + j) c).
  assert ((h + i) / c < 2 /\ (h + j) / c < 2)%nat as [X Y]
    by (split; apply Nat.Div0.div_lt_upper_bound; lia).
  rewrite E in *. destruct ((h + i) / c)%nat as [|[|]], ((h + j) / c)%nat as [|[|]]; lia.
Qed.

Lemma holds_push db q r :
  holds db q -> count db <> capacity db ->
  holds (set_ring db (list_set (fifo db) ((head db + count db) mod capacity db) (Some r))
           (head db) (count db + 1)) (q ++ [r]).
Proof.
  intros [A B D E G S] N. rewrite E in *.
  assert (L : ((head db + List.length q) mod capacity db < List.length (fifo db))%nat)
    by (rewrite B; apply Nat.mod_upper_bound; lia).
  split; cbn; rewrite ?list_set_length, ?length_app; cbn; auto; try lia.
  intros i x Hi. destruct (Nat.eq_dec i (List.length q)) as [->|Ne].
  - rewrite nth_error_app2, Nat.sub_diag in Hi by lia. inv Hi. now apply list_set_same.
  - assert (i < List.length q)%nat.
    { assert (K : nth_error (q ++ [r]) i <> None) by congruence.
      apply nth_error_Some in K. rewrite length_app in K. cbn in K. lia. }
    rewrite nth_error_app1 in Hi by lia. rewrite list_set_other; [auto|].
    intros K. apply Ne. symmetry. apply (mod_slot_inj (head db) _ _ (capacity db)); lia.
Qed.

Lemma holds_peek db r q : holds db (r :: q) -> nth_error (fifo db) (head db) = Some (Some r).
Proof.
  intros [A B D E G L]. specialize (L O r eq_refl).
  rewrite Nat.add_0_r, Nat.mod_small in L by lia. exact L.
Qed.

Lemma holds_pop db r q :
  holds db (r :: q) -> holds (set_ring db (fifo db) ((head db + 1) mod capacity db) (count db - 1)) q.
Proof.
  intros [A B D E G L]. cbn in *. split; cbn; auto; try lia.
  - apply Nat.mod_upper_bound. unfold ALPHA_PG_MIN_PIPELINE_DEPTH in *. lia.
  - intros i x Hi. rewrite Nat.Div0.add_mod_idemp_l.
    replace (head db + 1 + i)%nat with (head db + S i)%nat by lia. now apply (L (S i)).
Qed.

(** The calls made for requests [q] answered by results [rs], one each. *)
Definition call_of (r : pending_request_t) (pg : PGresult) : list completion :=
  match callback r with
  | Some c => [{| called := c; call_result := decode_result (kind r) pg; call_user_data := user_data r |}]
  | None => []
  end.

Fixpoint calls_of (q : list pending_request_t) (rs : list PGresult) : list completion :=
  match q, rs with
  | r :: q, pg :: rs => call_of r pg ++ calls_of q rs
  | _, _ => []
  end.

(** Of the queue [q] the oldest requests [answered] were answered by [rs], with the
    calls [out], and [db'] holds the rest. *)
Definition answers (q : list pending_request_t) (db' : alpha_pg)
    (out : list completion) (answered : list pending_request_t) (rs : list PGresult) : Prop :=
  exists rest, q = answered ++ rest /\ List.length rs = List.length answered /\ holds db' rest /\
    out = calls_of answered rs.

Lemma answers_nil db q db' : same_ring db db' -> holds db q -> answers q db' [] [] [].
Proof. intros S H. exists q. repeat split; auto. all: now apply (holds_same_ring db db' q S H). Qed.

Lemma drain_one_answers db q pg :
  holds db q ->
  exists go db' out answered rs, drain_one db pg = Some (go, db', out) /\
    answers q db' out answered rs /\ conn db' = conn db /\
    (state db' = state db \/ (state db' = ALPHA_PG_FAILED /\ go = false)) /\
    (go = true -> connect_poll db' = connect_poll db).
Proof.
  intros H. unfold drain_one. destruct (status_eqb _ PGRES_PIPELINE_SYNC).
  { do 5 eexists. split; [reflexivity|]. split; [|cbn; intuition].
    eapply answers_nil; [|exact H]; repeat split. }
  destruct q as [|r q].
  { rewrite (holds_count _ _ H). cbn. do 5 eexists. split; [reflexivity|].
    split; [|cbn; intuition discriminate]. eapply answers_nil; [|exact H]; repeat split. }
  rewrite (holds_count _ _ H). cbn [List.length Nat.eqb]. rewrite (holds_peek _ _ _ H).
  set (res := decode_result (kind r) pg).
  set (db1 := if result_ok res then db else _).
  assert (S : same_ring db db1) by (subst db1; destruct (result_ok res); repeat split).
  assert (K : conn db1 = conn db /\ state db1 = state db /\ connect_poll db1 = connect_poll db)
    by (subst db1; destruct (result_ok res); auto).
  pose proof (holds_same_ring _ _ _ S H) as H1. unfold complete_head.
  rewrite (holds_peek _ _ _ H1). exists true. do 2 eexists. exists [r], [pg].
  split; [reflexivity|]. split; [|cbn; intuition].
  exists q. repeat split; auto. all: try (apply (holds_pop _ _ _ H1)).
  cbn. rewrite app_nil_r. reflexivity.
Qed.

Lemma calls_of_app q1 q2 rs1 rs2 :
  List.length rs1 = List.length q1 -> calls_of (q1 ++ q2) (rs1 ++ rs2) = calls_of q1 rs1 ++ calls_of q2 rs2.
Proof.
  revert rs1; induction q1 as [|r q1 IH]; intros [|pg rs1] H; cbn in *; try discriminate; auto.
  rewrite IH by lia. now rewrite app_assoc.
Qed.

Lemma answers_trans q db1 out1 a1 rs1 db2 out2 a2 rs2 rest :
  q = a1 ++ rest -> answers q db1 out1 a1 rs1 -> answers rest db2 out2 a2 rs2 ->
  answers q db2 (out1 ++ out2) (a1 ++ a2) (rs1 ++ rs2).
Proof.
  intros -> (r1 & _ & L1 & _ & ->) (r2 & -> & L2 & H2 & ->). exists r2.
  rewrite app_assoc, !length_app, calls_of_app by lia. repeat split; auto; lia || apply H2.
Qed.

Lemma drain_answers fuel db q db' e out :
  holds db q -> state db = ALPHA_PG_READY -> drain_results fuel db = Some (db', e, out) ->
  (exists answered rs, answers q db' out answered rs) /\
  (state db' = ALPHA_PG_READY \/ state db' = ALPHA_PG_FAILED).
Proof.
  revert db q out; induction fuel as [|fuel IH]; intros db q out H R D; [discriminate|]. cbn in D.
  destruct (PQisBusy (conn db)).
  { inv D. split; [|auto]. exists [], []. eapply answers_nil; [|exact H]; repeat split. }
  destruct (PQgetResult (conn db)) as [c pg].
  assert (S : same_ring db (set_conn db c)) by repeat split.
  pose proof (holds_same_ring _ _ _ S H) as H1. destruct pg as [pg|].
  2:{ destruct (_ || _); [exact (IH _ _ _ H1 R D)|]. inv D. split; [|auto].
      exists [], []. eapply answers_nil; [exact S|exact H]. }
  destruct (drain_one_answers _ _ pg H1) as (go & db1 & o1 & a1 & rs1 & E & A & _ & T & _).
  rewrite E in D. destruct go.
  - destruct (drain_results fuel db1) as [[[db2 e2] o2]|] eqn:D1; [|discriminate]. inv D.
    destruct A as (rest & Q & L & H2 & O).
    destruct (IH db1 rest o2 H2) as ((a2 & rs2 & A2) & T2); [|exact D1|].
    { destruct T as [T|[T ?]]; [|discriminate]. now rewrite T. }
    split; [|exact T2]. exists (a1 ++ a2), (rs1 ++ rs2).
    apply (answers_trans _ db1 _ _ _ _ _ _ _ rest); auto. exists rest; auto.
  - inv D. split; [exists a1, rs1; exact A|]. destruct T as [T|[T _]]; rewrite T; auto.
Qed.

(** ** The connection's life as a step relation *)

Definition rank (s : alpha_pg_state_t) : nat :=
  match s with ALPHA_PG_CONNECTING => 0 | ALPHA_PG_READY => 1 | ALPHA_PG_FAILED => 2 end.

(** The invariant: the ring holds [q], and a client that still connects holds
    nothing and waits for exactly one of the two readinesses. *)
Record pg_inv (db : alpha_pg) (q : list pending_request_t) : Prop := {
  inv_holds : holds db q;
  inv_connecting : state db = ALPHA_PG_CONNECTING ->
    q = [] /\ sync_sent db = false /\ flush_pending db = false /\
    poll_reading (connect_poll db) = negb (poll_writing (connect_poll db))
}.

Lemma pg_inv_ready db q : holds db q -> state db <> ALPHA_PG_CONNECTING -> pg_inv db q.
Proof. intros H N. split; [exact H|contradiction]. Qed.

Lemma connect_start_inv conninfo depth alloc connect out e db :
  alpha_pg_connect_start conninfo depth alloc connect out = (e, Some (Some db)) ->
  out = Some None -> pg_inv db [].
Proof.
  unfold alpha_pg_connect_start. intros E ->. destruct conninfo as [ci|]; [|discriminate].
  destruct (_ || _) eqn:G; [discriminate|]. apply orb_false_iff in G as [G1 G2].
  apply Nat.ltb_ge in G1, G2. unfold ALPHA_PG_MIN_PIPELINE_DEPTH in G1. destruct alloc as [[|] [|]]; cbn in E; try discriminate.
  destruct (connect ci) as [c|]; [|discriminate].
  assert (K : forall d, capacity d = depth -> fifo d = repeat None depth -> head d = O -> count d = O ->
              holds d []).
  { intros d K1 K2 K3 K4. split; rewrite ?K1, ?K2, ?K3, ?K4, ?repeat_length; cbn; auto; try lia.
    intros [|i]; discriminate. }
  destruct (PQstatus_bad c); [|destruct (PQsetnonblocking c) as [c' r]; destruct (negb (r =? 0))];
    inv E; split; try (apply K; reflexivity); cbn; try discriminate; auto.
Qed.

Lemma service_connect_inv db q r w db' e :
  pg_inv db q -> state db = ALPHA_PG_CONNECTING -> service_connect db r w = (db', e) ->
  pg_inv db' q /\ same_ring db db'.
Proof.
  intros [H C] S E. destruct (C S) as (-> & Y & F & W). unfold service_connect in E.
  destruct (negb _) in E.
  { inv E. split; [|repeat split]. split; auto. }
  destruct (PQconnectPoll (conn db)) as [c p].
  destruct p; cbn in E.
  4: destruct (PQenterPipelineMode c) as [c' r'] in E; destruct (negb (r' =? 1)) in E.
  all: inv E; split; [|repeat split].
  all: split; [apply (holds_same_ring db); [repeat split|exact H]|cbn; intros; try discriminate; auto].
Qed.

Lemma service_sync_ring db w :
  state db = ALPHA_PG_READY ->
  match service_sync db w with
  | inl db' => same_ring db db' /\ state db' = ALPHA_PG_READY
  | inr (db', e) => same_ring db db' /\ state db' = ALPHA_PG_FAILED /\ e = ALPHA_ERR_DB
  end.
Proof.
  intros R. unfold service_sync. destruct (_ && _); [|repeat split; auto].
  destruct (PQpipelineSync (conn db)) as [c r]. destruct (negb (r =? 1)); repeat split; auto.
Qed.

Lemma service_flush_ring db w :
  state db = ALPHA_PG_READY ->
  match service_flush db w with
  | inl db' => same_ring db db' /\ state db' = ALPHA_PG_READY
  | inr (db', e) => same_ring db db' /\ state db' = ALPHA_PG_READY /\ e = ALPHA_ERR_DB
  end.
Proof.
  intros R. unfold service_flush. destruct (_ && _); [|repeat split; auto].
  destruct (PQflush (conn db)) as [c r]. destruct (r <? 0); repeat split; auto.
Qed.

Lemma same_ring_trans a b c : same_ring a b -> same_ring b c -> same_ring a c.
Proof. unfold same_ring. intros (A & B & C & D) (A' & B' & C' & D'). repeat split; congruence. Qed.

(** A service call answers a prefix of the queue, keeps the invariant and never
    moves the connection back in its life. *)
Lemma service_step fuel db q r w db' e out :
  pg_inv db q -> alpha_pg_service fuel (Some db) r w = Some (Some db', e, out) ->
  (exists answered rs rest, q = answered ++ rest /\ List.length rs = List.length answered /\
     out = calls_of answered rs /\ pg_inv db' rest) /\
  (rank (state db) <= rank (state db'))%nat.
Proof.
  intros I E. cbn in E. destruct (state db) eqn:S; cbn in E.
  - destruct (service_connect db r w) as [d1 e1] eqn:C. inv E.
    destruct (service_connect_inv _ _ _ _ _ _ I S C) as [J _].
    split; [exists [], [], q; auto|apply Nat.le_0_l].
  - assert (R : forall d a, same_ring db d -> state d <> ALPHA_PG_CONNECTING -> a = ([] : list completion) ->
              exists an rs rest, q = an ++ rest /\ List.length rs = List.length an /\ a = calls_of an rs /\
              pg_inv d rest).
    { intros d a SR N ->. exists [], [], q. repeat split; auto.
      all: try (apply (holds_same_ring _ _ _ SR (inv_holds _ _ I))). all: contradiction. }
    pose proof (service_sync_ring db w S) as Y. destruct (service_sync db w) as [d1|[d1 e1]].
    2:{ destruct Y as (Y & T & _). inv E. rewrite T. split; [apply R; auto; congruence|cbn; lia]. }
    destruct Y as (Y & T1).
    pose proof (service_flush_ring d1 w T1) as F. destruct (service_flush d1 w) as [d2|[d2 e2]].
    2:{ destruct F as (F & T & _). inv E. rewrite T.
        split; [apply R; [eapply same_ring_trans; eauto|congruence|auto]|cbn; lia]. }
    destruct F as (F & T2). pose proof (same_ring_trans _ _ _ Y F) as G.
    unfold service_read in E. destruct r.
    2:{ inv E. rewrite T2. split; [apply R; auto; congruence|cbn; lia]. }
    destruct (PQconsumeInput (conn d2)) as [c z].
    assert (G3 : same_ring db (set_conn d2 c)) by exact G.
    destruct (negb (z =? 1)).
    { inv E. split; [apply R; auto; cbn; congruence|cbn; rewrite T2; cbn; lia]. }
    destruct (drain_results fuel (set_conn d2 c)) as [[[d3 e3] o3]|] eqn:D; [|discriminate]. inv E.
    pose proof (holds_same_ring _ _ _ G3 (inv_holds _ _ I)) as H3.
    destruct (drain_answers _ _ _ _ _ _ H3 T2 D) as ((a & rs & rest & -> & L & H4 & ->) & T4).
    split; [|destruct T4 as [-> | ->]; cbn; lia].
    exists a, rs, rest. repeat split; auto. all: try apply H4.
    all: destruct T4; congruence.
  - inv E. rewrite S. split; [exists [], [], q; auto|lia].
Qed.

Definition accepted (e : alpha_err_t) (k : alpha_pg_result_kind_t) (cb : option Z) (ud : Z)
  : list pending_request_t :=
  match e with ALPHA_OK => [{| kind := k; callback := cb; user_data := ud |}] | _ => [] end.

Lemma send_step db q k sql ps cb ud db' e :
  pg_inv db q -> send_request (Some db) k sql ps cb ud = (Some db', e) ->
  pg_inv db' (q ++ accepted e k cb ud) /\ state db' = state db.
Proof.
  intros I E. cbn in E. unfold is_ready in E.
  destruct (state db) eqn:S; cbn in E; try (inv E; rewrite app_nil_r; auto; fail).
  destruct (count db =? capacity db)%nat eqn:F; [inv E; rewrite app_nil_r; auto|].
  apply Nat.eqb_neq in F.
  destruct (sync_sent db); [inv E; rewrite app_nil_r; auto|].
  destruct (PQsendQueryParams (conn db) sql ps) as [c r]. destruct (negb (r =? 1)).
  - inv E. rewrite app_nil_r. split; [|auto]. apply pg_inv_ready; [|cbn; congruence].
    apply (holds_same_ring db); [repeat split|apply I].
  - pose proof (holds_push db q {| kind := k; callback := cb; user_data := ud |} (inv_holds _ _ I) F) as H.
    cbn in E. destruct (PQflush c) as [c' z]. inv E. split; [|auto].
    apply pg_inv_ready; [|cbn; congruence]. refine (holds_same_ring _ _ _ _ H). repeat split.
Qed.

(** The requests accepted and the calls made so far by a client that reached [db]. *)
Inductive pg_run : list pending_request_t -> list completion -> alpha_pg -> Prop :=
  | run_start conninfo depth alloc connect e db :
      alpha_pg_connect_start conninfo depth alloc connect (Some None) = (e, Some (Some db)) ->
      pg_run [] [] db
  | run_service acc calls db fuel r w db' e out :
      pg_run acc calls db -> alpha_pg_service fuel (Some db) r w = Some (Some db', e, out) ->
      pg_run acc (calls ++ out) db'
  | run_upsert acc calls db p cb ud db' e :
      pg_run acc calls db -> alpha_pg_upsert_position (Some db) p cb ud = (Some db', e) ->
      pg_run (acc ++ accepted e ALPHA_PG_RESULT_POSITION cb ud) calls db'
  | run_exposure acc calls db t cb ud db' e :
      pg_run acc calls db -> alpha_pg_query_exposure (Some db) t cb ud = (Some db', e) ->
      pg_run (acc ++ accepted e ALPHA_PG_RESULT_EXPOSURE cb ud) calls db'.

Lemma upsert_step db q p cb ud db' e :
  pg_inv db q -> alpha_pg_upsert_position (Some db) p cb ud = (Some db', e) ->
  pg_inv db' (q ++ accepted e ALPHA_PG_RESULT_POSITION cb ud) /\ state db' = state db.
Proof.
  intros I E. unfold alpha_pg_upsert_position in E. destruct p as [p|].
  - destruct (_ || _); [inv E; rewrite app_nil_r; auto|exact (send_step _ _ _ _ _ _ _ _ _ I E)].
  - inv E. rewrite app_nil_r; auto.
Qed.

Lemma exposure_step db q t cb ud db' e :
  pg_inv db q -> alpha_pg_query_exposure (Some db) t cb ud = (Some db', e) ->
  pg_inv db' (q ++ accepted e ALPHA_PG_RESULT_EXPOSURE cb ud) /\ state db' = state db.
Proof.
  intros I E. unfold alpha_pg_query_exposure in E. destruct t as [t|].
  - destruct (_ || _); [inv E; rewrite app_nil_r; auto|exact (send_step _ _ _ _ _ _ _ _ _ I E)].
  - inv E. rewrite app_nil_r; auto.
Qed.

Lemma run_inv acc calls db :
  pg_run acc calls db ->
  exists answered rs q, acc = answered ++ q /\ List.length rs = List.length answered /\
    calls = calls_of answered rs /\ pg_inv db q.
Proof.
  induction 1 as [ci depth al co e db E|acc calls db fuel r w db' e out R IH E
                 |acc calls db p cb ud db' e R IH E|acc calls db t cb ud db' e R IH E].
  - exists [], [], []. do 3 (split; [reflexivity|]). exact (connect_start_inv _ _ _ _ _ _ _ E eq_refl).
  - destruct IH as (a & rs & q & -> & L & -> & I).
    destruct (service_step _ _ _ _ _ _ _ _ I E) as ((a2 & rs2 & rest & -> & L2 & -> & J) & _).
    exists (a ++ a2), (rs ++ rs2), rest. rewrite app_assoc, calls_of_app, !length_app by auto.
    do 3 (split; [auto; lia|]). exact J.
  - destruct IH as (a & rs & q & -> & L & -> & I). destruct (upsert_step _ _ _ _ _ _ _ I E) as [J _].
    eexists a, rs, _. rewrite <- app_assoc. do 3 (split; [auto|]). exact J.
  - destruct IH as (a & rs & q & -> & L & -> & I). destruct (exposure_step _ _ _ _ _ _ _ I E) as [J _].
    eexists a, rs, _. rewrite <- app_assoc. do 3 (split; [auto|]). exact J.
Qed.

(** C12: Everything accepted is answered at most once and in order: at any point of a
    client's life the accepted requests are the answered ones followed by those
    the ring still holds, and the calls made are exactly one per answered request
    that has a callback, in the order of acceptance, each with the result decoded
    for that request's own kind. *)
Theorem pipeline_fifo acc calls db :
  pg_run acc calls db ->
  exists answered rs q, acc = answered ++ q /\ List.length rs = List.length answered /\
    calls = calls_of answered rs /\ holds db q /\ alpha_pg_pending (Some db) = List.length q /\
    (List.length q <= alpha_pg_capacity (Some db) <= 64)%nat.
Proof.
  intros R. destruct (run_inv _ _ _ R) as (a & rs & q & -> & L & -> & [H _]).
  exists a, rs, q. do 4 (split; [auto|]). split; [apply (holds_count _ _ H)|].
  split; [apply (holds_fits _ _ H)|apply (holds_cap _ _ H)].
Qed.

(** A writable service that succeeds leaves no queued request without its sync. *)
Lemma service_syncs fuel db db' out :
  state db = ALPHA_PG_READY -> alpha_pg_service fuel (Some db) false true = Some (Some db', ALPHA_OK, out) ->
  (0 < count db')%nat -> sync_sent db' = true.
Proof.
  intros S E N. unfold alpha_pg_service in E. rewrite S in E. cbn [is_failed is_connecting] in E.
  destruct (service_sync db true) as [d1|[d1 e1]] eqn:Y; [|unfold service_sync in Y; cbn [andb] in Y;
    destruct (_ && _); [destruct (PQpipelineSync _) as [c r]; destruct (negb _); inv Y; inv E|discriminate]].
  destruct (service_flush d1 true) as [d2|[d2 e2]] eqn:F; [|unfold service_flush in F; cbn in F;
    destruct (flush_pending d1); [destruct (PQflush _) as [c r]; destruct (_ <? 0); inv F; inv E|discriminate]].
  cbn in E. inv E.
  assert (G : count db' = count d1 /\ sync_sent db' = sync_sent d1).
  { unfold service_flush in F. cbn in F. destruct (flush_pending d1); [|inv F; auto].
    destruct (PQflush _) as [c r]. destruct (_ <? 0); inv F. auto. }
  destruct G as [G1 G2]. rewrite G1 in N. rewrite G2. unfold service_sync in Y. cbn [andb] in Y.
  destruct ((0 <? count db)%nat && negb (sync_sent db)) eqn:C.
  - destruct (PQpipelineSync _) as [c r]. destruct (negb (r =? 1)); inv Y. reflexivity.
  - inv Y. destruct (sync_sent d1); [reflexivity|]. apply Nat.ltb_lt in N. rewrite N in C. discriminate.
Qed.

(** C30: No lost wakeup.  A client that still connects waits for exactly one readiness,
    one that is ready and not idle waits for at least one, a failed one for none.
    Write readiness is awaited whenever it would be used: if it is not wanted, a
    writable service does nothing at all (so no request is left without its sync and
    no output unflushed).  Read readiness is awaited whenever a completion is due: if
    it is not wanted, no service completes a request.  And a wanted wakeup is not
    wasted: after a successful writable service every queued request has its sync. *)
Theorem no_lost_wakeup acc calls db :
  pg_run acc calls db ->
  (state db = ALPHA_PG_CONNECTING ->
     alpha_pg_wants_read (Some db) = negb (alpha_pg_wants_write (Some db)) /\ alpha_pg_is_idle (Some db) = true) /\
  (state db = ALPHA_PG_READY -> alpha_pg_is_idle (Some db) = false ->
     alpha_pg_wants_read (Some db) || alpha_pg_wants_write (Some db) = true) /\
  (state db = ALPHA_PG_FAILED ->
     alpha_pg_wants_read (Some db) || alpha_pg_wants_write (Some db) = false) /\
  (state db <> ALPHA_PG_FAILED -> alpha_pg_wants_write (Some db) = false ->
     forall fuel, alpha_pg_service fuel (Some db) false true = Some (Some db, ALPHA_OK, [])) /\
  (alpha_pg_wants_read (Some db) = false ->
     forall fuel r w db' e out, alpha_pg_service fuel (Some db) r w = Some (Some db', e, out) -> out = []) /\
  (state db = ALPHA_PG_READY -> forall fuel db' out,
     alpha_pg_service fuel (Some db) false true = Some (Some db', ALPHA_OK, out) ->
     (0 < alpha_pg_pending (Some db'))%nat -> sync_sent db' = true).
Proof.
  intros R. destruct (run_inv _ _ _ R) as (a & rs & q & _ & _ & _ & I). pose proof I as [H C].
  split; [|split; [|split; [|split; [|split]]]].
  - intros S. unfold alpha_pg_wants_read, alpha_pg_wants_write, alpha_pg_is_idle. rewrite S. cbn.
    destruct (C S) as (-> & -> & -> & ->). rewrite (holds_count _ _ H). cbn.
    destruct (poll_writing (connect_poll db)); auto.
  - intros S. unfold alpha_pg_wants_read, alpha_pg_wants_write, alpha_pg_is_idle. rewrite S. cbn.
    destruct (count db) as [|n]; cbn; [|auto].
    destruct (sync_sent db); cbn; [auto|]. destruct (flush_pending db); cbn; congruence.
  - intros S. unfold alpha_pg_wants_read, alpha_pg_wants_write. now rewrite S.
  - intros S W fuel. unfold alpha_pg_wants_write in W. unfold alpha_pg_service.
    destruct (state db); [| |congruence]; cbn in W |- *.
    + unfold service_connect. rewrite andb_false_r. destruct (poll_writing (connect_poll db)); [discriminate|reflexivity].
    + unfold service_sync, service_flush. cbn. destruct (flush_pending db) eqn:Fl; [discriminate|]. cbn in W.
      destruct (_ && _); [discriminate|]. now rewrite Fl.
  - intros W fuel r w db' e out E. destruct (is_failed (state db)) eqn:Fd; [cbn in E; rewrite Fd in E; now inv E|].
    destruct (service_step _ _ _ _ _ _ _ _ I E) as ((an & rs' & rest & Q & Ln & -> & _) & _).
    enough (N : q = []) by (subst q; destruct an; [|discriminate]; destruct rs'; [reflexivity|discriminate]).
    unfold alpha_pg_wants_read in W. destruct (state db) eqn:S; cbn in W.
    + apply (C eq_refl).
    + apply length_zero_iff_nil. rewrite <- (holds_count _ _ H). now destruct (count db).
    + discriminate.
  - intros S fuel db' out. now apply service_syncs.
Qed.

(** The life of a connection only moves forward, connecting to ready to failed, in
    every operation, and a failed one refuses everything without changing. *)
Theorem life_is_forward acc calls db :
  pg_run acc calls db ->
  (forall fuel r w db' e out, alpha_pg_service fuel (Some db) r w = Some (Some db', e, out) ->
     (rank (state db) <= rank (state db'))%nat) /\
  (forall p cb ud db' e, alpha_pg_upsert_position (Some db) p cb ud = (Some db', e) -> state db' = state db) /\
  (forall t cb ud db' e, alpha_pg_query_exposure (Some db) t cb ud = (Some db', e) -> state db' = state db) /\
  (state db = ALPHA_PG_FAILED ->
     (forall fuel r w, alpha_pg_service fuel (Some db) r w = Some (Some db, ALPHA_ERR_INVALID_ARG, [])) /\
     (forall p cb ud, alpha_pg_upsert_position (Some db) p cb ud = (Some db, ALPHA_ERR_INVALID_ARG)) /\
     (forall t cb ud, alpha_pg_query_exposure (Some db) t cb ud = (Some db, ALPHA_ERR_INVALID_ARG))).
Proof.
  intros R. destruct (run_inv _ _ _ R) as (a & rs & q & _ & _ & _ & I).
  split; [|split; [|split]].
  - intros. now apply (service_step _ _ _ _ _ _ _ _ I H).
  - intros. now apply (upsert_step _ _ _ _ _ _ _ I H).
  - intros. now apply (exposure_step _ _ _ _ _ _ _ I H).
  - intros S. split; [|split]; intros; cbn; rewrite ?S; auto.
    + unfold alpha_pg_upsert_position. destruct p; [|auto]. destruct (_ || _); [auto|]. cbn. now rewrite S.
    + unfold alpha_pg_query_exposure. destruct t; [|auto]. destruct (_ || _); [auto|]. cbn. now rewrite S.
Qed.

End Client.

Arguments alpha_pg : clear implicits.

(** ** libpq in pipeline mode *)

Definition is_sync (pg : PGresult) : bool := status_eqb (PQresultStatus pg) PGRES_PIPELINE_SYNC.

(** How many requests, and how many sync points, a list of deliveries answers. *)
Fixpoint requests (l : list (option PGresult)) : nat :=
  match l with
  | [] => 0
  | Some pg :: l => if is_sync pg then requests l else S (requests l)
  | None :: l => requests l
  end.
Fixpoint syncs (l : list (option PGresult)) : nat :=
  match l with
  | [] => 0
  | Some pg :: l => if is_sync pg then S (syncs l) else syncs l
  | None :: l => syncs l
  end.

(** The NULL boundaries. *)
Fixpoint bounds (l : list (option PGresult)) : nat :=
  match l with [] => 0 | Some _ :: l => bounds l | None :: l => S (bounds l) end.

(** The documented behaviour of pipeline mode: a sent query is answered by one
    result and then a NULL boundary, a sync point by one result of its own, in the
    order they were sent; [PQgetResult] delivers the next of them when the
    connection is not busy, and NULL when nothing is outstanding; flushing and
    reading the socket change nothing of that sequence. *)
Class PipelineLaws (P : Type) {pq : LibPQ P} := {
  items : P -> list (option PGresult);
  law_get : forall c, PQisBusy c = false ->
    match items c with
    | [] => PQgetResult c = (c, None)
    | i :: rest => exists c', PQgetResult c = (c', i) /\ items c' = rest
    end;
  law_consume : forall c, items (fst (PQconsumeInput c)) = items c;
  law_flush : forall c, items (fst (PQflush c)) = items c;
  law_send : forall c sql ps c' r, PQsendQueryParams c sql ps = (c', r) ->
    if r =? 1 then exists pg, is_sync pg = false /\ items c' = items c ++ [Some pg; None]
    else items c' = items c;
  law_sync : forall c c' r, PQpipelineSync c = (c', r) ->
    if r =? 1 then exists pg, is_sync pg = true /\ items c' = items c ++ [Some pg]
    else items c' = items c
}.

Section Pipeline.
Context {P : Type} {pq : LibPQ P} {laws : PipelineLaws P}.

(** The client and libpq agree on what is outstanding. *)
Definition coherent (db : alpha_pg P) : Prop :=
  requests (items (conn db)) = count db /\ syncs (items (conn db)) = (if sync_sent db then 1 else 0)%nat.

Lemma requests_app l1 l2 : requests (l1 ++ l2) = (requests l1 + requests l2)%nat.
Proof. induction l1 as [|[pg|] l1 IH]; cbn; auto. destruct (is_sync pg); cbn; lia. Qed.

Lemma syncs_app l1 l2 : syncs (l1 ++ l2) = (syncs l1 + syncs l2)%nat.
Proof. induction l1 as [|[pg|] l1 IH]; cbn; auto. destruct (is_sync pg); cbn; lia. Qed.

Lemma bounds_app l1 l2 : bounds (l1 ++ l2) = (bounds l1 + bounds l2)%nat.
Proof. induction l1 as [|[pg|] l1 IH]; cbn; auto. Qed.

Lemma deliveries_length l : List.length l = (requests l + syncs l + bounds l)%nat.
Proof. induction l as [|[pg|] l IH]; cbn; [reflexivity|destruct (is_sync pg); cbn; lia|lia]. Qed.

Lemma drain_one_coherent db q pg rest :
  holds db q ->
  requests (Some pg :: rest) = count db -> syncs (Some pg :: rest) = (if sync_sent db then 1 else 0)%nat ->
  items (conn db) = rest ->
  exists db' out q', drain_one db pg = Some (true, db', out) /\ coherent db' /\ holds db' q' /\
    conn db' = conn db /\ state db' = state db.
Proof.
  intros H Rq Sy It. unfold drain_one, coherent. fold (is_sync pg). cbn in Rq, Sy.
  destruct (is_sync pg).
  { do 3 eexists. split; [reflexivity|]. split; [|split; [apply (holds_same_ring db); [repeat split|exact H]|auto]].
    cbn. rewrite It. split; [auto|]. destruct (sync_sent db); lia. }
  destruct q as [|r q]; [rewrite (holds_count _ _ H) in Rq; discriminate|].
  rewrite <- Rq. cbn [Nat.eqb]. rewrite (holds_peek _ _ _ H).
  set (db1 := if result_ok _ then db else _).
  assert (S : same_ring db db1) by (subst db1; destruct (result_ok _); repeat split).
  assert (K : conn db1 = conn db /\ state db1 = state db /\ sync_sent db1 = sync_sent db)
    by (subst db1; destruct (result_ok _); auto).
  pose proof (holds_same_ring _ _ _ S H) as H1. unfold complete_head. rewrite (holds_peek _ _ _ H1).
  do 3 eexists. split; [reflexivity|].
  destruct K as (K1 & K2 & K3), S as (_ & _ & _ & K4).
  split; [|split; [apply (holds_pop _ _ _ H1)|auto]].
  cbn. rewrite K1, K3, K4, It. split; [lia|exact Sy].
Qed.

Lemma drain_total fuel db q :
  holds db q -> coherent db -> (List.length (items (conn db)) < fuel)%nat ->
  exists db' out, drain_results fuel db = Some (db', ALPHA_OK, out) /\ coherent db' /\
    state db' = state db /\ (bounds (items (conn db')) <= bounds (items (conn db)))%nat.
Proof.
  revert db q; induction fuel as [|fuel IH]; intros db q H C F; [lia|]. cbn.
  destruct (PQisBusy (conn db)) eqn:B; [do 2 eexists; split; [reflexivity|auto]|].
  pose proof (law_get _ B) as G. destruct C as [Rq Sy].
  destruct (items (conn db)) as [|i rest] eqn:It.
  { rewrite G. cbn in Rq, Sy. cbn. rewrite <- Rq. destruct (sync_sent db) eqn:Y; [discriminate|].
    cbn. do 2 eexists. split; [reflexivity|]. unfold coherent. cbn. rewrite It, Y. auto. }
  destruct G as (c' & -> & It').
  assert (H1 : holds (set_conn db c') q) by (apply (holds_same_ring db); [repeat split|exact H]).
  destruct i as [pg|].
  - destruct (drain_one_coherent (set_conn db c') q pg rest H1 Rq Sy It')
      as (db1 & o1 & q1 & -> & C1 & H2 & E & T).
    destruct (IH db1 q1 H2 C1) as (db2 & o2 & -> & C2 & T2 & N2); [rewrite E; cbn in F |- *; rewrite It'; lia|].
    do 2 eexists. split; [reflexivity|]. split; [exact C2|]. split; [now rewrite T2, T|].
    rewrite E in N2. cbn in N2 |- *. now rewrite It' in N2.
  - assert (C' : coherent (set_conn db c')) by (unfold coherent; cbn; rewrite It'; auto).
    destruct (_ || sync_sent db).
    + destruct (IH (set_conn db c') q H1 C') as (db2 & o2 & -> & C2 & T2 & N2); [cbn in *; rewrite It'; lia|].
      do 2 eexists. split; [reflexivity|]. cbn in N2 |- *. rewrite It' in N2. auto.
    + do 2 eexists. split; [reflexivity|]. split; [exact C'|]. cbn. rewrite It'. auto.
Qed.

Lemma drain_more fuel db res :
  drain_results fuel db = Some res -> forall fuel', (fuel <= fuel')%nat -> drain_results fuel' db = Some res.
Proof.
  revert db res; induction fuel as [|fuel IH]; intros db res D fuel' L; [discriminate|].
  destruct fuel' as [|fuel']; [lia|]. cbn in D |- *. destruct (PQisBusy (conn db)); [exact D|].
  destruct (PQgetResult (conn db)) as [c [pg|]].
  - destruct (drain_one (set_conn db c) pg) as [[[[|] db1] o1]|]; try exact D.
    destruct (drain_results fuel db1) as [[[db2 e2] o2]|] eqn:E; [|discriminate].
    rewrite (IH _ _ E fuel'); [exact D|lia].
  - destruct (_ || _); [apply (IH _ _ D); lia|exact D].
Qed.

Lemma service_more fuel db r w res :
  alpha_pg_service fuel db r w = Some res ->
  forall fuel', (fuel <= fuel')%nat -> alpha_pg_service fuel' db r w = Some res.
Proof.
  unfold alpha_pg_service, service_read. intros E fuel' L. destruct db as [db|]; [|exact E].
  destruct (is_failed _); [exact E|]. destruct (is_connecting _); [exact E|].
  destruct (service_sync db w) as [d1|]; [|exact E]. destruct (service_flush d1 w) as [d2|]; [|exact E].
  destruct r; [|exact E]. destruct (PQconsumeInput _) as [c z]. destruct (negb _); [exact E|].
  destruct (drain_results fuel _) as [x|] eqn:D; [|discriminate]. now rewrite (drain_more _ _ _ D _ L).
Qed.

Lemma service_sync_coherent db w :
  coherent db ->
  coherent (match service_sync db w with inl db' => db' | inr (db', _) => db' end).
Proof.
  intros [Rq Sy]. unfold service_sync. destruct (_ && _) eqn:G; [|split; auto].
  rewrite !andb_true_iff, negb_true_iff in G. destruct G as [[_ _] G].
  destruct (PQpipelineSync (conn db)) as [c r] eqn:E. pose proof (law_sync _ _ _ E) as L.
  destruct (r =? 1); cbn; unfold coherent; cbn.
  - destruct L as (pg & S & ->). rewrite requests_app, syncs_app, Rq, Sy, G. cbn. rewrite S. split; lia.
  - rewrite L. auto.
Qed.

Lemma service_sync_bounds db w :
  bounds (items (conn (match service_sync db w with inl db' => db' | inr (db', _) => db' end))) =
  bounds (items (conn db)).
Proof.
  unfold service_sync. destruct (_ && _); [|reflexivity].
  destruct (PQpipelineSync (conn db)) as [c r] eqn:E. pose proof (law_sync _ _ _ E) as L.
  destruct (r =? 1); cbn; [|now rewrite L].
  destruct L as (pg & S & ->). rewrite bounds_app. cbn. lia.
Qed.

Lemma service_flush_items db w :
  items (conn (match service_flush db w with inl db' => db' | inr (db', _) => db' end)) = items (conn db).
Proof.
  unfold service_flush. destruct (_ && _); [|reflexivity].
  pose proof (law_flush (conn db)) as L. destruct (PQflush (conn db)) as [c r]. cbn in L.
  now destruct (r <? 0).
Qed.

Lemma service_flush_coherent db w :
  coherent db ->
  coherent (match service_flush db w with inl db' => db' | inr (db', _) => db' end).
Proof.
  intros [Rq Sy]. unfold service_flush. destruct (_ && _); [|split; auto].
  pose proof (law_flush (conn db)) as L. destruct (PQflush (conn db)) as [c r]. cbn in L.
  destruct (r <? 0); unfold coherent; cbn; rewrite L; auto.
Qed.

(** A service call on a ready client returns within one turn of the drain loop per
    delivery outstanding, counting the sync point it may queue. *)
Lemma service_total fuel db q r w :
  pg_inv db q -> coherent db -> state db = ALPHA_PG_READY ->
  (count db + bounds (items (conn db)) + 1 < fuel)%nat ->
  exists db' e out, alpha_pg_service fuel (Some db) r w = Some (Some db', e, out) /\
    coherent db' /\ (bounds (items (conn db')) <= bounds (items (conn db)))%nat /\
    (state db' = ALPHA_PG_READY \/
     state db' = ALPHA_PG_FAILED /\ e = ALPHA_ERR_DB /\ w = true /\ snd (PQpipelineSync (conn db)) <> 1).
Proof.
  intros I C R F. unfold alpha_pg_service. rewrite R. cbn [is_failed is_connecting].
  pose proof (service_sync_ring db w R) as Y. pose proof (service_sync_coherent db w C) as C1.
  pose proof (service_sync_bounds db w) as B1.
  destruct (service_sync db w) as [d1|[d1 e1]] eqn:E1.
  2:{ do 3 eexists. split; [reflexivity|]. split; [exact C1|]. split; [lia|]. right.
      destruct Y as (_ & Y2 & Y3). do 2 (split; [assumption|]).
      unfold service_sync in E1. destruct (_ && _) eqn:G; [|discriminate].
      rewrite !andb_true_iff in G. split; [tauto|].
      destruct (PQpipelineSync (conn db)) as [c z]. cbn. destruct (z =? 1) eqn:Z; [discriminate|lia]. }
  destruct Y as [Y T1].
  pose proof (service_flush_ring d1 w T1) as G. pose proof (service_flush_coherent d1 w C1) as C2.
  pose proof (service_flush_items d1 w) as B2.
  destruct (service_flush d1 w) as [d2|[d2 e2]].
  2:{ do 3 eexists. split; [reflexivity|]. split; [exact C2|]. rewrite B2. split; [lia|]. left. tauto. }
  destruct G as [G T2]. unfold service_read. destruct r.
  2:{ do 3 eexists. split; [reflexivity|]. rewrite B2. split; [auto|]. split; [lia|auto]. }
  pose proof (law_consume (conn d2)) as L. destruct (PQconsumeInput (conn d2)) as [c z]. cbn in L.
  assert (C3 : coherent (set_conn d2 c)) by (destruct C2; split; cbn; rewrite L; assumption).
  destruct (negb (z =? 1)).
  { do 3 eexists. split; [reflexivity|]. split; [exact C3|]. cbn. rewrite L, B2. split; [lia|auto]. }
  pose proof (same_ring_trans _ _ _ Y G) as SR.
  assert (H : holds (set_conn d2 c) q) by (apply (holds_same_ring db); [exact SR|apply I]).
  destruct (drain_total fuel _ _ H C3) as (d3 & o3 & D & C4 & T4 & N4).
  { rewrite deliveries_length. destruct C3 as [-> ->]. cbn. rewrite L, B2.
    destruct SR as (_ & _ & _ & SC). rewrite SC. destruct (sync_sent d2); lia. }
  rewrite D. do 3 eexists. split; [reflexivity|]. split; [exact C4|].
  cbn in N4. rewrite L, B2 in N4. split; [lia|]. left. now rewrite T4.
Qed.

(** C13: Under libpq's pipeline contract a service call on a ready client always
    returns (the drain loop stops as soon as it ran once per outstanding delivery),
    keeps client and libpq in agreement, and fails the connection only when the
    sync point cannot be queued: a result never arrives without its request. *)
Theorem service_terminates db q r w :
  pg_inv db q -> coherent db -> state db = ALPHA_PG_READY ->
  exists db' e out n, (forall fuel, (n <= fuel)%nat ->
      alpha_pg_service fuel (Some db) r w = Some (Some db', e, out)) /\
    coherent db' /\
    (state db' = ALPHA_PG_READY \/
     state db' = ALPHA_PG_FAILED /\ e = ALPHA_ERR_DB /\ w = true /\ snd (PQpipelineSync (conn db)) <> 1).
Proof.
  intros I C R. set (n := (count db + bounds (items (conn db)) + 2)%nat).
  destruct (service_total n db q r w I C R ltac:(lia)) as (db' & e & out & E & C' & _ & S).
  exists db', e, out, n. split; [|auto]. intros fuel L. exact (service_more _ _ _ _ _ E fuel L).
Qed.

Lemma send_coherent db q k sql ps cb ud db' e :
  pg_inv db q -> coherent db -> send_request (Some db) k sql ps cb ud = (Some db', e) -> coherent db'.
Proof.
  intros I [Rq Sy] E. cbn in E. destruct (negb (is_ready (state db))); [inv E; split; auto|].
  destruct (count db =? capacity db)%nat; [inv E; split; auto|].
  destruct (sync_sent db) eqn:Y; [inv E; split; rewrite ?Y; auto|].
  destruct (PQsendQueryParams (conn db) sql ps) as [c r] eqn:Q. pose proof (law_send _ _ _ _ _ Q) as L.
  destruct (r =? 1); cbn in E.
  - destruct L as (pg & S & L). pose proof (law_flush c) as F. destruct (PQflush c) as [c' z]. inv E.
    unfold coherent. cbn in *. rewrite F, L, requests_app, syncs_app. cbn. rewrite S, Y. split; lia.
  - inv E. unfold coherent. cbn. rewrite L, Y. auto.
Qed.

(** A request adds one boundary, and only when it is accepted. *)
Lemma send_bounds db k sql ps cb ud db' e :
  send_request (Some db) k sql ps cb ud = (Some db', e) ->
  (bounds (items (conn db')) <=
   bounds (items (conn db)) + match e with ALPHA_OK => 1 | _ => 0 end)%nat.
Proof.
  intros E. cbn in E. destruct (negb (is_ready (state db))); [inv E; lia|].
  destruct (count db =? capacity db)%nat; [inv E; lia|]. destruct (sync_sent db); [inv E; lia|].
  destruct (PQsendQueryParams (conn db) sql ps) as [c r] eqn:Q. pose proof (law_send _ _ _ _ _ Q) as L.
  destruct (r =? 1); cbn in E.
  - destruct L as (pg & _ & L). pose proof (law_flush c) as F. destruct (PQflush c) as [c' z]. inv E.
    cbn in *. rewrite F, L, bounds_app. cbn. lia.
  - inv E. cbn. rewrite L. lia.
Qed.

End Pipeline.

(** ** A reference connection

    A server that answers every query at once: the deliveries in order, and how
    many of them have arrived. *)

Record ref_conn := { deliveries : list (option PGresult); arrived : nat }.

Definition row (status : ExecStatusType) (fields : list string) : PGresult :=
  {| PQresultStatus := status; PQntuples := 1; PQgetvalue := fun i => nth i fields "";
     PQresultErrorMessage := "" |}.

#[export] Instance ref_pq : LibPQ ref_conn := {|
  PQstatus_bad c := false;
  PQsetnonblocking c := (c, 0);
  PQsocket c := 3;
  PQconnectPoll c := (c, PGRES_POLLING_OK);
  PQenterPipelineMode c := (c, 1);
  PQpipelineSync c :=
    ({| deliveries := deliveries c ++ [Some (row PGRES_PIPELINE_SYNC [])]; arrived := arrived c |}, 1);
  PQflush c := (c, 0);
  PQconsumeInput c := ({| deliveries := deliveries c; arrived := List.length (deliveries c) |}, 1);
  PQisBusy c := negb (List.length (deliveries c) =? 0)%nat && (arrived c =? 0)%nat;
  PQgetResult c :=
    match deliveries c with
    | [] => (c, None)
    | i :: rest => ({| deliveries := rest; arrived := arrived c - 1 |}, i)
    end;
  PQsendQueryParams c sql ps :=
    ({| deliveries := deliveries c ++ [Some (row PGRES_TUPLES_OK ps); None]; arrived := arrived c |}, 1);
  PQerrorMessage c := ""
|}.

#[export] Instance ref_pipeline : PipelineLaws ref_conn.
Proof.
  refine {| items := deliveries |}.
  - intros c _. cbn. destruct (deliveries c) as [|i rest]; [destruct c; reflexivity|].
    eexists. split; reflexivity.
  - reflexivity.
  - reflexivity.
  - intros c sql ps c' r E. inv E. cbn. eexists. split; [|reflexivity]. reflexivity.
  - intros c c' r E. inv E. cbn. eexists. split; [|reflexivity]. reflexivity.
Defined.

Definition ref_start : alpha_err_t * option (option (alpha_pg ref_conn)) :=
  alpha_pg_connect_start (Some "dbname=alpha") 2 (true, true)
    (fun _ => Some {| deliveries := []; arrived := 0 |}) (Some None).

Definition ref_db0 : alpha_pg ref_conn :=
  match ref_start with
  | (_, Some (Some db)) => db
  | _ => {| conn := {| deliveries := []; arrived := 0 |}; state := ALPHA_PG_FAILED;
            connect_poll := PGRES_POLLING_FAILED; flush_pending := false; sync_sent := false;
            fifo := []; capacity := 0; head := 0; count := 0; error := "" |}
  end.

Definition the {A} (d : A) (x : option A) : A := match x with Some a => a | None => d end.

Definition ref_serve (db : alpha_pg ref_conn) (r w : bool) : alpha_pg ref_conn :=
  match alpha_pg_service 20 (Some db) r w with
  | Some (Some db', _, _) => db'
  | _ => db
  end.

Definition ref_ready : alpha_pg ref_conn := ref_serve ref_db0 false true.
Definition ref_one : alpha_pg ref_conn :=
  the ref_ready (fst (alpha_pg_query_exposure (Some ref_ready) (Some "005930") (Some 7) 70)).
Definition ref_two : alpha_pg ref_conn :=
  the ref_ready (fst (alpha_pg_query_exposure (Some ref_one) (Some "000660") (Some 8) 80)).













(** *** A conversation with the reference server: two exposures, one drain *)

Definition ref_request (cb ud : Z) : pending_request_t :=
  {| kind := ALPHA_PG_RESULT_EXPOSURE; callback := Some cb; user_data := ud |}.

Lemma ref_ready_run : pg_run [] [] ref_ready.
Proof.
  apply (run_service [] [] ref_db0 20 false true _ ALPHA_OK []); [|vm_compute; reflexivity].
  now apply (run_start (Some "dbname=alpha") 2 (true, true)
               (fun _ => Some {| deliveries := []; arrived := 0 |}) ALPHA_OK).
Qed.

Lemma ref_two_run : pg_run [ref_request 7 70; ref_request 8 80] [] ref_two.
Proof.
  apply (run_exposure [ref_request 7 70] [] ref_one (Some "000660") (Some 8) 80 _ ALPHA_OK);
    [|vm_compute; reflexivity].
  apply (run_exposure [] [] ref_ready (Some "005930") (Some 7) 70 _ ALPHA_OK);
    [exact ref_ready_run|vm_compute; reflexivity].
Qed.

(** The fields echoed are no exposure row, so both requests end in [ALPHA_ERR_DB]. *)
Definition ref_error : alpha_pg_result_t :=
  {| result_kind := ALPHA_PG_RESULT_EXPOSURE; result_status := ALPHA_ERR_DB; value := VALUE_NONE |}.

Lemma pipeline_fifo_witness :
  exists answered rs q, [ref_request 7 70; ref_request 8 80] = answered ++ q /\
    List.length rs = List.length answered /\
    [{| called := 7; call_result := ref_error; call_user_data := 70 |};
     {| called := 8; call_result := ref_error; call_user_data := 80 |}] = calls_of answered rs /\
    holds (ref_serve ref_two true true) q /\
    alpha_pg_pending (Some (ref_serve ref_two true true)) = List.length q /\
    (List.length q <= alpha_pg_capacity (Some (ref_serve ref_two true true)) <= 64)%nat.
Proof.
  apply pipeline_fifo.
  apply (run_service [ref_request 7 70; ref_request 8 80] [] ref_two 20 true true _ ALPHA_OK
           [{| called := 7; call_result := ref_error; call_user_data := 70 |};
            {| called := 8; call_result := ref_error; call_user_data := 80 |}]);
    [exact ref_two_run|vm_compute; reflexivity].
Defined.

(** The three situations: connecting, idle (nothing to write) and two requests that
    wait for their sync. *)
Lemma no_lost_wakeup_witness :
  (alpha_pg_wants_read (Some ref_db0) = negb (alpha_pg_wants_write (Some ref_db0)) /\
   alpha_pg_is_idle (Some ref_db0) = true) /\
  (alpha_pg_wants_write (Some ref_ready) = false /\
   forall fuel, alpha_pg_service fuel (Some ref_ready) false true = Some (Some ref_ready, ALPHA_OK, [])) /\
  (alpha_pg_wants_write (Some ref_two) = true /\
   alpha_pg_wants_read (Some ref_two) || alpha_pg_wants_write (Some ref_two) = true /\
   sync_sent (ref_serve ref_two false true) = true).
Proof.
  split; [|split].
  - apply (no_lost_wakeup [] [] ref_db0); [|reflexivity].
    now apply (run_start (Some "dbname=alpha") 2 (true, true)
                 (fun _ => Some {| deliveries := []; arrived := 0 |}) ALPHA_OK).
  - split; [vm_compute; reflexivity|].
    apply (no_lost_wakeup _ _ ref_ready ref_ready_run); vm_compute; [discriminate|reflexivity].
  - destruct (no_lost_wakeup _ _ ref_two ref_two_run) as (_ & A & _ & _ & _ & B).
    split; [vm_compute; reflexivity|]. split; [apply A; vm_compute; reflexivity|].
    apply (B eq_refl 20%nat _ []); [vm_compute; reflexivity|]. vm_compute. lia.
Defined.

Lemma life_is_forward_witness :
  (rank (state ref_two) <= rank (state (ref_serve ref_two true true)))%nat.
Proof.
  apply (proj1 (life_is_forward _ _ ref_two ref_two_run) 20%nat true true _ ALPHA_OK
           [{| called := 7; call_result := ref_error; call_user_data := 70 |};
            {| called := 8; call_result := ref_error; call_user_data := 80 |}]).
  vm_compute; reflexivity.
Defined.

Lemma service_terminates_witness :
  exists db' e out n, (forall fuel, (n <= fuel)%nat ->
      alpha_pg_service fuel (Some ref_two) true true = Some (Some db', e, out)) /\
    coherent db' /\
    (state db' = ALPHA_PG_READY \/
     state db' = ALPHA_PG_FAILED /\ e = ALPHA_ERR_DB /\ true = true /\ snd (PQpipelineSync (conn ref_two)) <> 1).
Proof.
  apply (service_terminates ref_two [ref_request 7 70; ref_request 8 80]);
    [|split; vm_compute; reflexivity|vm_compute; reflexivity].
  assert (S : state ref_two = ALPHA_PG_READY) by (vm_compute; reflexivity).
  apply pg_inv_ready; [|rewrite S; discriminate].
  split; try (vm_compute; lia); try (vm_compute; reflexivity).
  intros [|[|[|i]]] r Hr; try discriminate; injection Hr as <-; vm_compute; reflexivity.
Defined.
