(* ===== verification/RedisAsync.v ===== *)
(** * The asynchronous redis adapter

    Models [core/platform/cache/redis_async.c]: the adapter between hiredis' async
    API and the event loop of its owner.  hiredis is a parameter, the class
    [HiredisAsync]: a call returns what is left of the context and the sequence of
    hooks and callbacks hiredis ran during the call, which the adapter's handlers
    process in order.  The calls to the owner's four functions are the notices an
    operation returns; the owner's functions do not re-enter the adapter. *)

From Stdlib Require Import ZArith Lia Bool List Ascii String.
From S2P Require Import Prelude CStr Domain RedisCache.
Import ListNotations.
Open Scope string_scope.
Open Scope list_scope.
Open Scope Z_scope.

Definition ALPHA_REDIS_ASYNC_MAX_PENDING : nat := 64.
Definition ALPHA_REDIS_WATCH_NONE : Z := 0.
Definition ALPHA_REDIS_WATCH_READ : Z := 1.
Definition ALPHA_REDIS_WATCH_WRITE : Z := 2.

(** The calls made to the owner. *)
Inductive notice :=
  | WATCH_FN (socket_fd watch : Z)
  | TIMER_FN (timeout_ms : Z)
  | CONNECT_FN (status : alpha_err_t)
  | REPLY_FN (status : alpha_err_t) (text : option string) (integer user_data : Z).

(** What hiredis runs: the event hooks with the descriptor of the context, and the
    three callbacks. *)
Inductive event :=
  | EvAddRead (fd : Z) | EvDelRead (fd : Z) | EvAddWrite (fd : Z) | EvDelWrite (fd : Z)
  | EvCleanup (fd : Z)
  | EvScheduleTimer (tv_sec tv_usec : Z)
  | EvConnected (ok : bool)
  | EvDisconnected (fd : Z)
  | EvReplied (reply : option redisReply) (user_data : Z).

(** The async API.  A handler returns [None] for the context when hiredis freed it
    during the call. *)
Class HiredisAsync (C : Type) := {
  ctx_fd : C -> Z;
  ctx_err : C -> Z;
  redisAsyncConnect : string -> Z -> option C;
  redisAsyncSetConnectCallback : C -> C * list event * bool;
  redisAsyncSetDisconnectCallback : C -> C * list event * bool;
  redisAsyncHandleRead : C -> option C * list event;
  redisAsyncHandleWrite : C -> option C * list event;
  redisAsyncHandleTimeout : C -> option C * list event;
  redisAsyncCommandArgv : C -> list string -> Z -> C * list event * bool;
  redisAsyncFree : C -> list event
}.

Section Adapter.
Context {C : Type} {hiredis : HiredisAsync C}.

(** What the context pointer refers to when it is not NULL. *)
Inductive ctx_ref := LIVE (c : C) | FREED.

(** The four owner functions and their context are fixed at creation; see [notice]. *)
Record alpha_redis_async := {
  context : option ctx_ref;
  host : string;
  port : Z;
  watch : Z;
  pending : nat
}.

Definition set_context (r : alpha_redis_async) (c : option ctx_ref) : alpha_redis_async :=
  {| context := c; host := host r; port := port r; watch := watch r; pending := pending r |}.
Definition set_watch (r : alpha_redis_async) (w : Z) : alpha_redis_async :=
  {| context := context r; host := host r; port := port r; watch := w; pending := pending r |}.
Definition set_pending (r : alpha_redis_async) (n : nat) : alpha_redis_async :=
  {| context := context r; host := host r; port := port r; watch := watch r; pending := n |}.

(** ** Hooks and callbacks *)

Definition publish_watch (r : alpha_redis_async) (fd : Z) : notice :=
  WATCH_FN (match context r with Some _ => fd | None => -1 end) (watch r).

(** [~mask] at 32 bits. *)
Definition not_u32 (mask : Z) : Z := u32 (Z.lnot mask).

Definition add_read (r : alpha_redis_async) (fd : Z) : alpha_redis_async * list notice :=
  let r := set_watch r (Z.lor (watch r) ALPHA_REDIS_WATCH_READ) in (r, [publish_watch r fd]).
Definition del_read (r : alpha_redis_async) (fd : Z) : alpha_redis_async * list notice :=
  let r := set_watch r (Z.land (watch r) (not_u32 ALPHA_REDIS_WATCH_READ)) in (r, [publish_watch r fd]).
Definition add_write (r : alpha_redis_async) (fd : Z) : alpha_redis_async * list notice :=
  let r := set_watch r (Z.lor (watch r) ALPHA_REDIS_WATCH_WRITE) in (r, [publish_watch r fd]).
Definition del_write (r : alpha_redis_async) (fd : Z) : alpha_redis_async * list notice :=
  let r := set_watch r (Z.land (watch r) (not_u32 ALPHA_REDIS_WATCH_WRITE)) in (r, [publish_watch r fd]).
Definition cleanup (r : alpha_redis_async) (fd : Z) : alpha_redis_async * list notice :=
  let r := set_watch r ALPHA_REDIS_WATCH_NONE in (r, [publish_watch r fd]).

(** [/] truncates; the sum is kept in [Z], its range being the caller's. *)
Definition schedule_timer (tv_sec tv_usec : Z) : list notice :=
  [TIMER_FN (tv_sec * 1000 + Z.quot tv_usec 1000)].

Definition connected (ok : bool) : list notice := [CONNECT_FN (if ok then ALPHA_OK else ALPHA_ERR_IO)].

Definition disconnected (r : alpha_redis_async) (fd : Z) : alpha_redis_async * list notice :=
  (set_watch (set_context r None) ALPHA_REDIS_WATCH_NONE,
   [WATCH_FN fd ALPHA_REDIS_WATCH_NONE; CONNECT_FN ALPHA_ERR_IO]).

Definition replied (r : alpha_redis_async) (reply : option redisReply) (user_data : Z)
  : alpha_redis_async * list notice :=
  let r := if (0 <? pending r)%nat then set_pending r (pending r - 1) else r in
  let '(status, text, integer) :=
    match reply with
    | Some (REDIS_REPLY_STRING str) | Some (REDIS_REPLY_STATUS str) => (ALPHA_OK, Some str, 0)
    | Some (REDIS_REPLY_INTEGER i) => (ALPHA_OK, None, i)
    | Some REDIS_REPLY_NIL => (ALPHA_OK, None, 0)
    | _ => (ALPHA_ERR_IO, None, 0)
    end in
  (r, [REPLY_FN status text integer user_data]).

(** The handler hiredis has for each event. *)
Definition handle (r : alpha_redis_async) (ev : event) : alpha_redis_async * list notice :=
  match ev with
  | EvAddRead fd => add_read r fd
  | EvDelRead fd => del_read r fd
  | EvAddWrite fd => add_write r fd
  | EvDelWrite fd => del_write r fd
  | EvCleanup fd => cleanup r fd
  | EvScheduleTimer s us => (r, schedule_timer s us)
  | EvConnected ok => (r, connected ok)
  | EvDisconnected fd => disconnected r fd
  | EvReplied reply ud => replied r reply ud
  end.

Fixpoint run_events (r : alpha_redis_async) (evs : list event) : alpha_redis_async * list notice :=
  match evs with
  | [] => (r, [])
  | ev :: evs =>
      let '(r, out) := handle r ev in
      let '(r, outs) := run_events r evs in
      (r, out ++ outs)
  end.

(** ** Operations *)

(** The context is live while hiredis runs its events, and what is left of it after
    the call is [remains] unless a handler has dropped it. *)
Definition after_call (r : alpha_redis_async) (remains : option C) (evs : list event)
  : alpha_redis_async * list notice :=
  run_events (set_context r (Some (match remains with Some c => LIVE c | None => FREED end))) evs.

(** [redisAsyncFree (redis->context); redis->context = NULL]. *)
Definition free_context (r : alpha_redis_async) (c : C) : alpha_redis_async * list notice :=
  let '(r, out) := run_events r (redisAsyncFree c) in (set_context r None, out).

Definition start_connection (r : alpha_redis_async) : alpha_redis_async * alpha_err_t * list notice :=
  match redisAsyncConnect (host r) (port r) with
  | None => (set_context r None, ALPHA_ERR_IO, [])
  | Some c =>
      let r := set_context r (Some (LIVE c)) in
      (* no hook is installed yet when the context carries an error *)
      if negb (ctx_err c =? 0) then (set_context r None, ALPHA_ERR_IO, [])
      else
        let '(c, evs, ok) := redisAsyncSetConnectCallback c in
        let '(r, out1) := after_call r (Some c) evs in
        let '(c, r, out2, ok) :=
          if ok then
            let '(c, evs, ok) := redisAsyncSetDisconnectCallback c in
            let '(r, out) := after_call r (Some c) evs in (c, r, out, ok)
          else (c, r, [], false) in
        if negb ok then
          let '(r, out3) := free_context r c in (r, ALPHA_ERR_IO, out1 ++ out2 ++ out3)
        else (r, ALPHA_OK, out1 ++ out2)
  end.

(** [fns] says whether the four functions are given, [alloc] are the outcomes of the
    two allocations; the cell [out] is returned as it stands. *)
Definition alpha_redis_async_connect (h : option string) (p : Z) (fns : bool) (alloc : bool * bool)
    (out : option (option alpha_redis_async))
  : alpha_err_t * option (option alpha_redis_async) * list notice :=
  match h, out with
  | Some h, Some _ =>
      if (p <=? 0) || negb fns then (ALPHA_ERR_INVALID_ARG, out, [])
      else if negb (fst alloc) then (ALPHA_ERR_IO, out, [])
      else if negb (snd alloc) then (ALPHA_ERR_IO, out, [])
      else
        let r := {| context := None; host := h; port := p; watch := 0; pending := 0 |} in
        let '(r, e, ns) := start_connection r in
        match e with
        | ALPHA_OK => (ALPHA_OK, Some (Some r), ns)
        | _ => (ALPHA_ERR_IO, out, ns)
        end
  | _, _ => (ALPHA_ERR_INVALID_ARG, out, [])
  end.

(** The notices of the hooks run by [redisAsyncFree]; [None] frees a context twice. *)
Definition alpha_redis_async_close (redis : option alpha_redis_async) : option (list notice) :=
  match redis with
  | None => Some []
  | Some r =>
      match context r with
      | None => Some []
      | Some FREED => None
      | Some (LIVE c) => Some (snd (run_events r (redisAsyncFree c)))
      end
  end.

(** [redis->context != NULL && redis->context->err == 0]; [None] reads a freed context. *)
Definition context_status (r : alpha_redis_async) : option alpha_err_t :=
  match context r with
  | None => Some ALPHA_ERR_IO
  | Some FREED => None
  | Some (LIVE c) => Some (if ctx_err c =? 0 then ALPHA_OK else ALPHA_ERR_IO)
  end.

(** A handler call on the context if it is not NULL. *)
Definition call_handler (h : C -> option C * list event) (r : alpha_redis_async)
  : option (alpha_redis_async * list notice) :=
  match context r with
  | None => Some (r, [])
  | Some FREED => None
  | Some (LIVE c) => let '(remains, evs) := h c in Some (after_call r remains evs)
  end.

Definition bit_set (ready mask : Z) : bool := negb (Z.land (u32 ready) mask =? 0).

Definition alpha_redis_async_service (redis : option alpha_redis_async) (ready : Z)
  : option (option alpha_redis_async * alpha_err_t * list notice) :=
  match redis with
  | None => Some (None, ALPHA_ERR_INVALID_ARG, [])
  | Some r =>
      match context r with
      | None => Some (Some r, ALPHA_ERR_INVALID_ARG, [])
      | Some _ =>
          let? (r, out1) :=
            if bit_set ready ALPHA_REDIS_WATCH_READ then call_handler redisAsyncHandleRead r
            else Some (r, []) in
          let? (r, out2) :=
            if bit_set ready ALPHA_REDIS_WATCH_WRITE then call_handler redisAsyncHandleWrite r
            else Some (r, []) in
          let? status := context_status r in
          Some (Some r, status, out1 ++ out2)
      end
  end.

Definition alpha_redis_async_timeout (redis : option alpha_redis_async)
  : option (option alpha_redis_async * alpha_err_t * list notice) :=
  match redis with
  | None => Some (None, ALPHA_ERR_INVALID_ARG, [])
  | Some r =>
      match context r with
      | None => Some (Some r, ALPHA_ERR_INVALID_ARG, [])
      | Some _ =>
          let? (r, out) := call_handler redisAsyncHandleTimeout r in
          let? status := context_status r in
          Some (Some r, status, out)
      end
  end.

(** [argv] and [lengths] are the list of the arguments, cut to their lengths;
    [None] is NULL and an empty list an [argc] that is not positive. *)
Definition alpha_redis_async_command (redis : option alpha_redis_async) (argv : option (list string))
    (user_data : Z) : option (option alpha_redis_async * alpha_err_t * list notice) :=
  match redis, argv with
  | Some r, Some (a :: argv) =>
      match context r with
      | None => Some (redis, ALPHA_ERR_INVALID_ARG, [])
      | Some ref =>
          if (ALPHA_REDIS_ASYNC_MAX_PENDING <=? pending r)%nat then Some (redis, ALPHA_ERR_RANGE, [])
          else
            match ref with
            | FREED => None
            | LIVE c =>
                let '(c, evs, ok) := redisAsyncCommandArgv c (a :: argv) user_data in
                let '(r, out) := after_call r (Some c) evs in
                if negb ok then Some (Some r, ALPHA_ERR_IO, out)
                else Some (Some (set_pending r (pending r + 1)), ALPHA_OK, out)
            end
      end
  | _, _ => Some (redis, ALPHA_ERR_INVALID_ARG, [])
  end.

Definition LATEST_PREFIX : string := "redis:cache:latest_ticks:".

(** The key buffer has 256 bytes, the prefix 25 characters and its terminator. *)
Definition latest_key (ticker : option string) (capacity : Z) : alpha_err_t * string :=
  match ticker with
  | None | Some EmptyString => (ALPHA_ERR_INVALID_ARG, "")
  | Some ticker =>
      let sizeof_prefix := Z.of_nat (String.length LATEST_PREFIX + 1) in
      if Z.of_nat (String.length ticker) >? u64 (capacity - sizeof_prefix) then (ALPHA_ERR_RANGE, "")
      else (ALPHA_OK, (LATEST_PREFIX ++ ticker)%string)
  end.

Definition alpha_redis_async_set_latest_tick (redis : option alpha_redis_async)
    (ticker json_payload : option string) (user_data : Z)
  : option (option alpha_redis_async * alpha_err_t * list notice) :=
  match latest_key ticker 256, json_payload with
  | (ALPHA_OK, key), Some payload =>
      alpha_redis_async_command redis (Some ["SET"; key; payload; "EX"; "60"]) user_data
  | (ALPHA_OK, _), None => Some (redis, ALPHA_ERR_INVALID_ARG, [])
  | (e, _), _ => Some (redis, e, [])
  end.

Definition alpha_redis_async_get_latest_tick (redis : option alpha_redis_async)
    (ticker : option string) (user_data : Z)
  : option (option alpha_redis_async * alpha_err_t * list notice) :=
  match latest_key ticker 256 with
  | (ALPHA_OK, key) => alpha_redis_async_command redis (Some ["GET"; key]) user_data
  | (e, _) => Some (redis, e, [])
  end.

Definition alpha_redis_async_reconnect (redis : option alpha_redis_async)
  : option alpha_redis_async * alpha_err_t * list notice :=
  match redis with
  | None => (None, ALPHA_ERR_INVALID_ARG, [])
  | Some r =>
      match context r with
      | Some _ => (redis, ALPHA_ERR_RANGE, [])
      | None => let '(r, e, out) := start_connection r in (Some r, e, out)
      end
  end.

Definition alpha_redis_async_pending (redis : option alpha_redis_async) : nat :=
  match redis with Some r => pending r | None => O end.

(** [None] reads the descriptor of a freed context. *)
Definition alpha_redis_async_socket (redis : option alpha_redis_async) : option Z :=
  match redis with
  | Some r =>
      match context r with
      | Some (LIVE c) => Some (ctx_fd c)
      | Some FREED => None
      | None => Some (-1)
      end
  | None => Some (-1)
  end.

(** ** Lemmas *)

Lemma run_events_app r e1 e2 :
  run_events r (e1 ++ e2) =
  let '(r1, o1) := run_events r e1 in let '(r2, o2) := run_events r1 e2 in (r2, o1 ++ o2).
Proof.
  revert r; induction e1 as [|ev e1 IH]; intros r; cbn.
  - destruct (run_events r e2); reflexivity.
  - destruct (handle r ev) as [r1 o1]. rewrite IH. destruct (run_events r1 e1) as [r2 o2].
    destruct (run_events r2 e2). now rewrite app_assoc.
Qed.

(** The mask of the last watch notice, [d] when there is none. *)
Fixpoint last_watch (d : Z) (ns : list notice) : Z :=
  match ns with
  | [] => d
  | WATCH_FN _ w :: ns => last_watch w ns
  | _ :: ns => last_watch d ns
  end.

Lemma last_watch_app d n1 n2 : last_watch d (n1 ++ n2) = last_watch (last_watch d n1) n2.
Proof. revert d; induction n1 as [|[] n1 IH]; intros d; cbn; auto. Qed.

Definition watch_ok (w : Z) : Prop := 0 <= w <= 3.

(** The five masks a hook computes, over the four values of the field. *)
Lemma watch_cases w : watch_ok w ->
  watch_ok (Z.lor w ALPHA_REDIS_WATCH_READ) /\ watch_ok (Z.lor w ALPHA_REDIS_WATCH_WRITE) /\
  watch_ok (Z.land w (not_u32 ALPHA_REDIS_WATCH_READ)) /\
  watch_ok (Z.land w (not_u32 ALPHA_REDIS_WATCH_WRITE)).
Proof.
  intros H. unfold watch_ok in *. assert (C4 : w = 0 \/ w = 1 \/ w = 2 \/ w = 3) by lia.
  destruct C4 as [->|[->|[->| ->]]]; vm_compute; repeat split; discriminate.
Qed.

(** A handler tells the owner every change of the mask. *)
Lemma handle_watch r ev : watch_ok (watch r) ->
  watch_ok (watch (fst (handle r ev))) /\
  last_watch (watch r) (snd (handle r ev)) = watch (fst (handle r ev)).
Proof.
  intros H. destruct (watch_cases _ H) as (A & B & D & E).
  destruct ev; cbn; unfold watch_ok, ALPHA_REDIS_WATCH_NONE in *;
    try (split; [first [exact A|exact B|exact D|exact E|lia]|reflexivity]).
  unfold replied. destruct (0 <? pending r)%nat, reply as [[]|]; cbn; auto.
Qed.

Lemma run_events_watch r evs : watch_ok (watch r) ->
  watch_ok (watch (fst (run_events r evs))) /\
  last_watch (watch r) (snd (run_events r evs)) = watch (fst (run_events r evs)).
Proof.
  revert r; induction evs as [|ev evs IH]; intros r H; cbn; [auto|].
  pose proof (handle_watch r ev H) as [A B]. destruct (handle r ev) as [r1 o1]. cbn in A, B.
  destruct (IH r1 A) as [A2 B2]. destruct (run_events r1 evs) as [r2 o2]. cbn in *.
  split; [exact A2|]. now rewrite last_watch_app, B.
Qed.

Fixpoint replies (evs : list event) : nat :=
  match evs with
  | [] => 0
  | EvReplied _ _ :: evs => S (replies evs)
  | _ :: evs => replies evs
  end.

Definition is_disconnect (ev : event) : bool := match ev with EvDisconnected _ => true | _ => false end.

Lemma run_events_pending r evs :
  pending (fst (run_events r evs)) = (pending r - replies evs)%nat.
Proof.
  revert r; induction evs as [|ev evs IH]; intros r; cbn; [lia|].
  destruct (handle r ev) as [r1 o1] eqn:E. specialize (IH r1).
  destruct (run_events r1 evs) as [r2 o2]. cbn in *. rewrite IH.
  destruct ev; cbn in E; inv E; cbn; try lia.
  destruct reply as [[]|]; inv H0; destruct (0 <? pending r)%nat eqn:Z; cbn;
    apply Nat.ltb_lt in Z || apply Nat.ltb_ge in Z; lia.
Qed.

Lemma run_events_context r evs :
  context (fst (run_events r evs)) = if existsb is_disconnect evs then None else context r.
Proof.
  revert r; induction evs as [|ev evs IH]; intros r; cbn; [reflexivity|].
  destruct (handle r ev) as [r1 o1] eqn:E. specialize (IH r1).
  destruct (run_events r1 evs) as [r2 o2]. cbn in *. rewrite IH.
  destruct ev; cbn in E; inv E; cbn; try reflexivity.
  - now destruct (existsb _ evs).
  - destruct reply as [[]|]; inv H0; destruct (0 <? pending r)%nat; reflexivity.
Qed.

(** The reply functions called. *)
Fixpoint reply_notices (ns : list notice) : nat :=
  match ns with
  | [] => 0
  | REPLY_FN _ _ _ _ :: ns => S (reply_notices ns)
  | _ :: ns => reply_notices ns
  end.

Lemma reply_notices_app n1 n2 : reply_notices (n1 ++ n2) = (reply_notices n1 + reply_notices n2)%nat.
Proof. induction n1 as [|[] n1 IH]; cbn; auto. Qed.

Lemma run_events_replies r evs : reply_notices (snd (run_events r evs)) = replies evs.
Proof.
  revert r; induction evs as [|ev evs IH]; intros r; cbn; [reflexivity|].
  destruct (handle r ev) as [r1 o1] eqn:E. specialize (IH r1).
  destruct (run_events r1 evs) as [r2 o2]. cbn in *. rewrite reply_notices_app, IH.
  destruct ev; cbn in E; inv E; try reflexivity. destruct reply as [[]|]; inv H0; reflexivity.
Qed.

Lemma after_call_replies r remains evs r' out :
  after_call r remains evs = (r', out) -> reply_notices out = replies evs.
Proof.
  unfold after_call. intros E. pose proof (f_equal (fun x => reply_notices (snd x)) E) as F.
  cbv beta in F. rewrite run_events_replies in F. symmetry. exact F.
Qed.

Lemma after_call_spec r remains evs r' out :
  after_call r remains evs = (r', out) -> watch_ok (watch r) ->
  watch_ok (watch r') /\ last_watch (watch r) out = watch r' /\ pending r' = (pending r - replies evs)%nat /\
  context r' = (if existsb is_disconnect evs then None
                else Some (match remains with Some c => LIVE c | None => FREED end)).
Proof.
  unfold after_call. intros E W. set (r0 := set_context r _) in E.
  destruct (run_events_watch r0 evs W) as [A B]. pose proof (run_events_pending r0 evs) as D.
  pose proof (run_events_context r0 evs) as F. rewrite E in *. cbn in *. auto.
Qed.

End Adapter.

Arguments alpha_redis_async : clear implicits.
Arguments FREED {C}.

(** ** What hiredis promises

    [outstanding] counts the commands whose reply callback has not run.  A handler
    runs it once for each command answered, and for every remaining one when it
    frees the context, as [redisAsyncFree] does; it frees a context in which [up] holds
    (the connection is established, or the server will accept it) only together with
    the disconnect callback, and no other call runs reply or disconnect callbacks. *)
Class HiredisLaws (C : Type) {hiredis : HiredisAsync C} := {
  outstanding : C -> nat;
  up : C -> bool;
  law_fresh : forall h p c, redisAsyncConnect h p = Some c -> outstanding c = O;
  law_set_connect : forall c, let '(c', evs, _) := redisAsyncSetConnectCallback c in
    outstanding c' = outstanding c /\ replies evs = O /\ existsb is_disconnect evs = false;
  law_set_disconnect : forall c, let '(c', evs, _) := redisAsyncSetDisconnectCallback c in
    outstanding c' = outstanding c /\ replies evs = O /\ existsb is_disconnect evs = false;
  law_handler : forall h, In h [redisAsyncHandleRead; redisAsyncHandleWrite; redisAsyncHandleTimeout] ->
    forall c, let '(remains, evs) := h c in
      outstanding c = (replies evs + match remains with Some c' => outstanding c' | None => O end)%nat /\
      (existsb is_disconnect evs = true -> remains = None) /\
      (up c = true -> match remains with Some c' => up c' = true | None => existsb is_disconnect evs = true end);
  law_command : forall c argv ud, let '(c', evs, ok) := redisAsyncCommandArgv c argv ud in
    outstanding c' = (outstanding c + if ok then 1 else 0)%nat /\ replies evs = O /\
    existsb is_disconnect evs = false;
  law_free : forall c, replies (redisAsyncFree c) = outstanding c;
  law_up : forall c, up c = true ->
    up (fst (fst (redisAsyncSetConnectCallback c))) = true /\
    up (fst (fst (redisAsyncSetDisconnectCallback c))) = true /\
    forall argv ud, up (fst (fst (redisAsyncCommandArgv c argv ud))) = true
}.

(** Timers whose microseconds fit the signed 64-bit integer they are computed in. *)
Definition short_timers (evs : list event) : Prop :=
  Forall (fun ev => match ev with
                    | EvScheduleTimer s us => (s * 1000 + Z.quot us 1000) * 1000 <= INT64_MAX
                    | _ => True
                    end) evs.
Definition short_notices (ns : list notice) : Prop :=
  Forall (fun n => match n with TIMER_FN ms => ms * 1000 <= INT64_MAX | _ => True end) ns.

(** The server at the address accepts connections, and no timer is longer than that. *)
Record steady {C : Type} {hiredis : HiredisAsync C} {laws : HiredisLaws C} (h : string) (p : Z) : Prop := {
  steady_accepts : forall c, redisAsyncConnect h p = Some c -> up c = true;
  steady_set_connect : forall c, short_timers (snd (fst (redisAsyncSetConnectCallback c)));
  steady_set_disconnect : forall c, short_timers (snd (fst (redisAsyncSetDisconnectCallback c)));
  steady_handler : forall hd, In hd [redisAsyncHandleRead; redisAsyncHandleWrite; redisAsyncHandleTimeout] ->
    forall c, short_timers (snd (hd c));
  steady_command : forall c argv ud, short_timers (snd (fst (redisAsyncCommandArgv c argv ud)));
  steady_free : forall c, short_timers (redisAsyncFree c)
}.

Section Contract.
Context {C : Type} {hiredis : HiredisAsync C} {laws : HiredisLaws C}.

(** The invariant: the mask has two bits, at most 64 commands are pending, and they
    are exactly those hiredis still has to answer. *)
Definition adapter_ok (r : alpha_redis_async C) : Prop :=
  watch_ok (watch r) /\ (pending r <= ALPHA_REDIS_ASYNC_MAX_PENDING)%nat /\
  match context r with Some (LIVE c) => pending r = outstanding c | _ => pending r = O end.

(** [r'] is reached from [r] with the notices [out], which tell every change of the mask. *)
Definition told (r r' : alpha_redis_async C) (out : list notice) : Prop :=
  last_watch (watch r) out = watch r'.

Lemma told_trans r1 r2 r3 o1 o2 : told r1 r2 o1 -> told r2 r3 o2 -> told r1 r3 (o1 ++ o2).
Proof. unfold told. intros A B. now rewrite last_watch_app, A. Qed.

Lemma call_handler_ok h r r' out :
  In h [redisAsyncHandleRead; redisAsyncHandleWrite; redisAsyncHandleTimeout] ->
  adapter_ok r -> call_handler h r = Some (r', out) -> adapter_ok r' /\ told r r' out.
Proof.
  intros I (W & P & K) E. unfold call_handler in E.
  destruct (context r) as [[c|]|] eqn:X; [|discriminate|].
  2:{ inv E. split; [|reflexivity]. split; [exact W|]. rewrite X. auto. }
  pose proof (law_handler h I c) as L. destruct (h c) as [remains evs].
  destruct L as (O & D & _). apply some_inj in E.
  destruct (after_call_spec _ _ _ _ _ E W) as (W' & T & P' & X').
  split; [|exact T]. split; [exact W'|]. rewrite X', P'. split; [lia|].
  destruct (existsb is_disconnect evs).
  - rewrite (D eq_refl) in O. lia.
  - destruct remains; lia.
Qed.

Lemma start_connection_ok r r' e out :
  watch_ok (watch r) -> pending r = O -> start_connection r = (r', e, out) -> adapter_ok r' /\ told r r' out.
Proof.
  intros W P E. unfold start_connection in E.
  destruct (redisAsyncConnect (host r) (port r)) as [c|] eqn:F.
  2:{ inv E. split; [|reflexivity]. unfold adapter_ok; cbn. rewrite P. repeat split; auto; lia || apply W. }
  pose proof (law_fresh _ _ _ F) as OC.
  destruct (negb (ctx_err c =? 0)).
  { inv E. split; [|reflexivity]. unfold adapter_ok; cbn. rewrite P. repeat split; auto; lia || apply W. }
  pose proof (law_set_connect c) as L1. destruct (redisAsyncSetConnectCallback c) as [[c1 evs1] ok1].
  destruct L1 as (O1 & R1 & D1).
  destruct (after_call (set_context r (Some (LIVE c))) (Some c1) evs1) as [r1 out1] eqn:A1.
  destruct (after_call_spec _ _ _ _ _ A1 W) as (W1 & T1 & P1 & X1). cbn in T1, P1. rewrite D1 in X1.
  assert (S : exists c2 r2 out2 ok2,
    (if ok1 then let '(c, evs, ok) := redisAsyncSetDisconnectCallback c1 in
                 let '(r, out) := after_call r1 (Some c) evs in (c, r, out, ok)
     else (c1, r1, [], false)) = (c2, r2, out2, ok2) /\ watch_ok (watch r2) /\
    told r1 r2 out2 /\ pending r2 = O /\ context r2 = Some (LIVE c2) /\ outstanding c2 = O).
  { destruct ok1; [|exists c1, r1, [], false; repeat split; auto; lia || apply W1].
    pose proof (law_set_disconnect c1) as L2. destruct (redisAsyncSetDisconnectCallback c1) as [[c2 evs2] ok2].
    destruct L2 as (O2 & R2 & D2). destruct (after_call r1 (Some c2) evs2) as [r2 out2] eqn:A2.
    destruct (after_call_spec _ _ _ _ _ A2 W1) as (W2 & T2 & P2 & X2). rewrite D2 in X2.
    exists c2, r2, out2, ok2. repeat split; auto; lia || apply W2. }
  destruct S as (c2 & r2 & out2 & ok2 & S & W2 & T2 & P2 & X2 & O2). rewrite S in E.
  assert (T : told r r2 (out1 ++ out2)) by (unfold told in *; now rewrite last_watch_app, T1).
  destruct (negb ok2).
  - unfold free_context in E. pose proof (run_events_watch r2 (redisAsyncFree c2) W2) as [W3 T3].
    pose proof (run_events_pending r2 (redisAsyncFree c2)) as P3.
    destruct (run_events r2 (redisAsyncFree c2)) as [r3 out3]. cbn in *. inv E.
    split; [|unfold told in *; cbn; rewrite app_assoc, last_watch_app, T; exact T3].
    unfold adapter_ok; cbn. rewrite P3, P2. repeat split; auto; lia || apply W3.
  - inv E. split; [|exact T]. unfold adapter_ok. rewrite X2, P2. repeat split; auto; lia || apply W2.
Qed.

Lemma service_ok r ready r' e out :
  adapter_ok r -> alpha_redis_async_service (Some r) ready = Some (Some r', e, out) ->
  adapter_ok r' /\ told r r' out.
Proof.
  intros A E. cbn in E. destruct (context r) eqn:X; [|inv E; split; [exact A|reflexivity]].
  assert (S : forall b h r1 r2 o, In h [redisAsyncHandleRead; redisAsyncHandleWrite; redisAsyncHandleTimeout] ->
            adapter_ok r1 -> (if b : bool then call_handler h r1 else Some (r1, [])) = Some (r2, o) ->
            adapter_ok r2 /\ told r1 r2 o).
  { intros [|] h r1 r2 o I A1 F; [exact (call_handler_ok h _ _ _ I A1 F)|inv F; split; [exact A1|reflexivity]]. }
  destruct (if bit_set ready ALPHA_REDIS_WATCH_READ then _ else _) as [[r1 o1]|] eqn:F1; [|discriminate].
  apply S in F1 as [A1 T1]; [|cbn; auto|exact A].
  destruct (if bit_set ready ALPHA_REDIS_WATCH_WRITE then _ else _) as [[r2 o2]|] eqn:F2; [|discriminate].
  apply S in F2 as [A2 T2]; [|cbn; auto|exact A1].
  destruct (context_status r2); [|discriminate]. inv E. split; [exact A2|exact (told_trans _ _ _ _ _ T1 T2)].
Qed.

Lemma timeout_ok r r' e out :
  adapter_ok r -> alpha_redis_async_timeout (Some r) = Some (Some r', e, out) ->
  adapter_ok r' /\ told r r' out.
Proof.
  intros A E. cbn in E. destruct (context r) eqn:X; [|inv E; split; [exact A|reflexivity]].
  destruct (call_handler redisAsyncHandleTimeout r) as [[r1 o1]|] eqn:F; [|discriminate].
  destruct (context_status r1); [|discriminate]. inv E.
  apply (call_handler_ok redisAsyncHandleTimeout _ _ _ ltac:(cbn; auto) A F).
Qed.

Lemma command_ok r argv ud r' e out :
  adapter_ok r -> alpha_redis_async_command (Some r) argv ud = Some (Some r', e, out) ->
  adapter_ok r' /\ told r r' out.
Proof.
  intros A E. pose proof A as (W & P & K). unfold alpha_redis_async_command in E.
  destruct argv as [[|a argv]|]; try (inv E; split; [exact A|reflexivity]).
  destruct (context r) as [ref|] eqn:X; [|inv E; split; [exact A|reflexivity]].
  destruct (ALPHA_REDIS_ASYNC_MAX_PENDING <=? pending r)%nat eqn:B; [inv E; split; [exact A|reflexivity]|].
  apply Nat.leb_gt in B. destruct ref as [c|]; [|discriminate].
  pose proof (law_command c (a :: argv) ud) as L.
  destruct (redisAsyncCommandArgv c (a :: argv) ud) as [[c1 evs] ok]. destruct L as (O1 & R & D).
  destruct (after_call r (Some c1) evs) as [r1 o1] eqn:F.
  destruct (after_call_spec _ _ _ _ _ F W) as (W1 & T & P1 & X1). rewrite D in X1.
  destruct ok; cbn in E; inv E; (split; [|exact T]); unfold adapter_ok; cbn; rewrite X1, P1;
    repeat split; try lia; apply W1.
Qed.

Lemma reconnect_ok r r' e out :
  adapter_ok r -> alpha_redis_async_reconnect (Some r) = (Some r', e, out) -> adapter_ok r' /\ told r r' out.
Proof.
  intros A E. cbn in E. destruct (context r) eqn:X; [inv E; split; [exact A|reflexivity]|].
  destruct (start_connection r) as [[r1 e1] o1] eqn:F. inv E.
  destruct A as (W & _ & K). rewrite X in K. exact (start_connection_ok _ _ _ _ W K F).
Qed.

Lemma connect_ok h p fns alloc r ns :
  alpha_redis_async_connect h p fns alloc (Some None) = (ALPHA_OK, Some (Some r), ns) ->
  adapter_ok r /\ last_watch 0 ns = watch r.
Proof.
  unfold alpha_redis_async_connect. destruct h as [h|]; [|discriminate].
  destruct (_ || _); [discriminate|]. destruct (fst alloc); [|discriminate].
  destruct (snd alloc); [|discriminate]. cbn [negb].
  destruct (start_connection _) as [[r1 e1] o1] eqn:F. intros E.
  apply start_connection_ok in F as [A T]; [|unfold watch_ok; cbn; lia|reflexivity].
  destruct e1; inv E. auto.
Qed.

(** The replies delivered by an operation are those it takes off the pending count. *)
Definition settles (r r' : alpha_redis_async C) (out : list notice) : Prop :=
  pending r = (pending r' + reply_notices out)%nat.

Lemma call_handler_settles h r r' out :
  In h [redisAsyncHandleRead; redisAsyncHandleWrite; redisAsyncHandleTimeout] ->
  adapter_ok r -> call_handler h r = Some (r', out) -> settles r r' out.
Proof.
  intros I A E. unfold settles. unfold call_handler in E.
  destruct A as (W & _ & K). destruct (context r) as [[c|]|]; [|discriminate|inv E; cbn; lia].
  pose proof (law_handler h I c) as L. destruct (h c) as [remains evs]. apply some_inj in E.
  destruct (after_call_spec _ _ _ _ _ E W) as (_ & _ & P & _).
  rewrite (after_call_replies _ _ _ _ _ E), P. lia.
Qed.

Lemma service_settles r ready r' e out :
  adapter_ok r -> alpha_redis_async_service (Some r) ready = Some (Some r', e, out) -> settles r r' out.
Proof.
  intros A E. cbn in E. destruct (context r) eqn:X; [|inv E; unfold settles; cbn; lia].
  assert (S : forall b h r1 r2 o, In h [redisAsyncHandleRead; redisAsyncHandleWrite; redisAsyncHandleTimeout] ->
            adapter_ok r1 -> (if b : bool then call_handler h r1 else Some (r1, [])) = Some (r2, o) ->
            adapter_ok r2 /\ settles r1 r2 o).
  { intros [|] h r1 r2 o I A1 F; [|inv F; unfold settles; cbn; split; [exact A1|lia]].
    split; [apply (call_handler_ok h _ _ _ I A1 F)|exact (call_handler_settles h _ _ _ I A1 F)]. }
  destruct (if bit_set ready ALPHA_REDIS_WATCH_READ then _ else _) as [[r1 o1]|] eqn:F1; [|discriminate].
  apply S in F1 as [A1 T1]; [|cbn; auto|exact A].
  destruct (if bit_set ready ALPHA_REDIS_WATCH_WRITE then _ else _) as [[r2 o2]|] eqn:F2; [|discriminate].
  apply S in F2 as [A2 T2]; [|cbn; auto|exact A1].
  destruct (context_status r2); [|discriminate]. inv E. unfold settles in *. rewrite reply_notices_app. lia.
Qed.

Lemma timeout_settles r r' e out :
  adapter_ok r -> alpha_redis_async_timeout (Some r) = Some (Some r', e, out) -> settles r r' out.
Proof.
  intros A E. cbn in E. destruct (context r) eqn:X; [|inv E; unfold settles; cbn; lia].
  destruct (call_handler redisAsyncHandleTimeout r) as [[r1 o1]|] eqn:F; [|discriminate].
  destruct (context_status r1); [|discriminate]. inv E.
  exact (call_handler_settles redisAsyncHandleTimeout _ _ _ ltac:(cbn; auto) A F).
Qed.

(** A command delivers no reply, and is pending once it is accepted. *)
Lemma command_pending r argv ud r' e out :
  adapter_ok r -> alpha_redis_async_command (Some r) argv ud = Some (Some r', e, out) ->
  reply_notices out = O /\
  pending r' = (pending r + match e with ALPHA_OK => 1 | _ => 0 end)%nat.
Proof.
  intros (W & _) E. unfold alpha_redis_async_command in E.
  destruct argv as [[|a argv]|]; try (inv E; cbn; lia).
  destruct (context r) as [ref|]; [|inv E; cbn; lia].
  destruct (ALPHA_REDIS_ASYNC_MAX_PENDING <=? pending r)%nat; [inv E; cbn; lia|].
  destruct ref as [c|]; [|discriminate]. pose proof (law_command c (a :: argv) ud) as L.
  destruct (redisAsyncCommandArgv c (a :: argv) ud) as [[c1 evs] ok]. destruct L as (_ & R & _).
  destruct (after_call r (Some c1) evs) as [r1 o1] eqn:F. rewrite <- (after_call_replies _ _ _ _ _ F) in R.
  destruct (after_call_spec _ _ _ _ _ F W) as (_ & _ & P & _).
  rewrite <- (after_call_replies _ _ _ _ _ F), R in P. destruct ok; inv E; cbn; lia.
Qed.

Lemma connect_pending h p fns alloc out e out' ns :
  alpha_redis_async_connect h p fns alloc out = (e, out', ns) ->
  reply_notices ns = O /\
  (if match e with ALPHA_OK => true | _ => false end then exists r, out' = Some (Some r) /\ pending r = O
   else out' = out).
Proof.
  unfold alpha_redis_async_connect. destruct h as [h|]; [|intros E; inv E; auto].
  destruct out as [out|]; [|intros E; inv E; auto].
  destruct (_ || _); [intros E; inv E; auto|].
  destruct (fst alloc); [|intros E; inv E; auto].
  destruct (snd alloc); [|intros E; inv E; auto]. cbn [negb].
  set (r0 := {| context := None; host := h; port := p; watch := 0; pending := 0 |}).
  assert (W0 : watch_ok (watch r0)) by (unfold watch_ok; cbn; lia).
  assert (K : forall r1 e1 o1, start_connection r0 = (r1, e1, o1) -> reply_notices o1 = O /\ pending r1 = O).
  { unfold start_connection. intros r1 e1 o1. destruct (redisAsyncConnect (host r0) (port r0)) as [c|] eqn:F;
      [|intros E; inv E; auto].
    pose proof (law_fresh _ _ _ F) as OC. destruct (negb (ctx_err c =? 0)); [intros E; inv E; auto|].
    pose proof (law_set_connect c) as L1. destruct (redisAsyncSetConnectCallback c) as [[c1 ev1] ok1].
    destruct L1 as (O1 & R1 & _). destruct (after_call _ (Some c1) ev1) as [ra oa] eqn:A1.
    pose proof (after_call_replies _ _ _ _ _ A1) as Q1.
    destruct (after_call_spec _ _ _ _ _ A1 W0) as (W1 & _ & P1 & _).
    set (second := if ok1 then _ else _).
    assert (S2 : exists c2 r2 o2 ok2, second = (c2, r2, o2, ok2) /\ reply_notices o2 = O /\ pending r2 = O /\
                 outstanding c2 = O).
    { subst second. destruct ok1; [|exists c1, ra, [], false; cbn in *; repeat split; lia].
      pose proof (law_set_disconnect c1) as L2. destruct (redisAsyncSetDisconnectCallback c1) as [[c2 ev2] ok2].
      destruct L2 as (O2 & R2 & _). destruct (after_call ra (Some c2) ev2) as [rb ob] eqn:A2.
      pose proof (after_call_replies _ _ _ _ _ A2) as Q2.
      destruct (after_call_spec _ _ _ _ _ A2 W1) as (_ & _ & P2 & _).
      exists c2, rb, ob, ok2. cbn in *. repeat split; lia. }
    destruct S2 as (c2 & r2 & o2 & ok2 & -> & N2 & P2 & O2). destruct (negb ok2).
    - unfold free_context. pose proof (run_events_replies r2 (redisAsyncFree c2)) as Q3.
      pose proof (run_events_pending r2 (redisAsyncFree c2)) as P3.
      pose proof (law_free c2) as LF. destruct (run_events r2 (redisAsyncFree c2)) as [r3 o3]. intros E; inv E.
      cbn in *. rewrite !reply_notices_app. split; lia.
    - intros E; inv E. rewrite reply_notices_app. split; lia. }
  destruct (start_connection r0) as [[r1 e1] o1]. destruct (K _ _ _ eq_refl) as [N P].
  destruct e1; intros E; inv E; split; eauto.
Qed.

Lemma set_tick_ok r t j ud r' e out :
  adapter_ok r -> alpha_redis_async_set_latest_tick (Some r) t j ud = Some (Some r', e, out) ->
  adapter_ok r' /\ told r r' out.
Proof.
  intros A E. unfold alpha_redis_async_set_latest_tick in E.
  destruct (latest_key t 256) as [[] key], j; try (inv E; split; [exact A|reflexivity]).
  exact (command_ok _ _ _ _ _ _ A E).
Qed.

Lemma get_tick_ok r t ud r' e out :
  adapter_ok r -> alpha_redis_async_get_latest_tick (Some r) t ud = Some (Some r', e, out) ->
  adapter_ok r' /\ told r r' out.
Proof.
  intros A E. unfold alpha_redis_async_get_latest_tick in E.
  destruct (latest_key t 256) as [[] key]; try (inv E; split; [exact A|reflexivity]).
  exact (command_ok _ _ _ _ _ _ A E).
Qed.

(** The notices given so far by an adapter that reached [r]. *)
Inductive adapter_run : list notice -> alpha_redis_async C -> Prop :=
  | run_connect h p fns alloc r ns :
      alpha_redis_async_connect h p fns alloc (Some None) = (ALPHA_OK, Some (Some r), ns) -> adapter_run ns r
  | run_service ns r ready r' e out :
      adapter_run ns r -> alpha_redis_async_service (Some r) ready = Some (Some r', e, out) ->
      adapter_run (ns ++ out) r'
  | run_timeout ns r r' e out :
      adapter_run ns r -> alpha_redis_async_timeout (Some r) = Some (Some r', e, out) ->
      adapter_run (ns ++ out) r'
  | run_command ns r argv ud r' e out :
      adapter_run ns r -> alpha_redis_async_command (Some r) argv ud = Some (Some r', e, out) ->
      adapter_run (ns ++ out) r'
  | run_set_tick ns r t j ud r' e out :
      adapter_run ns r -> alpha_redis_async_set_latest_tick (Some r) t j ud = Some (Some r', e, out) ->
      adapter_run (ns ++ out) r'
  | run_get_tick ns r t ud r' e out :
      adapter_run ns r -> alpha_redis_async_get_latest_tick (Some r) t ud = Some (Some r', e, out) ->
      adapter_run (ns ++ out) r'
  | run_reconnect ns r r' e out :
      adapter_run ns r -> alpha_redis_async_reconnect (Some r) = (Some r', e, out) ->
      adapter_run (ns ++ out) r'.

Lemma adapter_run_ok ns r : adapter_run ns r -> adapter_ok r /\ last_watch 0 ns = watch r.
Proof.
  induction 1 as [h p fns alloc r ns E|ns r ready r' e out R [A T] E|ns r r' e out R [A T] E
                 |ns r argv ud r' e out R [A T] E|ns r t j ud r' e out R [A T] E
                 |ns r t ud r' e out R [A T] E|ns r r' e out R [A T] E].
  1: exact (connect_ok _ _ _ _ _ _ E).
  all: rewrite last_watch_app, T.
  - exact (service_ok _ _ _ _ _ A E).
  - exact (timeout_ok _ _ _ _ A E).
  - exact (command_ok _ _ _ _ _ _ A E).
  - exact (set_tick_ok _ _ _ _ _ _ _ A E).
  - exact (get_tick_ok _ _ _ _ _ _ A E).
  - exact (reconnect_ok _ _ _ _ A E).
Qed.

(** C17: At every point of an adapter's life the owner's last notification is the
    adapter's current interest, a mask of two bits; at most 64 commands are
    pending, exactly those hiredis has still to answer; and without a connection
    none is. *)
Theorem adapter_invariant ns r :
  adapter_run ns r ->
  last_watch 0 ns = watch r /\ 0 <= watch r <= 3 /\
  (alpha_redis_async_pending (Some r) <= ALPHA_REDIS_ASYNC_MAX_PENDING)%nat /\
  (forall c, context r = Some (LIVE c) -> alpha_redis_async_pending (Some r) = outstanding c) /\
  (context r = None -> alpha_redis_async_pending (Some r) = O).
Proof.
  intros R. destruct (adapter_run_ok _ _ R) as [(W & P & K) T].
  split; [exact T|]. split; [exact W|]. split; [exact P|]. cbn.
  split; [intros c X|intros X]; rewrite X in K; exact K.
Qed.

(** ** Contexts that are not freed under the adapter *)

Definition held (r : alpha_redis_async C) : Prop :=
  match context r with None => True | Some (LIVE c) => up c = true | Some FREED => False end.

Lemma run_events_short (r : alpha_redis_async C) evs : short_timers evs -> short_notices (snd (run_events r evs)).
Proof.
  intros H. revert r; induction H as [|ev evs E _ IH]; intros r; cbn; [constructor|].
  destruct (handle r ev) as [r1 o1] eqn:X. specialize (IH r1). destruct (run_events r1 evs) as [r2 o2]. cbn in *.
  apply Forall_app. split; [|exact IH].
  destruct ev; cbn in X; inv X; repeat constructor; try exact E.
  destruct reply as [[]|]; inv H0; repeat constructor.
Qed.

(** A call on a live context leaves one that is up, or the disconnect callback ran. *)
Lemma after_call_held (r : alpha_redis_async C) remains evs r' out :
  after_call r remains evs = (r', out) ->
  match remains with Some c' => up c' = true | None => existsb is_disconnect evs = true end ->
  held r' /\ (short_timers evs -> short_notices out).
Proof.
  unfold after_call. set (r0 := set_context r _). intros E K.
  pose proof (run_events_context r0 evs) as Y. pose proof (run_events_short r0 evs) as Z.
  rewrite E in Y, Z. cbn in Y, Z. split; [|exact Z]. unfold held. rewrite Y.
  destruct (existsb is_disconnect evs); [exact I|]. destruct remains; [exact K|discriminate].
Qed.

Lemma call_handler_held h r :
  In h [redisAsyncHandleRead; redisAsyncHandleWrite; redisAsyncHandleTimeout] -> held r ->
  exists r' out, call_handler h r = Some (r', out) /\ held r' /\
    ((forall c, short_timers (snd (h c))) -> short_notices out).
Proof.
  intros N H. pose proof H as U. unfold held in U. unfold call_handler. destruct (context r) as [[c|]|]; [|tauto|].
  2:{ exists r, []. split; [reflexivity|]. split; [exact H|constructor]. }
  pose proof (law_handler h N c) as L. destruct (h c) as [remains evs] eqn:E. destruct L as (_ & _ & K).
  destruct (after_call r remains evs) as [r2 o] eqn:F. exists r2, o. split; [reflexivity|].
  destruct (after_call_held _ _ _ _ _ F (K U)) as [H2 S2]. split; [exact H2|].
  intros T. apply S2. specialize (T c). now rewrite E in T.
Qed.

Lemma context_status_held r : held r -> exists e, context_status r = Some e.
Proof. unfold held, context_status. destruct (context r) as [[c|]|]; [eauto|tauto|eauto]. Qed.

Lemma service_held r ready : held r ->
  exists r' e out, alpha_redis_async_service (Some r) ready = Some (Some r', e, out) /\ held r' /\
    ((forall hd, In hd [redisAsyncHandleRead; redisAsyncHandleWrite; redisAsyncHandleTimeout] ->
        forall c, short_timers (snd (hd c))) -> short_notices out).
Proof.
  intros H. cbn. destruct (context r) eqn:X; [|exists r, ALPHA_ERR_INVALID_ARG, []; split; [reflexivity|]; split; [exact H|constructor]].
  assert (S : forall (b : bool) h r1, In h [redisAsyncHandleRead; redisAsyncHandleWrite; redisAsyncHandleTimeout] ->
     held r1 -> exists r2 o, (if b then call_handler h r1 else Some (r1, [])) = Some (r2, o) /\ held r2 /\
       ((forall c, short_timers (snd (h c))) -> short_notices o)).
  { intros [|] h r1 N G; [exact (call_handler_held h r1 N G)|]. exists r1, []. split; [reflexivity|]. split; [exact G|constructor]. }
  destruct (S (bit_set ready ALPHA_REDIS_WATCH_READ) redisAsyncHandleRead r) as (r1 & o1 & -> & G1 & T1); [cbn; auto|exact H|].
  destruct (S (bit_set ready ALPHA_REDIS_WATCH_WRITE) redisAsyncHandleWrite r1) as (r2 & o2 & -> & G2 & T2); [cbn; auto|exact G1|].
  destruct (context_status_held r2 G2) as (e & ->). do 3 eexists. split; [reflexivity|]. split; [exact G2|].
  intros T. apply Forall_app. split; [apply T1|apply T2]; apply T; cbn; auto.
Qed.

Lemma timeout_held r : held r ->
  exists r' e out, alpha_redis_async_timeout (Some r) = Some (Some r', e, out) /\ held r' /\
    ((forall c, short_timers (snd (redisAsyncHandleTimeout c))) -> short_notices out).
Proof.
  intros H. cbn. destruct (context r) eqn:X; [|exists r, ALPHA_ERR_INVALID_ARG, []; split; [reflexivity|]; split; [exact H|constructor]].
  destruct (call_handler_held redisAsyncHandleTimeout r) as (r1 & o1 & -> & G1 & T1); [cbn; auto|exact H|].
  destruct (context_status_held r1 G1) as (e & ->). eauto 7.
Qed.

Lemma command_held r argv ud : held r ->
  exists r' e out, alpha_redis_async_command (Some r) argv ud = Some (Some r', e, out) /\ held r' /\
    ((forall c argv ud, short_timers (snd (fst (redisAsyncCommandArgv c argv ud)))) -> short_notices out).
Proof.
  intros H. assert (Back : forall e : alpha_err_t, exists r' e' out, Some (Some r, e, @nil notice) = Some (Some r', e', out) /\ held r' /\
     ((forall c argv ud, short_timers (snd (fst (redisAsyncCommandArgv c argv ud)))) -> short_notices out)).
  { intros e. exists r, e, []. split; [reflexivity|]. split; [exact H|constructor]. }
  unfold alpha_redis_async_command. destruct argv as [[|a argv]|]; auto.
  pose proof H as U. unfold held in U. destruct (context r) as [[c|]|]; [|tauto|auto].
  destruct (_ <=? _)%nat; [auto|]. destruct (law_up c U) as (_ & _ & L). specialize (L (a :: argv) ud).
  pose proof (fun T : forall c argv ud, short_timers (snd (fst (redisAsyncCommandArgv c argv ud))) => T c (a :: argv) ud) as Sh.
  destruct (redisAsyncCommandArgv c (a :: argv) ud) as [[c1 evs] ok]. cbn in L, Sh.
  destruct (after_call r (Some c1) evs) as [r1 o1] eqn:F. destruct (after_call_held _ _ _ _ _ F L) as [H1 S1].
  destruct ok; do 3 eexists; (split; [reflexivity|]); (split; [exact H1|]); intros T; apply S1, Sh, T.
Qed.

Lemma start_connection_held r r' e out :
  steady (host r) (port r) -> start_connection r = (r', e, out) -> held r' /\ short_notices out.
Proof.
  intros St E. unfold start_connection in E. destruct (redisAsyncConnect (host r) (port r)) as [c|] eqn:F.
  2:{ inv E. split; [exact I|constructor]. }
  pose proof (steady_accepts _ _ St c F) as U. destruct (negb (ctx_err c =? 0)).
  { inv E. split; [exact I|constructor]. }
  destruct (law_up c U) as (U1 & _ & _). pose proof (steady_set_connect _ _ St c) as T1.
  destruct (redisAsyncSetConnectCallback c) as [[c1 evs1] ok1]. cbn in U1, T1.
  destruct (after_call _ (Some c1) evs1) as [r1 out1] eqn:A1.
  destruct (after_call_held _ _ _ _ _ A1 U1) as [H1 S1]. specialize (S1 T1).
  assert (S : exists c2 r2 out2 ok2,
    (if ok1 then let '(c, evs, ok) := redisAsyncSetDisconnectCallback c1 in
                 let '(r, out) := after_call r1 (Some c) evs in (c, r, out, ok)
     else (c1, r1, [], false)) = (c2, r2, out2, ok2) /\ held r2 /\ short_notices out2).
  { destruct ok1; [|exists c1, r1, [], false; split; [reflexivity|]; split; [exact H1|constructor]].
    destruct (law_up c1 U1) as (_ & U2 & _). pose proof (steady_set_disconnect _ _ St c1) as T2.
    destruct (redisAsyncSetDisconnectCallback c1) as [[c2 evs2] ok2]. cbn in U2, T2.
    destruct (after_call r1 (Some c2) evs2) as [r2 out2] eqn:A2.
    destruct (after_call_held _ _ _ _ _ A2 U2) as [H2 S2]. eauto 8. }
  destruct S as (c2 & r2 & out2 & ok2 & S & H2 & S2). rewrite S in E. destruct (negb ok2).
  - unfold free_context in E. pose proof (run_events_short r2 _ (steady_free _ _ St c2)) as S3.
    destruct (run_events r2 (redisAsyncFree c2)) as [r3 out3]. inv E. split; [exact I|].
    apply Forall_app. split; [exact S1|]. apply Forall_app. auto.
  - inv E. split; [exact H2|]. apply Forall_app. auto.
Qed.

Lemma connect_held h p fns alloc e out ns :
  steady h p -> alpha_redis_async_connect (Some h) p fns alloc (Some None) = (e, out, ns) ->
  short_notices ns /\ (forall r, out = Some (Some r) -> held r).
Proof.
  intros St. unfold alpha_redis_async_connect.
  assert (Back : forall x : alpha_err_t, (x, Some (None : option (alpha_redis_async C)), @nil notice) = (e, out, ns) ->
    short_notices ns /\ (forall r, out = Some (Some r) -> held r)).
  { intros x E. inv E. split; [constructor|discriminate]. }
  destruct (_ || _); [apply Back|]. destruct (fst alloc), (snd alloc); cbn [negb]; try apply Back.
  destruct (start_connection _) as [[r1 e1] o1] eqn:F. apply start_connection_held in F as [H S]; [|exact St].
  destruct e1; intros E; inv E; split; auto; congruence.
Qed.

Lemma close_held r : held r ->
  exists ns, alpha_redis_async_close (Some r) = Some ns /\
    ((forall c, short_timers (redisAsyncFree c)) -> short_notices ns).
Proof.
  unfold held, alpha_redis_async_close. destruct (context r) as [[c|]|]; [|tauto|].
  - eexists. split; [reflexivity|]. intros T. apply run_events_short, T.
  - exists []. split; [reflexivity|constructor].
Qed.

(** An established connection never leads a service call into freed memory. *)
Theorem service_defined r c ready :
  context r = Some (LIVE c) -> up c = true ->
  exists r' e out, alpha_redis_async_service (Some r) ready = Some (Some r', e, out) /\
    (context r' = None \/ exists c', context r' = Some (LIVE c') /\ up c' = true).
Proof.
  intros X U. destruct (service_held r ready) as (r' & e & out & E & H & _); [unfold held; now rewrite X|].
  exists r', e, out. split; [exact E|]. unfold held in H. destruct (context r') as [[c'|]|]; [|tauto|auto].
  right. eauto.
Qed.

End Contract.

(** C22: A refused connection: hiredis reports it through the connect callback and frees
    the context without a disconnect callback.  The adapter keeps the pointer, so
    the service call that learns of the failure reads the freed context (undefined
    behaviour), and an owner that retries instead is answered ALPHA_ERR_RANGE. *)
Theorem refused_connection_dangles {C : Type} {hiredis : HiredisAsync C} (r : alpha_redis_async C) c evs :
  context r = Some (LIVE c) -> redisAsyncHandleWrite c = (None, evs) -> existsb is_disconnect evs = false ->
  alpha_redis_async_service (Some r) ALPHA_REDIS_WATCH_WRITE = None /\
  (let r' := fst (after_call r None evs) in
   alpha_redis_async_reconnect (Some r') = (Some r', ALPHA_ERR_RANGE, [])).
Proof.
  intros X H D.
  pose proof (run_events_context (set_context r (Some FREED)) evs) as Y. rewrite D in Y. cbn in Y.
  split.
  - unfold alpha_redis_async_service, call_handler. rewrite X.
    change (bit_set ALPHA_REDIS_WATCH_WRITE ALPHA_REDIS_WATCH_READ) with false.
    change (bit_set ALPHA_REDIS_WATCH_WRITE ALPHA_REDIS_WATCH_WRITE) with true. cbv iota. rewrite X, H.
    unfold after_call. destruct (run_events _ evs) as [r' o]. cbn in Y.
    unfold context_status. now rewrite Y.
  - cbn. unfold after_call. destruct (run_events _ evs) as [r' o]. cbn in *. now rewrite Y.
Qed.

(** ** The two redis clients agree *)

Definition tick_key (t : string) : string := (LATEST_PREFIX ++ t)%string.
Definition set_tick_argv (t payload : string) : list string := ["SET"; tick_key t; payload; "EX"; "60"].

Lemma tick_key_length t : String.length (tick_key t) = (25 + String.length t)%nat.
Proof. unfold tick_key, LATEST_PREFIX. cbn. reflexivity. Qed.

Lemma tick_key_text t : (String.length t <= 70)%nat ->
  key_fits (tick_key t) = true /\ key_text (tick_key t) = tick_key t.
Proof.
  intros H. pose proof (tick_key_length t) as L. unfold key_fits, key_text, KEY_CAP.
  rewrite snprintf_length_eq by (unfold INT32_MAX; lia). rewrite L.
  split; [apply Z.ltb_lt; lia|]. apply substring_all. lia.
Qed.

Lemma latest_key_ok t : t <> EmptyString -> (String.length t <= 230)%nat ->
  latest_key (Some t) 256 = (ALPHA_OK, tick_key t).
Proof.
  intros N L. destruct t as [|a t]; [congruence|]. unfold latest_key.
  change (u64 (256 - Z.of_nat (String.length LATEST_PREFIX + 1))) with 230.
  replace (Z.of_nat (String.length (String a t)) >? 230) with false; [reflexivity|].
  symmetry. apply not_true_iff_false. intros K. apply Z.gtb_lt in K. lia.
Qed.

Lemma latest_key_long t : (230 < String.length t)%nat -> latest_key (Some t) 256 = (ALPHA_ERR_RANGE, "").
Proof.
  intros L. destruct t as [|a t]; [cbn in L; lia|]. unfold latest_key.
  change (u64 (256 - Z.of_nat (String.length LATEST_PREFIX + 1))) with 230.
  now replace (Z.of_nat (String.length (String a t)) >? 230) with true by lia.
Qed.

Lemma tick_key_long t : (70 < String.length t)%nat -> Z.of_nat (String.length t) < 2 ^ 30 ->
  key_fits (tick_key t) = false.
Proof.
  intros L B. unfold key_fits, KEY_CAP. rewrite snprintf_length_eq by (rewrite tick_key_length; unfold INT32_MAX; lia).
  rewrite tick_key_length. apply Z.ltb_ge. lia.
Qed.

(** C19: The latest tick through the two clients.  For every ticker of 1 to 70
    characters the blocking and the asynchronous client send the server the same SET
    (same key, payload and 60-second expiry) and the same GET.  The limits differ: the
    blocking client refuses both beyond 70 characters, the asynchronous one beyond 230,
    each without sending anything. *)
Theorem latest_tick_same_commands {S C : Type} {server : RedisServer S} {hiredis : HiredisAsync C}
    (s : S) (r : alpha_redis_async C) t payload ud out n has :
  t <> EmptyString -> Z.of_nat (String.length t) < 2 ^ 30 -> n <> O ->
  alpha_redis_async_set_latest_tick (Some r) (Some t) (Some payload) ud
    = (if (String.length t <=? 230)%nat
       then alpha_redis_async_command (Some r) (Some (set_tick_argv t payload)) ud
       else Some (Some r, ALPHA_ERR_RANGE, [])) /\
  alpha_redis_async_get_latest_tick (Some r) (Some t) ud
    = (if (String.length t <=? 230)%nat
       then alpha_redis_async_command (Some r) (Some ["GET"; tick_key t]) ud
       else Some (Some r, ALPHA_ERR_RANGE, [])) /\
  alpha_redis_set_latest_tick (Some s) (Some t) (Some payload)
    = (if (String.length t <=? 70)%nat
       then let '(s', reply) := redisCommand s (set_tick_argv t payload) in
            (Some s', if reply_is_ok reply then ALPHA_OK else ALPHA_ERR_IO)
       else (Some s, ALPHA_ERR_RANGE)) /\
  alpha_redis_get_latest_tick (Some s) (Some t) (Some out) n (Some has)
    = (if (String.length t <=? 70)%nat
       then let '(s', reply) := redisCommand s ["GET"; tick_key t] in
            match reply with
            | Some REDIS_REPLY_NIL => (Some s', (ALPHA_OK, Some out, Some false))
            | Some (REDIS_REPLY_STRING str) =>
                (Some s', (ALPHA_OK, Some (String.substring 0 (Nat.min (n - 1) (String.length str)) str), Some true))
            | _ => (Some s', (ALPHA_ERR_IO, Some out, Some has))
            end
       else (Some s, (ALPHA_ERR_RANGE, Some out, Some has))).
Proof.
  intros N B Nz. unfold alpha_redis_async_set_latest_tick, alpha_redis_async_get_latest_tick.
  unfold alpha_redis_set_latest_tick, alpha_redis_get_latest_tick.
  change ("redis:cache:latest_ticks:" ++ t)%string with (tick_key t).
  apply Nat.eqb_neq in Nz. rewrite Nz.
  destruct (Nat.leb_spec (String.length t) 230) as [L|L];
    [rewrite (latest_key_ok t N L)|rewrite (latest_key_long t L)]; (split; [reflexivity|]; split; [reflexivity|]);
    (destruct (Nat.leb_spec (String.length t) 70) as [L2|L2];
       [destruct (tick_key_text t L2) as [-> ->]|rewrite (tick_key_long t L2 B); now split]);
    cbn [negb]; change (print_Z ALPHA_TTL_LATEST_TICKS) with "60"; (split; [reflexivity|]);
    destruct (redisCommand s ["GET"; tick_key t]) as [s' [[]|]]; try reflexivity;
    do 4 f_equal; destruct (Nat.leb_spec n (String.length str)); f_equal; apply Nat.eqb_neq in Nz; lia.
Qed.

(** ** A reference implementation of the async API

    The first writable event establishes the connection, or finds it refused; a
    readable event answers everything with OK; a timeout drops the connection. *)

Record ref_ctx := { refused : bool; established : bool; queue : list Z }.

Definition with_queue (c : ref_ctx) (q : list Z) : ref_ctx :=
  {| refused := refused c; established := established c; queue := q |}.

#[export] Instance ref_hiredis : HiredisAsync ref_ctx := {|
  ctx_fd c := 5;
  ctx_err c := 0;
  redisAsyncConnect h p := Some {| refused := String.eqb h "refused"; established := false; queue := [] |};
  redisAsyncSetConnectCallback c := (c, [EvAddWrite 5], true);
  redisAsyncSetDisconnectCallback c := (c, [], true);
  redisAsyncHandleRead c :=
    (Some (with_queue c []), List.map (EvReplied (Some (REDIS_REPLY_STATUS "OK"))) (queue c));
  redisAsyncHandleWrite c :=
    if established c then (Some c, [EvDelWrite 5])
    else if refused c then
      (None, [EvConnected false] ++ List.map (EvReplied None) (queue c) ++ [EvCleanup 5])
    else (Some {| refused := false; established := true; queue := queue c |}, [EvAddRead 5; EvConnected true]);
  redisAsyncHandleTimeout c :=
    if established c then
      (None, List.map (EvReplied None) (queue c) ++ [EvCleanup 5; EvDisconnected 5])
    else (Some c, []);
  redisAsyncCommandArgv c argv ud := (with_queue c (queue c ++ [ud]), [EvAddWrite 5], true);
  redisAsyncFree c := List.map (EvReplied None) (queue c) ++ [EvCleanup 5]
|}.

Lemma replies_map x q tail : replies (List.map (EvReplied x) q ++ tail) = (List.length q + replies tail)%nat.
Proof. induction q as [|a q IH]; cbn; [reflexivity|now rewrite IH]. Qed.

Lemma disconnect_map x q tail :
  existsb is_disconnect (List.map (EvReplied x) q ++ tail) = existsb is_disconnect tail.
Proof. induction q as [|a q IH]; cbn; [reflexivity|exact IH]. Qed.

#[export] Instance ref_hiredis_laws : HiredisLaws ref_ctx.
Proof.
  refine {| outstanding c := List.length (queue c); up c := established c || negb (refused c) |}.
  - intros h p c E. inv E. reflexivity.
  - intros c. cbn. auto.
  - intros c. cbn. auto.
  - intros h I c. cbn in I. destruct I as [<-|[<-|[<-|[]]]]; cbn.
    + pose proof (replies_map (Some (REDIS_REPLY_STATUS "OK")) (queue c) []) as R.
      pose proof (disconnect_map (Some (REDIS_REPLY_STATUS "OK")) (queue c) []) as D.
      rewrite app_nil_r in R, D. rewrite R, D. cbn. split; [lia|]. split; [discriminate|auto].
    + destruct (established c) eqn:U; [|destruct (refused c)]; cbn.
      * rewrite U. repeat split; discriminate.
      * rewrite replies_map, disconnect_map. cbn. split; [lia|]. split; discriminate.
      * repeat split; discriminate.
    + destruct (established c) eqn:U; cbn.
      * rewrite replies_map, disconnect_map. cbn. repeat split; lia.
      * rewrite U. split; [lia|]. split; [discriminate|auto].
  - intros c argv ud. cbn. rewrite length_app. cbn. auto.
  - intros c. cbn. rewrite replies_map. cbn. lia.
  - intros c U. cbn. auto.
Defined.

Definition ref_connect (h : string) : alpha_redis_async ref_ctx :=
  match alpha_redis_async_connect (Some h) 6379 true (true, true) (Some None) with
  | (_, Some (Some r), _) => r
  | _ => {| context := None; host := ""; port := 0; watch := 0; pending := 0 |}
  end.

Definition ref_step (r : alpha_redis_async ref_ctx) (ready : Z) : alpha_redis_async ref_ctx :=
  match alpha_redis_async_service (Some r) ready with Some (Some r', _, _) => r' | _ => r end.

(** Connected, then one tick stored and not yet answered. *)
Definition ref_sent : alpha_redis_async ref_ctx :=
  match alpha_redis_async_set_latest_tick (Some (ref_step (ref_connect "cache") 2)) (Some "005930")
          (Some "{}") 9 with
  | Some (Some r, _, _) => r
  | _ => ref_connect "cache"
  end.

Lemma adapter_invariant_witness :
  last_watch 0 [WATCH_FN 5 2; WATCH_FN 5 3; CONNECT_FN ALPHA_OK; WATCH_FN 5 3] = watch ref_sent /\
  0 <= watch ref_sent <= 3 /\
  (alpha_redis_async_pending (Some ref_sent) <= ALPHA_REDIS_ASYNC_MAX_PENDING)%nat /\
  (forall c, context ref_sent = Some (LIVE c) -> alpha_redis_async_pending (Some ref_sent) = outstanding c) /\
  (context ref_sent = None -> alpha_redis_async_pending (Some ref_sent) = O).
Proof.
  apply (adapter_invariant [WATCH_FN 5 2; WATCH_FN 5 3; CONNECT_FN ALPHA_OK; WATCH_FN 5 3]).
  apply (run_set_tick [WATCH_FN 5 2; WATCH_FN 5 3; CONNECT_FN ALPHA_OK] (ref_step (ref_connect "cache") 2)
           (Some "005930") (Some "{}") 9 _ ALPHA_OK [WATCH_FN 5 3]); [|vm_compute; reflexivity].
  apply (run_service [WATCH_FN 5 2] (ref_connect "cache") 2 _ ALPHA_OK [WATCH_FN 5 3; CONNECT_FN ALPHA_OK]);
    [|vm_compute; reflexivity].
  apply (run_connect (Some "cache") 6379 true (true, true)). vm_compute. reflexivity.
Defined.

Lemma service_defined_witness :
  exists r' e out, alpha_redis_async_service (Some ref_sent) 3 = Some (Some r', e, out) /\
    (context r' = None \/ exists c', context r' = Some (LIVE c') /\ up c' = true).
Proof.
  apply (service_defined ref_sent {| refused := false; established := true; queue := [9] |});
    vm_compute; reflexivity.
Defined.

Lemma refused_connection_dangles_witness :
  alpha_redis_async_service (Some (ref_connect "refused")) ALPHA_REDIS_WATCH_WRITE = None /\
  (let r' := fst (after_call (ref_connect "refused") None [EvConnected false; EvCleanup 5]) in
   alpha_redis_async_reconnect (Some r') = (Some r', ALPHA_ERR_RANGE, [])).
Proof.
  apply (refused_connection_dangles (ref_connect "refused")
           {| refused := true; established := false; queue := [] |}); vm_compute; reflexivity.
Defined.

Lemma latest_tick_same_commands_witness :
  alpha_redis_async_set_latest_tick (Some ref_sent) (Some "005930") (Some "{}") 9
    = alpha_redis_async_command (Some ref_sent) (Some (set_tick_argv "005930" "{}")) 9 /\
  alpha_redis_set_latest_tick (Some sample_server) (Some "005930") (Some "{}")
    = (let '(s', reply) := redisCommand sample_server (set_tick_argv "005930" "{}") in
       (Some s', if reply_is_ok reply then ALPHA_OK else ALPHA_ERR_IO)).
Proof.
  destruct (latest_tick_same_commands sample_server ref_sent "005930" "{}" 9 "" 8 false) as (A & _ & B & _);
    [discriminate|cbn; lia|discriminate|]. split; [exact A|exact B].
Defined.
