(* ===== verification/LwsRuntime.v ===== *)
(** * The event loop's registry of descriptors

    Models [core/platform/event/lws_runtime.c]: a bounded array of watches over
    descriptors adopted by libwebsockets.  A watch handle is the index of its slot;
    a wsi is a number.  The outcomes of [dup], of the adoption and of the other
    libwebsockets calls are arguments; the calls of the owners' ready functions are
    the notices returned, and those functions do not re-enter the registry. *)

From Stdlib Require Import ZArith Lia Bool List.
From S2P Require Import Prelude Domain.
Import ListNotations.
Open Scope Z_scope.

Record alpha_lws_watch := {
  wsi : option Z;
  ready_fn : Z;
  callback_ctx : Z;
  source_fd : Z;
  wants_write : bool;
  active : bool
}.

(** [calloc]'s slot. *)
Definition zero_watch : alpha_lws_watch :=
  {| wsi := None; ready_fn := 0; callback_ctx := 0; source_fd := 0; wants_write := false; active := false |}.

Record alpha_lws_runtime := {
  watches : list alpha_lws_watch;
  capacity : nat;
  count : nat
}.

(** A call of a ready function: the function, its context and the three flags. *)
Record ready_call := { fn : Z; ctx : Z; readable : bool; writable : bool; timed_out : bool }.

Inductive lws_callback_reasons :=
  | LWS_CALLBACK_RAW_RX | LWS_CALLBACK_RAW_RX_FILE
  | LWS_CALLBACK_RAW_WRITEABLE | LWS_CALLBACK_RAW_WRITEABLE_FILE
  | LWS_CALLBACK_TIMER
  | LWS_CALLBACK_RAW_CLOSE | LWS_CALLBACK_RAW_CLOSE_FILE
  | LWS_CALLBACK_OTHER.

Definition call_ready (w : alpha_lws_watch) (r wr t : bool) : ready_call :=
  {| fn := ready_fn w; ctx := callback_ctx w; readable := r; writable := wr; timed_out := t |}.

Definition set_wsi (w : alpha_lws_watch) (x : option Z) : alpha_lws_watch :=
  {| wsi := x; ready_fn := ready_fn w; callback_ctx := callback_ctx w; source_fd := source_fd w;
     wants_write := wants_write w; active := active w |}.
Definition set_wants (w : alpha_lws_watch) (b : bool) : alpha_lws_watch :=
  {| wsi := wsi w; ready_fn := ready_fn w; callback_ctx := callback_ctx w; source_fd := source_fd w;
     wants_write := b; active := active w |}.
Definition set_active (w : alpha_lws_watch) (b : bool) : alpha_lws_watch :=
  {| wsi := wsi w; ready_fn := ready_fn w; callback_ctx := callback_ctx w; source_fd := source_fd w;
     wants_write := wants_write w; active := b |}.

Definition put (rt : alpha_lws_runtime) (i : nat) (w : alpha_lws_watch) : alpha_lws_runtime :=
  {| watches := list_set (watches rt) i w; capacity := capacity rt; count := count rt |}.
Definition set_count (rt : alpha_lws_runtime) (n : nat) : alpha_lws_runtime :=
  {| watches := watches rt; capacity := capacity rt; count := n |}.

(** [watch] is the opaque user data of the wsi, [None] for NULL.  The outer [None]
    is a slot outside the array. *)
Definition foreign_fd_callback (rt : alpha_lws_runtime) (watch : option nat) (reason : lws_callback_reasons)
  : option (alpha_lws_runtime * list ready_call) :=
  match watch with
  | None => Some (rt, [])
  | Some i =>
      let? w := nth_error (watches rt) i in
      match reason with
      | LWS_CALLBACK_RAW_RX | LWS_CALLBACK_RAW_RX_FILE => Some (rt, [call_ready w true false false])
      | LWS_CALLBACK_RAW_WRITEABLE | LWS_CALLBACK_RAW_WRITEABLE_FILE =>
          Some (rt, if wants_write w then [call_ready w false true false] else [])
      | LWS_CALLBACK_TIMER => Some (rt, [call_ready w false false true])
      | LWS_CALLBACK_RAW_CLOSE | LWS_CALLBACK_RAW_CLOSE_FILE => Some (put rt i (set_wsi w None), [])
      | LWS_CALLBACK_OTHER => Some (rt, [])
      end
  end.

(** The callbacks libwebsockets runs for one watch during a call. *)
Fixpoint run_callbacks (rt : alpha_lws_runtime) (i : nat) (reasons : list lws_callback_reasons)
  : option (alpha_lws_runtime * list ready_call) :=
  match reasons with
  | [] => Some (rt, [])
  | reason :: reasons =>
      let? (rt, out) := foreign_fd_callback rt (Some i) reason in
      let? (rt, outs) := run_callbacks rt i reasons in
      Some (rt, out ++ outs)
  end.

Fixpoint wakeup_loop (n : nat) (ws : list alpha_lws_watch) : option (list ready_call) :=
  match n with
  | O => Some []
  | S n =>
      match ws with
      | [] => None
      | w :: ws =>
          let? out := wakeup_loop n ws in
          Some (if active w && wants_write w then call_ready w false true false :: out else out)
      end
  end.

Definition service_wakeup (rt : alpha_lws_runtime) : option (list ready_call) :=
  wakeup_loop (capacity rt) (watches rt).

(** [alloc] are the two allocations, [context] and [vhost] whether libwebsockets
    created them; the cell [out] is returned as it stands. *)
Definition alpha_lws_runtime_create (watch_capacity : nat) (alloc : bool * bool) (context vhost : bool)
    (out : option (option alpha_lws_runtime)) : alpha_err_t * option (option alpha_lws_runtime) :=
  match out with
  | None => (ALPHA_ERR_INVALID_ARG, out)
  | Some _ =>
      if (watch_capacity =? 0)%nat || (256 <? watch_capacity)%nat then (ALPHA_ERR_INVALID_ARG, out)
      else if negb (fst alloc) then (ALPHA_ERR_IO, Some None)
      else if negb (snd alloc) then (ALPHA_ERR_IO, Some None)
      else if negb context then (ALPHA_ERR_IO, Some None)
      else if negb vhost then (ALPHA_ERR_IO, Some None)
      else (ALPHA_OK, Some (Some {| watches := repeat zero_watch watch_capacity;
                                    capacity := watch_capacity; count := 0 |}))
  end.

(** The wsis closed, in order. *)
Definition alpha_lws_runtime_destroy (runtime : option alpha_lws_runtime) (context : bool) : list Z :=
  match runtime with
  | None => []
  | Some rt =>
      if context then
        flat_map (fun w => match wsi w with Some x => [x] | None => [] end)
          (firstn (capacity rt) (watches rt))
      else []
  end.

(** The first inactive slot below [n]. *)
Fixpoint free_slot (n i : nat) (ws : list alpha_lws_watch) : option (option nat) :=
  match n with
  | O => Some None
  | S n =>
      match ws with
      | [] => None
      | w :: ws => if negb (active w) then Some (Some i) else free_slot n (S i) ws
      end
  end.

(** [dup] is the result of [dup (fd)] and [adopt] that of the adoption.  Returns the
    registry, the status, the cell [out] and the descriptors closed. *)
Definition alpha_lws_watch_add (runtime : option alpha_lws_runtime) (fd : Z) (ww : bool)
    (rfn : option Z) (cctx : Z) (dup : Z) (adopt : option Z) (out : option (option nat))
  : option (option alpha_lws_runtime * alpha_err_t * option (option nat) * list Z) :=
  match runtime, rfn, out with
  | Some rt, Some rfn, Some _ =>
      if fd <? 0 then Some (runtime, ALPHA_ERR_INVALID_ARG, out, [])
      else if (count rt =? capacity rt)%nat then Some (runtime, ALPHA_ERR_RANGE, out, [])
      else if dup <? 0 then Some (runtime, ALPHA_ERR_IO, out, [])
      else
        let? slot := free_slot (capacity rt) 0 (watches rt) in
        match slot with
        | None => Some (runtime, ALPHA_ERR_RANGE, out, [dup])
        | Some i =>
            let w := {| wsi := adopt; ready_fn := rfn; callback_ctx := cctx; source_fd := fd;
                        wants_write := ww; active := true |} in
            match adopt with
            | None => Some (Some (put rt i (set_active w false)), ALPHA_ERR_IO, out, [])
            | Some _ => Some (Some (set_count (put rt i w) (count rt + 1)), ALPHA_OK, Some (Some i), [])
            end
        end
  | _, _, _ => Some (runtime, ALPHA_ERR_INVALID_ARG, out, [])
  end.

(** [on_writable] is the result of [lws_callback_on_writable]. *)
Definition alpha_lws_watch_set_write (rt : alpha_lws_runtime) (watch : option nat) (ww : bool) (on_writable : Z)
  : option (alpha_lws_runtime * alpha_err_t) :=
  match watch with
  | None => Some (rt, ALPHA_ERR_INVALID_ARG)
  | Some i =>
      let? w := nth_error (watches rt) i in
      match wsi w with
      | None => Some (rt, ALPHA_ERR_INVALID_ARG)
      | Some _ =>
          let rt := put rt i (set_wants w ww) in
          Some (rt, if ww && (on_writable <? 0) then ALPHA_ERR_IO else ALPHA_OK)
      end
  end.

Definition LWS_SET_TIMER_USEC_CANCEL : Z := -1.
Definition LWS_US_PER_MS : Z := 1000.

(** The timer set on the wsi, if any; [None] is the overflow of the product. *)
Definition alpha_lws_watch_set_timer (rt : alpha_lws_runtime) (watch : option nat) (timeout_ms : Z)
  : option (alpha_err_t * option (Z * Z)) :=
  match watch with
  | None => Some (ALPHA_ERR_INVALID_ARG, None)
  | Some i =>
      let? w := nth_error (watches rt) i in
      match wsi w with
      | None => Some (ALPHA_ERR_INVALID_ARG, None)
      | Some x =>
          if timeout_ms <? -1 then Some (ALPHA_ERR_INVALID_ARG, None)
          else
            let? usecs :=
              if timeout_ms <? 0 then Some LWS_SET_TIMER_USEC_CANCEL
              else if timeout_ms * LWS_US_PER_MS >? INT64_MAX then None
              else Some (timeout_ms * LWS_US_PER_MS) in
            Some (ALPHA_OK, Some (x, usecs))
      end
  end.

(** [reasons] are the callbacks run by [lws_wsi_close]. *)
Definition alpha_lws_watch_remove (rt : alpha_lws_runtime) (watch : option nat)
    (reasons : list lws_callback_reasons) : option (alpha_lws_runtime * list ready_call) :=
  match watch with
  | None => Some (rt, [])
  | Some i =>
      let? w := nth_error (watches rt) i in
      if negb (active w) then Some (rt, [])
      else
        let? (rt, out) :=
          match wsi w with
          | Some _ => run_callbacks rt i reasons
          | None => Some (rt, [])
          end in
        let? w := nth_error (watches rt) i in
        Some (set_count (put rt i (set_active w false)) (count rt - 1), out)
  end.

Definition alpha_lws_watch_source_fd (rt : alpha_lws_runtime) (watch : option nat) : option Z :=
  match watch with
  | Some i => let? w := nth_error (watches rt) i in Some (source_fd w)
  | None => Some (-1)
  end.

(** The wait of the scheduled wakeup and the status; [served] is the result of
    [lws_service]. *)
Definition alpha_lws_runtime_service (runtime : option alpha_lws_runtime) (timeout_ms served : Z)
  : alpha_err_t * option Z :=
  match runtime with
  | None => (ALPHA_ERR_INVALID_ARG, None)
  | Some _ =>
      if timeout_ms <? 0 then (ALPHA_ERR_INVALID_ARG, None)
      else
        let maximum_wait := if timeout_ms =? 0 then 1 else timeout_ms * LWS_US_PER_MS in
        (if served <? 0 then ALPHA_ERR_IO else ALPHA_OK, Some maximum_wait)
  end.

Definition alpha_lws_runtime_watch_count (runtime : option alpha_lws_runtime) : nat :=
  match runtime with Some rt => count rt | None => O end.
Definition alpha_lws_runtime_watch_capacity (runtime : option alpha_lws_runtime) : nat :=
  match runtime with Some rt => capacity rt | None => O end.

(** ** Lemmas *)

Definition one_if (b : bool) : nat := if b then 1%nat else 0%nat.

Fixpoint actives (ws : list alpha_lws_watch) : nat :=
  match ws with [] => O | w :: ws => (one_if (active w) + actives ws)%nat end.

Lemma actives_set ws i w w' : nth_error ws i = Some w ->
  (actives (list_set ws i w') + one_if (active w) = actives ws + one_if (active w'))%nat.
Proof.
  revert i; induction ws as [|a ws IH]; intros [|i] H; cbn in *; try discriminate.
  - inv H. lia.
  - specialize (IH i H). lia.
Qed.

Lemma actives_bound ws : (actives ws <= length ws)%nat.
Proof. induction ws as [|w ws IH]; cbn; [lia|]. destruct (active w); cbn; lia. Qed.

Lemma actives_repeat n : actives (repeat zero_watch n) = O.
Proof. induction n; cbn; auto. Qed.

(** The invariant: the array has its capacity, between 1 and 256, the count is the
    number of active slots, and an inactive slot has no wsi. *)
Record registry_ok (rt : alpha_lws_runtime) : Prop := {
  reg_len : length (watches rt) = capacity rt;
  reg_cap : (1 <= capacity rt <= 256)%nat;
  reg_count : count rt = actives (watches rt);
  reg_wsi : forall i w, nth_error (watches rt) i = Some w -> active w = false -> wsi w = None
}.

Lemma nth_list_set {A} (l : list A) i j x w :
  nth_error (list_set l i x) j = Some w ->
  (i = j /\ w = x) \/ (i <> j /\ nth_error l j = Some w).
Proof.
  intros H. destruct (Nat.eq_dec i j) as [->|N]; [left|right; rewrite list_set_other in H; auto].
  assert (L : (j < length l)%nat) by (rewrite <- (list_set_length l j x); apply nth_error_Some; congruence).
  rewrite list_set_same in H by exact L. inv H. auto.
Qed.

(** Replacing a slot, with the count adjusted to its activity. *)
Lemma registry_put rt i w w' n :
  registry_ok rt -> nth_error (watches rt) i = Some w ->
  (n + one_if (active w) = count rt + one_if (active w'))%nat ->
  (active w' = false -> wsi w' = None) ->
  registry_ok (set_count (put rt i w') n).
Proof.
  intros [L C N W] H E V. pose proof (actives_set _ _ _ w' H) as A. split; cbn; auto.
  - now rewrite list_set_length.
  - lia.
  - intros j x K D. destruct (nth_list_set _ _ _ _ _ K) as [[_ ->]|[_ K']]; eauto.
Qed.

Lemma registry_put_same rt i w w' :
  registry_ok rt -> nth_error (watches rt) i = Some w -> active w' = active w ->
  (active w' = false -> wsi w' = None) -> registry_ok (put rt i w').
Proof.
  intros R H A V. apply (registry_put rt i w w' (count rt)) in R; auto. rewrite A. lia.
Qed.

Lemma free_slot_spec n i ws : (n <= length ws)%nat ->
  match free_slot n i ws with
  | Some (Some j) => exists k w, j = (i + k)%nat /\ (k < n)%nat /\ nth_error ws k = Some w /\ active w = false /\
      forall k' w', (k' < k)%nat -> nth_error ws k' = Some w' -> active w' = true
  | Some None => forall k w, (k < n)%nat -> nth_error ws k = Some w -> active w = true
  | None => False
  end.
Proof.
  revert i ws; induction n as [|n IH]; intros i [|w ws] L; cbn in *; try lia.
  destruct (active w) eqn:A; cbn.
  - specialize (IH (S i) ws ltac:(lia)). destruct (free_slot n (S i) ws) as [[j|]|]; [| |exact IH].
    + destruct IH as (k & w1 & -> & K & N1 & A1 & F). exists (S k), w1. repeat split; auto; try lia.
      intros [|k'] w' K' N'; cbn in N'; [inv N'; exact A|]. apply (F k' w'); [lia|exact N'].
    + intros [|k] w' K N'; cbn in N'; [inv N'; exact A|]. apply (IH k w'); [lia|exact N'].
  - exists O, w. repeat split; auto; try lia.
Qed.

Lemma all_active ws :
  (forall k w, nth_error ws k = Some w -> active w = true) -> actives ws = length ws.
Proof.
  induction ws as [|w ws IH]; intros H; cbn; [reflexivity|].
  rewrite (H O w eq_refl). cbn. f_equal. apply IH. intros k x K. exact (H (S k) x K).
Qed.

(** With room in the count there is a free slot: the second range check of
    [alpha_lws_watch_add] is dead code. *)
Lemma room_gives_slot rt : registry_ok rt -> count rt <> capacity rt ->
  exists i w, free_slot (capacity rt) 0 (watches rt) = Some (Some i) /\
    nth_error (watches rt) i = Some w /\ active w = false.
Proof.
  intros [L C N W] R. pose proof (free_slot_spec (capacity rt) 0 (watches rt) ltac:(lia)) as F.
  destruct (free_slot (capacity rt) 0 (watches rt)) as [[i|]|]; [| |contradiction].
  - destruct F as (k & w & -> & K & N1 & A1 & _). exists k, w. auto.
  - exfalso. apply R. rewrite N, <- L. apply all_active. intros k w K. apply (F k w); [|exact K].
    rewrite <- L. apply nth_error_Some. congruence.
Qed.

Lemma callback_ok rt i reason rt' out :
  registry_ok rt -> foreign_fd_callback rt i reason = Some (rt', out) ->
  registry_ok rt' /\ count rt' = count rt /\
  (forall j w, nth_error (watches rt) j = Some w ->
     exists w', nth_error (watches rt') j = Some w' /\ active w' = active w).
Proof.
  intros R E. destruct i as [i|]; cbn in E; [|inv E; eauto].
  destruct (nth_error (watches rt) i) as [w|] eqn:H; [|discriminate].
  assert (K : registry_ok (put rt i (set_wsi w None)) /\ count rt = count rt /\
     forall j x, nth_error (watches rt) j = Some x ->
       exists x', nth_error (list_set (watches rt) i (set_wsi w None)) j = Some x' /\ active x' = active x).
  { split; [apply (registry_put_same rt i w); auto|]. split; [reflexivity|]. intros j x J.
    destruct (Nat.eq_dec i j) as [->|N]; [|rewrite list_set_other by exact N; eauto].
    rewrite list_set_same; [|apply nth_error_Some; congruence]. exists (set_wsi w None).
    split; [reflexivity|]. rewrite H in J. inv J. reflexivity. }
  destruct reason; inv E; cbn; auto; repeat split; eauto; apply R.
Qed.

Definition is_close (reason : lws_callback_reasons) : bool :=
  match reason with LWS_CALLBACK_RAW_CLOSE | LWS_CALLBACK_RAW_CLOSE_FILE => true | _ => false end.

Lemma list_set_twice {A} (l : list A) i x y : list_set (list_set l i x) i y = list_set l i y.
Proof. revert i; induction l; intros [|i]; cbn; auto. now rewrite IHl. Qed.

(** The callbacks of one watch only ever change that watch's wsi, to NULL. *)
Lemma run_callbacks_frame reasons rt i w :
  nth_error (watches rt) i = Some w ->
  exists out, run_callbacks rt i reasons =
    Some (if existsb is_close reasons then put rt i (set_wsi w None) else rt, out).
Proof.
  revert rt w; induction reasons as [|r rs IH]; intros rt w H; cbn [run_callbacks existsb]; [eauto|].
  assert (B : (i < length (watches rt))%nat) by (apply nth_error_Some; congruence).
  unfold foreign_fd_callback. rewrite H. destruct r; cbn [is_close orb].
  all: try (destruct (IH rt w H) as (out & ->); eexists; reflexivity).
  all: destruct (IH (put rt i (set_wsi w None)) (set_wsi w None)) as (out & ->);
    [cbn; now rewrite list_set_same|]; eexists; f_equal; f_equal;
    destruct (existsb is_close rs); [|reflexivity]; unfold put; cbn; f_equal; apply list_set_twice.
Qed.

(** ** The registry's life *)

(** Every operation, with any outcome of the libraries; [lws_wsi_close] runs the
    close callback before it returns. *)
Inductive runtime_run : alpha_lws_runtime -> Prop :=
  | run_create n alloc context vhost rt :
      alpha_lws_runtime_create n alloc context vhost (Some None) = (ALPHA_OK, Some (Some rt)) -> runtime_run rt
  | run_add rt fd ww rfn cctx dup adopt out rt' e out' closed :
      runtime_run rt ->
      alpha_lws_watch_add (Some rt) fd ww rfn cctx dup adopt out = Some (Some rt', e, out', closed) ->
      runtime_run rt'
  | run_set_write rt watch ww z rt' e :
      runtime_run rt -> alpha_lws_watch_set_write rt watch ww z = Some (rt', e) -> runtime_run rt'
  | run_remove rt watch reasons rt' out :
      runtime_run rt -> existsb is_close reasons = true ->
      alpha_lws_watch_remove rt watch reasons = Some (rt', out) -> runtime_run rt'
  | run_callback rt watch reason rt' out :
      runtime_run rt -> foreign_fd_callback rt watch reason = Some (rt', out) -> runtime_run rt'.

Lemma add_ok rt fd ww rfn cctx dup adopt out rt' e out' closed :
  registry_ok rt ->
  alpha_lws_watch_add (Some rt) fd ww rfn cctx dup adopt out = Some (Some rt', e, out', closed) ->
  registry_ok rt'.
Proof.
  intros R E. unfold alpha_lws_watch_add in E.
  destruct rfn as [rfn|], out as [out|]; try (inv E; exact R).
  destruct (fd <? 0); [inv E; exact R|].
  destruct (count rt =? capacity rt)%nat eqn:F; [inv E; exact R|]. apply Nat.eqb_neq in F.
  destruct (dup <? 0); [inv E; exact R|].
  destruct (room_gives_slot rt R F) as (i & w & G & H & A). rewrite G in E.
  destruct adopt as [x|]; inv E.
  - apply (registry_put rt i w); cbn; auto; [rewrite A; cbn; lia|discriminate].
  - apply (registry_put_same rt i w); auto.
Qed.

Lemma remove_step rt i w reasons :
  registry_ok rt -> nth_error (watches rt) i = Some w -> active w = true -> existsb is_close reasons = true ->
  exists out, alpha_lws_watch_remove rt (Some i) reasons =
    Some (set_count (put rt i (set_active (set_wsi w None) false)) (count rt - 1), out).
Proof.
  intros R H A C. cbn. rewrite H, A. cbn [negb].
  assert (B : (i < length (watches rt))%nat) by (apply nth_error_Some; congruence).
  destruct (wsi w) eqn:X.
  - destruct (run_callbacks_frame reasons rt i w H) as (out & ->). rewrite C. cbn.
    rewrite list_set_same by exact B. eexists. unfold set_count, put; cbn. now rewrite list_set_twice.
  - cbn. rewrite H. eexists. unfold set_active, set_wsi. rewrite X. reflexivity.
Qed.

Lemma remove_ok rt watch reasons rt' out :
  registry_ok rt -> existsb is_close reasons = true ->
  alpha_lws_watch_remove rt watch reasons = Some (rt', out) -> registry_ok rt'.
Proof.
  intros R C E. destruct watch as [i|]; [|inv E; exact R].
  destruct (nth_error (watches rt) i) as [w|] eqn:H; [|cbn in E; rewrite H in E; discriminate].
  destruct (active w) eqn:A; [|cbn in E; rewrite H, A in E; inv E; exact R].
  destruct (remove_step rt i w reasons R H A C) as (o & F). rewrite F in E. inv E.
  apply (registry_put rt i w); auto. rewrite A. cbn. rewrite (reg_count _ R).
  pose proof (actives_set _ _ _ zero_watch H) as Q. rewrite A in Q. cbn in Q. lia.
Qed.

Lemma set_write_ok rt watch ww z rt' e :
  registry_ok rt -> alpha_lws_watch_set_write rt watch ww z = Some (rt', e) -> registry_ok rt'.
Proof.
  intros R E. destruct watch as [i|]; [|inv E; exact R]. cbn in E.
  destruct (nth_error (watches rt) i) as [w|] eqn:H; [|discriminate].
  destruct (wsi w) eqn:X; inv E; [|exact R].
  apply (registry_put_same rt i w); auto. cbn. intros A. exact (reg_wsi _ R i w H A).
Qed.

Lemma runtime_run_ok rt : runtime_run rt -> registry_ok rt.
Proof.
  induction 1 as [n alloc context vhost rt E| | | |].
  - unfold alpha_lws_runtime_create in E. destruct (_ || _) eqn:G; [discriminate|].
    apply orb_false_iff in G as [G1 G2]. apply Nat.eqb_neq in G1. apply Nat.ltb_ge in G2.
    destruct (fst alloc), (snd alloc), context, vhost; inv E.
    split; cbn; rewrite ?repeat_length, ?actives_repeat; auto; try lia.
    intros i w H _. apply nth_error_In, repeat_spec in H. now subst.
  - eapply add_ok; eauto.
  - eapply set_write_ok; eauto.
  - eapply remove_ok; eauto.
  - eapply callback_ok; eauto.
Qed.

Lemma wakeup_loop_filter ws :
  wakeup_loop (length ws) ws =
  Some (map (fun w => call_ready w false true false) (filter (fun w => active w && wants_write w) ws)).
Proof.
  induction ws as [|w ws IH]; cbn; [reflexivity|]. rewrite IH.
  destruct (active w && wants_write w); reflexivity.
Qed.

(** ** Properties *)

(** C21: A registry reached by any sequence of operations counts exactly its active
    watches, never more than its capacity of at most 256; an inactive slot holds no
    wsi; and the loop's wakeup stays in bounds and calls exactly the active watches
    that want to write, in slot order, as writable. *)
Theorem registry_invariant rt :
  runtime_run rt ->
  alpha_lws_runtime_watch_count (Some rt) = length (filter active (watches rt)) /\
  (alpha_lws_runtime_watch_count (Some rt) <= alpha_lws_runtime_watch_capacity (Some rt) <= 256)%nat /\
  (forall i w, nth_error (watches rt) i = Some w -> active w = false -> wsi w = None) /\
  service_wakeup rt =
    Some (map (fun w => call_ready w false true false) (filter (fun w => active w && wants_write w) (watches rt))).
Proof.
  intros R. destruct (runtime_run_ok _ R) as [L C N W]. cbn. split; [|split; [|split; [exact W|]]].
  - rewrite N. clear. induction (watches rt) as [|w ws IH]; cbn; [reflexivity|].
    destruct (active w); cbn; now rewrite IH.
  - pose proof (actives_bound (watches rt)). lia.
  - unfold service_wakeup. rewrite <- L. apply wakeup_loop_filter.
Qed.

(** Adding a watch, on every branch, in a reachable registry: a full registry is
    refused, a failed [dup] reported, and otherwise the first inactive slot is
    taken, every other slot kept, and the slot activated and counted exactly when
    the adoption succeeds.  No branch closes the duplicate: the count and the slots
    cannot disagree. *)
Theorem watch_add_exact rt fd ww rfn cctx dup adopt o :
  runtime_run rt -> 0 <= fd ->
  let res := alpha_lws_watch_add (Some rt) fd ww (Some rfn) cctx dup adopt (Some o) in
  (count rt = capacity rt -> res = Some (Some rt, ALPHA_ERR_RANGE, Some o, [])) /\
  (count rt <> capacity rt -> dup < 0 -> res = Some (Some rt, ALPHA_ERR_IO, Some o, [])) /\
  (count rt <> capacity rt -> 0 <= dup -> exists i w rt',
     nth_error (watches rt) i = Some w /\ active w = false /\
     (forall j x, (j < i)%nat -> nth_error (watches rt) j = Some x -> active x = true) /\
     (forall j, j <> i -> nth_error (watches rt') j = nth_error (watches rt) j) /\
     nth_error (watches rt') i =
       Some {| wsi := adopt; ready_fn := rfn; callback_ctx := cctx; source_fd := fd; wants_write := ww;
               active := match adopt with Some _ => true | None => false end |} /\
     match adopt with
     | Some _ => count rt' = (count rt + 1)%nat /\ res = Some (Some rt', ALPHA_OK, Some (Some i), [])
     | None => count rt' = count rt /\ res = Some (Some rt', ALPHA_ERR_IO, Some o, [])
     end).
Proof.
  intros R F res. apply runtime_run_ok in R. subst res. unfold alpha_lws_watch_add.
  replace (fd <? 0) with false by (symmetry; apply Z.ltb_ge; exact F). split; [|split].
  - intros E. rewrite E, Nat.eqb_refl. reflexivity.
  - intros E D. rewrite (proj2 (Nat.eqb_neq _ _) E). now replace (dup <? 0) with true by (symmetry; apply Z.ltb_lt; exact D).
  - intros E D. rewrite (proj2 (Nat.eqb_neq _ _) E).
    replace (dup <? 0) with false by (symmetry; apply Z.ltb_ge; exact D).
    destruct (room_gives_slot rt R E) as (i & w & G & H & A). rewrite G.
    pose proof (free_slot_spec (capacity rt) 0 (watches rt) ltac:(rewrite (reg_len _ R); lia)) as S.
    rewrite G in S. destruct S as (k & w1 & K & _ & _ & _ & First). cbn in K. subst k.
    assert (B : (i < length (watches rt))%nat) by (apply nth_error_Some; congruence).
    set (w' := {| wsi := adopt; ready_fn := rfn; callback_ctx := cctx; source_fd := fd; wants_write := ww;
                  active := match adopt with Some _ => true | None => false end |}).
    exists i, w, (set_count (put rt i w') (match adopt with Some _ => count rt + 1 | None => count rt end)%nat).
    split; [exact H|]. split; [exact A|]. split; [exact First|].
    split; [intros j N; cbn; now rewrite list_set_other by auto|].
    split; [cbn; now rewrite list_set_same|]. destruct adopt; split; reflexivity.
Qed.

(** The life of a watch: removing it frees its slot and nothing else, and from then
    on its handle is inert: the write interest and the timer are refused, a second
    removal changes nothing. *)
Theorem watch_removed_is_inert rt i w reasons :
  runtime_run rt -> nth_error (watches rt) i = Some w -> active w = true ->
  existsb is_close reasons = true ->
  exists rt' out, alpha_lws_watch_remove rt (Some i) reasons = Some (rt', out) /\
    count rt = (count rt' + 1)%nat /\
    (forall j, j <> i -> nth_error (watches rt') j = nth_error (watches rt) j) /\
    (forall ww z, alpha_lws_watch_set_write rt' (Some i) ww z = Some (rt', ALPHA_ERR_INVALID_ARG)) /\
    (forall ms, alpha_lws_watch_set_timer rt' (Some i) ms = Some (ALPHA_ERR_INVALID_ARG, None)) /\
    (forall rs, alpha_lws_watch_remove rt' (Some i) rs = Some (rt', [])).
Proof.
  intros R H A C. apply runtime_run_ok in R.
  destruct (remove_step rt i w reasons R H A C) as (out & E). do 2 eexists. split; [exact E|].
  assert (B : (i < length (watches rt))%nat) by (apply nth_error_Some; congruence).
  assert (P : (0 < count rt)%nat).
  { rewrite (reg_count _ R). pose proof (actives_set _ _ _ zero_watch H) as Q. rewrite A in Q. cbn in Q. lia. }
  split; [cbn; lia|]. split; [intros j N; cbn; now rewrite list_set_other by auto|].
  split; [|split]; intros; cbn; now rewrite list_set_same.
Qed.

(** A timer of more than [INT64_MAX / 1000] milliseconds overflows the product with
    the microseconds per millisecond; every other accepted timer is exact. *)
Theorem set_timer_overflows rt i w x ms :
  nth_error (watches rt) i = Some w -> wsi w = Some x -> 0 <= ms ->
  alpha_lws_watch_set_timer rt (Some i) ms =
    if ms <=? 9223372036854775 then Some (ALPHA_OK, Some (x, ms * 1000)) else None.
Proof.
  intros H X M. unfold alpha_lws_watch_set_timer. rewrite H, X. replace (ms <? -1) with false by lia. replace (ms <? 0) with false by lia.
  unfold LWS_US_PER_MS, INT64_MAX. destruct (ms <=? 9223372036854775) eqn:E; zprop.
  - now replace (ms * 1000 >? 2 ^ 63 - 1) with false by lia.
  - now replace (ms * 1000 >? 2 ^ 63 - 1) with true by lia.
Qed.

(** *** Witnesses: a registry of two slots, one of them watched *)

Definition small_registry : alpha_lws_runtime :=
  {| watches := [{| wsi := Some 11; ready_fn := 1; callback_ctx := 2; source_fd := 4; wants_write := true;
                    active := true |}; zero_watch];
     capacity := 2; count := 1 |}.

Lemma small_registry_run : runtime_run small_registry.
Proof.
  apply (run_add {| watches := [zero_watch; zero_watch]; capacity := 2; count := 0 |}
           4 true (Some 1) 2 9 (Some 11) (Some None) _ ALPHA_OK (Some (Some O)) []); [|reflexivity].
  now apply (run_create 2 (true, true) true true).
Qed.

Lemma registry_invariant_witness :
  alpha_lws_runtime_watch_count (Some small_registry) = 1%nat /\
  service_wakeup small_registry =
    Some [{| fn := 1; ctx := 2; readable := false; writable := true; timed_out := false |}].
Proof.
  destruct (registry_invariant small_registry small_registry_run) as (A & _ & _ & B).
  split; [exact A|exact B].
Defined.

Lemma watch_add_exact_witness :
  let res := alpha_lws_watch_add (Some small_registry) 5 false (Some 1) 3 10 (Some 12) (Some None) in
  exists rt', res = Some (Some rt', ALPHA_OK, Some (Some 1%nat), []) /\ count rt' = 2%nat.
Proof.
  destruct (watch_add_exact small_registry 5 false 1 3 10 (Some 12) None small_registry_run ltac:(lia))
    as (_ & _ & S).
  destruct S as (i & w & rt' & H & A & First & _ & _ & N & E); [discriminate|lia|].
  exists rt'. split; [|exact N]. destruct i as [|[|i]]; [inv H; discriminate|exact E|destruct i; discriminate].
Defined.

Lemma watch_removed_is_inert_witness :
  exists rt' out, alpha_lws_watch_remove small_registry (Some O) [LWS_CALLBACK_RAW_CLOSE_FILE] = Some (rt', out) /\
    count small_registry = (count rt' + 1)%nat /\
    (forall j, j <> O -> nth_error (watches rt') j = nth_error (watches small_registry) j) /\
    (forall ww z, alpha_lws_watch_set_write rt' (Some O) ww z = Some (rt', ALPHA_ERR_INVALID_ARG)) /\
    (forall ms, alpha_lws_watch_set_timer rt' (Some O) ms = Some (ALPHA_ERR_INVALID_ARG, None)) /\
    (forall rs, alpha_lws_watch_remove rt' (Some O) rs = Some (rt', [])).
Proof. eapply (watch_removed_is_inert small_registry); [exact small_registry_run|reflexivity..]. Defined.

Lemma set_timer_overflows_witness :
  alpha_lws_watch_set_timer small_registry (Some O) 9223372036854776 = None.
Proof.
  exact (set_timer_overflows small_registry O _ 11 9223372036854776 eq_refl eq_refl ltac:(lia)).
Defined.
