(* ===== verification/HttpClient.v ===== *)
(** * The HTTP client

    Models [core/platform/http/http_client.c]: JSON posts driven through curl's
    multi interface.  curl is a parameter, the class [CurlMulti]; what it calls back
    during a call (body chunks, socket and timer changes) is the list of events the
    call returns.  A request is identified by its easy handle, which carries the
    pointer to it (CURLOPT_PRIVATE).  The calls of the owner's functions are the
    notices returned; those functions do not re-enter the client.  A message of curl is
    read through a pointer into curl's storage; see [message_result]. *)

From Stdlib Require Import ZArith Lia Bool Ascii String List Permutation.
From S2P Require Import Prelude CStr Domain.
Import ListNotations.
Open Scope string_scope.
Open Scope list_scope.
Open Scope Z_scope.

Definition ALPHA_HTTP_MAX_PENDING : nat := 64.
Definition ALPHA_HTTP_MAX_RESPONSE_BYTES : Z := 1024 * 1024.
Definition SIZE_MAX : Z := 2 ^ 64 - 1.

Inductive alpha_http_post_kind_t :=
  ALPHA_HTTP_POST_GENERIC_JSON | ALPHA_HTTP_POST_TELEGRAM | ALPHA_HTTP_POST_LLM.

Definition ALPHA_HTTP_WATCH_NONE : Z := 0.
Definition ALPHA_HTTP_WATCH_READ : Z := 1.
Definition ALPHA_HTTP_WATCH_WRITE : Z := 2.

(** curl's public constants. *)
Definition CURL_POLL_IN : Z := 1.
Definition CURL_POLL_INOUT : Z := 3.
Definition CURL_CSELECT_IN : Z := 1.
Definition CURL_CSELECT_OUT : Z := 2.
Definition CURL_SOCKET_TIMEOUT : Z := -1.
Definition CURLE_ABORTED_BY_CALLBACK : Z := 42.

(** The kind is a valid enumerator: the range check on it always passes.  [None] is
    NULL. *)
Record alpha_http_post_t := {
  post_kind : alpha_http_post_kind_t;
  url : option string;
  json_body : option string;
  authorization_header : option string;
  timeout_ms : Z;
  post_user_data : Z
}.

Record alpha_http_result_t := {
  result_kind : alpha_http_post_kind_t;
  status_code : Z;
  transport_code : Z;
  response_body : string;
  result_size : Z;
  result_user_data : Z
}.

(** [response] is [None] before the first chunk; its terminator is not kept. *)
Record alpha_http_request_t := {
  easy : Z;
  headers : list string;
  body : string;
  response : option string;
  response_size : Z;
  kind : alpha_http_post_kind_t;
  user_data : Z
}.

Inductive notice :=
  | WATCH_FN (socket_fd watch : Z)
  | TIMER_FN (timeout : Z)
  | COMPLETE_FN (result : alpha_http_result_t).

(** ** curl *)

Record CURLMsg := { is_done : bool; easy_handle : Z; transfer_result : Z }.

(** A chunk carries its data, the two factors of its size and whether [realloc]
    succeeds. *)
Inductive curl_event :=
  | EvBody (handle : Z) (data : string) (size count : Z) (realloc : bool)
  | EvSocket (socket_fd action : Z)
  | EvTimer (timeout : Z).

(** A message is handed out by pointer and its storage is the multi handle's:
    [message_result m x] is what reading [data.result] through the pointer gives in
    the state [m], [None] when the storage is gone. *)
Class CurlMulti (M : Type) := {
  curl_multi_socket_action : M -> Z -> Z -> M * list curl_event * bool * Z;
  curl_multi_info_read : M -> M * option CURLMsg;
  curl_multi_remove_handle : M -> Z -> M;
  curl_multi_add_handle : M -> Z -> M * list curl_event * bool;
  curl_response_code : M -> Z -> Z;
  message_result : M -> CURLMsg -> option Z
}.

(** ** Chunks *)

Definition set_response (r : alpha_http_request_t) (text : string) (n : Z) : alpha_http_request_t :=
  {| easy := easy r; headers := headers r; body := body r; response := Some text; response_size := n;
     kind := kind r; user_data := user_data r |}.

Definition response_text (r : alpha_http_request_t) : string :=
  match response r with Some t => t | None => "" end.

(** The request afterwards and the value returned to curl; [None] when the chunk is
    shorter than it says. *)
Definition receive_body (r : alpha_http_request_t) (data : string) (size count : Z) (realloc : bool)
  : option (alpha_http_request_t * Z) :=
  let bytes := u64 (size * count) in
  if (bytes >? u64 (ALPHA_HTTP_MAX_RESPONSE_BYTES - response_size r))
     || (bytes >? u64 (SIZE_MAX - response_size r - 1))
  then Some (r, 0)
  else if negb realloc then Some (r, 0)
  else if Z.of_nat (String.length data) <? bytes then None
  else Some (set_response r (response_text r ++ String.substring 0 (Z.to_nat bytes) data)%string
               (response_size r + bytes), bytes).

Section Client.
Context {M : Type} {curl : CurlMulti M}.

Record alpha_http_multi := {
  multi : M;
  requests : list alpha_http_request_t;
  pending : nat
}.

Definition set_multi (c : alpha_http_multi) (m : M) : alpha_http_multi :=
  {| multi := m; requests := requests c; pending := pending c |}.

Definition curl_socket_changed (socket_fd action : Z) : notice :=
  let watch := if (action >=? CURL_POLL_IN) && (action <=? CURL_POLL_INOUT) then action
               else ALPHA_HTTP_WATCH_NONE in
  WATCH_FN socket_fd watch.

Definition curl_timer_changed (timeout : Z) : notice := TIMER_FN timeout.

(** Apply [f] to the request of a handle; [None] when the handle has none. *)
Fixpoint update_request (l : list alpha_http_request_t) (handle : Z)
    (f : alpha_http_request_t -> option alpha_http_request_t) : option (list alpha_http_request_t) :=
  match l with
  | [] => None
  | r :: l =>
      if easy r =? handle then let? r := f r in Some (r :: l)
      else let? l := update_request l handle f in Some (r :: l)
  end.

Definition curl_callback (c : alpha_http_multi) (ev : curl_event) : option (alpha_http_multi * list notice) :=
  match ev with
  | EvBody handle data size count realloc =>
      let? l := update_request (requests c) handle
                  (fun r => let? (r, _) := receive_body r data size count realloc in Some r) in
      Some ({| multi := multi c; requests := l; pending := pending c |}, [])
  | EvSocket fd action => Some (c, [curl_socket_changed fd action])
  | EvTimer t => Some (c, [curl_timer_changed t])
  end.

Fixpoint curl_callbacks (c : alpha_http_multi) (evs : list curl_event) : option (alpha_http_multi * list notice) :=
  match evs with
  | [] => Some (c, [])
  | ev :: evs =>
      let? (c, out) := curl_callback c ev in
      let? (c, outs) := curl_callbacks c evs in
      Some (c, out ++ outs)
  end.

(** ** Requests *)

(** The walk of the cursor: the list without the request, if it is linked. *)
Fixpoint unlink (l : list alpha_http_request_t) (handle : Z) : option (list alpha_http_request_t) :=
  match l with
  | [] => None
  | r :: l =>
      if easy r =? handle then Some l
      else let? l := unlink l handle in Some (r :: l)
  end.

(** A request that is not linked yet is only freed. *)
Definition unlink_and_free (c : alpha_http_multi) (handle : Z) : alpha_http_multi :=
  match unlink (requests c) handle with
  | Some l => {| multi := multi c; requests := l; pending := pending c - 1 |}
  | None => c
  end.

Fixpoint find_request (l : list alpha_http_request_t) (p : alpha_http_request_t -> bool)
  : option alpha_http_request_t :=
  match l with
  | [] => None
  | r :: l => if p r then Some r else find_request l p
  end.

Definition result_of (r : alpha_http_request_t) (status code : Z) : alpha_http_result_t :=
  {| result_kind := kind r; status_code := status; transport_code := code;
     response_body := response_text r; result_size := response_size r; result_user_data := user_data r |}.

(** [fuel] bounds the messages read; [None] also when a handle has no request and
    when the result is read from a message whose storage is gone: the code reads it
    after it has removed the handle. *)
Fixpoint drain_completions (fuel : nat) (c : alpha_http_multi) : option (alpha_http_multi * list notice) :=
  match fuel with
  | O => None
  | S fuel =>
      let '(m, message) := curl_multi_info_read (multi c) in
      let c := set_multi c m in
      match message with
      | None => Some (c, [])
      | Some msg =>
          if negb (is_done msg) then drain_completions fuel c
          else
            let? request := find_request (requests c) (fun r => easy r =? easy_handle msg) in
            let status := curl_response_code (multi c) (easy_handle msg) in
            let c := set_multi c (curl_multi_remove_handle (multi c) (easy_handle msg)) in
            let? code := message_result (multi c) msg in
            let result := result_of request status code in
            let c := unlink_and_free c (easy_handle msg) in
            let? (c, outs) := drain_completions fuel c in
            Some (c, COMPLETE_FN result :: outs)
      end
  end.

(** [code] is the result of [curl_global_init], 0 being CURLE_OK. *)
Definition alpha_http_global_init (code : Z) : alpha_err_t := if code =? 0 then ALPHA_OK else ALPHA_ERR_HTTP.

(** [fns] says whether the three functions are given; [init] is the multi handle and
    [setopts] whether the four options are accepted. *)
Definition alpha_http_multi_create (fns alloc : bool) (init : option M) (setopts : bool)
    (out : option (option alpha_http_multi)) : alpha_err_t * option (option alpha_http_multi) :=
  match out with
  | None => (ALPHA_ERR_INVALID_ARG, out)
  | Some _ =>
      if negb fns then (ALPHA_ERR_INVALID_ARG, out)
      else if negb alloc then (ALPHA_ERR_IO, Some None)
      else
        match init with
        | None => (ALPHA_ERR_HTTP, Some None)
        | Some m =>
            if negb setopts then (ALPHA_ERR_HTTP, Some None)
            else (ALPHA_OK, Some (Some {| multi := m; requests := []; pending := 0 |}))
        end
  end.

(** The loop over the requests, newest first. *)
Fixpoint destroy_loop (fuel : nat) (c : alpha_http_multi) : option alpha_http_multi :=
  match fuel with
  | O => None
  | S fuel =>
      match requests c with
      | [] => Some c
      | r :: _ =>
          destroy_loop fuel (unlink_and_free (set_multi c (curl_multi_remove_handle (multi c) (easy r))) (easy r))
      end
  end.

Definition alpha_http_multi_destroy (fuel : nat) (client : option alpha_http_multi)
  : option (option alpha_http_multi) :=
  match client with
  | None => Some None
  | Some c => let? c := destroy_loop fuel c in Some (Some c)
  end.

Definition alpha_http_pending (client : option alpha_http_multi) : nat :=
  match client with Some c => pending c | None => O end.

(** The outcomes of the calls a post makes, in order: [calloc], [curl_easy_init],
    [malloc] of the body, the two [curl_slist_append]s and the ten options. *)
Record post_outcomes := {
  calloc_ok : bool;
  easy_init : option Z;
  body_ok : bool;
  slist_ok : bool;
  auth_ok : bool;
  setopts_ok : bool
}.

Definition JSON_HEADER : string := "Content-Type: application/json".

Definition alpha_http_post_json (client : option alpha_http_multi) (post : option alpha_http_post_t)
    (io : post_outcomes) : option (option alpha_http_multi * alpha_err_t * list notice) :=
  match client, post with
  | Some c, Some p =>
      match url p, json_body p with
      | Some u, Some b =>
          if String.eqb u "" || (timeout_ms p <=? 0) then Some (client, ALPHA_ERR_INVALID_ARG, [])
          else if (ALPHA_HTTP_MAX_PENDING <=? pending c)%nat then Some (client, ALPHA_ERR_RANGE, [])
          else if negb (calloc_ok io) then Some (client, ALPHA_ERR_IO, [])
          else
            match easy_init io with
            | None => Some (client, ALPHA_ERR_IO, [])
            | Some e =>
                if negb (body_ok io) then Some (client, ALPHA_ERR_IO, [])
                else if negb (slist_ok io) then Some (client, ALPHA_ERR_IO, [])
                else
                  match (match authorization_header p with
                         | Some a => if auth_ok io then Some [JSON_HEADER; a] else None
                         | None => Some [JSON_HEADER]
                         end) with
                  | None => Some (client, ALPHA_ERR_IO, [])
                  | Some hs =>
                      if negb (setopts_ok io) then Some (client, ALPHA_ERR_HTTP, [])
                      else
                        let request := {| easy := e; headers := hs; body := b; response := None;
                                          response_size := 0; kind := post_kind p;
                                          user_data := post_user_data p |} in
                        let c := {| multi := multi c; requests := request :: requests c;
                                    pending := pending c + 1 |} in
                        let '(m, evs, ok) := curl_multi_add_handle (multi c) e in
                        let? (c, out) := curl_callbacks (set_multi c m) evs in
                        if negb ok then Some (Some (unlink_and_free c e), ALPHA_ERR_HTTP, out)
                        else Some (Some c, ALPHA_OK, out)
                  end
            end
      | _, _ => Some (client, ALPHA_ERR_INVALID_ARG, [])
      end
  | _, _ => Some (client, ALPHA_ERR_INVALID_ARG, [])
  end.

(** User data 0 is NULL. *)
Definition alpha_http_cancel (client : option alpha_http_multi) (ud : Z)
  : option alpha_http_multi * alpha_err_t * list notice :=
  match client with
  | None => (None, ALPHA_ERR_INVALID_ARG, [])
  | Some c =>
      if ud =? 0 then (client, ALPHA_ERR_INVALID_ARG, [])
      else
        match find_request (requests c) (fun r => user_data r =? ud) with
        | None => (client, ALPHA_ERR_RANGE, [])
        | Some r =>
            let c := set_multi c (curl_multi_remove_handle (multi c) (easy r)) in
            let result := result_of r 0 CURLE_ABORTED_BY_CALLBACK in
            (Some (unlink_and_free c (easy r)), ALPHA_OK, [COMPLETE_FN result])
        end
  end.

Definition any_bit (x mask : Z) : bool := negb (Z.land x mask =? 0).

(** The calls common to the two actions; the cell [running] is returned. *)
Definition drive (fuel : nat) (c : alpha_http_multi) (socket_fd events : Z)
  : option (alpha_http_multi * alpha_err_t * Z * list notice) :=
  let '(m, evs, ok, running) := curl_multi_socket_action (multi c) socket_fd events in
  let? (c, out) := curl_callbacks (set_multi c m) evs in
  if negb ok then Some (c, ALPHA_ERR_HTTP, running, out)
  else
    let? (c, outs) := drain_completions fuel c in
    Some (c, ALPHA_OK, running, out ++ outs).

Definition alpha_http_multi_socket_action (fuel : nat) (client : option alpha_http_multi) (socket_fd watch : Z)
    (running_out : option Z) : option (option alpha_http_multi * alpha_err_t * option Z * list notice) :=
  let ready := u32 watch in
  let allowed := Z.lor ALPHA_HTTP_WATCH_READ ALPHA_HTTP_WATCH_WRITE in
  match client, running_out with
  | Some c, Some _ =>
      if (socket_fd <? 0) || any_bit ready (u32 (Z.lnot allowed))
      then Some (client, ALPHA_ERR_INVALID_ARG, running_out, [])
      else
        let events := 0 in
        let events := if any_bit ready ALPHA_HTTP_WATCH_READ then Z.lor events CURL_CSELECT_IN else events in
        let events := if any_bit ready ALPHA_HTTP_WATCH_WRITE then Z.lor events CURL_CSELECT_OUT else events in
        let? (c, e, running, out) := drive fuel c socket_fd events in
        Some (Some c, e, Some running, out)
  | _, _ => Some (client, ALPHA_ERR_INVALID_ARG, running_out, [])
  end.

Definition alpha_http_multi_timeout_action (fuel : nat) (client : option alpha_http_multi)
    (running_out : option Z) : option (option alpha_http_multi * alpha_err_t * option Z * list notice) :=
  match client, running_out with
  | Some c, Some _ =>
      let? (c, e, running, out) := drive fuel c CURL_SOCKET_TIMEOUT 0 in
      Some (Some c, e, Some running, out)
  | _, _ => Some (client, ALPHA_ERR_INVALID_ARG, running_out, [])
  end.

End Client.

Arguments alpha_http_multi : clear implicits.

(** ** What curl promises

    [added] are the handles in the multi handle and [msgs] its queue of messages,
    which are about added handles only.  Reading takes the oldest message; removing
    a handle drops its messages; body chunks arrive for added handles and are as
    long as they say; an action neither adds nor removes handles.  A message can be
    read once it is handed out; curl does not promise that it survives the removal
    of a handle, so nothing is said of a later read. *)
Class CurlLaws (M : Type) {curl : CurlMulti M} := {
  added : M -> Z -> Prop;
  msgs : M -> list CURLMsg;
  law_msgs : forall m x, In x (msgs m) -> added m (easy_handle x);
  law_info : forall m,
    match msgs m with
    | [] => curl_multi_info_read m = (m, None)
    | x :: rest => exists m', curl_multi_info_read m = (m', Some x) /\ msgs m' = rest /\
        message_result m' x = Some (transfer_result x) /\ forall e, added m' e <-> added m e
    end;
  law_remove : forall m e, (length (msgs (curl_multi_remove_handle m e)) <= length (msgs m))%nat /\
    incl (msgs (curl_multi_remove_handle m e)) (msgs m) /\
    forall x, added (curl_multi_remove_handle m e) x <-> added m x /\ x <> e;
  law_add : forall m e, let '(m', evs, ok) := curl_multi_add_handle m e in
    Forall (fun ev => match ev with EvBody _ _ _ _ _ => False | _ => True end) evs /\
    forall x, added m' x <-> added m x \/ (ok = true /\ x = e);
  law_action : forall m fd z, let '(m', evs, _, _) := curl_multi_socket_action m fd z in
    (forall x, added m' x <-> added m x) /\
    Forall (fun ev => match ev with
                      | EvBody h data size count _ =>
                          added m h /\ Z.of_nat (String.length data) = u64 (size * count)
                      | _ => True
                      end) evs
}.

(** ** Lemmas *)

(** A response holds exactly the bytes it counts, at most one mebibyte. *)
Definition response_ok (r : alpha_http_request_t) : Prop :=
  response_size r = Z.of_nat (String.length (response_text r)) /\
  response_size r <= ALPHA_HTTP_MAX_RESPONSE_BYTES.

Lemma substring_full s : String.substring 0 (String.length s) s = s.
Proof. apply substring_all. lia. Qed.

(** A chunk is appended whole, or refused leaving the request alone. *)
Lemma receive_body_spec r data size cnt realloc :
  response_ok r -> Z.of_nat (String.length data) = u64 (size * cnt) ->
  (receive_body r data size cnt realloc = Some (r, 0)) \/
  (exists r', receive_body r data size cnt realloc = Some (r', Z.of_nat (String.length data)) /\
     response_text r' = (response_text r ++ data)%string /\ response_ok r' /\
     easy r' = easy r /\ kind r' = kind r /\ user_data r' = user_data r).
Proof.
  intros [A B] L. unfold receive_body. rewrite <- L. destruct (_ || _) eqn:G; [auto|].
  destruct realloc; [|auto]. cbn [negb]. rewrite Z.ltb_irrefl. right.
  apply orb_false_iff in G as [G1 G2]. eexists. split; [reflexivity|].
  rewrite Nat2Z.id, substring_full. split; [reflexivity|]. split; [|auto].
  unfold response_ok, ALPHA_HTTP_MAX_RESPONSE_BYTES in *. cbn.
  rewrite u64_small in G1 by lia. rewrite length_sappend. zprop. lia.
Qed.

Section Contract.
Context {M : Type} {curl : CurlMulti M} {laws : CurlLaws M}.

(** The invariant: the counter counts the linked requests, at most 64, whose
    handles are distinct and exactly those curl has, and every response is bounded. *)
Record http_ok (c : alpha_http_multi M) : Prop := {
  ok_pending : pending c = length (requests c);
  ok_bound : (length (requests c) <= ALPHA_HTTP_MAX_PENDING)%nat;
  ok_distinct : NoDup (map easy (requests c));
  ok_added : forall e, added (multi c) e <-> In e (map easy (requests c));
  ok_response : Forall response_ok (requests c)
}.

(** What identifies a request to its owner. *)
Definition tag (r : alpha_http_request_t) : alpha_http_post_kind_t * Z := (kind r, user_data r).
Definition result_tag (r : alpha_http_result_t) : alpha_http_post_kind_t * Z := (result_kind r, result_user_data r).
Fixpoint completed (ns : list notice) : list (alpha_http_post_kind_t * Z) :=
  match ns with
  | [] => []
  | COMPLETE_FN r :: ns => result_tag r :: completed ns
  | _ :: ns => completed ns
  end.

Lemma completed_app n1 n2 : completed (n1 ++ n2) = completed n1 ++ completed n2.
Proof. induction n1 as [|[] n1 IH]; cbn; auto. now rewrite IH. Qed.

Lemma unlink_spec l e r :
  NoDup (map easy l) -> In r l -> easy r = e ->
  exists l', unlink l e = Some l' /\ Permutation l (r :: l') /\ (forall x, In x l' -> In x l /\ easy x <> e) /\
    NoDup (map easy l').
Proof.
  induction l as [|a l IH]; intros N I E; [contradiction|]. cbn in N |- *. inv N.
  destruct (easy a =? easy r) eqn:Q; zprop.
  - destruct I as [->|I]; [|exfalso; apply H1; rewrite Q; apply in_map; exact I].
    exists l. repeat split; auto. intros K. apply H1. rewrite <- K. now apply in_map.
  - destruct I as [->|I]; [congruence|]. destruct (IH H2 I eq_refl) as (l' & -> & P & D & N').
    exists (a :: l'). split; [reflexivity|]. split; [rewrite P; constructor|]. split.
    + intros x [->|X]; [auto|]. destruct (D x X). auto.
    + cbn. constructor; [|exact N']. intros K. apply H1. apply in_map_iff in K as (x & X & Y).
      rewrite <- X. apply in_map. apply D. exact Y.
Qed.

Lemma find_request_In l p r : find_request l p = Some r -> In r l /\ p r = true.
Proof.
  induction l as [|a l IH]; cbn; [discriminate|]. destruct (p a) eqn:E.
  - intros H. inv H. auto.
  - intros H. destruct (IH H). auto.
Qed.

Lemma find_request_handle l e : In e (map easy l) ->
  exists r, find_request l (fun r => easy r =? e) = Some r.
Proof.
  induction l as [|a l IH]; cbn; [contradiction|]. destruct (easy a =? e) eqn:E; [eauto|].
  zprop. intros [K|I]; [congruence|auto].
Qed.

(** Taking a linked request out of curl and out of the list. *)
Lemma drop_ok c r : http_ok c -> In r (requests c) ->
  let c' := unlink_and_free (set_multi c (curl_multi_remove_handle (multi c) (easy r))) (easy r) in
  http_ok c' /\ Permutation (map tag (requests c)) (tag r :: map tag (requests c')) /\
  multi c' = curl_multi_remove_handle (multi c) (easy r).
Proof.
  intros [P B D A R] I. unfold unlink_and_free. cbn [requests set_multi].
  destruct (unlink_spec (requests c) (easy r) r D I eq_refl) as (l' & -> & Pm & K & D'). cbn.
  pose proof (Permutation_length Pm) as L. cbn in L. split; [|split; [exact (Permutation_map tag Pm)|reflexivity]].
  destruct (law_remove (multi c) (easy r)) as (_ & _ & Q). split; cbn; auto; try lia.
  - intros e. rewrite Q, A. split.
    + intros [X Y]. apply in_map_iff in X as (x & <- & X). apply in_map.
      apply (Permutation_in _ Pm) in X as [->|X]; [congruence|exact X].
    + intros X. apply in_map_iff in X as (x & <- & X). destruct (K x X). split; [now apply in_map|assumption].
  - apply Forall_forall. intros x X. rewrite Forall_forall in R. apply R, K, X.
Qed.

Lemma set_multi_ok c m : http_ok c -> (forall e, added m e <-> added (multi c) e) -> http_ok (set_multi c m).
Proof. intros [P B D A R] E. split; cbn; auto. intros e. rewrite E. apply A. Qed.

Lemma update_request_spec l h f :
  In h (map easy l) -> Forall response_ok l ->
  (forall r, response_ok r -> exists r', f r = Some r' /\ response_ok r' /\ easy r' = easy r /\ tag r' = tag r) ->
  exists l', update_request l h f = Some l' /\ Forall response_ok l' /\ map easy l' = map easy l /\
    map tag l' = map tag l.
Proof.
  intros I R F. induction l as [|a l IH]; [contradiction|]. inv R. cbn.
  destruct (easy a =? h) eqn:E; zprop.
  - destruct (F a H1) as (a' & -> & Ra & Ea & Ta). eexists. split; [reflexivity|]. cbn.
    rewrite Ea, Ta. auto.
  - destruct I as [K|I]; [congruence|]. destruct (IH I H2) as (l' & -> & Rl & El & Tl).
    eexists. split; [reflexivity|]. cbn. rewrite El, Tl. auto.
Qed.

(** The events a lawful call delivers. *)
Definition event_ok (c : alpha_http_multi M) (ev : curl_event) : Prop :=
  match ev with
  | EvBody h data size count _ =>
      In h (map easy (requests c)) /\ Z.of_nat (String.length data) = u64 (size * count)
  | _ => True
  end.

Lemma callbacks_ok evs c :
  http_ok c -> Forall (event_ok c) evs ->
  exists c' out, curl_callbacks c evs = Some (c', out) /\ http_ok c' /\ completed out = [] /\
    multi c' = multi c /\ map tag (requests c') = map tag (requests c) /\
    map easy (requests c') = map easy (requests c).
Proof.
  revert c; induction evs as [|ev evs IH]; intros c H F; [exists c, []; auto 7|]. inv F.
  assert (S : exists c1 o1, curl_callback c ev = Some (c1, o1) /\ http_ok c1 /\ completed o1 = [] /\
    multi c1 = multi c /\ map tag (requests c1) = map tag (requests c) /\
    map easy (requests c1) = map easy (requests c)).
  { destruct ev as [h data size cnt re| |]; cbn; [|do 2 eexists; split; [reflexivity|auto]..].
    destruct H2 as [I L]. destruct H as [P B D A R].
    destruct (update_request_spec (requests c) h
      (fun r => let? (r, _) := receive_body r data size cnt re in Some r) I R) as (l' & -> & Rl & El & Tl).
    { intros r Hr. destruct (receive_body_spec r data size cnt re Hr L)
        as [->|(r' & -> & _ & Hr' & E & K & U)]; eexists; (split; [reflexivity|]); auto.
      split; [exact Hr'|]. split; [exact E|]. unfold tag. now rewrite K, U. }
    do 2 eexists. split; [reflexivity|]. cbn. split; [|auto].
    assert (LL : length l' = length (requests c)) by (rewrite <- (length_map easy l'), El; apply length_map).
    split; cbn; rewrite ?El, ?LL; auto. }
  destruct S as (c1 & o1 & E1 & H1 & O1 & M1 & T1 & K1). cbn. rewrite E1.
  destruct (IH c1 H1) as (c2 & o2 & -> & H2' & O2 & M2 & T2 & K2).
  { apply (Forall_impl (P := event_ok c)); [|assumption]. intros [] X; cbn in *; auto. now rewrite K1. }
  do 2 eexists. split; [reflexivity|]. rewrite completed_app, O1, O2, M2, T2, K2. auto 6.
Qed.

(** The storage of a completed transfer's message is gone once its handle is removed. *)
Definition released (m : M) (x : CURLMsg) : Prop :=
  is_done x = true /\ message_result (curl_multi_remove_handle m (easy_handle x)) x = None.

(** The states curl goes through while its messages are read and handles removed. *)
Inductive draining : M -> M -> Prop :=
  | draining_here m : draining m m
  | draining_read m m' : draining (fst (curl_multi_info_read m)) m' -> draining m m'
  | draining_remove m e m' : draining (curl_multi_remove_handle m e) m' -> draining m m'.

(** The result of a queued transfer is read from a released message on the way. *)
Definition reads_released (m : M) : Prop :=
  exists m' x, draining m m' /\ In x (msgs m) /\ released m' x.

(** How draining ends: the requests completed and every message read, or the result
    read from a released message. *)
Definition drained (c : alpha_http_multi M) (r : option (alpha_http_multi M * list notice)) : Prop :=
  match r with
  | Some (c', out) => http_ok c' /\ msgs (multi c') = [] /\
      Permutation (map tag (requests c)) (completed out ++ map tag (requests c'))
  | None => reads_released (multi c)
  end.

Lemma drain_ok n c :
  http_ok c -> (length (msgs (multi c)) <= n)%nat ->
  exists r, (forall fuel, (n < fuel)%nat -> drain_completions fuel c = r) /\ drained c r.
Proof.
  revert c; induction n as [|n IH]; intros c H F;
    pose proof (law_info (multi c)) as L; pose proof (law_msgs (multi c)) as LM;
    (destruct (msgs (multi c)) as [|x rest] eqn:Ms;
     [exists (Some (set_multi c (multi c), [])); split;
        [intros [|fuel] Fu; [lia|cbn; now rewrite L]
        |split; [apply set_multi_ok; [exact H|tauto]|now cbn]]
     |cbn in F; try lia]).
  destruct L as (m' & L & Mr & _ & Ad). pose proof (set_multi_ok c m' H Ad) as H1.
  destruct (is_done x) eqn:Dn.
  2:{ destruct (IH (set_multi c m') H1) as (r & D & Sp); [cbn; rewrite Mr; lia|]. exists r. split.
      - intros [|fuel] Fu; [lia|]. cbn. rewrite L, Dn. apply D. lia.
      - destruct r as [[c' out]|]; [exact Sp|]. destruct Sp as (m & y & Dr & I & R). exists m, y.
        split; [apply draining_read; now rewrite L|]. split; [|exact R]. rewrite Ms. right.
        cbn in I. now rewrite Mr in I. }
  assert (I : In (easy_handle x) (map easy (requests c))) by (apply (ok_added _ H), LM; left; reflexivity).
  destruct (find_request_handle _ _ I) as (r & Fr). destruct (find_request_In _ _ _ Fr) as [Ir Er]. zprop.
  destruct (message_result (curl_multi_remove_handle m' (easy_handle x)) x) as [code|] eqn:Co.
  2:{ exists None. split; [|exists m', x; rewrite Ms; split;
        [apply draining_read; rewrite L; constructor|split; [now left|now split]]].
      intros [|fuel] Fu; [lia|]. cbn. rewrite L, Dn. cbn. now rewrite Fr, Co. }
  destruct (drop_ok (set_multi c m') r H1 Ir) as (H2 & Pm & Mm). rewrite Er in H2, Pm, Mm.
  cbn [multi set_multi] in H2, Pm, Mm.
  set (c2 := unlink_and_free _ _) in *. destruct (law_remove m' (easy_handle x)) as (Le & In' & _).
  destruct (IH c2 H2) as (r2 & D & Sp); [rewrite Mm; rewrite Mr in Le; lia|].
  exists (let? (c3, outs) := r2 in
          Some (c3, COMPLETE_FN (result_of r (curl_response_code m' (easy_handle x)) code) :: outs)). split.
  - intros [|fuel] Fu; [lia|]. cbn. rewrite L, Dn. cbn. rewrite Fr, Co.
    change (unlink_and_free _ (easy_handle x)) with c2. now rewrite (D fuel) by lia.
  - destruct r2 as [[c3 o3]|]; cbn in Sp |- *.
    + destruct Sp as (H3 & M3 & P3). split; [exact H3|]. split; [exact M3|]. now rewrite Pm, P3.
    + destruct Sp as (m & y & Dr & Iy & R). exists m, y. rewrite Mm in Dr, Iy.
      split; [apply draining_read; rewrite L; eapply draining_remove; exact Dr|].
      split; [|exact R]. rewrite Ms. right. apply In' in Iy. now rewrite Mr in Iy.
Qed.

Definition not_body (ev : curl_event) : Prop := match ev with EvBody _ _ _ _ _ => False | _ => True end.

Lemma callbacks_quiet evs (c : alpha_http_multi M) :
  Forall not_body evs -> exists out, curl_callbacks c evs = Some (c, out) /\ completed out = [].
Proof.
  induction 1 as [|ev evs N F (out & IH & O)]; [exists []; auto|].
  destruct ev; [contradiction|..]; cbn; rewrite IH; eexists; split; try reflexivity; exact O.
Qed.

Lemma completions_more fuel (c : alpha_http_multi M) res :
  drain_completions fuel c = Some res ->
  forall fuel', (fuel <= fuel')%nat -> drain_completions fuel' c = Some res.
Proof.
  revert c res; induction fuel as [|fuel IH]; intros c res D fuel' L; [discriminate|].
  destruct fuel' as [|fuel']; [lia|]. cbn in D |- *.
  destruct (curl_multi_info_read (multi c)) as [m [x|]]; [|exact D].
  destruct (negb (is_done x)); [apply (IH _ _ D); lia|].
  destruct (find_request _ _) as [r|]; [|discriminate].
  destruct (message_result _ x) as [code|]; [|discriminate].
  destruct (drain_completions fuel _) as [[c1 o1]|] eqn:E; [|discriminate].
  rewrite (IH _ _ E fuel'); [exact D|lia].
Qed.

(** What an action of curl leaves for the client: its new state, whether it was
    accepted. *)
Definition acted (c : alpha_http_multi M) (fd z : Z) : M * bool :=
  let '(m, _, ok, _) := curl_multi_socket_action (multi c) fd z in (m, ok).

(** With enough fuel the outcome of serving an action does not depend on it. *)
Lemma drive_ok c fd z :
  http_ok c ->
  exists n r, (forall fuel, (n <= fuel)%nat -> drive fuel c fd z = r) /\
    match r with
    | Some (c', e, _, out) =>
        http_ok c' /\ Permutation (map tag (requests c)) (completed out ++ map tag (requests c')) /\
        e = (if snd (acted c fd z) then ALPHA_OK else ALPHA_ERR_HTTP) /\
        (e = ALPHA_OK -> msgs (multi c') = [])
    | None => snd (acted c fd z) = true /\ reads_released (fst (acted c fd z))
    end.
Proof.
  intros H. unfold drive, acted. pose proof (law_action (multi c) fd z) as L.
  destruct (curl_multi_socket_action (multi c) fd z) as [[[m evs] ok] running]. destruct L as [Ad Ev].
  pose proof (set_multi_ok c m H Ad) as H1.
  destruct (callbacks_ok evs (set_multi c m) H1) as (c1 & o1 & E1 & H2 & O1 & M1 & T1 & K1).
  { apply (Forall_impl (event_ok (set_multi c m))) in Ev; [exact Ev|]. intros [] X; cbn; auto.
    destruct X as [X Y]. split; [apply (ok_added _ H); exact X|exact Y]. }
  rewrite E1. cbn in T1, M1. destruct ok; cbn [negb fst snd].
  - destruct (drain_ok (length (msgs (multi c1))) c1 H2) as (r & D & Sp); [lia|].
    exists (S (length (msgs (multi c1)))). eexists. split; [intros fuel F; rewrite (D fuel F); reflexivity|].
    destruct r as [[c2 o2]|]; cbn in Sp |- *; [|rewrite <- M1; auto].
    destruct Sp as (H3 & Mn & P). split; [exact H3|]. rewrite completed_app, O1, <- T1. auto.
  - exists O. eexists. split; [reflexivity|]. cbn. split; [exact H2|]. rewrite O1, <- T1.
    split; [reflexivity|]. split; [reflexivity|]. discriminate.
Qed.

Lemma drive_any c fuel fd z c' e running out :
  http_ok c -> drive fuel c fd z = Some (c', e, running, out) ->
  http_ok c' /\ Permutation (map tag (requests c)) (completed out ++ map tag (requests c')).
Proof.
  intros H E. destruct (drive_ok c fd z H) as (n & r & A & Sp).
  specialize (A (Nat.max n fuel) ltac:(lia)). unfold drive in E, A.
  destruct (curl_multi_socket_action (multi c) fd z) as [[[m evs] ok] rn].
  destruct (curl_callbacks (set_multi c m) evs) as [[c1 o1]|]; [|discriminate].
  destruct (negb ok); [|destruct (drain_completions fuel c1) as [[c3 o3]|] eqn:D; [|discriminate];
    rewrite (completions_more _ _ _ D) in A by lia]; inv E; destruct Sp as (H2 & P & _); auto.
Qed.

(** When the oldest message is a completed transfer whose message its removal
    releases, serving the action reads it. *)
Lemma drive_reads_released c fuel fd z x rest m' :
  http_ok c -> acted c fd z = (m', true) -> msgs m' = x :: rest ->
  released (fst (curl_multi_info_read m')) x -> drive fuel c fd z = None.
Proof.
  unfold drive, acted. intros H A Ms [Dn Rl]. destruct (curl_multi_socket_action _ _ _) as [[[m evs] ok] rn] eqn:Sa.
  inv A. destruct (curl_callbacks (set_multi c m') evs) as [[c1 o1]|] eqn:Cb; [|reflexivity]. cbn [negb].
  destruct fuel as [|fuel]; [reflexivity|]. cbn.
  assert (Mc : multi c1 = m').
  { pose proof (law_action (multi c) fd z) as L. rewrite Sa in L. destruct L as [Ad Ev].
    destruct (callbacks_ok evs (set_multi c m') (set_multi_ok c m' H Ad)) as (c2 & o2 & E2 & _ & _ & M2 & _);
      [|rewrite Cb in E2; inv E2; exact M2].
    apply (Forall_impl (event_ok (set_multi c m'))) in Ev; [exact Ev|]. intros [] X; cbn; auto.
    destruct X as [X Y]. split; [apply (ok_added _ H); exact X|exact Y]. }
  rewrite Mc. pose proof (law_info m') as L. rewrite Ms in L. destruct L as (m2 & L & _). rewrite L in Rl |- *.
  cbn in Rl. rewrite Dn. cbn. destruct (find_request _ _); [|reflexivity]. now rewrite Rl.
Qed.

Lemma link_ok c m r :
  http_ok c -> (length (requests c) < ALPHA_HTTP_MAX_PENDING)%nat -> ~ In (easy r) (map easy (requests c)) ->
  response_ok r -> (forall x, added m x <-> added (multi c) x \/ x = easy r) ->
  http_ok {| multi := m; requests := r :: requests c; pending := pending c + 1 |}.
Proof.
  intros [P B D A R] L F Q Ad. split; cbn; try lia; [constructor; auto| |constructor; auto].
  intros e. rewrite Ad, A. intuition.
Qed.

(** The tags of the posts accepted by a call. *)
Definition accepted (e : alpha_err_t) (post : option alpha_http_post_t) : list (alpha_http_post_kind_t * Z) :=
  match e, post with ALPHA_OK, Some p => [(post_kind p, post_user_data p)] | _, _ => [] end.

(** The handle of a new request is not one in use. *)
Definition fresh (c : alpha_http_multi M) (io : post_outcomes) : Prop :=
  forall e, easy_init io = Some e -> ~ In e (map easy (requests c)).

Lemma post_ok c post io :
  http_ok c -> fresh c io ->
  exists c' e out, alpha_http_post_json (Some c) post io = Some (Some c', e, out) /\ http_ok c' /\
    completed out = [] /\
    map tag (requests c') = accepted e post ++ map tag (requests c).
Proof.
  intros H Fr. unfold alpha_http_post_json.
  assert (Q : forall e out, e <> ALPHA_OK -> completed out = [] ->
    exists c' e' out', Some (Some c, e, out) = Some (Some c', e', out') /\ http_ok c' /\ completed out' = [] /\
      map tag (requests c') = accepted e' post ++ map tag (requests c)).
  { intros e out N O. exists c, e, out. repeat split; auto; try apply H. destruct e; congruence || reflexivity. }
  destruct post as [p|]; [|now apply Q]. destruct (url p); [|now apply Q]. destruct (json_body p); [|now apply Q].
  destruct (_ || _); [now apply Q|].
  destruct (ALPHA_HTTP_MAX_PENDING <=? pending c)%nat eqn:B; [now apply Q|]. apply Nat.leb_gt in B.
  destruct (calloc_ok io); [|now apply Q]. destruct (easy_init io) as [e|] eqn:Ei; [|now apply Q].
  destruct (body_ok io); [|now apply Q]. destruct (slist_ok io); [|now apply Q]. cbn [negb].
  destruct (match authorization_header p with Some _ => _ | None => _ end) as [hs|]; [|now apply Q].
  destruct (setopts_ok io); [|now apply Q]. cbn [negb multi requests pending].
  set (r := {| easy := e |}). set (c1 := {| multi := multi c; requests := r :: requests c |}).
  pose proof (law_add (multi c) e) as L. destruct (curl_multi_add_handle (multi c) e) as [[m evs] ok].
  destruct L as [NB Ad]. destruct (callbacks_quiet evs (set_multi c1 m) NB) as (out & -> & O).
  rewrite (ok_pending _ H) in B. destruct ok; cbn [negb].
  - do 3 eexists. split; [reflexivity|]. split; [|split; [exact O|reflexivity]].
    apply (link_ok c m r H B); [now apply Fr|split; vm_compute; congruence|]. intros x. rewrite Ad. intuition.
  - unfold unlink_and_free. cbn [requests set_multi c1 unlink]. cbn [easy r]. rewrite Z.eqb_refl.
    do 3 eexists. split; [reflexivity|]. split; [|split; [exact O|reflexivity]].
    cbn. replace (pending c + 1 - 1)%nat with (pending c) by lia.
    apply (set_multi_ok c m H). intros x. rewrite Ad. intuition discriminate.
Qed.

Lemma cancel_ok c ud c' e out :
  http_ok c -> alpha_http_cancel (Some c) ud = (Some c', e, out) ->
  http_ok c' /\ Permutation (map tag (requests c)) (completed out ++ map tag (requests c')).
Proof.
  intros H E. unfold alpha_http_cancel in E. destruct (ud =? 0); [inv E; auto|].
  destruct (find_request (requests c) _) as [r|] eqn:F; [|inv E; auto].
  destruct (find_request_In _ _ _ F) as [I _]. destruct (drop_ok c r H I) as (H' & P & _). inv E.
  split; [exact H'|exact P].
Qed.

(** The tags of the accepted posts and the notices given so far by a client that
    reached [c]. *)
Inductive http_run : list (alpha_http_post_kind_t * Z) -> list notice -> alpha_http_multi M -> Prop :=
  | run_create fns alloc init setopts c :
      alpha_http_multi_create fns alloc init setopts (Some None) = (ALPHA_OK, Some (Some c)) ->
      (forall e, ~ added (multi c) e) -> http_run [] [] c
  | run_post acc ns c post io c' e out :
      http_run acc ns c -> fresh c io -> alpha_http_post_json (Some c) post io = Some (Some c', e, out) ->
      http_run (accepted e post ++ acc) (ns ++ out) c'
  | run_cancel acc ns c ud c' e out :
      http_run acc ns c -> alpha_http_cancel (Some c) ud = (Some c', e, out) -> http_run acc (ns ++ out) c'
  | run_socket acc ns c fuel fd w run c' e run' out :
      http_run acc ns c -> alpha_http_multi_socket_action fuel (Some c) fd w run = Some (Some c', e, run', out) ->
      http_run acc (ns ++ out) c'
  | run_timeout acc ns c fuel run c' e run' out :
      http_run acc ns c -> alpha_http_multi_timeout_action fuel (Some c) run = Some (Some c', e, run', out) ->
      http_run acc (ns ++ out) c'.

Lemma http_run_ok acc ns c :
  http_run acc ns c -> http_ok c /\ Permutation acc (completed ns ++ map tag (requests c)).
Proof.
  induction 1 as [fns alloc init setopts c E N|acc ns c post io c' e out R [H P] F E
    |acc ns c ud c' e out R [H P] E|acc ns c fuel fd w run c' e run' out R [H P] E
    |acc ns c fuel run c' e run' out R [H P] E]; rewrite ?completed_app, <- ?app_assoc.
  - unfold alpha_http_multi_create in E. destruct fns, alloc, init, setopts; inv E. split; [|reflexivity].
    split; cbn in *; auto using NoDup_nil; [unfold ALPHA_HTTP_MAX_PENDING; lia|].
    intros e. split; [apply N|contradiction].
  - destruct (post_ok c post io H F) as (c2 & e2 & o2 & E2 & H2 & O2 & T2). rewrite E in E2. inv E2.
    split; [exact H2|]. rewrite O2, T2, P. cbn.
    rewrite !app_assoc. apply Permutation_app_tail, Permutation_app_comm.
  - destruct (cancel_ok _ _ _ _ _ H E) as [H2 P2]. split; [exact H2|]. now rewrite P, P2.
  - unfold alpha_http_multi_socket_action in E. destruct run as [run|]; [|inv E; auto].
    destruct (_ || _); [inv E; auto|]. destruct (drive fuel c fd _) as [[[[c2 e2] r2] o2]|] eqn:D; [|discriminate].
    inv E. destruct (drive_any _ _ _ _ _ _ _ _ H D) as [H2 P2]. split; [exact H2|]. now rewrite P, P2.
  - unfold alpha_http_multi_timeout_action in E. destruct run as [run|]; [|inv E; auto].
    destruct (drive fuel c _ _) as [[[[c2 e2] r2] o2]|] eqn:D; [|discriminate].
    inv E. destruct (drive_any _ _ _ _ _ _ _ _ H D) as [H2 P2]. split; [exact H2|]. now rewrite P, P2.
Qed.

Lemma destroy_loop_ok fuel c :
  http_ok c -> (length (requests c) < fuel)%nat -> exists c', destroy_loop fuel c = Some c' /\ requests c' = [] /\
    forall e, ~ added (multi c') e.
Proof.
  revert c; induction fuel as [|fuel IH]; intros c H F; [lia|]. cbn.
  destruct (requests c) as [|r l] eqn:E.
  - exists c. repeat split; auto. intros e A. apply (ok_added _ H) in A. rewrite E in A. exact A.
  - assert (I : In r (requests c)) by (rewrite E; left; reflexivity).
    destruct (drop_ok c r H I) as (H' & P & _). apply (IH _ H').
    apply Permutation_length in P. cbn [length] in P. rewrite !length_map, E in P. cbn in P, F. lia.
Qed.

(** C18: Every accepted post is completed exactly once, by its transfer or by a cancel,
    or is still pending: as multisets of kind and user data the accepted posts are
    the completions given plus the linked requests, which the pending counter counts
    and which are at most 64. *)
Theorem post_completes_once acc ns c :
  http_run acc ns c ->
  Permutation acc (completed ns ++ map tag (requests c)) /\
  alpha_http_pending (Some c) = length (requests c) /\
  (alpha_http_pending (Some c) <= ALPHA_HTTP_MAX_PENDING)%nat /\
  Forall (fun r => response_size r = Z.of_nat (String.length (response_text r)) /\
                   response_size r <= ALPHA_HTTP_MAX_RESPONSE_BYTES) (requests c).
Proof.
  intros R. destruct (http_run_ok _ _ _ R) as [[P B D A F] Pm]. cbn.
  split; [exact Pm|]. split; [exact P|]. split; [lia|exact F].
Qed.

(** The events the action passes to curl, and the guard on its arguments. *)
Definition action_events (w : Z) : Z :=
  if any_bit (u32 w) ALPHA_HTTP_WATCH_WRITE then
    Z.lor (if any_bit (u32 w) ALPHA_HTTP_WATCH_READ then Z.lor 0 CURL_CSELECT_IN else 0) CURL_CSELECT_OUT
  else if any_bit (u32 w) ALPHA_HTTP_WATCH_READ then Z.lor 0 CURL_CSELECT_IN else 0.
Definition action_refused (fd w : Z) : bool :=
  (fd <? 0) || any_bit (u32 w) (u32 (Z.lnot (Z.lor ALPHA_HTTP_WATCH_READ ALPHA_HTTP_WATCH_WRITE))).

(** C20: Serving a socket of any reachable client ends: from some fuel on the outcome no
    longer changes.  Either the action returns, with the error its arguments and
    curl decide and, on success, with curl's queue of messages empty; or it reads
    the result of a completed transfer whose message its own removal of the handle
    has released, which curl allows (the read is after the removal).  It is
    undefined for no other reason: no handle lacks its request.  That read does
    happen when curl's oldest message is a completed transfer that the removal
    releases. *)
Theorem socket_action_total acc ns c fd w run :
  http_run acc ns c ->
  (exists n r, (forall fuel, (n <= fuel)%nat -> alpha_http_multi_socket_action fuel (Some c) fd w (Some run) = r) /\
    match r with
    | Some (c', e, run', out) =>
        exists k, c' = Some k /\
          e = (if action_refused fd w then ALPHA_ERR_INVALID_ARG
               else if snd (acted c fd (action_events w)) then ALPHA_OK else ALPHA_ERR_HTTP) /\
          (e = ALPHA_OK -> msgs (multi k) = [])
    | None =>
        action_refused fd w = false /\ snd (acted c fd (action_events w)) = true /\
        reads_released (fst (acted c fd (action_events w)))
    end) /\
  (forall m x rest, action_refused fd w = false -> acted c fd (action_events w) = (m, true) ->
     msgs m = x :: rest -> released (fst (curl_multi_info_read m)) x ->
     forall fuel, alpha_http_multi_socket_action fuel (Some c) fd w (Some run) = None).
Proof.
  intros R. destruct (http_run_ok _ _ _ R) as [H _]. unfold alpha_http_multi_socket_action.
  fold (action_refused fd w). fold (action_events w). cbv zeta. destruct (action_refused fd w).
  { split; [|discriminate]. exists O. eexists. split; [reflexivity|]. exists c. now repeat split. }
  split.
  - destruct (drive_ok c fd (action_events w) H) as (n & r & D & Sp). exists n. eexists.
    split; [intros fuel F; rewrite (D fuel F); reflexivity|].
    destruct r as [[[[c' e] rn] out]|]; cbn; [|auto]. exists c'. split; [reflexivity|]. apply Sp.
  - intros m x rest _ A Ms Rl fuel. now rewrite (drive_reads_released c fuel fd _ x rest m H A Ms Rl).
Qed.

(** Destroying a client ends, with every request unlinked and taken out of curl. *)
Theorem destroy_releases_all acc ns c :
  http_run acc ns c ->
  exists c', alpha_http_multi_destroy (S (length (requests c))) (Some c) = Some (Some c') /\
    requests c' = [] /\ forall e, ~ added (multi c') e.
Proof.
  intros R. destruct (http_run_ok _ _ _ R) as [H _].
  destruct (destroy_loop_ok (S (length (requests c))) c H ltac:(lia)) as (c' & E & K).
  exists c'. cbn [alpha_http_multi_destroy]. rewrite E. auto.
Qed.

End Contract.

(** ** A reference multi handle

    Every transfer is answered by the next action: one chunk of two bytes, then its
    message.  A handle is in the multi handle by itself or through its message.
    [keeps] says whether the messages of removed handles, [gone], stay readable: curl
    may do either. *)

Record ref_multi := { idle_handles : list Z; queue : list CURLMsg; keeps : bool; gone : list Z }.

Definition ref_handles (m : ref_multi) : list Z := idle_handles m ++ map easy_handle (queue m).

Definition answer (e : Z) : CURLMsg := {| is_done := true; easy_handle := e; transfer_result := 0 |}.

#[export] Instance ref_curl : CurlMulti ref_multi := {|
  curl_multi_socket_action m fd z :=
    ({| idle_handles := []; queue := map answer (ref_handles m); keeps := keeps m; gone := gone m |},
     map (fun e => EvBody e "{}" 1 2 true) (ref_handles m), true, 0);
  curl_multi_info_read m :=
    match queue m with
    | [] => (m, None)
    | x :: q => ({| idle_handles := easy_handle x :: idle_handles m; queue := q; keeps := keeps m; gone := [] |},
                 Some x)
    end;
  curl_multi_remove_handle m e :=
    {| idle_handles := filter (fun x => negb (x =? e)) (idle_handles m);
       queue := filter (fun x => negb (easy_handle x =? e)) (queue m); keeps := keeps m; gone := e :: gone m |};
  curl_multi_add_handle m e :=
    ({| idle_handles := e :: idle_handles m; queue := queue m; keeps := keeps m; gone := gone m |},
     [EvTimer 0], true);
  curl_response_code m e := 200;
  message_result m x :=
    if negb (keeps m) && existsb (Z.eqb (easy_handle x)) (gone m) then None else Some (transfer_result x)
|}.

Lemma filter_shorter {A} (f : A -> bool) l : (length (filter f l) <= length l)%nat.
Proof. induction l as [|a l IH]; cbn; [lia|]. destruct (f a); cbn; lia. Qed.

#[export] Instance ref_curl_laws : CurlLaws ref_multi.
Proof.
  refine {| added m e := In e (ref_handles m); msgs := queue |}; unfold ref_handles.
  - intros m x I. apply in_or_app. right. now apply in_map.
  - intros m. cbn. destruct (queue m) as [|x q]; [reflexivity|]. eexists. split; [reflexivity|].
    split; [reflexivity|]. split; [cbn; now rewrite andb_false_r|].
    intros e. cbn. rewrite !in_app_iff. cbn. tauto.
  - intros m e. cbn. split; [apply filter_shorter|]. split; [apply incl_filter|].
    intros x. rewrite !in_app_iff, !in_map_iff, filter_In.
    setoid_rewrite filter_In. rewrite negb_true_iff, Z.eqb_neq. setoid_rewrite negb_true_iff.
    setoid_rewrite Z.eqb_neq. split.
    + intros [[A B]|(y & E & A & B)]; [auto|]. subst x. split; [right; eauto|exact B].
    + intros [[A|(y & E & A)] B]; [auto|]. subst x. right. eauto.
  - intros m e. cbn. split; [repeat constructor|]. intros x. rewrite !in_app_iff. intuition.
  - intros m fd z. cbn. split.
    + intros x. rewrite map_map. cbn. rewrite map_id. reflexivity.
    + apply Forall_forall. intros ev I. apply in_map_iff in I as (e & <- & I). split; [exact I|reflexivity].
Defined.

(** Two posts, served by one action. *)
Definition ref_post (ud : Z) : alpha_http_post_t :=
  {| post_kind := ALPHA_HTTP_POST_TELEGRAM; url := Some "https://host/api"; json_body := Some "{}";
     authorization_header := None; timeout_ms := 1000; post_user_data := ud |}.
Definition ref_io (e : Z) : post_outcomes :=
  {| calloc_ok := true; easy_init := Some e; body_ok := true; slist_ok := true; auth_ok := true; setopts_ok := true |}.
Definition ref_new (keeps : bool) : alpha_http_multi ref_multi :=
  {| multi := {| idle_handles := []; queue := []; keeps := keeps; gone := [] |}; requests := []; pending := 0 |}.
Definition ref_posted (c : alpha_http_multi ref_multi) (e ud : Z) : alpha_http_multi ref_multi :=
  match alpha_http_post_json (Some c) (Some (ref_post ud)) (ref_io e) with
  | Some (Some c', _, _) => c'
  | _ => c
  end.
Definition ref_posts (keeps : bool) : alpha_http_multi ref_multi := ref_posted (ref_posted (ref_new keeps) 1 10) 2 20.
Definition ref_two : alpha_http_multi ref_multi := ref_posts true.
Definition ref_served : alpha_http_multi ref_multi :=
  match alpha_http_multi_socket_action 10 (Some ref_two) 5 1 (Some 0) with
  | Some (Some c, _, _, _) => c
  | _ => ref_two
  end.

Definition ref_tags : list (alpha_http_post_kind_t * Z) :=
  [(ALPHA_HTTP_POST_TELEGRAM, 20); (ALPHA_HTTP_POST_TELEGRAM, 10)].

Lemma ref_posts_run keeps : http_run ref_tags [TIMER_FN 0; TIMER_FN 0] (ref_posts keeps).
Proof.
  apply (run_post [(ALPHA_HTTP_POST_TELEGRAM, 10)] [TIMER_FN 0] (ref_posted (ref_new keeps) 1 10)
           (Some (ref_post 20)) (ref_io 2) _ ALPHA_OK [TIMER_FN 0]);
    [|intros e E; inv E; cbn; intros [|[]]; discriminate|reflexivity].
  apply (run_post [] [] (ref_new keeps) (Some (ref_post 10)) (ref_io 1) _ ALPHA_OK [TIMER_FN 0]);
    [|intros e E; inv E; cbn; tauto|reflexivity].
  apply (run_create true true (Some (multi (ref_new keeps))) true); [reflexivity|]. intros e. cbn. tauto.
Qed.

Definition ref_result (ud : Z) : alpha_http_result_t :=
  {| result_kind := ALPHA_HTTP_POST_TELEGRAM; status_code := 200; transport_code := 0;
     response_body := "{}"; result_size := 2; result_user_data := ud |}.

Lemma post_completes_once_witness :
  Permutation ref_tags
    (completed [TIMER_FN 0; TIMER_FN 0; COMPLETE_FN (ref_result 20); COMPLETE_FN (ref_result 10)]
     ++ map tag (requests ref_served)) /\
  alpha_http_pending (Some ref_served) = length (requests ref_served) /\
  (alpha_http_pending (Some ref_served) <= ALPHA_HTTP_MAX_PENDING)%nat /\
  Forall (fun r => response_size r = Z.of_nat (String.length (response_text r)) /\
                   response_size r <= ALPHA_HTTP_MAX_RESPONSE_BYTES) (requests ref_served).
Proof.
  apply post_completes_once.
  apply (run_socket ref_tags [TIMER_FN 0; TIMER_FN 0] ref_two 10 5 1 (Some 0) _ ALPHA_OK (Some 0)
           [COMPLETE_FN (ref_result 20); COMPLETE_FN (ref_result 10)]); [exact (ref_posts_run true)|].
  vm_compute. reflexivity.
Defined.

Lemma ref_draining_keeps m m' : draining m m' -> keeps m' = keeps m.
Proof.
  induction 1 as [m|m m' _ IH|m e m' _ IH]; [reflexivity| |exact IH]. cbn in IH.
  destruct (queue m); exact IH.
Qed.

(** A curl that keeps the messages is served, and one that releases them makes the
    action undefined. *)
Lemma socket_action_total_witness :
  (exists n, forall fuel, (n <= fuel)%nat ->
     exists k run' out, alpha_http_multi_socket_action fuel (Some ref_two) 5 3 (Some 0) =
       Some (Some k, ALPHA_OK, run', out) /\ msgs (multi k) = []) /\
  (forall fuel, alpha_http_multi_socket_action fuel (Some (ref_posts false)) 5 3 (Some 0) = None).
Proof.
  split.
  - destruct (socket_action_total _ _ ref_two 5 3 0 (ref_posts_run true)) as [(n & r & D & Sp) _].
    exists n. intros fuel F. rewrite (D fuel F). destruct r as [[[[c' e] run'] out]|].
    + destruct Sp as (k & -> & E & Q). vm_compute in E. subst e. exists k, run', out. auto.
    + exfalso. destruct Sp as (_ & _ & m & x & Dr & _ & _ & Rl). apply ref_draining_keeps in Dr.
      cbn in Rl. rewrite Dr in Rl. discriminate.
  - exact (proj2 (socket_action_total _ _ (ref_posts false) 5 3 0 (ref_posts_run false)) _ _ _
      eq_refl eq_refl eq_refl (conj eq_refl eq_refl)).
Defined.

Lemma destroy_releases_all_witness :
  exists c', alpha_http_multi_destroy (S (length (requests ref_two))) (Some ref_two) = Some (Some c') /\
    requests c' = [] /\ forall e, ~ added (multi c') e.
Proof. exact (destroy_releases_all _ _ ref_two (ref_posts_run true)). Defined.
