(* ===== verification/Fixture.v ===== *)
(** * The backtest fixture and its runner

    Models [core/apps/backtest_fixture.c] and the run of
    [core/apps/backtest_runner.c].  A JSON document is the tree yyjson gives for
    it; reading the file is a parameter.  The accessors follow yyjson's: a missing or
    ill-typed value is NULL, 0 or 0.0.  What a failed load leaves in the
    structure is not kept, since the whole structure is cleared. *)

From Stdlib Require Import ZArith Lia Bool Floats Ascii String List.
From S2P Require Import Prelude CStr Domain Date Double CostModel Backtest Metrics Engine.
Import ListNotations.
Set Warnings "-register-all,-inexact-float".
Open Scope string_scope.
Open Scope list_scope.
Open Scope Z_scope.

(** ** yyjson *)

Inductive yyjson_val :=
  | JNull
  | JBool (b : bool)
  | JUint (n : Z)
  | JSint (n : Z)
  | JReal (x : float)
  | JStr (s : string)
  | JArr (l : list yyjson_val)
  | JObj (l : list (string * yyjson_val)).

(** Two's complement reading at 64 and 32 bits. *)
Definition to_int64 (n : Z) : Z := let m := u64 n in if m >? INT64_MAX then m - 2 ^ 64 else m.
Definition to_int32 (n : Z) : Z := let m := u32 n in if m >? INT32_MAX then m - 2 ^ 32 else m.

(** The first member with the key. *)
Fixpoint lookup (l : list (string * yyjson_val)) (key : string) : option yyjson_val :=
  match l with
  | [] => None
  | (k, v) :: l => if String.eqb k key then Some v else lookup l key
  end.

Definition yyjson_obj_get (v : option yyjson_val) (key : string) : option yyjson_val :=
  match v with Some (JObj l) => lookup l key | _ => None end.

(** A C string ends at the first NUL. *)
Definition yyjson_get_str (v : option yyjson_val) : option string :=
  match v with Some (JStr s) => Some (c_str s) | _ => None end.
Definition yyjson_get_sint (v : option yyjson_val) : Z :=
  match v with Some (JUint n) | Some (JSint n) => to_int64 n | _ => 0 end.
Definition yyjson_get_num (v : option yyjson_val) : float :=
  match v with
  | Some (JReal x) => x
  | Some (JUint n) | Some (JSint n) => double_of_Z n
  | _ => 0%float
  end.

(** ** The fixture *)

(** The counts are the lengths of the arrays. *)
Record alpha_fixture_t := {
  config : alpha_backtest_config_t;
  prices : list float;
  dates : list Z;
  signal_days : list Z;
  signal_values : list alpha_signal_t
}.

Definition zero_config : alpha_backtest_config_t :=
  {| cfg_ticker := ""; cfg_strategy := ""; train_start := 0; train_end := 0; test_start := 0; test_end := 0;
     initial_capital := 0; commission_rate_pct := 0; tax_rate_pct := 0; slippage_bps := 0 |}.

(** The structure after [memset (..., 0, ...)]. *)
Definition zero_fixture : alpha_fixture_t :=
  {| config := zero_config; prices := []; dates := []; signal_days := []; signal_values := [] |}.

Definition copy_bounded (src : string) (cap : nat) : string :=
  let len := String.length src in
  let len := if (cap <=? len)%nat then (cap - 1)%nat else len in
  String.substring 0 len src.

Definition parse_signal (text : string) : option alpha_signal_t :=
  if String.eqb text "BUY" then Some ALPHA_SIGNAL_BUY
  else if String.eqb text "SELL" then Some ALPHA_SIGNAL_SELL
  else if String.eqb text "HOLD" then Some ALPHA_SIGNAL_HOLD
  else if String.eqb text "CLOSE" then Some ALPHA_SIGNAL_CLOSE
  else None.

(** [iso == NULL || alpha_date_parse (iso, &dst) != ALPHA_OK]; [None] is the error. *)
Definition parse_iso (iso : option string) : option Z :=
  match iso with
  | None => None
  | Some _ => match alpha_date_parse iso (Some 0) with (ALPHA_OK, out) => out | _ => None end
  end.

Definition parse_config (cfg : option yyjson_val) : alpha_err_t + alpha_backtest_config_t :=
  match cfg with
  | Some (JObj _) =>
      match yyjson_get_str (yyjson_obj_get cfg "ticker"), yyjson_get_str (yyjson_obj_get cfg "strategy") with
      | Some ticker, Some strategy =>
          let date key := parse_iso (yyjson_get_str (yyjson_obj_get cfg key)) in
          match date "train_start", date "train_end", date "test_start", date "test_end" with
          | Some a, Some b, Some c, Some d =>
              inr {| cfg_ticker := copy_bounded ticker ALPHA_TICKER_CAP;
                     cfg_strategy := copy_bounded strategy ALPHA_STRATEGY_CAP;
                     train_start := a; train_end := b; test_start := c; test_end := d;
                     initial_capital := yyjson_get_sint (yyjson_obj_get cfg "initial_capital");
                     commission_rate_pct := yyjson_get_num (yyjson_obj_get cfg "commission_rate_pct");
                     tax_rate_pct := yyjson_get_num (yyjson_obj_get cfg "tax_rate_pct");
                     slippage_bps := to_int32 (yyjson_get_sint (yyjson_obj_get cfg "slippage_bps")) |}
          | _, _, _, _ => inl ALPHA_ERR_INVALID_ARG
          end
      | _, _ => inl ALPHA_ERR_INVALID_ARG
      end
  | _ => inl ALPHA_ERR_INVALID_ARG
  end.

Fixpoint bars_loop (bars : list yyjson_val) : option (list (Z * float)) :=
  match bars with
  | [] => Some []
  | bar :: bars =>
      let? d := parse_iso (yyjson_get_str (yyjson_obj_get (Some bar) "date")) in
      let? rest := bars_loop bars in
      Some ((d, yyjson_get_num (yyjson_obj_get (Some bar) "close")) :: rest)
  end.

(** [alloc] are the two allocations. *)
Definition parse_bars (bars : option yyjson_val) (alloc : bool * bool) : alpha_err_t + list (Z * float) :=
  match bars with
  | Some (JArr l) =>
      if negb (fst alloc) || negb (snd alloc) then inl ALPHA_ERR_IO
      else match bars_loop l with Some b => inr b | None => inl ALPHA_ERR_INVALID_ARG end
  | _ => inl ALPHA_ERR_INVALID_ARG
  end.

Fixpoint signals_loop (l : list (string * yyjson_val)) : option (list (Z * alpha_signal_t)) :=
  match l with
  | [] => Some []
  | (key, v) :: l =>
      let? sig := yyjson_get_str (Some v) in
      let? d := parse_iso (Some (c_str key)) in
      let? s := parse_signal sig in
      let? rest := signals_loop l in
      Some ((d, s) :: rest)
  end.

Definition parse_signals (signals : option yyjson_val) (alloc : bool * bool)
  : alpha_err_t + list (Z * alpha_signal_t) :=
  match signals with
  | Some (JObj l) =>
      if negb (fst alloc) || negb (snd alloc) then inl ALPHA_ERR_IO
      else match signals_loop l with Some s => inr s | None => inl ALPHA_ERR_INVALID_ARG end
  | _ => inr []
  end.

(** [read] is [yyjson_read_file]: the root of the document. *)
Definition alpha_fixture_load (read : string -> option yyjson_val) (bars_alloc signals_alloc : bool * bool)
    (path : option string) (out : option alpha_fixture_t) : alpha_err_t * option alpha_fixture_t :=
  match path, out with
  | Some path, Some _ =>
      match read path with
      | None => (ALPHA_ERR_IO, Some zero_fixture)
      | Some root =>
          match root with
          | JObj _ =>
              let root := Some root in
              match parse_config (yyjson_obj_get root "config") with
              | inl e => (e, Some zero_fixture)
              | inr cfg =>
                  match parse_bars (yyjson_obj_get root "bars") bars_alloc with
                  | inl e => (e, Some zero_fixture)
                  | inr bars =>
                      match parse_signals (yyjson_obj_get root "signals") signals_alloc with
                      | inl e => (e, Some zero_fixture)
                      | inr sigs =>
                          (ALPHA_OK, Some {| config := cfg; prices := map snd bars; dates := map fst bars;
                                             signal_days := map fst sigs; signal_values := map snd sigs |})
                      end
                  end
              end
          | _ => (ALPHA_ERR_INVALID_ARG, Some zero_fixture)
          end
      end
  | _, _ => (ALPHA_ERR_INVALID_ARG, out)
  end.

Definition alpha_fixture_free (fixture : option alpha_fixture_t) : option alpha_fixture_t :=
  match fixture with Some _ => Some zero_fixture | None => None end.

Definition alpha_fixture_replay (f : alpha_fixture_t) : alpha_replay_source_t :=
  {| days := signal_days f; signals := signal_values f |}.

(** ** The runner *)

(** The exit code and the result; [None] is undefined behaviour of the engine. *)
Definition run_once (pow : float -> float -> float) (al : allocs) (f : alpha_fixture_t)
    (result : alpha_backtest_result_t) : option (Z * option alpha_backtest_result_t) :=
  let replay := alpha_fixture_replay f in
  let cost := alpha_cost_model_make (commission_rate_pct (config f)) (tax_rate_pct (config f))
                (slippage_bps (config f)) in
  let? (status, result) :=
    alpha_backtest_run pow al (Some (config f)) (Some (prices f)) (Some (dates f)) (length (prices f))
      (Some alpha_replay_signal) replay (Some cost) (Some result) in
  Some (match status with ALPHA_OK => 0 | _ => 1 end, result).

(** ** Lemmas *)

Lemma copy_bounded_short src cap : (0 < cap)%nat -> (String.length (copy_bounded src cap) < cap)%nat.
Proof.
  intros C. unfold copy_bounded.
  assert (L : forall n s, (String.length (String.substring 0 n s) <= n)%nat).
  { induction n as [|n IH]; intros [|a s]; cbn; try lia. specialize (IH s). lia. }
  destruct (cap <=? String.length src)%nat eqn:E.
  - specialize (L (cap - 1)%nat src). lia.
  - apply Nat.leb_gt in E. specialize (L (String.length src) src). lia.
Qed.

Lemma copy_bounded_fits src cap : (String.length src < cap)%nat -> copy_bounded src cap = src.
Proof.
  intros H. unfold copy_bounded. replace (cap <=? String.length src)%nat with false
    by (symmetry; apply Nat.leb_gt; exact H). apply substring_all. lia.
Qed.

(** What a bar of the document says. *)
Definition bar_says (v : yyjson_val) (b : Z * float) : Prop :=
  parse_iso (yyjson_get_str (yyjson_obj_get (Some v) "date")) = Some (fst b) /\
  snd b = yyjson_get_num (yyjson_obj_get (Some v) "close").

Lemma bars_loop_spec l bars : bars_loop l = Some bars -> Forall2 bar_says l bars.
Proof.
  revert bars; induction l as [|v l IH]; intros bars E; cbn in E; [inv E; constructor|].
  destruct (parse_iso _) as [d|] eqn:D; [|discriminate]. destruct (bars_loop l) as [b|]; [|discriminate].
  inv E. constructor; [split; [exact D|reflexivity]|]. now apply IH.
Qed.

(** ** Rendering a fixture *)

Definition iso_text (z : Z) : string := let '(y, m, d) := civil_from_days z in iso_digits y m d.

Lemma c_str_digit k s : 0 <= k < 10 -> c_str (String (digit_char k) s) = String (digit_char k) (c_str s).
Proof. intros H. cbn [c_str]. rewrite code_digit_char by exact H. now replace (48 + k =? 0) with false by lia. Qed.

Lemma iso_text_ok z : in_iso_range z -> c_str (iso_text z) = iso_text z /\ parse_iso (Some (iso_text z)) = Some z.
Proof.
  intros R. pose proof (in_iso_range_year z R) as Y. pose proof (days_civil_inverse z) as D.
  unfold iso_text. destruct (civil_from_days z) as [[y m] d]. destruct D as (<- & M & Dd). split.
  - assert (Q : forall n, 0 <= n mod 10 < 10) by (intros; apply Z.mod_pos_bound; lia).
    assert (H : forall s, c_str (String "-" s) = String "-" (c_str s)) by reflexivity.
    unfold iso_digits. cbn [fixed_digits]. now rewrite ?c_str_digit, ?H, ?c_str_digit, ?H, ?c_str_digit by apply Q.
  - unfold parse_iso. rewrite parse_iso_digits by lia. reflexivity.
Qed.

Definition signal_name (s : alpha_signal_t) : string :=
  match s with
  | ALPHA_SIGNAL_BUY => "BUY" | ALPHA_SIGNAL_SELL => "SELL"
  | ALPHA_SIGNAL_HOLD => "HOLD" | ALPHA_SIGNAL_CLOSE => "CLOSE"
  end.

Lemma parse_signal_name s : parse_signal (c_str (signal_name s)) = Some s.
Proof. destruct s; reflexivity. Qed.

Definition render_config (c : alpha_backtest_config_t) : yyjson_val :=
  JObj [("ticker", JStr (cfg_ticker c)); ("strategy", JStr (cfg_strategy c));
        ("train_start", JStr (iso_text (train_start c))); ("train_end", JStr (iso_text (train_end c)));
        ("test_start", JStr (iso_text (test_start c))); ("test_end", JStr (iso_text (test_end c)));
        ("initial_capital", JSint (initial_capital c)); ("commission_rate_pct", JReal (commission_rate_pct c));
        ("tax_rate_pct", JReal (tax_rate_pct c)); ("slippage_bps", JSint (slippage_bps c))].

Definition render_bar (b : Z * float) : yyjson_val :=
  JObj [("date", JStr (iso_text (fst b))); ("close", JReal (snd b))].

Definition render_signal (s : Z * alpha_signal_t) : string * yyjson_val :=
  (iso_text (fst s), JStr (signal_name (snd s))).

Definition render (f : alpha_fixture_t) : yyjson_val :=
  JObj [("config", render_config (config f));
        ("bars", JArr (map render_bar (combine (dates f) (prices f))));
        ("signals", JObj (map render_signal (combine (signal_days f) (signal_values f))))].

(** A fixture the C structures can hold, with dates of four-digit years. *)
Record fixture_ok (f : alpha_fixture_t) : Prop := {
  fx_ticker : (String.length (cfg_ticker (config f)) < ALPHA_TICKER_CAP)%nat /\
              c_str (cfg_ticker (config f)) = cfg_ticker (config f);
  fx_strategy : (String.length (cfg_strategy (config f)) < ALPHA_STRATEGY_CAP)%nat /\
                c_str (cfg_strategy (config f)) = cfg_strategy (config f);
  fx_window : in_iso_range (train_start (config f)) /\ in_iso_range (train_end (config f)) /\
              in_iso_range (test_start (config f)) /\ in_iso_range (test_end (config f));
  fx_capital : in_int64 (initial_capital (config f));
  fx_slippage : in_int32 (slippage_bps (config f));
  fx_bars : length (dates f) = length (prices f) /\ Forall in_iso_range (dates f);
  fx_signals : length (signal_days f) = length (signal_values f) /\ Forall in_iso_range (signal_days f)
}.

Lemma to_int64_id z : in_int64 z -> to_int64 z = z.
Proof.
  unfold in_int64, to_int64, INT64_MIN, INT64_MAX, u64. intros H.
  destruct (Z_le_gt_dec 0 z).
  - rewrite Z.mod_small by lia. now replace (z >? 2 ^ 63 - 1) with false by lia.
  - replace (z mod 2 ^ 64) with (z + 2 ^ 64) by (rewrite <- (Z.mod_small (z + 2 ^ 64) (2 ^ 64)) by lia;
      rewrite <- (Z.mod_add z 1 (2 ^ 64)) by lia; f_equal; lia).
    replace (z + 2 ^ 64 >? 2 ^ 63 - 1) with true by lia. lia.
Qed.

Lemma to_int32_id z : in_int32 z -> to_int32 z = z.
Proof.
  unfold in_int32, to_int32, INT32_MIN, INT32_MAX, u32. intros H.
  destruct (Z_le_gt_dec 0 z).
  - rewrite Z.mod_small by lia. now replace (z >? 2 ^ 31 - 1) with false by lia.
  - replace (z mod 2 ^ 32) with (z + 2 ^ 32) by (rewrite <- (Z.mod_small (z + 2 ^ 32) (2 ^ 32)) by lia;
      rewrite <- (Z.mod_add z 1 (2 ^ 32)) by lia; f_equal; lia).
    replace (z + 2 ^ 32 >? 2 ^ 31 - 1) with true by lia. lia.
Qed.

Lemma render_config_ok f : fixture_ok f -> parse_config (Some (render_config (config f))) = inr (config f).
Proof.
  intros [[T1 T2] [S1 S2] (W1 & W2 & W3 & W4) K L _ _]. unfold parse_config, render_config.
  cbn [yyjson_obj_get lookup String.eqb Ascii.eqb Bool.eqb yyjson_get_str yyjson_get_sint yyjson_get_num].
  rewrite T2, S2. destruct (iso_text_ok _ W1) as [-> ->], (iso_text_ok _ W2) as [-> ->],
    (iso_text_ok _ W3) as [-> ->], (iso_text_ok _ W4) as [-> ->].
  rewrite !copy_bounded_fits by assumption. rewrite (to_int64_id _ K).
  rewrite (to_int64_id (slippage_bps (config f)))
    by (unfold in_int32, in_int64, INT32_MIN, INT32_MAX, INT64_MIN, INT64_MAX in *; lia).
  rewrite (to_int32_id _ L). destruct (config f). reflexivity.
Qed.

Lemma bars_loop_render (bars : list (Z * float)) :
  Forall in_iso_range (map fst bars) -> bars_loop (map render_bar bars) = Some bars.
Proof.
  induction bars as [|[d p] bars IH]; intros H; [reflexivity|]. inv H. cbn [map bars_loop].
  change (yyjson_obj_get (Some (render_bar (d, p))) "date") with (Some (JStr (iso_text d))).
  change (yyjson_obj_get (Some (render_bar (d, p))) "close") with (Some (JReal p)).
  cbn [yyjson_get_str yyjson_get_num].
  destruct (iso_text_ok d H2) as [-> ->]. now rewrite (IH H3).
Qed.

Lemma signals_loop_render (l : list (Z * alpha_signal_t)) :
  Forall in_iso_range (map fst l) -> signals_loop (map render_signal l) = Some l.
Proof.
  induction l as [|[d s] l IH]; intros H; [reflexivity|]. inv H. cbn [map signals_loop render_signal fst snd yyjson_get_str].
  destruct (iso_text_ok d H2) as [-> ->]. rewrite parse_signal_name, (IH H3). reflexivity.
Qed.

Lemma map_fst_combine {A B} (l : list A) (l' : list B) : length l = length l' -> map fst (combine l l') = l.
Proof. revert l'; induction l as [|a l IH]; intros [|b l'] H; cbn in *; try discriminate; auto. now rewrite IH by lia. Qed.

Lemma map_snd_combine {A B} (l : list A) (l' : list B) : length l = length l' -> map snd (combine l l') = l'.
Proof. revert l'; induction l as [|a l IH]; intros [|b l'] H; cbn in *; try discriminate; auto. now rewrite IH by lia. Qed.

(** ** Properties *)

(** Loading is all or nothing: a load that does not succeed leaves the zeroed
    structure whatever failed, and a successful one gives aligned arrays (as many
    dates as prices, as many signal days as signals), terminated texts and, bar by
    bar, the date and the price of the document. *)
Theorem fixture_load_sound read ba sa path out e f :
  alpha_fixture_load read ba sa (Some path) (Some out) = (e, Some f) ->
  (e <> ALPHA_OK /\ f = zero_fixture) \/
  (e = ALPHA_OK /\ length (dates f) = length (prices f) /\ length (signal_days f) = length (signal_values f) /\
   (String.length (cfg_ticker (config f)) < ALPHA_TICKER_CAP)%nat /\
   (String.length (cfg_strategy (config f)) < ALPHA_STRATEGY_CAP)%nat /\
   exists root bars, read path = Some root /\ yyjson_obj_get (Some root) "bars" = Some (JArr bars) /\
     Forall2 bar_says bars (combine (dates f) (prices f))).
Proof.
  intros E. unfold alpha_fixture_load in E.
  assert (Z : forall e', e' <> ALPHA_OK -> (e', Some zero_fixture) = (e, Some f) -> e <> ALPHA_OK /\ f = zero_fixture)
    by (intros e' N X; inv X; auto).
  destruct (read path) as [root|] eqn:R; [|left; exact (Z ALPHA_ERR_IO ltac:(discriminate) E)].
  destruct root as [| | | | | | |members]; try (left; exact (Z ALPHA_ERR_INVALID_ARG ltac:(discriminate) E)).
  set (root := JObj members) in *.
  destruct (parse_config _) as [ec|cfg] eqn:PC.
  { left. apply (Z ec); [|exact E]. unfold parse_config in PC.
    repeat break_match; try discriminate; inv PC; discriminate. }
  destruct (parse_bars _ ba) as [eb|bars] eqn:PB.
  { left. apply (Z eb); [|exact E]. unfold parse_bars in PB.
    repeat break_match; try discriminate; inv PB; discriminate. }
  destruct (parse_signals _ sa) as [es|sigs] eqn:PS.
  { left. apply (Z es); [|exact E]. unfold parse_signals in PS.
    repeat break_match; try discriminate; inv PS; discriminate. }
  right. inv E. cbn [dates prices signal_days signal_values config]. rewrite !length_map.
  do 3 (split; [reflexivity|]).
  assert (T : (String.length (cfg_ticker cfg) < ALPHA_TICKER_CAP)%nat /\
              (String.length (cfg_strategy cfg) < ALPHA_STRATEGY_CAP)%nat).
  { unfold parse_config in PC. repeat break_match; try discriminate. inv PC.
    cbn. split; apply copy_bounded_short; unfold ALPHA_TICKER_CAP, ALPHA_STRATEGY_CAP; lia. }
  split; [apply T|]. split; [apply T|]. unfold parse_bars in PB.
  destruct (yyjson_obj_get (Some root) "bars") as [[| | | | | |l|]|] eqn:B; try discriminate.
  exists root, l. split; [reflexivity|]. split; [exact B|].
  destruct (_ || _); [discriminate|]. destruct (bars_loop l) as [b|] eqn:L; [|discriminate]. inv PB.
  replace (combine (map fst bars) (map snd bars)) with bars; [now apply bars_loop_spec|].
  clear. induction bars as [|[d p] bars IH]; cbn; congruence.
Qed.

(** C33: The document of a fixture loads to that fixture, bit for bit. *)
Theorem fixture_roundtrip read path out f :
  fixture_ok f -> read path = Some (render f) ->
  alpha_fixture_load read (true, true) (true, true) (Some path) (Some out) = (ALPHA_OK, Some f).
Proof.
  intros H R. unfold alpha_fixture_load. rewrite R. unfold render.
  cbn [yyjson_obj_get lookup String.eqb Ascii.eqb Bool.eqb]. rewrite (render_config_ok f H).
  destruct (fx_bars f H) as [B1 B2], (fx_signals f H) as [S1 S2].
  cbn [parse_bars parse_signals fst snd negb orb].
  rewrite bars_loop_render by (rewrite map_fst_combine; assumption).
  rewrite signals_loop_render by (rewrite map_fst_combine; assumption).
  rewrite !map_fst_combine, !map_snd_combine by assumption. destruct f; reflexivity.
Qed.

(** A run over a loaded fixture reads its arrays in bounds: it is undefined only
    where the engine casts the affordable quantity at the price of some bar, or if its
    dates are too far apart for their differences to be added up. *)
Theorem loaded_run_undefined read ba sa path out f pow al result :
  alpha_fixture_load read ba sa (Some path) (Some out) = (ALPHA_OK, Some f) ->
  run_once pow al f result = None ->
  (exists i money p,
     nth_error (prices f) i = Some p /\
     cast_int64 (cfloor (money /
       (p + total (alpha_cost_calculate
                     (alpha_cost_model_make (commission_rate_pct (config f)) (tax_rate_pct (config f))
                        (slippage_bps (config f))) ALPHA_SIDE_BUY p 1)))%float) = None) \/
  ~ dates_close (length (prices f)) (dates f).
Proof.
  intros L R. unfold run_once in R.
  destruct (alpha_backtest_run _ _ _ _ _ _ _ _ _ _) as [[st res]|] eqn:E; [discriminate|].
  assert (Ld : length (dates f) = length (prices f)).
  { unfold alpha_fixture_load in L. destruct (read path) as [[| | | | | | |m]|]; try discriminate.
    destruct (parse_config _) as [ec|cfg] eqn:PC; [inv L; reflexivity|].
    destruct (parse_bars _ ba) as [eb|bars]; [inv L; reflexivity|].
    destruct (parse_signals _ sa) as [es|sigs]; inv L; [reflexivity|]. cbn. now rewrite !length_map. }
  destruct (run_undefined _ _ _ _ _ _ _ _ _ _ (Nat.le_refl _) ltac:(rewrite Ld; apply Nat.le_refl) E)
    as [(i & r & d & p & _ & P & _ & K & _)|(r & _ & _ & N)]; [left|right; exact N].
  exists i, (cash (state r)), p. auto.
Qed.

(** *** Witnesses *)

Definition sample_fixture : alpha_fixture_t :=
  {| config := {| cfg_ticker := "005930"; cfg_strategy := "momentum"; train_start := 18000; train_end := 18100;
                  test_start := 18101; test_end := 18200; initial_capital := 10000000;
                  commission_rate_pct := 0.015; tax_rate_pct := 0.18; slippage_bps := 3 |};
     prices := [70000%float; 71000%float]; dates := [18101; 18102];
     signal_days := [18101]; signal_values := [ALPHA_SIGNAL_BUY] |}.

Lemma sample_fixture_ok : fixture_ok sample_fixture.
Proof.
  split; cbn; unfold ALPHA_TICKER_CAP, ALPHA_STRATEGY_CAP, in_int64, in_int32, in_iso_range, INT64_MIN, INT64_MAX,
    INT32_MIN, INT32_MAX; change (days_from_civil 0 1 1) with (-719528);
    change (days_from_civil 9999 12 31) with 2932896; repeat split; repeat constructor; lia.
Qed.

Lemma fixture_roundtrip_witness :
  alpha_fixture_load (fun _ => Some (render sample_fixture)) (true, true) (true, true) (Some "f.json")
    (Some zero_fixture) = (ALPHA_OK, Some sample_fixture).
Proof. apply (fixture_roundtrip _ "f.json" zero_fixture sample_fixture sample_fixture_ok). reflexivity. Defined.

Lemma fixture_load_sound_witness :
  (ALPHA_OK <> ALPHA_OK /\ sample_fixture = zero_fixture) \/
  (ALPHA_OK = ALPHA_OK /\ length (dates sample_fixture) = length (prices sample_fixture) /\
   length (signal_days sample_fixture) = length (signal_values sample_fixture) /\
   (String.length (cfg_ticker (config sample_fixture)) < ALPHA_TICKER_CAP)%nat /\
   (String.length (cfg_strategy (config sample_fixture)) < ALPHA_STRATEGY_CAP)%nat /\
   exists root bars, Some (render sample_fixture) = Some root /\
     yyjson_obj_get (Some root) "bars" = Some (JArr bars) /\
     Forall2 bar_says bars (combine (dates sample_fixture) (prices sample_fixture))).
Proof.
  apply (fixture_load_sound (fun _ => Some (render sample_fixture)) (true, true) (true, true) "f.json" zero_fixture).
  vm_compute. reflexivity.
Defined.

(** The same fixture with a price that is not a number. *)
Definition nan_fixture : alpha_fixture_t :=
  {| config := config sample_fixture; prices := [nan]; dates := [18101]; signal_days := [18101];
     signal_values := [ALPHA_SIGNAL_BUY] |}.

Lemma loaded_run_undefined_witness :
  (exists i money p,
     nth_error (prices nan_fixture) i = Some p /\
     cast_int64 (cfloor (money /
       (p + total (alpha_cost_calculate (alpha_cost_model_make 0.015 0.18 3) ALPHA_SIDE_BUY p 1)))%float) = None) \/
  ~ dates_close 1 (dates nan_fixture).
Proof.
  apply (loaded_run_undefined (fun _ => Some (render nan_fixture)) (true, true) (true, true) "f.json"
           zero_fixture nan_fixture (fun x y => x) all_allocs sample_out); vm_compute; reflexivity.
Defined.
