(* ===== verification/Runners.v ===== *)
(** * The benchmark batches

    Models the deterministic workloads of [core/apps/blend_runner.c] and
    [core/apps/risk_runner.c], whose counts are printed as checksums to be compared
    with another implementation.  Indices are [long] and non-negative; their
    products stay far inside the type for every count a machine can run. *)

From Stdlib Require Import ZArith Lia Bool Floats Ascii String List.
From S2P Require Import Prelude Domain Double Blending Risk.
Import ListNotations.
Open Scope list_scope.
Open Scope Z_scope.

(** ** Counting loops *)

(** [for (long i = from; i < from + n; ++i) total += f (i)]. *)
Fixpoint sum_from (f : Z -> Z) (n : nat) (i total : Z) : Z :=
  match n with
  | O => total
  | S n => sum_from f n (i + 1) (total + f i)
  end.

Lemma sum_from_acc f n i total : sum_from f n i total = total + sum_from f n i 0.
Proof.
  revert i total; induction n as [|n IH]; intros i total; cbn; [lia|].
  rewrite IH, (IH (i + 1) (f i)). lia.
Qed.

Lemma sum_from_app f n m i : sum_from f (n + m) i 0 = sum_from f n i 0 + sum_from f m (i + Z.of_nat n) 0.
Proof.
  revert i; induction n as [|n IH]; intros i; cbn [Nat.add sum_from]; [now rewrite Z.add_0_r|].
  rewrite sum_from_acc, IH, (sum_from_acc f n (i + 1) (0 + f i)).
  replace (i + 1 + Z.of_nat n) with (i + Z.of_nat (S n)) by lia. lia.
Qed.

Definition periodic (p : Z) (f : Z -> Z) : Prop := forall i, 0 <= i -> f (i + p) = f i.

Lemma sum_from_shift p f n i k : periodic p f -> 0 <= p -> 0 <= i ->
  sum_from f n (i + Z.of_nat k * p) 0 = sum_from f n i 0.
Proof.
  intros P Pp. revert i; induction n as [|n IH]; intros i Hi; [reflexivity|]. cbn [sum_from].
  rewrite sum_from_acc, (sum_from_acc f n (i + 1)).
  replace (i + Z.of_nat k * p + 1) with (i + 1 + Z.of_nat k * p) by lia. rewrite IH by lia.
  f_equal. f_equal. clear IH. induction k as [|k IHk]; [now rewrite Z.add_0_r|].
  replace (i + Z.of_nat (S k) * p) with (i + Z.of_nat k * p + p) by lia. rewrite P by nia. exact IHk.
Qed.

(** Over a periodic function the loop is a multiple of its period plus a rest. *)
Lemma sum_periodic p f (k r : nat) : (0 < p)%nat -> periodic (Z.of_nat p) f ->
  sum_from f (k * p + r) 0 0 = Z.of_nat k * sum_from f p 0 0 + sum_from f r 0 0.
Proof.
  intros Pp P. induction k as [|k IH]; [cbn [Nat.mul Nat.add]; lia|].
  replace (S k * p + r)%nat with (p + (k * p + r))%nat by lia. rewrite sum_from_app.
  pose proof (sum_from_shift (Z.of_nat p) f (k * p + r) 0 1 P ltac:(lia) ltac:(lia)) as Sh.
  replace (0 + Z.of_nat 1 * Z.of_nat p) with (0 + Z.of_nat p) in Sh by lia. rewrite Sh, IH. lia.
Qed.

(** ** blend_runner *)

Definition slot (a b c : alpha_signal_t) (i : Z) : alpha_signal_t :=
  if i =? 0 then a else if i =? 1 then b else c.
Definition SLOT0 : Z -> alpha_signal_t := slot ALPHA_SIGNAL_BUY ALPHA_SIGNAL_SELL ALPHA_SIGNAL_HOLD.
Definition SLOT1 : Z -> alpha_signal_t := slot ALPHA_SIGNAL_HOLD ALPHA_SIGNAL_BUY ALPHA_SIGNAL_SELL.
Definition SLOT2 : Z -> alpha_signal_t := slot ALPHA_SIGNAL_SELL ALPHA_SIGNAL_HOLD ALPHA_SIGNAL_BUY.

Definition blend_input (i j : Z) (signal : alpha_signal_t) : alpha_blend_input_t :=
  {| in_signal := signal;
     in_confidence := (double_of_Z (Z.rem (i * (j + 1)) 100) / 100)%float;
     in_weight := double_of_Z (Z.rem (i + j) 5 + 1) |}.

Definition blend_case (i : Z) : alpha_signal_t :=
  out_signal (alpha_blend_signals
    (Some [blend_input i 0 (SLOT0 (Z.rem i 3));
           blend_input i 1 (SLOT1 (Z.rem (Z.quot i 3) 3));
           blend_input i 2 (SLOT2 (Z.rem (Z.quot i 9) 3))])).

Definition is_buy (i : Z) : Z := if signal_eqb (blend_case i) ALPHA_SIGNAL_BUY then 1 else 0.

Definition blend_run_batch (count : Z) : Z := sum_from is_buy (Z.to_nat count) 0 0.

(** ** risk_runner *)

Record risk_counts_t := { take_profit : Z; stop_loss : Z; daily_blocked : Z; buy_allowed : Z }.

Definition risk_position (i : Z) : alpha_position_t :=
  {| pos_ticker := EmptyString; pos_quantity := 1; avg_fill_price := 100;
     current_price := (90 + double_of_Z (Z.rem i 21))%float |}.

Definition risk_exit (i : Z) : alpha_exit_kind_t :=
  fst (alpha_check_rule_based_exit (risk_position i) alpha_risk_config_default None).
Definition is_take_profit (i : Z) : Z := match risk_exit i with ALPHA_EXIT_TAKE_PROFIT => 1 | _ => 0 end.
Definition is_stop_loss (i : Z) : Z := match risk_exit i with ALPHA_EXIT_STOP_LOSS => 1 | _ => 0 end.
Definition is_daily_blocked (i : Z) : Z :=
  if alpha_is_daily_loss_blocked (double_of_Z (Z.rem i 9 - 5)) alpha_risk_config_default then 1 else 0.
Definition is_buy_allowed (i : Z) : Z :=
  let existing := (double_of_Z (Z.rem i 25) * 100)%float in
  let intended := (double_of_Z (Z.rem (i * 7) 20 + 1) * 100)%float in
  let total := (10000 + double_of_Z (Z.rem i 100) * 100)%float in
  let denominator := alpha_max_position_denominator (Z.rem i 2 =? 0) total 10000 intended in
  if fst (alpha_max_position_allows_buy alpha_risk_config_default existing intended denominator None)
  then 1 else 0.

(** One turn of the loop of [run_batch]. *)
Definition risk_step (result : risk_counts_t) (i : Z) : risk_counts_t :=
  {| take_profit := take_profit result + is_take_profit i;
     stop_loss := stop_loss result + is_stop_loss i;
     daily_blocked := daily_blocked result + is_daily_blocked i;
     buy_allowed := buy_allowed result + is_buy_allowed i |}.

Fixpoint risk_loop (n : nat) (i : Z) (result : risk_counts_t) : risk_counts_t :=
  match n with O => result | S n => risk_loop n (i + 1) (risk_step result i) end.

Definition risk_run_batch (count : Z) : risk_counts_t :=
  risk_loop (Z.to_nat count) 0 {| take_profit := 0; stop_loss := 0; daily_blocked := 0; buy_allowed := 0 |}.

(** [unsigned long] arithmetic wraps at 64 bits. *)
Definition checksum (v : risk_counts_t) : Z :=
  u64 (u64 (take_profit v) * 1000000009 + u64 (stop_loss v) * 1000003 + u64 (daily_blocked v) * 1009
       + u64 (buy_allowed v)).

(** ** Lemmas *)

Lemma rem_add i a b c : 0 <= i -> 0 < b -> 0 <= a -> a = c * b -> Z.rem (i + a) b = Z.rem i b.
Proof. intros. rewrite !Z.rem_mod_nonneg by lia. subst a. now rewrite Z.mod_add by lia. Qed.

Lemma quot_rem_add i a b c d : 0 <= i -> 0 < b -> 0 < c -> 0 <= d -> a = d * (b * c) ->
  Z.rem (Z.quot (i + a) b) c = Z.rem (Z.quot i b) c.
Proof.
  intros. assert (0 <= a) by nia. rewrite !Z.quot_div_nonneg by lia. subst a.
  replace (i + d * (b * c)) with (i + d * c * b) by ring. rewrite Z.div_add by lia.
  assert (0 <= i / b) by (apply Z.div_pos; lia).
  rewrite !Z.rem_mod_nonneg by nia. now rewrite Z.mod_add by lia.
Qed.

Lemma is_buy_periodic : periodic 2700 is_buy.
Proof.
  intros i Hi. unfold is_buy, blend_case, blend_input.
  rewrite (rem_add i 2700 3 900), (quot_rem_add i 2700 3 3 300), (quot_rem_add i 2700 9 3 100) by lia.
  replace ((i + 2700) * (0 + 1)) with (i * (0 + 1) + 2700) by ring.
  replace ((i + 2700) * (1 + 1)) with (i * (1 + 1) + 5400) by ring.
  replace ((i + 2700) * (2 + 1)) with (i * (2 + 1) + 8100) by ring.
  replace (i + 2700 + 0) with (i + 0 + 2700) by ring. replace (i + 2700 + 1) with (i + 1 + 2700) by ring.
  replace (i + 2700 + 2) with (i + 2 + 2700) by ring.
  rewrite (rem_add (i * (0 + 1)) 2700 100 27), (rem_add (i * (1 + 1)) 5400 100 54),
    (rem_add (i * (2 + 1)) 8100 100 81), (rem_add (i + 0) 2700 5 540), (rem_add (i + 1) 2700 5 540),
    (rem_add (i + 2) 2700 5 540) by lia.
  reflexivity.
Qed.

Lemma risk_periodic : periodic 6300 is_take_profit /\ periodic 6300 is_stop_loss /\
  periodic 6300 is_daily_blocked /\ periodic 6300 is_buy_allowed.
Proof.
  repeat split; intros i Hi; unfold is_take_profit, is_stop_loss, is_daily_blocked, is_buy_allowed, risk_exit, risk_position.
  - now rewrite (rem_add i 6300 21 300) by lia.
  - now rewrite (rem_add i 6300 21 300) by lia.
  - now rewrite (rem_add i 6300 9 700) by lia.
  - replace ((i + 6300) * 7) with (i * 7 + 44100) by ring.
    now rewrite (rem_add i 6300 25 252), (rem_add (i * 7) 44100 20 2205), (rem_add i 6300 100 63), (rem_add i 6300 2 3150) by lia.
Qed.

Lemma risk_loop_sums n i r :
  risk_loop n i r =
  {| take_profit := sum_from is_take_profit n i (take_profit r); stop_loss := sum_from is_stop_loss n i (stop_loss r);
     daily_blocked := sum_from is_daily_blocked n i (daily_blocked r); buy_allowed := sum_from is_buy_allowed n i (buy_allowed r) |}.
Proof. revert i r; induction n as [|n IH]; intros i r; [destruct r; reflexivity|]. cbn. now rewrite IH. Qed.

Lemma split_count count p : 0 <= count -> 0 < p ->
  Z.to_nat count = (Z.to_nat (count / p) * Z.to_nat p + Z.to_nat (count mod p))%nat.
Proof.
  intros. pose proof (Z.div_mod count p ltac:(lia)). pose proof (Z.mod_pos_bound count p ltac:(lia)).
  pose proof (Z.div_pos count p ltac:(lia) ltac:(lia)).
  rewrite <- Z2Nat.inj_mul, <- Z2Nat.inj_add by nia. f_equal. lia.
Qed.

(** ** Properties *)

(** The blending checksum in closed form: 768 BUY decisions in every full cycle of
    2700 cases, and those of the rest. *)
Theorem blend_checksum_closed count :
  0 <= count ->
  blend_run_batch count = 768 * (count / 2700) + blend_run_batch (count mod 2700).
Proof.
  intros H. unfold blend_run_batch. rewrite (split_count count 2700) by lia.
  rewrite (sum_periodic (Z.to_nat 2700)) by (apply is_buy_periodic || lia).
  replace (sum_from is_buy (Z.to_nat 2700) 0 0) with 768 by (vm_compute; reflexivity).
  rewrite Z2Nat.id by (apply Z.div_pos; lia). lia.
Qed.

Lemma blend_checksum_closed_witness : blend_run_batch 5400 = 768 * (5400 / 2700) + blend_run_batch (5400 mod 2700).
Proof. apply (blend_checksum_closed 5400). lia. Defined.

(** The risk counters in closed form: per cycle of 6300 cases 1800 take-profits,
    1200 stop-losses, 2100 blocked days and 5103 allowed buys. *)
Theorem risk_counts_closed count :
  0 <= count ->
  let q := count / 6300 in
  let rest := risk_run_batch (count mod 6300) in
  risk_run_batch count =
    {| take_profit := 1800 * q + take_profit rest; stop_loss := 1200 * q + stop_loss rest;
       daily_blocked := 2100 * q + daily_blocked rest; buy_allowed := 5103 * q + buy_allowed rest |}.
Proof.
  intros H q rest. subst rest. unfold risk_run_batch. rewrite !risk_loop_sums. cbn [take_profit stop_loss daily_blocked buy_allowed].
  destruct risk_periodic as (P1 & P2 & P3 & P4). rewrite (split_count count 6300) by lia.
  rewrite !(sum_periodic (Z.to_nat 6300)) by (assumption || lia).
  replace (sum_from is_take_profit (Z.to_nat 6300) 0 0) with 1800 by (vm_compute; reflexivity).
  replace (sum_from is_stop_loss (Z.to_nat 6300) 0 0) with 1200 by (vm_compute; reflexivity).
  replace (sum_from is_daily_blocked (Z.to_nat 6300) 0 0) with 2100 by (vm_compute; reflexivity).
  replace (sum_from is_buy_allowed (Z.to_nat 6300) 0 0) with 5103 by (vm_compute; reflexivity).
  rewrite Z2Nat.id by (apply Z.div_pos; lia). subst q. f_equal; lia.
Qed.

Lemma risk_counts_closed_witness :
  risk_run_batch 6301 =
    {| take_profit := 1800; stop_loss := 1201; daily_blocked := 2101; buy_allowed := 5104 |}.
Proof.
  rewrite (risk_counts_closed 6301 ltac:(lia)). vm_compute. reflexivity.
Defined.
