(* ===== verification/Driver.v ===== *)
(** * The driver benchmark: its adapter and event handlers

    Models [core/apps/c_driver_adapter.c] up to its main function: one adapter that
    drives either the asynchronous redis client or the postgres client through the
    event loop, one operation at a time.  The clients and the registry are those of
    [RedisAsync], [Postgres] and [LwsRuntime]; hiredis and libpq stay parameters,
    and the rest of the machine (clock, libwebsockets, the server libpq reaches
    synchronously) is the class [World].

    An operation of the adapter takes the adapter and the world and returns both;
    [None] is undefined behaviour, or the end of the fuel of a loop.  The handlers
    the clients call during a service are run on the returned notices, in order:
    no handler touches the client that calls it. *)

From Stdlib Require Import ZArith Lia Bool Floats Ascii String List.
From S2P Require Import Prelude CStr Domain LwsRuntime RedisCache RedisAsync Postgres.
Import ListNotations.
Set Warnings "-register-all,-inexact-float".
Open Scope string_scope.
Open Scope list_scope.
Open Scope Z_scope.

Definition OP_COUNT : Z := 3.
Definition MAX_CONCURRENCY : Z := 32.
Definition HASH_HEX_SIZE : nat := 65.
Definition FIXTURE_MAX_SIZE : nat := 1024 * 1024.
(** The address given to [alpha_redis_async_connect]. *)
Definition REDIS_HOST : string := "127.0.0.1".
Definition REDIS_PORT : Z := 56379.

Inductive case_kind_t := CASE_REDIS | CASE_DB.

(** The back pointer to the only adapter is dropped. *)
Record token_t := { index : Z; started_ns : Z }.

(** ** The world *)

(** What libwebsockets does during a service: the callback of a wsi, or the
    scheduled wakeup. *)
Inductive loop_event :=
  | LoopCallback (x : Z) (reason : lws_callback_reasons)
  | LoopWakeup.

(** Each call returns the world after it.  [clock_gettime] gives seconds and
    nanoseconds, or fails; [lws_adopt] gives the results of [dup] and of the
    adoption; [lws_service] gives the events run and its result. *)
Class World (W : Type) := {
  clock_gettime : W -> W * option (Z * Z);
  lws_callback_on_writable : W -> W * Z;
  lws_adopt : W -> W * (Z * option Z);
  lws_service : W -> W * list loop_event * Z;
  PQconnectdb : W -> string -> W * bool;
  PQexecParams : W -> string -> list string -> W * bool
}.

(** The identities of [ready], of [pg_reply], of the adapter and of its token. *)
Definition READY_FN : Z := 1.
Definition PG_REPLY_FN : Z := 2.
Definition ADAPTER_PTR : Z := 3.
Definition TOKEN_PTR : Z := 4.

(** [snprintf] to a buffer whose size is not zero. *)
Definition sprint (size : nat) (text : string) : string := String.substring 0 (size - 1) text.

(** [%0<w>x] of a number of at most [w] hexadecimal digits. *)
Definition hex_digit (k : Z) : ascii := char_at "0123456789abcdef" (Z.to_nat k).
Fixpoint hex_digits (w : nat) (n : Z) (acc : string) : string :=
  match w with
  | O => acc
  | S w => hex_digits w (n / 16) (String (hex_digit (n mod 16)) acc)
  end.
Definition print_hex (w : nat) (n : Z) : string := hex_digits w n "".

(** FNV-1a at 32 bits. *)
Fixpoint hash_loop (text : string) (hash : Z) : Z :=
  match text with
  | EmptyString => hash
  | String c text => hash_loop text (u32 (Z.lxor hash (code c) * 16777619))
  end.
Definition namespace_hash (text : string) : Z := hash_loop text 2166136261.

(** The arguments of a call of a reply handler. *)
Inductive answer :=
  | REDIS_ANSWER (status : alpha_err_t) (text : option string) (integer : Z)
  | PG_ANSWER (result : alpha_pg_result_t).

Section Driver.
Context {P C W : Type} {pq : LibPQ P} {hiredis : HiredisAsync C} {world : World W}.

(** The turns given to the result loop of the postgres client. *)
Variable drain_fuel : nat.

(** [answered] is a history variable, read by no operation: what the reply handlers
    were called with, oldest first. *)
Record adapter := {
  runtime : option alpha_lws_runtime;
  watch : option nat;
  redis : option (alpha_redis_async C);
  pg : option (alpha_pg P);
  kind : case_kind_t;
  repeat : Z;
  concurrency : Z;
  total : Z;
  submitted : Z;
  completed : Z;
  current : Z;
  connected : bool;
  inflight : bool;
  failed : bool;
  latency_ns : list Z;
  token : token_t;
  ticker : string;
  namespace_text : string;
  redis_value : string;
  db_rows : alpha_pg_position_t * alpha_pg_position_t;
  exposure : alpha_pg_exposure_t;
  answered : list answer
}.

Definition set_runtime (a : adapter) (x : option alpha_lws_runtime) : adapter :=
  {| runtime := x; watch := watch a; redis := redis a; pg := pg a; kind := kind a; repeat := repeat
     a; concurrency := concurrency a; total := total a; submitted := submitted a; completed :=
     completed a; current := current a; connected := connected a; inflight := inflight a; failed :=
     failed a; latency_ns := latency_ns a; token := token a; ticker := ticker a; namespace_text :=
     namespace_text a; redis_value := redis_value a; db_rows := db_rows a; exposure := exposure a;
     answered := answered a |}.
Definition set_watch (a : adapter) (x : option nat) : adapter :=
  {| runtime := runtime a; watch := x; redis := redis a; pg := pg a; kind := kind a; repeat :=
     repeat a; concurrency := concurrency a; total := total a; submitted := submitted a; completed
     := completed a; current := current a; connected := connected a; inflight := inflight a; failed
     := failed a; latency_ns := latency_ns a; token := token a; ticker := ticker a; namespace_text
     := namespace_text a; redis_value := redis_value a; db_rows := db_rows a; exposure := exposure a;
     answered := answered a |}.
Definition set_redis (a : adapter) (x : option (alpha_redis_async C)) : adapter :=
  {| runtime := runtime a; watch := watch a; redis := x; pg := pg a; kind := kind a; repeat :=
     repeat a; concurrency := concurrency a; total := total a; submitted := submitted a; completed
     := completed a; current := current a; connected := connected a; inflight := inflight a; failed
     := failed a; latency_ns := latency_ns a; token := token a; ticker := ticker a; namespace_text
     := namespace_text a; redis_value := redis_value a; db_rows := db_rows a; exposure := exposure a;
     answered := answered a |}.
Definition set_pg (a : adapter) (x : option (alpha_pg P)) : adapter :=
  {| runtime := runtime a; watch := watch a; redis := redis a; pg := x; kind := kind a; repeat :=
     repeat a; concurrency := concurrency a; total := total a; submitted := submitted a; completed
     := completed a; current := current a; connected := connected a; inflight := inflight a; failed
     := failed a; latency_ns := latency_ns a; token := token a; ticker := ticker a; namespace_text
     := namespace_text a; redis_value := redis_value a; db_rows := db_rows a; exposure := exposure a;
     answered := answered a |}.
Definition set_connected (a : adapter) (x : bool) : adapter :=
  {| runtime := runtime a; watch := watch a; redis := redis a; pg := pg a; kind := kind a; repeat :=
     repeat a; concurrency := concurrency a; total := total a; submitted := submitted a; completed
     := completed a; current := current a; connected := x; inflight := inflight a; failed := failed
     a; latency_ns := latency_ns a; token := token a; ticker := ticker a; namespace_text :=
     namespace_text a; redis_value := redis_value a; db_rows := db_rows a; exposure := exposure a;
     answered := answered a |}.
Definition set_failed (a : adapter) (x : bool) : adapter :=
  {| runtime := runtime a; watch := watch a; redis := redis a; pg := pg a; kind := kind a; repeat :=
     repeat a; concurrency := concurrency a; total := total a; submitted := submitted a; completed
     := completed a; current := current a; connected := connected a; inflight := inflight a; failed
     := x; latency_ns := latency_ns a; token := token a; ticker := ticker a; namespace_text :=
     namespace_text a; redis_value := redis_value a; db_rows := db_rows a; exposure := exposure a;
     answered := answered a |}.
Definition set_token (a : adapter) (x : token_t) : adapter :=
  {| runtime := runtime a; watch := watch a; redis := redis a; pg := pg a; kind := kind a; repeat :=
     repeat a; concurrency := concurrency a; total := total a; submitted := submitted a; completed
     := completed a; current := current a; connected := connected a; inflight := inflight a; failed
     := failed a; latency_ns := latency_ns a; token := x; ticker := ticker a; namespace_text :=
     namespace_text a; redis_value := redis_value a; db_rows := db_rows a; exposure := exposure a;
     answered := answered a |}.
Definition set_submitted (a : adapter) (n : Z) (x : bool) : adapter :=
  {| runtime := runtime a; watch := watch a; redis := redis a; pg := pg a; kind := kind a; repeat :=
     repeat a; concurrency := concurrency a; total := total a; submitted := n; completed :=
     completed a; current := current a; connected := connected a; inflight := x; failed := failed a;
     latency_ns := latency_ns a; token := token a; ticker := ticker a; namespace_text :=
     namespace_text a; redis_value := redis_value a; db_rows := db_rows a; exposure := exposure a;
     answered := answered a |}.
Definition set_completed (a : adapter) (n : Z) (x : bool) : adapter :=
  {| runtime := runtime a; watch := watch a; redis := redis a; pg := pg a; kind := kind a; repeat :=
     repeat a; concurrency := concurrency a; total := total a; submitted := submitted a; completed
     := n; current := current a; connected := connected a; inflight := x; failed := failed a;
     latency_ns := latency_ns a; token := token a; ticker := ticker a; namespace_text :=
     namespace_text a; redis_value := redis_value a; db_rows := db_rows a; exposure := exposure a;
     answered := answered a |}.
Definition set_latency (a : adapter) (x : list Z) : adapter :=
  {| runtime := runtime a; watch := watch a; redis := redis a; pg := pg a; kind := kind a; repeat :=
     repeat a; concurrency := concurrency a; total := total a; submitted := submitted a; completed
     := completed a; current := current a; connected := connected a; inflight := inflight a; failed
     := failed a; latency_ns := x; token := token a; ticker := ticker a; namespace_text :=
     namespace_text a; redis_value := redis_value a; db_rows := db_rows a; exposure := exposure a;
     answered := answered a |}.
Definition set_rows (a : adapter) (x : alpha_pg_position_t * alpha_pg_position_t) : adapter :=
  {| runtime := runtime a; watch := watch a; redis := redis a; pg := pg a; kind := kind a; repeat :=
     repeat a; concurrency := concurrency a; total := total a; submitted := submitted a; completed
     := completed a; current := current a; connected := connected a; inflight := inflight a; failed
     := failed a; latency_ns := latency_ns a; token := token a; ticker := ticker a; namespace_text
     := namespace_text a; redis_value := redis_value a; db_rows := x; exposure := exposure a;
     answered := answered a |}.
Definition set_exposure (a : adapter) (x : alpha_pg_exposure_t) : adapter :=
  {| runtime := runtime a; watch := watch a; redis := redis a; pg := pg a; kind := kind a; repeat :=
     repeat a; concurrency := concurrency a; total := total a; submitted := submitted a; completed
     := completed a; current := current a; connected := connected a; inflight := inflight a; failed
     := failed a; latency_ns := latency_ns a; token := token a; ticker := ticker a; namespace_text
     := namespace_text a; redis_value := redis_value a; db_rows := db_rows a; exposure := x;
     answered := answered a |}.
Definition set_answered (a : adapter) (x : answer) : adapter :=
  {| runtime := runtime a; watch := watch a; redis := redis a; pg := pg a; kind := kind a; repeat :=
     repeat a; concurrency := concurrency a; total := total a; submitted := submitted a; completed
     := completed a; current := current a; connected := connected a; inflight := inflight a; failed
     := failed a; latency_ns := latency_ns a; token := token a; ticker := ticker a; namespace_text
     := namespace_text a; redis_value := redis_value a; db_rows := db_rows a; exposure := exposure a;
     answered := answered a ++ [x] |}.

Definition now_ns (w : W) : W * Z :=
  let '(w, value) := clock_gettime w in
  (w, match value with
      | Some (tv_sec, tv_nsec) => u64 (u64 (u64 tv_sec * 1000000000) + u64 tv_nsec)
      | None => 0
      end).

Definition is_redis (k : case_kind_t) : bool := match k with CASE_REDIS => true | CASE_DB => false end.

(** [if (status != ALPHA_OK) adapter->failed = true]. *)
Definition note (a : adapter) (status : alpha_err_t) : adapter := if is_ok status then a else set_failed a true.

(** ** Calls of the registry

    A watch belongs to the runtime, so there is no watch without one.  The answer
    libwebsockets gives is drawn even when an early return makes it irrelevant. *)

Definition watch_set_write (a : adapter) (w : W) (write : bool) : option (adapter * W * alpha_err_t) :=
  let '(w, z) := lws_callback_on_writable w in
  match runtime a with
  | None => match watch a with None => Some (a, w, ALPHA_ERR_INVALID_ARG) | Some _ => None end
  | Some rt =>
      let? (rt, e) := alpha_lws_watch_set_write rt (watch a) write z in
      Some (set_runtime a (Some rt), w, e)
  end.

(** [alpha_lws_watch_add (runtime, fd, write, ready, adapter, &adapter->watch)]. *)
Definition watch_add (a : adapter) (w : W) (fd : Z) (write : bool) : option (adapter * W * alpha_err_t) :=
  let '(w, (dup, adopt)) := lws_adopt w in
  let? (rt, e, out, _) :=
    alpha_lws_watch_add (runtime a) fd write (Some READY_FN) ADAPTER_PTR dup adopt (Some (watch a)) in
  Some (set_watch (set_runtime a rt) (match out with Some x => x | None => watch a end), w, e).

(** ** The handlers of the clients *)

(** [redis_watch]. *)
Definition redis_watch (a : adapter) (w : W) (fd flags : Z) : option (adapter * W) :=
  if (fd <? 0) || (flags =? ALPHA_REDIS_WATCH_NONE) then Some (a, w)
  else
    let write := (flags =? ALPHA_REDIS_WATCH_WRITE) || (flags =? 3) in
    let? (a, w, e) :=
      match watch a with None => watch_add a w fd write | Some _ => watch_set_write a w write end in
    Some (note a e, w).

Definition redis_timer (a : adapter) (timeout_ms : Z) : option adapter :=
  match watch a, runtime a with
  | None, _ => Some a
  | Some _, None => None
  | Some i, Some rt =>
      let? (e, _) := alpha_lws_watch_set_timer rt (Some i) timeout_ms in
      Some (note a e)
  end.

Definition redis_connect (a : adapter) (status : alpha_err_t) : adapter :=
  note (set_connected a (is_ok status)) status.

(** The token is the adapter's own: it is the only user data given to the clients. *)
Definition finish_operation (a : adapter) (w : W) (ok : bool) : adapter * W :=
  let '(w, ended) := now_ns w in
  let a :=
    if negb ok || (ended <=? started_ns (token a)) || (index (token a) >=? total a)
    then set_failed a true
    else set_latency a (list_set (latency_ns a) (Z.to_nat (index (token a))) (ended - started_ns (token a))) in
  (set_completed a (u64 (completed a + 1)) false, w).

Definition text_is (text : option string) (s : string) : bool :=
  match text with Some t => String.eqb t s | None => false end.

Definition redis_reply (a : adapter) (w : W) (status : alpha_err_t) (text : option string) (integer : Z)
  : adapter * W :=
  let operation := index (token a) mod OP_COUNT in
  let ok := is_ok status in
  let ok :=
    if operation =? 0 then ok && text_is text "OK"
    else if operation =? 1 then ok && text_is text (redis_value a)
    else ok && (integer =? 0) in
  finish_operation (set_answered a (REDIS_ANSWER status text integer)) w ok.

(** [db_rows[operation]], [operation] being 0 or 1. *)
Definition row_at (rows : alpha_pg_position_t * alpha_pg_position_t) (operation : Z) : alpha_pg_position_t :=
  if operation =? 0 then fst rows else snd rows.
Definition row_set (rows : alpha_pg_position_t * alpha_pg_position_t) (operation : Z)
    (p : alpha_pg_position_t) : alpha_pg_position_t * alpha_pg_position_t :=
  if operation =? 0 then (p, snd rows) else (fst rows, p).

(** [None] reads the member of the union that was not written. *)
Definition pg_reply (a : adapter) (w : W) (result : alpha_pg_result_t) : option (adapter * W) :=
  let operation := index (token a) mod OP_COUNT in
  let a := set_answered a (PG_ANSWER result) in
  if result_ok result then
    if operation <? 2 then
      match value result with
      | VALUE_POSITION p => Some (finish_operation (set_rows a (row_set (db_rows a) operation p)) w true)
      | _ => None
      end
    else
      match value result with
      | VALUE_EXPOSURE x =>
          Some (finish_operation (set_exposure a x) w
                  ((total_quantity x =? 30) && (total_market_value x =? 34000)))
      | _ => None
      end
  else Some (finish_operation a w false).

(** The owner's function called for a notice of the redis client. *)
Definition on_notice (a : adapter) (w : W) (n : notice) : option (adapter * W) :=
  match n with
  | WATCH_FN fd flags => redis_watch a w fd flags
  | TIMER_FN ms => let? a := redis_timer a ms in Some (a, w)
  | CONNECT_FN status => Some (redis_connect a status, w)
  | REPLY_FN status text integer _ => Some (redis_reply a w status text integer)
  end.

Fixpoint on_notices (a : adapter) (w : W) (ns : list notice) : option (adapter * W) :=
  match ns with
  | [] => Some (a, w)
  | n :: ns => let? (a, w) := on_notice a w n in on_notices a w ns
  end.

(** The callback called for a completion of the postgres client; [None] is a call of
    another function than [pg_reply] on the token. *)
Definition on_completion (a : adapter) (w : W) (c : completion) : option (adapter * W) :=
  if (called c =? PG_REPLY_FN) && (call_user_data c =? TOKEN_PTR) then pg_reply a w (call_result c)
  else None.

Fixpoint on_completions (a : adapter) (w : W) (cs : list completion) : option (adapter * W) :=
  match cs with
  | [] => Some (a, w)
  | c :: cs => let? (a, w) := on_completion a w c in on_completions a w cs
  end.

(** [ready]. *)
Definition ready (a : adapter) (w : W) (readable writable timed_out : bool) : option (adapter * W) :=
  match kind a with
  | CASE_DB =>
      let? (db, status, calls) := alpha_pg_service drain_fuel (pg a) readable writable in
      let? (a, w) := on_completions (set_pg a db) w calls in
      let? (a, w, status) :=
        if is_ok status then watch_set_write a w (alpha_pg_wants_write (pg a)) else Some (a, w, status) in
      Some (note a status, w)
  | CASE_REDIS =>
      let? (r, status, ns) :=
        if timed_out then alpha_redis_async_timeout (redis a)
        else
          let flags := if readable then ALPHA_REDIS_WATCH_READ else ALPHA_REDIS_WATCH_NONE in
          let flags :=
            if writable then if flags =? ALPHA_REDIS_WATCH_READ then 3 else ALPHA_REDIS_WATCH_WRITE
            else flags in
          alpha_redis_async_service (redis a) flags in
      let? (a, w) := on_notices (set_redis a r) w ns in
      Some (note a status, w)
  end.

(** ** The event loop *)

(** A call of the registry to an owner's function; [None] is a call of another
    function than [ready] on the adapter. *)
Definition on_ready_call (a : adapter) (w : W) (c : ready_call) : option (adapter * W) :=
  if (fn c =? READY_FN) && (ctx c =? ADAPTER_PTR) then ready a w (readable c) (writable c) (timed_out c)
  else None.

Fixpoint on_ready_calls (a : adapter) (w : W) (cs : list ready_call) : option (adapter * W) :=
  match cs with
  | [] => Some (a, w)
  | c :: cs => let? (a, w) := on_ready_call a w c in on_ready_calls a w cs
  end.

(** The opaque user data of a wsi: the slot adopted for it, NULL for the others. *)
Fixpoint slot_of (ws : list alpha_lws_watch) (i : nat) (x : Z) : option nat :=
  match ws with
  | [] => None
  | s :: ws => match wsi s with
               | Some y => if x =? y then Some i else slot_of ws (S i) x
               | None => slot_of ws (S i) x
               end
  end.

(** [service_wakeup]'s loop, in which the owner's function may change the slots
    still to come. *)
Fixpoint wakeup_slots (n i : nat) (a : adapter) (w : W) : option (adapter * W) :=
  match n with
  | O => Some (a, w)
  | S n =>
      let? rt := runtime a in
      let? s := nth_error (watches rt) i in
      let? (a, w) :=
        if active s && wants_write s then on_ready_call a w (call_ready s false true false) else Some (a, w) in
      wakeup_slots n (S i) a w
  end.

Definition on_loop_event (a : adapter) (w : W) (ev : loop_event) : option (adapter * W) :=
  let? rt := runtime a in
  match ev with
  | LoopCallback x reason =>
      let? (rt, calls) := foreign_fd_callback rt (slot_of (watches rt) 0 x) reason in
      on_ready_calls (set_runtime a (Some rt)) w calls
  | LoopWakeup => wakeup_slots (LwsRuntime.capacity rt) 0 a w
  end.

Fixpoint on_loop_events (a : adapter) (w : W) (evs : list loop_event) : option (adapter * W) :=
  match evs with
  | [] => Some (a, w)
  | ev :: evs => let? (a, w) := on_loop_event a w ev in on_loop_events a w evs
  end.

(** [alpha_lws_runtime_service (adapter->runtime, 1)]. *)
Definition runtime_service (a : adapter) (w : W) : option (adapter * W * alpha_err_t) :=
  match runtime a with
  | None => Some (a, w, fst (alpha_lws_runtime_service None 1 0))
  | Some rt =>
      let '(w, evs, served) := lws_service w in
      let? (a, w) := on_loop_events a w evs in
      Some (a, w, fst (alpha_lws_runtime_service (Some rt) 1 served))
  end.

(** ** Submitting and driving *)

Definition KEY_SIZE : nat := 160.

(** The command of an operation of the redis case. *)
Definition redis_argv (a : adapter) (operation : Z) : list string :=
  let key :=
    if operation <? 2 then sprint KEY_SIZE ("redis:cache:latest_ticks:" ++ ticker a)%string
    else sprint KEY_SIZE ("hard_stop:lockout:" ++ namespace_text a)%string in
  if operation =? 0 then ["SET"; key; redis_value a; "EX"; "60"]
  else [(if operation =? 1 then "GET" else "EXISTS"); key].

(** The call of the client for an operation. *)
Definition submit_client (a : adapter) (w : W) (operation : Z) : option (adapter * W * alpha_err_t) :=
  match kind a with
  | CASE_REDIS =>
      let? (r, status, ns) := alpha_redis_async_command (redis a) (Some (redis_argv a operation)) TOKEN_PTR in
      let? (a, w) := on_notices (set_redis a r) w ns in
      Some (a, w, status)
  | CASE_DB =>
      let '(db, status) :=
        if operation <? 2
        then alpha_pg_upsert_position (pg a) (Some (row_at (db_rows a) operation)) (Some PG_REPLY_FN) TOKEN_PTR
        else alpha_pg_query_exposure (pg a) (Some (ticker a)) (Some PG_REPLY_FN) TOKEN_PTR in
      Some (set_pg a db, w, status)
  end.

Definition submit_one (a : adapter) (w : W) : option (adapter * W * alpha_err_t) :=
  let operation := submitted a mod OP_COUNT in
  let '(w, started) := now_ns w in
  let a := set_token a {| index := submitted a; started_ns := started |} in
  let? (a, w, status) := submit_client a w operation in
  if is_ok status then
    let a := set_submitted a (u64 (submitted a + 1)) true in
    match kind a with
    | CASE_REDIS => Some (a, w, status)
    | CASE_DB =>
        let? (a, w, e) := watch_set_write a w (alpha_pg_wants_write (pg a)) in
        Some (a, w, if is_ok e then status else ALPHA_ERR_IO)
    end
  else Some (a, w, status).

(** The submission at the head of a turn; the status is OK when there is none. *)
Definition submit_if_idle (a : adapter) (w : W) : option (adapter * W * alpha_err_t) :=
  if negb (inflight a) && (is_redis (kind a) || alpha_pg_is_idle (pg a)) then submit_one a w
  else Some (a, w, ALPHA_OK).

(** [alpha_lws_runtime_service (...) != ALPHA_OK || now_ns () > deadline_ns]. *)
Definition turn_overruns (a : adapter) (w : W) (deadline_ns : Z) : option (adapter * W * bool) :=
  let? (a, w, e) := runtime_service a w in
  if is_ok e then let '(w, now) := now_ns w in Some (a, w, now >? deadline_ns) else Some (a, w, true).

Fixpoint drive_loop (fuel : nat) (a : adapter) (w : W) (deadline_ns : Z) : option (adapter * W) :=
  if failed a || negb (completed a <? total a) then Some (a, w)
  else
    match fuel with
    | O => None
    | S fuel =>
        let? (a, w, e) := submit_if_idle a w in
        if negb (is_ok e) then Some (set_failed a true, w)
        else
          let? (a, w, over) := turn_overruns a w deadline_ns in
          drive_loop fuel (if over : bool then set_failed a true else a) w deadline_ns
    end.

Definition drive (fuel : nat) (a : adapter) (w : W) (deadline_ns : Z) : option (bool * adapter * W) :=
  let? (a, w) := drive_loop fuel a w deadline_ns in Some (negb (failed a), a, w).

(** The two libpq calls; the connection is finished in both cases. *)
Definition DELETE_SQL : string := "DELETE FROM portfolio_positions WHERE ticker=$1".
Definition pg_cleanup (w : W) (conninfo t : string) : W * bool :=
  let '(w, connection) := PQconnectdb w conninfo in
  if negb connection then (w, false) else PQexecParams w DELETE_SQL [t].

Definition connection_up (a : adapter) : bool :=
  match kind a with
  | CASE_REDIS => connected a
  | CASE_DB => is_ready (alpha_pg_state (pg a))
  end.

Fixpoint wait_connection (fuel : nat) (a : adapter) (w : W) (deadline_ns : Z) : option (bool * adapter * W) :=
  if failed a then Some (false, a, w)
  else if connection_up a then Some (true, a, w)
  else
    match fuel with
    | O => None
    | S fuel =>
        let? (a, w, over) := turn_overruns a w deadline_ns in
        if over : bool then Some (false, a, w) else wait_connection fuel a w deadline_ns
    end.

Definition terminal_matches_service (a : adapter) : bool :=
  match kind a with
  | CASE_REDIS => completed a =? total a
  | CASE_DB =>
      let '(r0, r1) := db_rows a in
      String.eqb (strategy_id r0) "strategy-a" && (pos_quantity r0 =? 10) && (current_price r0 =? 1000) &&
      String.eqb (strategy_id r1) "strategy-b" && (pos_quantity r1 =? 20) && (current_price r1 =? 1200) &&
      (total_quantity (exposure a) =? 30) && (total_market_value (exposure a) =? 34000)
  end.

End Driver.

Arguments adapter : clear implicits.

(** ** What the machine promises *)

(** Connecting queues no command. *)
Class ConnectLaws (P : Type) {pq : LibPQ P} {laws : PipelineLaws P} := {
  law_nonblocking : forall c, items (fst (PQsetnonblocking c)) = items c;
  law_poll : forall c, items (fst (PQconnectPoll c)) = items c;
  law_enter : forall c, items (fst (PQenterPipelineMode c)) = items c
}.

(** An order in which every call moves the world forward. *)
Class WorldOrder (W : Type) {world : World W} := {
  later : W -> W -> Prop;
  later_refl : forall w, later w w;
  later_trans : forall w1 w2 w3, later w1 w2 -> later w2 w3 -> later w1 w3;
  later_clock : forall w, later w (fst (clock_gettime w));
  later_writable : forall w, later w (fst (lws_callback_on_writable w));
  later_adopt : forall w, later w (fst (lws_adopt w));
  later_service : forall w, later w (fst (fst (lws_service w)))
}.

Create HintDb driver.
#[export] Hint Resolve later_refl later_clock later_writable later_adopt later_service : driver.

Lemma now_later {W} {world : World W} {order : WorldOrder W} w : later w (fst (now_ns w)).
Proof. unfold now_ns. pose proof (later_clock w). now destruct (clock_gettime w). Qed.
#[export] Hint Resolve now_later : driver.

Lemma now_range {W} {world : World W} w : 0 <= snd (now_ns w) < 2 ^ 64.
Proof. unfold now_ns. destruct (clock_gettime w) as [w' [[s ns]|]]; cbn; [apply u64_range|lia]. Qed.

Section Correct.
Context {P C W : Type} {pq : LibPQ P} {hiredis : HiredisAsync C} {world : World W}.
Context {pipeline : PipelineLaws P} {connecting : ConnectLaws P} {hlaws : HiredisLaws C}.
Context {order : WorldOrder W}.
Variable drain_fuel : nat.

(** ** The invariant of the adapter *)

Definition one_z (b : bool) : Z := if b then 1 else 0.

(** The reply an operation expects: OK to the SET, the value to the GET and 0 to the
    EXISTS; a row for each upsert, and the exposure of both. *)
Definition expected (a : adapter P C) (operation : Z) (x : answer) : Prop :=
  match x with
  | REDIS_ANSWER status text integer =>
      kind a = CASE_REDIS /\ status = ALPHA_OK /\ (operation = 0 -> text = Some "OK") /\
      (operation = 1 -> text = Some (redis_value a)) /\ (operation = 2 -> integer = 0)
  | PG_ANSWER result =>
      kind a = CASE_DB /\ result_status result = ALPHA_OK /\
      (operation < 2 -> exists p, value result = VALUE_POSITION p) /\
      (operation = 2 -> exists x, value result = VALUE_EXPOSURE x /\
         total_quantity x = 30 /\ total_market_value x = 34000)
  end.

(** What the adapter keeps of the last reply to an operation of the database case. *)
Definition kept (rows : alpha_pg_position_t * alpha_pg_position_t) (x : alpha_pg_exposure_t) (operation : Z)
  : result_value := if operation <? 2 then VALUE_POSITION (row_at rows operation) else VALUE_EXPOSURE x.

(** Every reply was the expected one, and the adapter holds those of the last round. *)
Definition answers_ok (a : adapter P C) : Prop :=
  (forall i x, nth_error (answered a) i = Some x -> expected a (Z.of_nat i mod OP_COUNT) x) /\
  (forall i result, nth_error (answered a) i = Some (PG_ANSWER result) ->
    completed a - OP_COUNT <= Z.of_nat i -> value result = kept (db_rows a) (exposure a) (Z.of_nat i mod OP_COUNT)).

(** Work done: at most one operation is in flight, the token is its own, and while
    nothing failed every completed operation has a positive latency and got the reply
    it expected. *)
Record progress_ok (a : adapter P C) : Prop := {
  prog_low : 0 <= completed a;
  prog_one : submitted a = completed a + one_z (inflight a);
  prog_high : submitted a <= total a;
  prog_size : total a < 2 ^ 64;
  prog_cells : Z.of_nat (List.length (latency_ns a)) = total a;
  prog_token : inflight a = true -> index (token a) = completed a;
  prog_start : 0 <= started_ns (token a);
  prog_latency : failed a = false -> forall i, 0 <= i < completed a ->
    exists l, nth_error (latency_ns a) (Z.to_nat i) = Some l /\ 0 < l < 2 ^ 64;
  prog_answered : Z.of_nat (List.length (answered a)) = completed a;
  prog_answers : failed a = false -> answers_ok a
}.

(** The registry is sound, every active slot calls [ready] on the adapter, and the
    adapter's handle is a slot. *)
Definition slots_mine (rt : alpha_lws_runtime) : Prop :=
  forall i s, nth_error (watches rt) i = Some s -> active s = true ->
    ready_fn s = READY_FN /\ callback_ctx s = ADAPTER_PTR.

Definition loop_ok (a : adapter P C) : Prop :=
  match runtime a with
  | None => watch a = None
  | Some rt => registry_ok rt /\ slots_mine rt /\
      forall i, watch a = Some i -> (i < List.length (watches rt))%nat
  end.

(** The request in flight. *)
Definition request_kind (operation : Z) : alpha_pg_result_kind_t :=
  if operation <? 2 then ALPHA_PG_RESULT_POSITION else ALPHA_PG_RESULT_EXPOSURE.
Definition queue_of (a : adapter P C) : list pending_request_t :=
  if inflight a
  then [{| Postgres.kind := request_kind (completed a mod OP_COUNT); callback := Some PG_REPLY_FN;
           user_data := TOKEN_PTR |}]
  else [].

(** The redis server the benchmark connects to is [steady]. *)
Definition calm : Prop := steady (C := C) REDIS_HOST REDIS_PORT.

(** The client of the case and the adapter agree on what is outstanding, and a calm
    server never makes hiredis free the context under the client. *)
Definition client_ok (a : adapter P C) : Prop :=
  match kind a with
  | CASE_DB =>
      match pg a with
      | None => inflight a = false
      | Some db => pg_inv db (queue_of a) /\ coherent db /\
          Z.of_nat (bounds (items (conn db))) <= submitted a /\ total a + 2 < Z.of_nat drain_fuel
      end
  | CASE_REDIS =>
      match redis a with
      | None => inflight a = false
      | Some r => adapter_ok r /\ Z.of_nat (pending r) = one_z (inflight a) /\ (calm -> held r)
      end
  end.

Definition driver_ok (a : adapter P C) : Prop := progress_ok a /\ loop_ok a /\ client_ok a.

(** What no operation changes or takes back. *)
Definition slots (a : adapter P C) : option nat :=
  option_map (fun rt => List.length (watches rt)) (runtime a).
Record frame (a a' : adapter P C) : Prop := {
  frame_kind : kind a' = kind a;
  frame_total : total a' = total a;
  frame_slots : slots a' = slots a;
  frame_text : (ticker a', namespace_text a', redis_value a') = (ticker a, namespace_text a, redis_value a);
  frame_failed : failed a = true -> failed a' = true
}.

Lemma frame_refl a : frame a a.
Proof. split; auto. Qed.
Lemma frame_trans a b c : frame a b -> frame b c -> frame a c.
Proof. intros [] []. split; congruence || auto. Qed.

(** An operation that does no work: only the registry and the flags may change. *)
Record quiet (a a' : adapter P C) : Prop := {
  quiet_frame : frame a a';
  quiet_work : (submitted a', completed a', inflight a', token a', latency_ns a', pg a', redis a') =
               (submitted a, completed a, inflight a, token a, latency_ns a, pg a, redis a);
  quiet_answers : (answered a', db_rows a', exposure a') = (answered a, db_rows a, exposure a)
}.

Lemma quiet_refl a : quiet a a.
Proof. split; [apply frame_refl|reflexivity..]. Qed.
Lemma quiet_trans a b c : quiet a b -> quiet b c -> quiet a c.
Proof. intros [F1 W1 A1] [F2 W2 A2]. split; [eapply frame_trans; eauto|congruence..]. Qed.

Lemma quiet_answers_ok a a' : quiet a a' -> answers_ok a -> answers_ok a'.
Proof.
  intros [[K _ _ X _] W0 A] [E Q]. inv W0. inv A. inv X.
  split; intros i x N; rewrite ?H1, ?H8, ?H9; rewrite H7 in N.
  - specialize (E i x N). unfold expected in *. now rewrite K, H12.
  - exact (Q i x N).
Qed.

Lemma quiet_progress a a' : quiet a a' -> progress_ok a -> progress_ok a'.
Proof.
  intros Q [Lo On Hi Sz Ce Tk St La An Ao]. pose proof (quiet_answers_ok _ _ Q) as Qa.
  destruct Q as [[K T _ _ F] W0 A]. inv W0. inv A.
  assert (N : failed a' = false -> failed a = false) by
    (intros N; destruct (failed a); [rewrite F in N by reflexivity; discriminate|reflexivity]).
  split; rewrite ?T; try rewrite H0; try rewrite H1; try rewrite H2; try rewrite H3; try rewrite H4; try rewrite H7;
    auto.
Qed.

Lemma quiet_client a a' : quiet a a' -> client_ok a -> client_ok a'.
Proof.
  intros [[K T _ _ F] W0 _]. inv W0. unfold client_ok, queue_of. now rewrite K, T, H0, H1, H2, H5, H6.
Qed.

Lemma note_quiet a e : quiet a (note a e).
Proof. unfold note. destruct (is_ok e); [apply quiet_refl|]. split; [split|..]; auto. Qed.

(** ** Calls of the registry *)

Lemma loop_note a e : loop_ok a -> loop_ok (note a e).
Proof. unfold note. now destruct (is_ok e). Qed.

(** Writing a slot that keeps its owner when active. *)
Lemma slots_mine_put rt i s n :
  slots_mine rt -> (active s = true -> ready_fn s = READY_FN /\ callback_ctx s = ADAPTER_PTR) ->
  slots_mine (LwsRuntime.set_count (put rt i s) n).
Proof.
  intros M N j x J A. destruct (nth_list_set _ _ _ _ _ J) as [[_ ->]|[_ J']]; [auto|exact (M j x J' A)].
Qed.

Lemma set_write_step a w b :
  loop_ok a -> exists a' w' e, watch_set_write a w b = Some (a', w', e) /\ quiet a a' /\ loop_ok a' /\ later w w'.
Proof.
  intros L. unfold watch_set_write. pose proof (later_writable w) as LW.
  destruct (lws_callback_on_writable w) as [w1 z]. cbn in LW. pose proof L as L0. unfold loop_ok in L.
  destruct (runtime a) as [rt|] eqn:R.
  2:{ rewrite L. do 3 eexists. split; [reflexivity|]. split; [apply quiet_refl|auto]. }
  destruct L as (O & M & I). unfold alpha_lws_watch_set_write. destruct (watch a) as [i|] eqn:X.
  2:{ do 3 eexists. split; [reflexivity|]. split; [split; [split|..]; auto; unfold slots; cbn; now rewrite R|].
      split; [|exact LW]. unfold loop_ok; cbn. rewrite X. auto. }
  specialize (I i eq_refl). destruct (nth_error (watches rt) i) as [s|] eqn:N;
    [|apply nth_error_None in N; lia].
  destruct (wsi s) as [x|] eqn:Y; do 3 eexists; (split; [reflexivity|]);
    (split; [split; [split|..]; auto; unfold slots; cbn; rewrite R; cbn; now rewrite ?list_set_length|]);
    (split; [|exact LW]); unfold loop_ok; cbn; rewrite X.
  - split; [|split].
    + apply (registry_put_same rt i s); auto. cbn. intros A. exact (reg_wsi _ O i s N A).
    + apply (slots_mine_put rt i (set_wants s b) (LwsRuntime.count rt)); [exact M|]. cbn. exact (M i s N).
    + rewrite list_set_length. intros j J. inv J. exact I.
  - split; [exact O|split; [exact M|]]. intros j J. inv J. exact I.
Qed.

Lemma add_step a w fd b :
  loop_ok a -> exists a' w' e, watch_add a w fd b = Some (a', w', e) /\ quiet a a' /\ loop_ok a' /\ later w w'.
Proof.
  intros L. unfold watch_add. pose proof (later_adopt w) as LW.
  destruct (lws_adopt w) as [w1 [dup adopt]]. cbn in LW.
  assert (Back : forall e : alpha_err_t, exists a' w' e',
     Some (set_watch (set_runtime a (runtime a)) (watch a), w1, e) = Some (a', w', e') /\ quiet a a' /\
     loop_ok a' /\ later w w').
  { intros e. do 3 eexists. split; [reflexivity|]. split; [split; [split|..]; auto|]. split; [exact L|exact LW]. }
  unfold alpha_lws_watch_add. destruct (runtime a) as [rt|] eqn:R; [|apply Back].
  unfold loop_ok in L. rewrite R in L. destruct L as (O & M & I).
  destruct (fd <? 0); [apply Back|].
  destruct (LwsRuntime.count rt =? LwsRuntime.capacity rt)%nat eqn:F; [apply Back|]. apply Nat.eqb_neq in F.
  destruct (dup <? 0); [apply Back|].
  destruct (room_gives_slot rt O F) as (i & s & -> & N & A).
  assert (B : (i < List.length (watches rt))%nat) by (apply nth_error_Some; congruence).
  destruct adopt as [x|]; do 3 eexists; (split; [reflexivity|]);
    (split; [split; [split|..]; auto; unfold slots; cbn; rewrite R; cbn; now rewrite list_set_length|]);
    (split; [|exact LW]); unfold loop_ok; cbn; rewrite list_set_length.
  - split; [|split].
    + apply (registry_put rt i s); cbn; auto; [rewrite A; cbn; lia|discriminate].
    + apply slots_mine_put; auto.
    + intros j J. inv J. exact B.
  - split; [|split; [|exact I]].
    + apply (registry_put_same rt i s); auto.
    + apply (slots_mine_put rt i _ (LwsRuntime.count rt)); [exact M|discriminate].
Qed.

Lemma redis_watch_step a w fd flags :
  loop_ok a -> exists a' w', redis_watch a w fd flags = Some (a', w') /\ quiet a a' /\ loop_ok a' /\ later w w'.
Proof.
  intros L. unfold redis_watch. destruct (_ || _).
  { do 2 eexists. split; [reflexivity|]. split; [apply quiet_refl|auto with driver]. }
  destruct (watch a).
  - destruct (set_write_step a w ((flags =? ALPHA_REDIS_WATCH_WRITE) || (flags =? 3)) L)
      as (a' & w' & e & -> & Q & L' & T).
    do 2 eexists. split; [reflexivity|]. eauto using quiet_trans, note_quiet, loop_note.
  - destruct (add_step a w fd ((flags =? ALPHA_REDIS_WATCH_WRITE) || (flags =? 3)) L)
      as (a' & w' & e & -> & Q & L' & T).
    do 2 eexists. split; [reflexivity|]. eauto using quiet_trans, note_quiet, loop_note.
Qed.

Lemma redis_timer_defined a ms : loop_ok a -> ms * 1000 <= INT64_MAX -> exists a', redis_timer a ms = Some a'.
Proof.
  intros L B. unfold redis_timer. unfold loop_ok in L. destruct (watch a) as [i|] eqn:X; [|eauto].
  destruct (runtime a) as [rt|]; [|discriminate]. destruct L as (_ & _ & I). specialize (I i eq_refl).
  unfold alpha_lws_watch_set_timer. destruct (nth_error (watches rt) i) as [s|] eqn:N;
    [|apply nth_error_None in N; lia].
  destruct (wsi s); [|eauto]. destruct (ms <? -1); [eauto|]. destruct (ms <? 0); [eauto|].
  change LWS_US_PER_MS with 1000. replace (ms * 1000 >? INT64_MAX) with false by lia. eauto.
Qed.

Lemma redis_timer_step a ms a' : loop_ok a -> redis_timer a ms = Some a' -> quiet a a' /\ loop_ok a'.
Proof.
  intros L. unfold redis_timer. destruct (watch a) as [i|]; [|intros E; inv E; auto using quiet_refl].
  destruct (runtime a) as [rt|]; [|discriminate].
  destruct (alpha_lws_watch_set_timer rt (Some i) ms) as [[e x]|]; [|discriminate].
  intros E; inv E. auto using note_quiet, loop_note.
Qed.

(** ** Completing an operation *)

(** The adapter once its handler has kept a reply. *)
Definition replied (a : adapter P C) (x : answer) rows ex : adapter P C :=
  set_exposure (set_rows (set_answered a x) rows) ex.

(** A reply may be kept over the last one of its operation only. *)
Definition keeps_others (a : adapter P C) rows ex : Prop :=
  forall operation, 0 <= operation < OP_COUNT -> operation <> completed a mod OP_COUNT ->
    kept rows ex operation = kept (db_rows a) (exposure a) operation.

(** The reply is the expected one and it is kept. *)
Definition accepts (a : adapter P C) (x : answer) rows ex : Prop :=
  expected a (completed a mod OP_COUNT) x /\
  (forall result, x = PG_ANSWER result -> value result = kept rows ex (completed a mod OP_COUNT)).

Lemma nth_error_snoc {A} (l : list A) x i y :
  nth_error (l ++ [x]) i = Some y -> nth_error l i = Some y \/ (i = List.length l /\ y = x).
Proof.
  intros N. destruct (lt_dec i (List.length l)) as [L|L]; [left; now rewrite nth_error_app1 in N|right].
  rewrite nth_error_app2 in N by lia. destruct (i - List.length l)%nat as [|k] eqn:E.
  - cbn in N. inv N. split; [lia|reflexivity].
  - cbn in N. destruct k; discriminate.
Qed.

Lemma answers_snoc a b x rows ex :
  answers_ok a -> Z.of_nat (List.length (answered a)) = completed a ->
  keeps_others a rows ex -> accepts a x rows ex ->
  answered b = answered a ++ [x] -> completed b = completed a + 1 -> db_rows b = rows -> exposure b = ex ->
  kind b = kind a -> redis_value b = redis_value a -> answers_ok b.
Proof.
  intros [E Q] L Ke [Ex Sh] An Co Ro Xp Ki Va.
  assert (Tr : forall op y, expected a op y -> expected b op y) by (intros op y; unfold expected; now rewrite Ki, Va).
  split; intros i y N; rewrite An in N; destruct (nth_error_snoc _ _ _ _ N) as [N'|[I Y]].
  - exact (Tr _ _ (E i y N')).
  - subst i y. rewrite L. exact (Tr _ _ Ex).
  - intros B. rewrite Co in B. rewrite (Q i y N') by lia. rewrite Ro, Xp. symmetry. apply Ke.
    + apply Z.mod_pos_bound. reflexivity.
    + assert (I : (i < List.length (answered a))%nat) by (apply nth_error_Some; congruence).
      unfold OP_COUNT in *. Z.div_mod_to_equations. lia.
  - intros _. subst i. rewrite L, Ro, Xp. exact (Sh y (eq_sym Y)).
Qed.

Lemma finish_step a w x rows ex ok :
  progress_ok a -> inflight a = true -> keeps_others a rows ex -> (ok = true -> accepts a x rows ex) ->
  let '(a', w') := finish_operation (replied a x rows ex) w ok in
  progress_ok a' /\ frame a a' /\ inflight a' = false /\ later w w' /\
  (loop_ok a -> loop_ok a') /\ (redis a', pg a', submitted a', token a') = (redis a, pg a, submitted a, token a).
Proof.
  intros [Lo On Hi Sz Ce Tk St La An Ao] F Ke Ac. unfold finish_operation. pose proof (now_later w) as T.
  pose proof (now_range w) as U. destruct (now_ns w) as [w1 ended]. cbn in T, U.
  rewrite F in On. cbn in On. specialize (Tk F). cbn [replied set_exposure set_rows set_answered token total latency_ns].
  assert (Len : Z.of_nat (List.length (answered a ++ [x])) = completed a + 1)
    by (rewrite List.length_app; cbn; lia).
  destruct (_ || _) eqn:G; cbn.
  - assert (u64 (completed a + 1) = completed a + 1) as E by (apply u64_small; lia).
    split; [|repeat split; cbn; auto]. split; cbn; rewrite ?E; auto; try lia; discriminate.
  - rewrite !orb_false_iff in G. destruct G as [[G0 G] G2]. apply negb_false_iff in G0.
    apply Z.leb_gt in G.
    assert (u64 (completed a + 1) = completed a + 1) as E by (apply u64_small; lia).
    split; [|repeat split; cbn; auto]. split; cbn; rewrite ?E, ?list_set_length; auto; try lia; try discriminate.
    + intros NF i I. rewrite Tk. destruct (Z.eq_dec i (completed a)) as [->|N].
      * rewrite list_set_same by lia. eexists. split; [reflexivity|lia].
      * rewrite list_set_other by lia. apply La; [exact NF|lia].
    + intros NF. eapply (answers_snoc a _ x rows ex (Ao NF) An Ke (Ac G0)); cbn; auto.
Qed.

Lemma replied_same a x : set_answered a x = replied a x (db_rows a) (exposure a).
Proof. destruct a. reflexivity. Qed.

(** The check of a reply of the redis server. *)
Lemma redis_reply_step a w st tx ig :
  progress_ok a -> inflight a = true -> kind a = CASE_REDIS ->
  let '(a', w') := redis_reply a w st tx ig in
  progress_ok a' /\ frame a a' /\ inflight a' = false /\ later w w' /\
  (loop_ok a -> loop_ok a') /\ (redis a', pg a', submitted a', token a') = (redis a, pg a, submitted a, token a).
Proof.
  intros Pr F K. unfold redis_reply. rewrite replied_same. apply finish_step; auto.
  - now intros operation _ _.
  - intros Ok. split; [|discriminate]. cbn. rewrite (prog_token _ Pr F) in Ok.
    assert (T : forall t s, text_is t s = true -> t = Some s).
    { intros [t|] s X; [|discriminate]. cbn in X. apply String.eqb_eq in X. now subst. }
    assert (S : is_ok st = true -> st = ALPHA_OK) by (destruct st; congruence || discriminate).
    split; [exact K|]. destruct (_ =? 0) eqn:O0; [|destruct (_ =? 1) eqn:O1]; apply andb_prop in Ok as [S1 V]; zprop;
      (split; [auto|]); repeat split; intros; auto; lia.
Qed.

(** The replies among the notices complete the operation in flight. *)
Lemma notices_step ns a w a' w' :
  progress_ok a -> loop_ok a -> kind a = CASE_REDIS -> Z.of_nat (reply_notices ns) <= one_z (inflight a) ->
  on_notices a w ns = Some (a', w') ->
  progress_ok a' /\ loop_ok a' /\ frame a a' /\ later w w' /\
  (redis a', pg a', submitted a', token a') = (redis a, pg a, submitted a, token a) /\
  one_z (inflight a') = one_z (inflight a) - Z.of_nat (reply_notices ns).
Proof.
  revert a w; induction ns as [|n ns IH]; intros a w Pr L Ki N E.
  { inv E. cbn. split; [exact Pr|]. split; [exact L|]. split; [apply frame_refl|].
    split; [apply later_refl|]. split; [reflexivity|lia]. }
  assert (Q : forall a1 w1, quiet a a1 -> loop_ok a1 -> later w w1 ->
            Z.of_nat (reply_notices ns) <= one_z (inflight a) -> on_notices a1 w1 ns = Some (a', w') ->
            progress_ok a' /\ loop_ok a' /\ frame a a' /\ later w w' /\
            (redis a', pg a', submitted a', token a') = (redis a, pg a, submitted a, token a) /\
            one_z (inflight a') = one_z (inflight a) - Z.of_nat (reply_notices ns)).
  { intros a1 w1 Q L1 T1 N1 E1. pose proof (quiet_progress _ _ Q Pr) as P1. destruct Q as [F1 W1 _]. inv W1.
    destruct (IH a1 w1 P1 L1) as (A & B & D & G & H & I); [now rewrite (frame_kind _ _ F1)|congruence|exact E1|].
    rewrite H6, H5, H0, H2, H3 in *. split; [exact A|]. split; [exact B|].
    split; [exact (frame_trans _ _ _ F1 D)|]. split; [exact (later_trans _ _ _ T1 G)|auto]. }
  cbn [on_notices] in E. destruct n as [fd fl|ms|st|st tx ig ud]; cbn [on_notice reply_notices] in *.
  - destruct (redis_watch_step a w fd fl L) as (a1 & w1 & F & Q1 & L1 & T1). rewrite F in E. eauto.
  - destruct (redis_timer a ms) as [a1|] eqn:F; [|discriminate].
    destruct (redis_timer_step _ _ _ L F). eauto with driver.
  - apply (Q (redis_connect a st) w); [|apply loop_note; exact L|apply later_refl|exact N|exact E].
    unfold redis_connect. eapply quiet_trans; [|apply note_quiet]. split; [split|..]; auto.
  - destruct (inflight a) eqn:F; cbn [one_z] in N |- *; [|lia].
    pose proof (redis_reply_step a w st tx ig Pr F Ki) as S. destruct (redis_reply a w st tx ig) as [a1 w1].
    destruct S as (P1 & F1 & I1 & T1 & L1 & W1). inv W1.
    destruct (IH a1 w1 P1 (L1 L)) as (A & B & D & G & H & I);
      [now rewrite (frame_kind _ _ F1)|rewrite I1; cbn; lia|exact E|].
    rewrite I1 in I. cbn in I. rewrite H0, H1, H2, H3 in H.
    split; [exact A|]. split; [exact B|]. split; [eapply frame_trans; eauto|].
    split; [eapply later_trans; eauto|]. split; [congruence|lia].
Qed.

Lemma finish_loop a w ok : loop_ok a -> loop_ok (fst (finish_operation a w ok)).
Proof. intros L. unfold finish_operation. destruct (now_ns w) as [w1 ended]. now destruct (_ || _). Qed.

Lemma notices_defined ns a w :
  loop_ok a -> short_notices ns -> exists a' w', on_notices a w ns = Some (a', w') /\ loop_ok a'.
Proof.
  intros L S. revert a w L; induction S as [|n ns N _ IH]; intros a w L; [exists a, w; auto|].
  cbn [on_notices]. destruct n as [fd fl|ms|st|st tx ig ud]; cbn [on_notice].
  - destruct (redis_watch_step a w fd fl L) as (a1 & w1 & -> & _ & L1 & _). auto.
  - destruct (redis_timer_defined a ms L N) as (a1 & E). rewrite E.
    destruct (redis_timer_step _ _ _ L E). auto.
  - apply IH. apply loop_note. exact L.
  - unfold redis_reply. set (ok := if _ =? 0 then _ else _).
    pose proof (finish_loop (set_answered a (REDIS_ANSWER st tx ig)) w ok L) as L1.
    destruct (finish_operation _ w ok) as [a1 w1]. auto.
Qed.

(** The result of the request in flight is of the kind its callback reads. *)
Lemma pg_reply_step a w result :
  progress_ok a -> inflight a = true -> kind a = CASE_DB ->
  exists a' w', pg_reply a w (decode_result (request_kind (completed a mod OP_COUNT)) result) = Some (a', w') /\
    progress_ok a' /\ frame a a' /\ inflight a' = false /\ later w w' /\
    (loop_ok a -> loop_ok a') /\ (redis a', pg a', submitted a', token a') = (redis a, pg a, submitted a, token a).
Proof.
  intros Pr F K. set (res := decode_result _ _).
  assert (Fin : forall rows ex ok, keeps_others a rows ex -> (ok = true -> accepts a (PG_ANSWER res) rows ex) ->
    exists a' w', Some (finish_operation (replied a (PG_ANSWER res) rows ex) w ok) = Some (a', w') /\
    progress_ok a' /\ frame a a' /\ inflight a' = false /\ later w w' /\
    (loop_ok a -> loop_ok a') /\ (redis a', pg a', submitted a', token a') = (redis a, pg a, submitted a, token a)).
  { intros rows ex ok Ke Ac. pose proof (finish_step a w _ rows ex ok Pr F Ke Ac) as S.
    destruct (finish_operation _ w ok) as [a1 w1]. exists a1, w1. split; [reflexivity|exact S]. }
  assert (Mod : 0 <= completed a mod OP_COUNT < OP_COUNT) by (apply Z.mod_pos_bound; reflexivity).
  unfold pg_reply. rewrite (prog_token _ Pr F), replied_same.
  destruct (result_ok res) eqn:Ok; [|apply Fin; [now intros operation _ _|discriminate]].
  assert (St : result_status res = ALPHA_OK)
    by (unfold result_ok in Ok; destruct (result_status res); congruence || discriminate).
  destruct (completed a mod OP_COUNT <? 2) eqn:Op.
  - assert (V : exists p, value res = VALUE_POSITION p).
    { subst res. revert Ok. unfold decode_result, request_kind. rewrite Op. destruct (status_eqb _ _); [|discriminate].
      cbn. destruct (parse_position result); [eexists; reflexivity|discriminate]. }
    destruct V as (p & V). rewrite V. apply (Fin (row_set (db_rows a) (completed a mod OP_COUNT) p) (exposure a) true).
    + intros operation B N. unfold kept, row_set, row_at. destruct (operation <? 2) eqn:Q; [|reflexivity].
      destruct (completed a mod OP_COUNT =? 0) eqn:O0, (operation =? 0) eqn:O1; zprop; try reflexivity; lia.
    + intros _. split.
      * cbn. rewrite K, St. repeat split; [eauto|lia].
      * intros r R. inv R. rewrite V. unfold kept, row_set, row_at. rewrite Op.
        now destruct (completed a mod OP_COUNT =? 0).
  - assert (V : exists x, value res = VALUE_EXPOSURE x).
    { subst res. revert Ok. unfold decode_result, request_kind. rewrite Op. destruct (status_eqb _ _); [|discriminate].
      cbn. destruct (parse_exposure result); [eexists; reflexivity|discriminate]. }
    destruct V as (x & V). rewrite V. apply (Fin (db_rows a) x).
    + intros operation B N. unfold kept. destruct (operation <? 2) eqn:Q; [reflexivity|]. unfold OP_COUNT in *. lia.
    + intros G. apply andb_prop in G as [G1 G2]. zprop. split.
      * cbn. rewrite K, St. repeat split; [lia|eauto].
      * intros r R. inv R. rewrite V. unfold kept. now replace (completed a mod OP_COUNT <? 2) with false by lia.
Qed.

Lemma completion_step a w r0 result :
  progress_ok a -> inflight a = true -> kind a = CASE_DB ->
  r0 = {| Postgres.kind := request_kind (completed a mod OP_COUNT); callback := Some PG_REPLY_FN;
          user_data := TOKEN_PTR |} ->
  exists a' w', on_completions a w (call_of r0 result) = Some (a', w') /\
    progress_ok a' /\ frame a a' /\ inflight a' = false /\ later w w' /\
    (loop_ok a -> loop_ok a') /\ (redis a', pg a', submitted a', token a') = (redis a, pg a, submitted a, token a).
Proof.
  intros Pr F K ->. cbn [call_of callback on_completions Postgres.user_data]. unfold on_completion. cbn [called call_user_data call_result Postgres.kind].
  change ((PG_REPLY_FN =? PG_REPLY_FN) && (TOKEN_PTR =? TOKEN_PTR)) with true. cbv iota.
  destruct (pg_reply_step a w result Pr F K) as (a' & w' & -> & S). exists a', w'. split; [reflexivity|exact S].
Qed.

(** ** Readiness *)

(** What every operation guarantees: with postgres or a calm redis server it is
    defined, and if it is defined the invariant is kept. *)
Definition safe (a : adapter P C) (w : W) (res : option (adapter P C * W)) : Prop :=
  match res with
  | Some (a', w') => driver_ok a' /\ frame a a' /\ later w w'
  | None => kind a = CASE_REDIS /\ ~ calm
  end.

Lemma safe_ret a w w' : driver_ok a -> later w w' -> safe a w (Some (a, w')).
Proof. intros O L. split; [exact O|]. split; [apply frame_refl|exact L]. Qed.

Lemma safe_from a w a1 w1 res : frame a a1 -> later w w1 -> safe a1 w1 res -> safe a w res.
Proof.
  intros F L. destruct res as [[a' w']|]; cbn.
  - intros (O & F' & L'). eauto using frame_trans, later_trans.
  - now rewrite (frame_kind _ _ F).
Qed.

Lemma safe_bind a w x k :
  safe a w x -> (forall a' w', driver_ok a' -> frame a a' -> safe a' w' (k a' w')) ->
  safe a w (let? (a', w') := x in k a' w').
Proof.
  destruct x as [[a' w']|]; [|auto]. intros (O & F & L) K. exact (safe_from _ _ _ _ _ F L (K a' w' O F)).
Qed.

Lemma quiet_driver a a' : quiet a a' -> loop_ok a' -> driver_ok a -> driver_ok a'.
Proof. intros Q L (Pr & _ & Cl). split; [exact (quiet_progress _ _ Q Pr)|]. split; [exact L|exact (quiet_client _ _ Q Cl)]. Qed.

Lemma note_driver a e : driver_ok a -> driver_ok (note a e).
Proof. intros O. apply (quiet_driver a); [apply note_quiet|apply loop_note, O|exact O]. Qed.

(** A connection that is not ready is served too. *)
Lemma pg_service_step fuel db q r w :
  pg_inv db q -> coherent db -> (Postgres.count db + bounds (items (conn db)) + 1 < fuel)%nat ->
  exists db' e out, alpha_pg_service fuel (Some db) r w = Some (Some db', e, out) /\
    coherent db' /\ (bounds (items (conn db')) <= bounds (items (conn db)))%nat.
Proof.
  intros I [Rq Sy] F. destruct (state db) eqn:S.
  - unfold alpha_pg_service. rewrite S. cbn [is_failed is_connecting].
    unfold service_connect. destruct (negb _); [do 3 eexists; split; [reflexivity|]; split; [split; auto|lia]|].
    pose proof (law_poll (conn db)) as L1. destruct (PQconnectPoll (conn db)) as [c p]. cbn in L1.
    pose proof (law_enter c) as L2. cbn [conn set_conn set_poll].
    destruct p; [| | |destruct (PQenterPipelineMode c) as [c' z]; cbn in L2; destruct (negb (z =? 1))];
      do 3 eexists; (split; [reflexivity|]); unfold coherent; cbn; rewrite ?L2, L1; auto.
  - destruct (service_total fuel db q r w I (conj Rq Sy) S F) as (db' & e & out & E & C' & B & _). eauto 6.
  - unfold alpha_pg_service. rewrite S. cbn. do 3 eexists. split; [reflexivity|]. split; [split; auto|lia].
Qed.

Lemma db_driver a db :
  progress_ok a -> loop_ok a -> kind a = CASE_DB -> pg_inv db (queue_of a) -> coherent db ->
  Z.of_nat (bounds (items (conn db))) <= submitted a -> total a + 2 < Z.of_nat drain_fuel ->
  pg a = Some db -> driver_ok a.
Proof. intros. split; [assumption|]. split; [assumption|]. unfold client_ok. rewrite H1, H6. auto. Qed.

(** What is left of [ready] once the client has been served. *)
Lemma ready_tail a w status :
  driver_ok a ->
  safe a w (let? (a, w, status) :=
              if is_ok status then watch_set_write a w (alpha_pg_wants_write (pg a)) else Some (a, w, status) in
            Some (note a status, w)).
Proof.
  intros O. destruct (is_ok status).
  - destruct (set_write_step a w (alpha_pg_wants_write (pg a)) (proj1 (proj2 O))) as (a' & w' & e & -> & Q & L & T).
    split; [exact (note_driver _ e (quiet_driver _ _ Q L O))|].
    split; [|exact T]. eapply frame_trans; [apply Q|apply note_quiet].
  - split; [exact (note_driver _ _ O)|]. split; [apply note_quiet|apply later_refl].
Qed.

Lemma ready_db a w r wr t : driver_ok a -> kind a = CASE_DB -> safe a w (ready drain_fuel a w r wr t).
Proof.
  intros O K. unfold ready. rewrite K. pose proof O as (Pr & L & Cl). unfold client_ok in Cl. rewrite K in Cl.
  destruct (pg a) as [db|] eqn:G.
  2:{ cbn [alpha_pg_service on_completions]. apply (safe_from a w (set_pg a None) w).
      - split; auto.
      - apply later_refl.
      - apply ready_tail. split; [split; apply Pr|]. split; [exact L|]. unfold client_ok. cbn. now rewrite K. }
  destruct Cl as (I & Co & B & Fu).
  assert (CL : Postgres.count db = List.length (queue_of a)) by apply (inv_holds _ _ I).
  assert (QL : (List.length (queue_of a) <= 1)%nat) by (unfold queue_of; destruct (inflight a); cbn; lia).
  destruct (pg_service_step drain_fuel db (queue_of a) r wr I Co) as (db' & e & out & E & Co' & B').
  { rewrite CL. pose proof (prog_high _ Pr). lia. }
  rewrite E. destruct (service_step _ _ _ _ _ _ _ _ I E) as ((an & rs & rest & Q & Ln & -> & I') & _).
  set (b := set_pg a (Some db')). assert (Fb : frame a b) by (split; auto).
  assert (Pb : progress_ok b) by (split; apply Pr).
  destruct an as [|x an].
  { destruct rs; [|discriminate]. cbn [calls_of on_completions]. cbn in Q. subst rest.
    apply (safe_from a w b w _ Fb (later_refl w)). apply ready_tail.
    apply (db_driver b db'); auto. cbn. lia. }
  assert (Fl : inflight a = true) by (unfold queue_of in Q; destruct (inflight a); [reflexivity|discriminate]).
  rewrite Q in QL. cbn in QL. destruct an; [|cbn in QL; lia]. destruct rest; [|cbn in QL; lia].
  destruct rs as [|res rs]; [discriminate|]. destruct rs; [|discriminate].
  unfold queue_of in Q. rewrite Fl in Q. cbn in Q. inv Q.
  cbn [calls_of]. rewrite app_nil_r.
  destruct (completion_step b w _ res Pb Fl K eq_refl) as (a1 & w1 & E1 & P1 & F1 & I1 & T1 & L1 & V1).
  change (completed b) with (completed a) in E1. rewrite E1.
  apply (safe_from a w a1 w1 _ (frame_trans _ _ _ Fb F1) T1). apply ready_tail. inv V1.
  pose proof (frame_kind _ _ F1) as K1. pose proof (frame_total _ _ F1) as N1. cbn in K1, N1.
  apply (db_driver a1 db'); auto.
  - congruence.
  - unfold queue_of. now rewrite I1.
  - cbn in *. lia.
  - lia.
Qed.

Lemma service_handle (r : alpha_redis_async C) f x e out :
  alpha_redis_async_service (Some r) f = Some (x, e, out) -> exists r', x = Some r'.
Proof.
  cbn. destruct (context r); [|intros E; inv E; eauto].
  destruct (if bit_set f ALPHA_REDIS_WATCH_READ then _ else _) as [[r1 o1]|]; [|discriminate].
  destruct (if bit_set f ALPHA_REDIS_WATCH_WRITE then _ else _) as [[r2 o2]|]; [|discriminate].
  destruct (context_status r2); [|discriminate]. intros E; inv E. eauto.
Qed.

Lemma timeout_handle (r : alpha_redis_async C) x e out :
  alpha_redis_async_timeout (Some r) = Some (x, e, out) -> exists r', x = Some r'.
Proof.
  cbn. destruct (context r); [|intros E; inv E; eauto]. destruct (call_handler _ r) as [[r1 o1]|]; [|discriminate].
  destruct (context_status r1); [|discriminate]. intros E; inv E. eauto.
Qed.

Lemma command_handle (r : alpha_redis_async C) argv ud x e out :
  alpha_redis_async_command (Some r) argv ud = Some (x, e, out) -> exists r', x = Some r'.
Proof.
  unfold alpha_redis_async_command. destruct argv as [[|y argv]|]; try (intros E; inv E; eauto; fail).
  destruct (context r) as [ref|]; [|intros E; inv E; eauto]. destruct (_ <=? _)%nat; [intros E; inv E; eauto|].
  destruct ref as [c|]; [|discriminate]. destruct (redisAsyncCommandArgv _ _ _) as [[c1 evs] ok].
  destruct (after_call _ _ _) as [r1 o1]. destruct ok; intros E; inv E; eauto.
Qed.

(** The notices of a redis call that settles [r] to [r']. *)
Lemma settle_step a w r r' out a' w' :
  progress_ok a -> loop_ok a -> kind a = CASE_REDIS ->
  Z.of_nat (pending r) = one_z (inflight a) -> adapter_ok r' -> (calm -> held r') -> settles r r' out ->
  on_notices (set_redis a (Some r')) w out = Some (a', w') ->
  driver_ok a' /\ frame a a' /\ later w w'.
Proof.
  intros Pr L K N A H S E. unfold settles in S.
  destruct (notices_step out (set_redis a (Some r')) w a' w') as (P1 & L1 & F1 & T1 & V1 & I1); auto.
  - split; apply Pr.
  - cbn. lia.
  - assert (F0 : frame a (set_redis a (Some r'))) by (split; auto). cbn in V1, I1. inv V1.
    split; [|split; [eapply frame_trans; eauto|exact T1]]. split; [exact P1|]. split; [exact L1|].
    unfold client_ok. rewrite (frame_kind _ _ F1), H1. cbn. rewrite K. split; [exact A|]. split; [lia|exact H].
Qed.

Lemma ready_redis a w r wr t : driver_ok a -> kind a = CASE_REDIS -> safe a w (ready drain_fuel a w r wr t).
Proof.
  intros O K. unfold ready. rewrite K. pose proof O as (Pr & L & Cl). unfold client_ok in Cl. rewrite K in Cl.
  set (flags := if wr then _ else _). destruct (redis a) as [rd|] eqn:R.
  2:{ assert (Z : safe a w (Some (note (set_redis a None) ALPHA_ERR_INVALID_ARG, w))).
      { split; [|split; [split; auto|apply later_refl]]. apply note_driver.
        split; [split; apply Pr|]. split; [exact L|]. unfold client_ok. cbn. now rewrite K. }
      destruct t; exact Z. }
  destruct Cl as (A & N & H). set (call := if t then _ else _).
  assert (Def : calm -> exists r' e out, call = Some (Some r', e, out) /\ held r' /\ short_notices out).
  { intros Cm. specialize (H Cm). subst call. destruct t.
    - destruct (timeout_held rd H) as (r' & e & out & E & H' & T). exists r', e, out. split; [exact E|].
      split; [exact H'|]. apply T. intros c. apply (steady_handler _ _ Cm); cbn; auto.
    - destruct (service_held rd flags H) as (r' & e & out & E & H' & T). exists r', e, out. split; [exact E|].
      split; [exact H'|]. apply T. exact (steady_handler _ _ Cm). }
  destruct call as [[[x e] out]|] eqn:E; subst call.
  2:{ split; [exact K|]. intros Cm. destruct (Def Cm) as (? & ? & ? & X & _). discriminate. }
  assert (S : exists r', x = Some r' /\ adapter_ok r' /\ settles rd r' out).
  { destruct t.
    - destruct (timeout_handle _ _ _ _ E) as (r' & ->). exists r'. split; [reflexivity|].
      split; [apply (timeout_ok _ _ _ _ A E)|exact (timeout_settles _ _ _ _ A E)].
    - destruct (service_handle _ _ _ _ _ E) as (r' & ->). exists r'. split; [reflexivity|].
      split; [apply (service_ok _ _ _ _ _ A E)|exact (service_settles _ _ _ _ _ A E)]. }
  destruct S as (r' & -> & A' & S).
  assert (H' : calm -> held r' /\ short_notices out).
  { intros Cm. destruct (Def Cm) as (? & ? & ? & X & Y). inv X. exact Y. }
  destruct (on_notices (set_redis a (Some r')) w out) as [[a1 w1]|] eqn:D.
  2:{ split; [exact K|]. intros Cm. destruct (notices_defined out (set_redis a (Some r')) w L (proj2 (H' Cm)))
        as (? & ? & X & _). congruence. }
  destruct (settle_step _ _ _ _ _ _ _ Pr L K N A' (fun Cm => proj1 (H' Cm)) S D) as (O1 & F1 & T1).
  split; [exact (note_driver _ _ O1)|]. split; [|exact T1]. eapply frame_trans; [exact F1|apply note_quiet].
Qed.

Lemma ready_step a w r wr t : driver_ok a -> safe a w (ready drain_fuel a w r wr t).
Proof. intros O. destruct (kind a) eqn:K; [apply ready_redis|apply ready_db]; auto. Qed.

(** ** The event loop *)

Lemma ready_call_step a w s r wr t :
  driver_ok a -> ready_fn s = READY_FN -> callback_ctx s = ADAPTER_PTR ->
  safe a w (on_ready_call drain_fuel a w (call_ready s r wr t)).
Proof. intros O R X. unfold on_ready_call, call_ready. cbn. rewrite R, X. exact (ready_step a w r wr t O). Qed.

Lemma slot_of_spec ws i x j : slot_of ws i x = Some j ->
  exists k s, j = (i + k)%nat /\ nth_error ws k = Some s /\ wsi s = Some x.
Proof.
  revert i; induction ws as [|s ws IH]; intros i E; cbn in E; [discriminate|].
  assert (N : slot_of ws (S i) x = Some j -> exists k s0, j = (i + k)%nat /\ nth_error (s :: ws) k = Some s0 /\ wsi s0 = Some x).
  { intros F. destruct (IH _ F) as (k & s0 & -> & H1 & H2). exists (S k), s0. split; [lia|auto]. }
  destruct (wsi s) as [y|] eqn:Y; [|auto]. destruct (x =? y) eqn:Q; [|auto]. inv E. zprop. subst.
  exists O, s. split; [lia|auto].
Qed.

Lemma wakeup_step n i a w :
  driver_ok a -> (exists m, slots a = Some m /\ (i + n <= m)%nat) -> safe a w (wakeup_slots drain_fuel n i a w).
Proof.
  revert i a w; induction n as [|n IH]; intros i a w O (m & M & B); [exact (safe_ret a w w O (later_refl w))|].
  cbn [wakeup_slots]. unfold slots in M. destruct (runtime a) as [rt|] eqn:R; [|discriminate]. cbn in M. inv M.
  destruct (nth_error (watches rt) i) as [s|] eqn:N; [|apply nth_error_None in N; lia].
  apply safe_bind.
  - destruct (active s && wants_write s) eqn:G; [|exact (safe_ret a w w O (later_refl w))].
    apply andb_prop in G as [A _]. pose proof O as (_ & L & _). unfold loop_ok in L. rewrite R in L.
    destruct L as (_ & Mi & _). destruct (Mi i s N A). now apply ready_call_step.
  - intros a' w' O' F. apply IH; [exact O'|]. exists (List.length (watches rt)). split; [|lia].
    rewrite (frame_slots _ _ F). unfold slots. now rewrite R.
Qed.

Lemma loop_event_step a w ev :
  driver_ok a -> runtime a <> None -> safe a w (on_loop_event drain_fuel a w ev).
Proof.
  intros O N. unfold on_loop_event. destruct (runtime a) as [rt|] eqn:R; [|congruence].
  pose proof O as (Pr & L & Cl). unfold loop_ok in L. rewrite R in L. destruct L as (Re & Mi & In).
  assert (O2 : driver_ok (set_runtime a (Some rt))).
  { split; [split; apply Pr|]. split; [|exact Cl]. unfold loop_ok. cbn. auto. }
  assert (F2 : frame a (set_runtime a (Some rt))) by (split; auto; unfold slots; cbn; now rewrite R).
  destruct ev as [x reason|].
  2:{ apply wakeup_step; [exact O|]. exists (List.length (watches rt)). unfold slots. rewrite R.
      split; [reflexivity|]. rewrite (reg_len _ Re). lia. }
  destruct (slot_of (watches rt) 0 x) as [j|] eqn:S.
  2:{ exact (safe_from a w _ w _ F2 (later_refl w) (safe_ret _ w w O2 (later_refl w))). }
  destruct (slot_of_spec _ _ _ _ S) as (k & s & -> & Nk & Ws). cbn [Nat.add] in *.
  assert (A : active s = true) by (destruct (active s) eqn:A; [auto|rewrite (reg_wsi _ Re k s Nk A) in Ws; discriminate]).
  destruct (Mi k s Nk A) as [M1 M2].
  assert (Call : forall b, forall r wr t, driver_ok b -> safe b w (on_ready_calls drain_fuel b w [call_ready s r wr t])).
  { intros b r wr t Ob. cbn. apply safe_bind; [now apply ready_call_step|].
    intros a' w' O' _. exact (safe_ret a' w' w' O' (later_refl w')). }
  unfold foreign_fd_callback. rewrite Nk.
  assert (Close : safe a w (Some (set_runtime a (Some (put rt k (set_wsi s None))), w))).
  { split; [|split; [split; auto; unfold slots; cbn; rewrite R; cbn; now rewrite list_set_length|apply later_refl]].
    split; [split; apply Pr|]. split; [|exact Cl]. unfold loop_ok. cbn. rewrite list_set_length.
    split; [apply (registry_put_same rt k s); auto|]. split; [|exact In].
    apply (slots_mine_put rt k _ (LwsRuntime.count rt)); [exact Mi|]. auto. }
  destruct reason; cbn [on_ready_calls]; try exact Close;
    try (apply (safe_from a w _ w _ F2 (later_refl w)); first [apply Call, O2|exact (safe_ret _ w w O2 (later_refl w))]).
  all: apply (safe_from a w _ w _ F2 (later_refl w)); destruct (wants_write s);
    first [apply Call, O2|exact (safe_ret _ w w O2 (later_refl w))].
Qed.

Lemma loop_events_step evs a w :
  driver_ok a -> runtime a <> None -> safe a w (on_loop_events drain_fuel a w evs).
Proof.
  revert a w; induction evs as [|ev evs IH]; intros a w O N; [exact (safe_ret a w w O (later_refl w))|].
  cbn [on_loop_events]. apply safe_bind; [now apply loop_event_step|]. intros a' w' O' F. apply IH; [exact O'|].
  pose proof (frame_slots _ _ F) as S. unfold slots in S. destruct (runtime a), (runtime a'); congruence || discriminate.
Qed.

Lemma safe_status {T} a w (x : option (adapter P C * W * T)) (k : adapter P C -> W -> T -> option (adapter P C * W)) :
  safe a w (option_map fst x) ->
  (forall a' w' e, x = Some (a', w', e) -> driver_ok a' -> frame a a' -> safe a' w' (k a' w' e)) ->
  safe a w (let? (a', w', e) := x in k a' w' e).
Proof.
  destruct x as [[[a' w'] e]|]; [|auto]. cbn. intros (O & F & L) K.
  exact (safe_from _ _ _ _ _ F L (K a' w' e eq_refl O F)).
Qed.

Lemma service_loop_step a w : driver_ok a -> safe a w (option_map fst (runtime_service drain_fuel a w)).
Proof.
  intros O. unfold runtime_service. destruct (runtime a) as [rt|] eqn:R; [|exact (safe_ret a w w O (later_refl w))].
  pose proof (later_service w) as T. destruct (lws_service w) as [[w1 evs] served]. cbn in T.
  pose proof (loop_events_step evs a w1 O ltac:(congruence)) as S.
  destruct (on_loop_events drain_fuel a w1 evs) as [[a' w']|]; [|exact S].
  exact (safe_from _ _ _ _ _ (frame_refl a) T S).
Qed.

Lemma turn_step a w d : driver_ok a -> safe a w (option_map fst (turn_overruns drain_fuel a w d)).
Proof.
  intros O. unfold turn_overruns. pose proof (service_loop_step a w O) as S.
  destruct (runtime_service drain_fuel a w) as [[[a1 w1] e]|]; [|exact S]. cbn in S.
  destruct (is_ok e); [|exact S]. pose proof (now_later w1) as T. destruct (now_ns w1) as [w2 now]. cbn in *.
  destruct S as (O1 & F1 & L1). split; [exact O1|]. split; [exact F1|exact (later_trans _ _ _ L1 T)].
Qed.

(** ** Submitting *)

Lemma submit_db_call (a : adapter P C) db q db' status :
  pg_inv db q -> coherent db -> pg a = Some db ->
  (if submitted a mod OP_COUNT <? 2
   then alpha_pg_upsert_position (pg a) (Some (row_at (db_rows a) (submitted a mod OP_COUNT))) (Some PG_REPLY_FN) TOKEN_PTR
   else alpha_pg_query_exposure (pg a) (Some (ticker a)) (Some PG_REPLY_FN) TOKEN_PTR) = (db', status) ->
  exists d, db' = Some d /\
    pg_inv d (q ++ accepted status (request_kind (submitted a mod OP_COUNT)) (Some PG_REPLY_FN) TOKEN_PTR) /\
    coherent d /\
    (bounds (items (conn d)) <= bounds (items (conn db)) + match status with ALPHA_OK => 1 | _ => 0 end)%nat.
Proof.
  intros I Co G E. rewrite G in E. unfold request_kind.
  assert (S : forall k sql ps e0 x, send_request (Some db) k sql ps (Some PG_REPLY_FN) TOKEN_PTR = (x, e0) ->
     exists d, x = Some d /\ pg_inv d (q ++ accepted e0 k (Some PG_REPLY_FN) TOKEN_PTR) /\ coherent d /\
       (bounds (items (conn d)) <= bounds (items (conn db)) + match e0 with ALPHA_OK => 1 | _ => 0 end)%nat).
  { intros k sql ps e0 x F. assert (X : exists d, x = Some d).
    { unfold send_request in F. repeat (destruct (_ : bool) in F; [inv F; eauto|]).
      destruct (PQsendQueryParams _ _ _) as [c z]. destruct (negb _); [inv F; eauto|].
      destruct (PQflush _) as [c' y]. inv F. eauto. }
    destruct X as (d & ->). exists d. split; [reflexivity|]. split; [apply (send_step _ _ _ _ _ _ _ _ _ I F)|].
    split; [exact (send_coherent _ _ _ _ _ _ _ _ _ I Co F)|exact (send_bounds _ _ _ _ _ _ _ _ F)]. }
  destruct (submitted a mod OP_COUNT <? 2).
  - unfold alpha_pg_upsert_position in E. destruct (_ || _); [|exact (S _ _ _ _ _ E)].
    inv E. exists db. cbn. rewrite app_nil_r. do 3 (split; [auto|]). lia.
  - unfold alpha_pg_query_exposure in E. destruct (_ || _); [|exact (S _ _ _ _ _ E)].
    inv E. exists db. cbn. rewrite app_nil_r. do 3 (split; [auto|]). lia.
Qed.

Lemma set_token_progress a t :
  progress_ok a -> inflight a = false -> 0 <= started_ns t -> progress_ok (set_token a t).
Proof. intros [Lo On Hi Sz Ce Tk St La An Ao] F N. split; cbn; auto. congruence. Qed.

(** Counting the accepted operation. *)
Lemma set_submitted_progress a :
  progress_ok a -> inflight a = false -> completed a < total a -> index (token a) = completed a ->
  progress_ok (set_submitted a (u64 (submitted a + 1)) true).
Proof.
  intros [Lo On Hi Sz Ce Tk St La An Ao] F R X. rewrite F in On. cbn in On.
  assert (E : u64 (submitted a + 1) = completed a + 1) by (rewrite u64_small; lia).
  split; cbn; rewrite ?E; auto; lia.
Qed.

(** The client's part of a submission from an idle adapter whose token is set: nothing
    is delivered, and the client holds the operation exactly if it accepted it. *)
Definition submitted_to (a a' : adapter P C) (w w' : W) (e : alpha_err_t) : Prop :=
  frame a a' /\ later w w' /\ progress_ok a' /\ loop_ok a' /\ inflight a' = false /\
  completed a' = completed a /\ token a' = token a /\
  if is_ok e then client_ok (set_submitted a' (u64 (submitted a' + 1)) true) else client_ok a'.

Lemma submit_redis_client a w :
  driver_ok a -> kind a = CASE_REDIS -> inflight a = false ->
  match submit_client a w (submitted a mod OP_COUNT) with
  | Some (a', w', e) => submitted_to a a' w w' e
  | None => ~ calm
  end.
Proof.
  intros (Pr & L & Cl) K F. unfold submit_client. rewrite K. unfold client_ok in Cl. rewrite K in Cl.
  destruct (redis a) as [r|] eqn:Rd.
  2:{ cbn. split; [split; auto|]. split; [apply later_refl|]. split; [split; apply Pr|]. cbn.
      do 4 (split; [auto|]). unfold client_ok. cbn. now rewrite K. }
  destruct Cl as (A & N & H). rewrite F in N. cbn in N. set (argv := Some (redis_argv a _)).
  assert (Def : calm -> exists r' e out, alpha_redis_async_command (Some r) argv TOKEN_PTR = Some (Some r', e, out) /\
            held r' /\ short_notices out).
  { intros Cm. destruct (command_held r argv TOKEN_PTR (H Cm)) as (r' & e & out & E & H' & T).
    exists r', e, out. split; [exact E|]. split; [exact H'|]. apply T, (steady_command _ _ Cm). }
  destruct (alpha_redis_async_command (Some r) argv TOKEN_PTR) as [[[x e] out]|] eqn:E.
  2:{ intros Cm. destruct (Def Cm) as (? & ? & ? & X & _). discriminate. }
  destruct (command_handle _ _ _ _ _ _ E) as (r' & ->). destruct (command_pending _ _ _ _ _ _ A E) as [Rn Pn].
  pose proof (proj1 (command_ok _ _ _ _ _ _ A E)) as A'.
  assert (H' : calm -> held r' /\ short_notices out).
  { intros Cm. destruct (Def Cm) as (? & ? & ? & X & Y). inv X. exact Y. }
  destruct (on_notices (set_redis a (Some r')) w out) as [[a2 w2]|] eqn:D.
  2:{ intros Cm. destruct (notices_defined out (set_redis a (Some r')) w L (proj2 (H' Cm))) as (? & ? & X & _). congruence. }
  destruct (notices_step out (set_redis a (Some r')) w a2 w2) as (P2 & L2 & F2 & T2 & V2 & I2); auto.
  { split; apply Pr. } { cbn. rewrite Rn, F. cbn. lia. }
  assert (F3 : frame a a2) by (eapply frame_trans; [|exact F2]; split; auto).
  cbn in V2, I2. rewrite F, Rn in I2. apply pair_equal_spec in V2 as [V2 Tk].
  apply pair_equal_spec in V2 as [V2 Sb]. apply pair_equal_spec in V2 as [V2 _].
  assert (I3 : inflight a2 = false) by (destruct (inflight a2); [discriminate|reflexivity]).
  assert (C2 : completed a2 = completed a).
  { pose proof (prog_one _ P2) as X. pose proof (prog_one _ Pr) as Y. rewrite I3 in X. rewrite F in Y. cbn in X, Y. lia. }
  pose proof (frame_kind _ _ F3) as K3. rewrite K in K3.
  do 7 (split; [auto|]). destruct e; cbn; unfold client_ok; cbn; rewrite K3, V2, ?I3; (split; [exact A'|split; [cbn; lia|apply H']]).
Qed.

Lemma submit_db_client a w :
  driver_ok a -> kind a = CASE_DB -> inflight a = false -> completed a < total a ->
  exists a' e, submit_client a w (submitted a mod OP_COUNT) = Some (a', w, e) /\ submitted_to a a' w w e.
Proof.
  intros (Pr & L & Cl) K F R. unfold submit_client. rewrite K. unfold client_ok in Cl. rewrite K in Cl.
  destruct (if submitted a mod OP_COUNT <? 2 then _ else _) as [db' e] eqn:E.
  exists (set_pg a db'), e. split; [reflexivity|]. split; [split; auto|]. split; [apply later_refl|].
  split; [split; apply Pr|]. cbn. do 4 (split; [auto|]).
  assert (Sub : submitted a = completed a) by (pose proof (prog_one _ Pr) as X; rewrite F in X; cbn in X; lia).
  pose proof (prog_size _ Pr). pose proof (prog_low _ Pr). pose proof (prog_high _ Pr).
  destruct (pg a) as [db|] eqn:G.
  - destruct Cl as (I & Co & B & Fu). unfold queue_of in I. rewrite F in I. rewrite <- G in E.
    destruct (submit_db_call a db [] db' e I Co G E) as (d & -> & I' & Co' & B').
    destruct e; cbn; unfold client_ok; cbn; rewrite K; unfold queue_of; cbn; rewrite ?F, <- ?Sub;
      (split; [exact I'|]); (split; [exact Co'|]); (split; [|lia]); rewrite ?u64_small; lia.
  - assert (X : db' = None /\ is_ok e = false).
    { destruct (submitted a mod OP_COUNT <? 2); [unfold alpha_pg_upsert_position in E|unfold alpha_pg_query_exposure in E];
        destruct (_ || _); inv E; auto. }
    destruct X as [-> ->]. unfold client_ok. cbn. now rewrite K.
Qed.

Lemma submit_step a w :
  driver_ok a -> inflight a = false -> completed a < total a -> safe a w (option_map fst (submit_one a w)).
Proof.
  intros (Pr & L & Cl) F R. unfold submit_one.
  pose proof (now_later w) as T. pose proof (now_range w) as U. destruct (now_ns w) as [w1 now]. cbn in T, U.
  set (b := set_token a _).
  assert (Sub : submitted a = completed a) by (pose proof (prog_one _ Pr) as X; rewrite F in X; cbn in X; lia).
  assert (Ob : driver_ok b) by (split; [apply set_token_progress; auto; cbn; lia|split; [exact L|exact Cl]]).
  assert (Fb : frame a b) by (split; auto).
  assert (S : match submit_client b w1 (submitted a mod OP_COUNT) with
              | Some (a', w', e) => submitted_to b a' w1 w' e
              | None => kind b = CASE_REDIS /\ ~ calm
              end).
  { destruct (kind b) eqn:K.
    - pose proof (submit_redis_client b w1 Ob K F) as S. change (submitted b) with (submitted a) in S.
      destruct (submit_client _ _ _) as [[[a' w'] e]|]; auto.
    - destruct (submit_db_client b w1 Ob K F R) as (a' & e & E & S). change (submitted b) with (submitted a) in E.
      now rewrite E. }
  destruct (submit_client b w1 (submitted a mod OP_COUNT)) as [[[a2 w2] e]|]; [|exact S].
  destruct S as (F2 & T2 & P2 & L2 & I2 & C2 & Tk & Cl2).
  assert (T3 : later w w2) by exact (later_trans _ _ _ T T2).
  pose proof (frame_trans _ _ _ Fb F2) as F3. pose proof (frame_total _ _ F3) as N3.
  destruct (is_ok e); [|exact (conj (conj P2 (conj L2 Cl2)) (conj F3 T3))].
  set (a3 := set_submitted a2 _ true). assert (O3 : driver_ok a3).
  { split; [|split; [exact L2|exact Cl2]]. apply set_submitted_progress; auto; cbn in *; [lia|].
    rewrite Tk, C2. cbn. lia. }
  assert (F4 : frame a a3) by (eapply frame_trans; [exact F3|split; auto]).
  destruct (kind a3); [exact (conj O3 (conj F4 T3))|].
  destruct (set_write_step a3 w2 (alpha_pg_wants_write (pg a3)) (proj1 (proj2 O3)))
    as (a4 & w4 & e4 & -> & Q4 & L4 & T4).
  split; [exact (quiet_driver _ _ Q4 L4 O3)|]. split; [|exact (later_trans _ _ _ T3 T4)].
  exact (frame_trans _ _ _ F4 (quiet_frame _ _ Q4)).
Qed.

(** ** Driving *)

Lemma submit_if_idle_step a w :
  driver_ok a -> completed a < total a -> safe a w (option_map fst (submit_if_idle a w)).
Proof.
  intros O R. unfold submit_if_idle. destruct (negb (inflight a)) eqn:F; [|exact (safe_ret a w w O (later_refl w))].
  apply negb_true_iff in F. destruct (_ || _); [now apply submit_step|exact (safe_ret a w w O (later_refl w))].
Qed.

Lemma fail_driver a : driver_ok a -> driver_ok (set_failed a true).
Proof. exact (note_driver a ALPHA_ERR_IO). Qed.

Lemma fail_frame a : frame a (set_failed a true).
Proof. split; auto. Qed.

(** The loop stops only on a failure or with the whole work done. *)
Lemma drive_loop_step fuel a w d a' w' :
  driver_ok a -> drive_loop drain_fuel fuel a w d = Some (a', w') ->
  driver_ok a' /\ frame a a' /\ later w w' /\ (failed a' = true \/ completed a' = total a').
Proof.
  revert a w; induction fuel as [|fuel IH]; intros a w O; cbn [drive_loop]; destruct (_ || _) eqn:G.
  1,3: intros E; inv E; split; [exact O|]; split; [apply frame_refl|]; split; [apply later_refl|];
    apply orb_prop in G as [G|G]; [auto|right]; apply negb_true_iff in G; zprop;
    destruct O as (Pr & _); pose proof (prog_one _ Pr); pose proof (prog_high _ Pr);
    unfold one_z in *; destruct (inflight _); lia.
  { discriminate. }
  apply orb_false_iff in G as [_ G]. apply negb_false_iff, Z.ltb_lt in G.
  pose proof (submit_if_idle_step a w O G) as S.
  destruct (submit_if_idle a w) as [[[a1 w1] e]|]; [|discriminate]. cbn in S. destruct S as (O1 & F1 & T1).
  destruct (negb (is_ok e)).
  { intros E; inv E. split; [exact (fail_driver _ O1)|].
    split; [exact (frame_trans _ _ _ F1 (fail_frame a1))|]. auto. }
  pose proof (turn_step a1 w1 d O1) as S.
  destruct (turn_overruns drain_fuel a1 w1 d) as [[[a2 w2] over]|]; [|discriminate].
  cbn in S. destruct S as (O2 & F2 & T2). intros E.
  apply IH in E; [|destruct over; [exact (fail_driver _ O2)|exact O2]].
  destruct E as (O3 & F3 & T3 & D). split; [exact O3|]. split; [|split; [eauto using later_trans|exact D]].
  apply (frame_trans _ _ _ F1), (frame_trans _ _ _ F2). destruct over; [|exact F3].
  exact (frame_trans _ _ _ (fail_frame a2) F3).
Qed.

Lemma wait_step fuel a w d b a' w' :
  driver_ok a -> wait_connection drain_fuel fuel a w d = Some (b, a', w') ->
  driver_ok a' /\ frame a a' /\ later w w' /\ (b = true -> failed a' = false /\ connection_up a' = true).
Proof.
  revert a w; induction fuel as [|fuel IH]; intros a w O; cbn [wait_connection]; destruct (failed a) eqn:G.
  1,3: intros E; inv E; split; [exact O|]; split; [apply frame_refl|]; split; [apply later_refl|discriminate].
  all: destruct (connection_up a) eqn:U;
    [intros E; inv E; split; [exact O|]; split; [apply frame_refl|]; split; [apply later_refl|auto]|].
  { discriminate. }
  pose proof (turn_step a w d O) as S.
  destruct (turn_overruns drain_fuel a w d) as [[[a1 w1] over]|]; [|discriminate].
  cbn in S. destruct S as (O1 & F1 & T1). destruct over.
  { intros E; inv E. split; [exact O1|]. split; [exact F1|]. split; [exact T1|discriminate]. }
  intros E. destruct (IH _ _ O1 E) as (O2 & F2 & T2 & D).
  split; [exact O2|]. split; [eapply frame_trans; eauto|]. split; [eapply later_trans; eauto|exact D].
Qed.

End Correct.

(** The order that relates everything. *)
Definition no_order {W : Type} {world : World W} : WorldOrder W :=
  {| later _ _ := True; later_refl _ := I; later_trans _ _ _ _ _ := I; later_clock _ := I;
     later_writable _ := I; later_adopt _ := I; later_service _ := I |}.

(** ** The clock advances *)

(** The time the setup and the trial may take. *)
Definition FIVE_SECONDS : Z := 5000000000.

(** [ticks d w] bounds the readings until one passes [d]: a reading that does not
    uses one up, and nothing gives them back.  No reading is above the largest
    64-bit number, so that number is no deadline, and none is five seconds below it. *)
Class ClockLaws (W : Type) {world : World W} := {
  ticks : Z -> W -> nat;
  tick_edge : forall w, u64 (snd (now_ns w) + FIVE_SECONDS) < 2 ^ 64 - 1;
  tick_read : forall d w, d < 2 ^ 64 - 1 -> snd (now_ns w) <= d -> (ticks d (fst (now_ns w)) < ticks d w)%nat;
  tick_clock : forall d w, (ticks d (fst (clock_gettime w)) <= ticks d w)%nat;
  tick_writable : forall d w, (ticks d (fst (lws_callback_on_writable w)) <= ticks d w)%nat;
  tick_adopt : forall d w, (ticks d (fst (lws_adopt w)) <= ticks d w)%nat;
  tick_service : forall d w, (ticks d (fst (fst (lws_service w))) <= ticks d w)%nat
}.

#[export] Instance tick_order {W : Type} {world : World W} {clock : ClockLaws W} : WorldOrder W.
Proof.
  refine {| later w w' := forall d, (ticks d w' <= ticks d w)%nat |}.
  - auto.
  - intros w1 w2 w3 A B d. specialize (A d). specialize (B d). lia.
  - intros w d. apply tick_clock.
  - intros w d. apply tick_writable.
  - intros w d. apply tick_adopt.
  - intros w d. apply tick_service.
Defined.

Section Termination.
Context {P C W : Type} {pq : LibPQ P} {hiredis : HiredisAsync C} {world : World W}.
Context {pipeline : PipelineLaws P} {connecting : ConnectLaws P} {hlaws : HiredisLaws C}.
Context {clock : ClockLaws W}.
Variable drain_fuel : nat.

(** A turn that does not overrun has used a reading up. *)
Lemma turn_ticks (a : adapter P C) w d a' w' :
  driver_ok drain_fuel a -> d < 2 ^ 64 - 1 -> turn_overruns drain_fuel a w d = Some (a', w', false) -> (ticks d w' < ticks d w)%nat.
Proof.
  intros O D E. unfold turn_overruns in E. pose proof (service_loop_step drain_fuel a w O) as S.
  destruct (runtime_service drain_fuel a w) as [[[a1 w1] e]|]; [|discriminate]. cbn in S.
  destruct S as (_ & _ & T). destruct (is_ok e); [|discriminate]. pose proof (tick_read d w1 D) as R.
  destruct (now_ns w1) as [w2 now]. cbn in R. inv E. specialize (T d). destruct (now >? d) eqn:G; [discriminate|].
  rewrite Z.gtb_ltb in G. zprop. specialize (R G). lia.
Qed.

(** The client of the case cannot make an operation undefined. *)
Definition dependable (a : adapter P C) : Prop := kind a = CASE_REDIS -> calm (C := C).

Lemma dependable_frame (a a' : adapter P C) : frame a a' -> dependable a -> dependable a'.
Proof. intros F. unfold dependable. now rewrite (frame_kind _ _ F). Qed.

Lemma dependable_defined (a : adapter P C) w : dependable a -> ~ safe drain_fuel a w None.
Proof. intros D (K & N). exact (N (D K)). Qed.

Lemma drive_total fuel (a : adapter P C) w d :
  driver_ok drain_fuel a -> dependable a -> d < 2 ^ 64 - 1 -> (ticks d w < fuel)%nat ->
  exists a' w', drive_loop drain_fuel fuel a w d = Some (a', w').
Proof.
  revert a w; induction fuel as [|fuel IH]; intros a w O K D L; [lia|]. cbn [drive_loop].
  destruct (_ || _) eqn:G; [eauto|]. apply orb_false_iff in G as [_ G]. apply negb_false_iff, Z.ltb_lt in G.
  pose proof (submit_if_idle_step drain_fuel a w O G) as S.
  destruct (submit_if_idle a w) as [[[a1 w1] e]|]; [|destruct (dependable_defined a w K S)].
  destruct S as (O1 & F1 & T1). destruct (negb (is_ok e)); [eauto|].
  pose proof (dependable_frame _ _ F1 K) as K1.
  pose proof (turn_step drain_fuel a1 w1 d O1) as S.
  pose proof (turn_ticks a1 w1 d) as U.
  destruct (turn_overruns drain_fuel a1 w1 d) as [[[a2 w2] over]|]; [|destruct (dependable_defined a1 w1 K1 S)].
  destruct S as (O2 & F2 & T2). destruct over.
  { destruct fuel; cbn [drive_loop]; cbn; eauto. }
  specialize (U a2 w2 O1 D eq_refl). specialize (T1 d). apply IH; [exact O2| |exact D|lia].
  exact (dependable_frame _ _ F2 K1).
Qed.

Lemma wait_total fuel (a : adapter P C) w d :
  driver_ok drain_fuel a -> dependable a -> d < 2 ^ 64 - 1 -> (ticks d w < fuel)%nat ->
  exists b a' w', wait_connection drain_fuel fuel a w d = Some (b, a', w').
Proof.
  revert a w; induction fuel as [|fuel IH]; intros a w O K D L; [lia|]. cbn [wait_connection].
  destruct (failed a); [eauto|]. destruct (connection_up a); [eauto|].
  pose proof (turn_step drain_fuel a w d O) as S. pose proof (turn_ticks a w d) as U.
  destruct (turn_overruns drain_fuel a w d) as [[[a1 w1] over]|]; [|destruct (dependable_defined a w K S)].
  destruct S as (O1 & F1 & T1). destruct over; [eauto|].
  specialize (U a1 w1 O D eq_refl). apply IH; [exact O1| |exact D|lia]. exact (dependable_frame _ _ F1 K).
Qed.

(** A result does not depend on the fuel. *)
Lemma wait_more fuel (a : adapter P C) w d res :
  wait_connection drain_fuel fuel a w d = Some res ->
  forall fuel', (fuel <= fuel')%nat -> wait_connection drain_fuel fuel' a w d = Some res.
Proof.
  revert a w; induction fuel as [|fuel IH]; intros a w E [|fuel'] L; cbn [wait_connection] in *; auto; try lia;
    destruct (failed a); auto; destruct (connection_up a); auto; try discriminate.
  destruct (turn_overruns drain_fuel a w d) as [[[a1 w1] over]|]; [|discriminate].
  destruct over; [exact E|]. apply IH; [exact E|lia].
Qed.

End Termination.
