(* ===== verification/DriverMain.v ===== *)
(** * The driver benchmark: its main function

    Models the rest of [core/apps/c_driver_adapter.c]: the fixture, the arguments, the
    setup of the adapter of [Driver], the timed trial, the report and the release.
    What the process gets from outside (files, digests, the JSON parser and printer,
    allocations, the CPU clock) is the record [outside].

    The text of the report is written with ['] for the double quote; see [CStr.q]. *)

From Stdlib Require Import ZArith Lia Bool Floats Ascii String List.
From S2P Require Import Prelude CStr Domain Double Round Fixture LwsRuntime RedisCache RedisAsync Postgres Driver.
Import ListNotations.
Set Warnings "-register-all,-inexact-float".
Open Scope string_scope.
Open Scope list_scope.
Open Scope Z_scope.

Definition BACKSLASH : ascii := ascii_of_N 92.

(** ** Files, digests and arguments *)

(** [digest] is the outcome of [EVP_Digest]: the bytes written and their number. *)
Fixpoint hex_bytes (bytes : list Z) : string :=
  match bytes with
  | [] => ""
  | b :: bytes => (sprint 3 (print_hex 2 b) ++ hex_bytes bytes)%string
  end.
Definition sha256_bytes (digest : option (list Z)) : option string :=
  match digest with
  | Some bytes => if (List.length bytes =? 32)%nat then Some (hex_bytes bytes) else None
  | None => None
  end.

(** [file] is what [fread] gives for the path, at most [FIXTURE_MAX_SIZE + 1] bytes, and
    [feof] afterwards; [None] when it cannot be opened. *)
Definition read_file (file : option (string * bool)) (alloc : bool) : option string :=
  match file with
  | None => None
  | Some (bytes, eof) =>
      let length := if alloc then String.length bytes else O in
      if negb alloc || (length =? 0)%nat || (FIXTURE_MAX_SIZE <? length)%nat || negb eof then None
      else Some bytes
  end.

Fixpoint arg_scan (args : list string) (name : string) : option string :=
  match args with
  | a :: (b :: _) as rest => if String.eqb a name then Some b else arg_scan rest name
  | _ => None
  end.
Definition arg_value (argv : list string) (name : string) : option string :=
  match argv with [] => None | _ :: args => arg_scan args name end.

Definition ULONG_MAX : Z := 2 ^ 64 - 1.

(** [strtoul (text, &end, 10)]: the value and the rest at [end]. *)
Definition strtoul (text : string) : Z * string :=
  let s := skip_space text in
  let '(neg, s) :=
    match s with
    | String c r =>
        if Ascii.eqb c "-" then (true, r) else if Ascii.eqb c "+" then (false, r) else (false, s)
    | EmptyString => (false, s)
    end in
  let '(v, seen, rest) := scan_digits s 0 false in
  if negb seen then (0, text)
  else if v >? ULONG_MAX then (ULONG_MAX, rest)
  else (if neg : bool then u64 (- v) else v, rest).

Definition yyjson_get_uint (v : option yyjson_val) : Z :=
  match v with Some (JUint n) | Some (JSint n) => u64 n | _ => 0 end.

(** ** The report *)

Fixpoint escape (text : string) : string :=
  match text with
  | EmptyString => EmptyString
  | String c text =>
      if Ascii.eqb c QUOTE || Ascii.eqb c BACKSLASH then String BACKSLASH (String c (escape text))
      else String c (escape text)
  end.
Definition json_string (text : string) : string := (String QUOTE (escape text) ++ String QUOTE "")%string.

Definition print_nat (n : nat) : string := print_nonneg (Z.of_nat n).

(** [i == 0 ? "" : ","]. *)
Definition comma (i : nat) : string := match i with O => "" | S _ => "," end.

Definition completed_ids (prefix : string) : string :=
  concat (List.map (fun i => (comma i ++ q "'" ++ prefix ++ print_padded 3 (Z.of_nat (i + 1)) ++ q "'")%string)
                   (seq 0 3)).
Definition completed_tokens (prefix : string) (total : nat) : string :=
  concat (List.map (fun i => (comma i ++ q "'" ++ print_padded 6 (Z.of_nat i / OP_COUNT) ++ ":" ++ prefix ++
                              print_padded 3 (Z.of_nat i mod OP_COUNT + 1) ++ q "'")%string) (seq 0 total)).
Definition latency_text (latency : list Z) (total : nat) : string :=
  concat (List.map (fun i => (comma i ++ print_nonneg (nth i latency 0))%string) (seq 0 total)).

Section Main.
Context {P C W : Type} {pq : LibPQ P} {hiredis : HiredisAsync C} {world : World W}.
Variable drain_fuel : nat.

(** [version] is [__VERSION__], [maxrss] the resident size [getrusage] gives. *)
Definition emit (version : string) (maxrss : Z) (a : adapter P C) (fixture_hash result_hash terminal_json : string)
    (elapsed_ns cpu_ns : Z) (service_hash schema_hash : string) : string :=
  let rss := maxrss * 1024 in
  let prefix := if is_redis (kind a) then "r" else "d" in
  let total := Z.to_nat (total a) in
  concat
    [ q "{'build':{'compiler':"; json_string version;
      q ",'dependencies':{'hiredis':'linked','libpq':'linked','libwebsockets':'4.3.3-v4.3.3','openssl':'linked'},'flags':'C11 -ffp-contract=off','runtime':'C11'},'completed_ids':[";
      completed_ids prefix; q "],'completed_tokens':["; completed_tokens prefix total;
      q "],'configuration':{'concurrency':"; print_nonneg (concurrency a);
      q ",'connection_count':1,'event_loop_mode':'lws','operation_count':"; print_nonneg (Driver.total a);
      q ",'pipeline_depth':1,'queue_depth':1,'retry_policy':'none','saturation_policy':'bounded_wait','schema_sha256':'";
      schema_hash; q "','service_config_sha256':'"; service_hash;
      q "','timeout_ms':5000,'worker_count':1},'dropped':0,'elapsed_ms':";
      format_fixed (double_of_Z elapsed_ns / 1000000)%float 9;
      q ",'errors':0,'fixture_sha256':'"; fixture_hash; q "','operation_latency_ns':[";
      latency_text (latency_ns a) total; q "],'resources':{'cpu_time_ms':";
      format_fixed (double_of_Z cpu_ns / 1000000)%float 9; q ",'peak_rss_bytes':"; print_Z rss;
      q "},'result_sha256':'"; result_hash; q "','terminal':"; terminal_json; q ",'trial_namespace':";
      json_string (namespace_text a); "}"; String (ascii_of_N 10) "" ].

(** ** Setup *)

(** What the process gets from outside.  The allocations of the two clients, of the
    registry and of the latency array; the connection [PQconnectStart] gives; the file
    system, the digest, the JSON reader and printer; the CPU clock before and after
    the trial; the environment. *)
Record outside := {
  fread_file : string -> option (string * bool);
  file_alloc : bool;
  EVP_Digest : string -> option (list Z);
  yyjson_read : string -> option yyjson_val;
  yyjson_val_write : yyjson_val -> option string;
  latency_alloc : bool;
  runtime_alloc : bool * bool;
  lws_context : bool;
  lws_vhost : bool;
  redis_alloc : bool * bool;
  pg_alloc : bool * bool;
  PQconnectStart : string -> option P;
  postgres_url : option string;
  cpu_start : Z * Z;
  cpu_end : Z * Z;
  compiler_version : string;
  ru_maxrss : Z
}.

(** The arguments once checked. *)
Record arguments := { fixture_path : string; case_name : string; trial_namespace : string; workers : Z }.

(** [None] is [return 2]. *)
Definition parse_arguments (argv : list string) : option arguments :=
  match arg_value argv "--fixture", arg_value argv "--case", arg_value argv "--concurrency",
        arg_value argv "--trial" with
  | Some path, Some case, Some concurrency_text, Some trial =>
      let namespace :=
        match arg_value argv "--namespace" with
        | Some n => n
        | None => sprint 96 ("c-trial-" ++ trial)%string
        end in
      let '(concurrency, rest) := strtoul concurrency_text in
      if String.eqb concurrency_text "" || negb (String.eqb rest "") ||
         (negb (concurrency =? 1) && negb (concurrency =? 8) && negb (concurrency =? 32))
      then None
      else Some {| fixture_path := path; case_name := case; trial_namespace := namespace; workers := concurrency |}
  | _, _, _, _ => None
  end.

(** What the fixture says of the case. *)
Record case_data := {
  fixture_hash : string;
  terminal_json : string;
  terminal_hash : string;
  service_hash : string;
  schema_hash : string;
  case_repeat : Z
}.

Definition load_case (o : outside) (path name : string) : option case_data :=
  let? bytes := read_file (fread_file o path) (file_alloc o) in
  let? hash := sha256_bytes (EVP_Digest o bytes) in
  let root := yyjson_read o bytes in
  let contract := yyjson_obj_get root "contract" in
  let case_value := yyjson_obj_get (yyjson_obj_get root "cases") name in
  let? terminal := yyjson_obj_get case_value "terminal" in
  let? terminal_json := yyjson_val_write o terminal in
  let? terminal_hash := yyjson_get_str (yyjson_obj_get case_value "terminal_sha256") in
  let? service_hash := yyjson_get_str (yyjson_obj_get contract "service_config_sha256") in
  let? schema_hash := yyjson_get_str (yyjson_obj_get contract "schema_sha256") in
  let repeat := yyjson_get_uint (yyjson_obj_get case_value "repeat") in
  if (repeat =? 0) || negb (yyjson_get_uint (yyjson_obj_get case_value "pipeline_depth") =? 1) then None
  else Some {| fixture_hash := hash; terminal_json := terminal_json; terminal_hash := terminal_hash;
               service_hash := service_hash; schema_hash := schema_hash; case_repeat := repeat |}.

Definition zero_position : alpha_pg_position_t :=
  {| pos_ticker := ""; name := ""; pos_quantity := 0; avg_price := 0; current_price := 0; is_paper := false;
     account_scope := ""; strategy_id := "" |}.
Definition zero_exposure : alpha_pg_exposure_t :=
  {| exp_ticker := ""; total_quantity := 0; total_market_value := 0; total_aum := 0; strategy_count := 0;
     exposure_pct := 0 |}.

Definition NAMESPACE_SIZE : nat := 96.

(** The adapter before it connects; [None] is [return 2]. *)
Definition new_adapter (o : outside) (case namespace : string) (repeat concurrency : Z) : option (adapter P C) :=
  let k := if String.eqb case "redis-hot-path" then CASE_REDIS else CASE_DB in
  let total := u64 (repeat * OP_COUNT) in
  if (negb (is_redis k) && negb (String.eqb case "db-read-write")) ||
     (NAMESPACE_SIZE <=? String.length namespace)%nat then None
  else if negb (latency_alloc o) then None
  else
    match alpha_lws_runtime_create 2 (runtime_alloc o) (lws_context o) (lws_vhost o) (Some None) with
    | (ALPHA_OK, Some (Some rt)) =>
        Some {| runtime := Some rt; watch := None; redis := None; pg := None; kind := k; Driver.repeat := repeat;
                concurrency := concurrency; total := total; submitted := 0; completed := 0; current := 0;
                connected := false; inflight := false; failed := false;
                latency_ns := List.repeat 0 (Z.to_nat total); token := {| index := 0; started_ns := 0 |};
                ticker := ""; namespace_text := sprint NAMESPACE_SIZE namespace;
                redis_value := sprint 128 (q "{'price':70000,'volume':10}");
                db_rows := (zero_position, zero_position); exposure := zero_exposure; answered := [] |}
    | _ => None
    end.

Definition set_ticker (a : adapter P C) (t : string) : adapter P C :=
  {| runtime := runtime a; watch := watch a; redis := redis a; pg := pg a; kind := kind a;
     Driver.repeat := Driver.repeat a; concurrency := concurrency a; total := total a; submitted := submitted a;
     completed := completed a; current := current a; connected := connected a; inflight := inflight a;
     failed := failed a; latency_ns := latency_ns a; token := token a; ticker := sprint 32 t;
     namespace_text := namespace_text a; redis_value := redis_value a; db_rows := db_rows a;
     exposure := exposure a; answered := answered a |}.

(** The notices of the connection come before the handle is stored. *)
Definition setup_redis (o : outside) (namespace : string) (a : adapter P C) (w : W) : option (adapter P C * W) :=
  let a := set_ticker a ("005930:" ++ print_hex 8 (namespace_hash namespace))%string in
  let '(e, out, ns) := alpha_redis_async_connect (Some REDIS_HOST) REDIS_PORT true (redis_alloc o) (Some (redis a)) in
  let? (a, w) := on_notices a w ns in
  let a := match out with Some r => set_redis a r | None => a end in
  Some (note a e, w).

Definition fixture_row (t : string) (i : Z) : alpha_pg_position_t :=
  {| pos_ticker := sprint ALPHA_PG_TEXT_CAP t; name := sprint ALPHA_PG_TEXT_CAP "MVP-2 fixture";
     pos_quantity := if i =? 0 then 10 else 20; avg_price := 1000;
     current_price := if i =? 0 then 1000 else 1200; is_paper := true;
     account_scope := sprint ALPHA_PG_TEXT_CAP "paper";
     strategy_id := sprint ALPHA_PG_TEXT_CAP ("strategy-" ++ String (ascii_of_N (Z.to_N (97 + i))) "")%string |}.

Definition DEFAULT_CONNINFO : string :=
  "host=127.0.0.1 port=55432 dbname=alpha_test user=alpha_test password=alpha_test_only".
Definition conninfo (o : outside) : string :=
  match postgres_url o with Some u => u | None => DEFAULT_CONNINFO end.

Definition setup_db (o : outside) (namespace : string) (a : adapter P C) (w : W) : option (adapter P C * W) :=
  let a := set_ticker a ("M" ++ print_hex 8 (namespace_hash namespace))%string in
  let a := set_rows a (fixture_row (ticker a) 0, fixture_row (ticker a) 1) in
  let '(w, clean) := pg_cleanup w (conninfo o) (ticker a) in
  if negb clean then Some (set_failed a true, w)
  else
    let '(e, out) :=
      alpha_pg_connect_start (Some (conninfo o)) 1 (pg_alloc o) (PQconnectStart o) (Some (pg a)) in
    let a := match out with Some db => set_pg a db | None => a end in
    if negb (is_ok e) then Some (set_failed a true, w)
    else
      let? (a, w, e) := watch_add a w (alpha_pg_socket (pg a)) true in
      Some (note a e, w).

(** ** The trial *)

(** The wait and the timed run: whether it succeeded and the time it took. *)
Definition run_trial (fuel : nat) (a : adapter P C) (w : W) : option (bool * Z * adapter P C * W) :=
  let '(w, now) := now_ns w in
  let? (up, a, w) := wait_connection drain_fuel fuel a w (u64 (now + FIVE_SECONDS)) in
  let a := if up : bool then a else set_failed a true in
  let '(w, started) := now_ns w in
  let? (ok, a, w) := drive drain_fuel fuel a w (u64 (started + FIVE_SECONDS)) in
  let '(w, ended) := now_ns w in
  Some (ok && terminal_matches_service a, u64 (ended - started), a, w).

(** Closing the client, then the registry; [None] frees a hiredis context twice. *)
Definition release (o : outside) (a : adapter P C) (w : W) : option (adapter P C * W) :=
  let? (a, w) :=
    match kind a with
    | CASE_DB => let '(w, _) := pg_cleanup w (conninfo o) (ticker a) in Some (set_pg a None, w)
    | CASE_REDIS =>
        let? ns := alpha_redis_async_close (redis a) in
        let? (a, w) := on_notices a w ns in
        Some (set_redis a None, w)
    end in
  Some (set_watch (set_runtime a None) None, w).

Definition timespec_ns (t : Z * Z) : Z := u64 (u64 (u64 (fst t) * 1000000000) + u64 (snd t)).

Definition pg_state_code (db : option (alpha_pg P)) : Z :=
  match db with
  | None => -1
  | Some _ => match alpha_pg_state db with ALPHA_PG_CONNECTING => 0 | ALPHA_PG_READY => 1 | ALPHA_PG_FAILED => 2 end
  end.

Definition failure_text (a : adapter P C) : string :=
  concat [ "adapter failed: submitted="; print_nonneg (submitted a); " completed="; print_nonneg (completed a);
           " pg_state="; print_Z (pg_state_code (pg a)); " pg_error=";
           match pg a with Some _ => alpha_pg_error (pg a) | None => "n/a" end; String (ascii_of_N 10) "" ].

(** What the process leaves: exit status and the text on its two streams. *)
Record process := { exit_status : Z; stdout : string; stderr : string }.

Definition USAGE : string := "required: --fixture --case --concurrency --trial [--namespace]".

(** The early returns; the usage line is printed when an argument is missing. *)
Definition rejected (argv : list string) : process :=
  {| exit_status := 2; stdout := "";
     stderr :=
       match arg_value argv "--fixture", arg_value argv "--case", arg_value argv "--concurrency",
             arg_value argv "--trial" with
       | Some _, Some _, Some _, Some _ => ""
       | _, _, _, _ => (USAGE ++ String (ascii_of_N 10) "")%string
       end |}.

Definition main (fuel : nat) (o : outside) (argv : list string) (w : W) : option (process * W) :=
  match parse_arguments argv with
  | None => Some (rejected argv, w)
  | Some args =>
      match load_case o (fixture_path args) (case_name args) with
      | None => Some (rejected argv, w)
      | Some case =>
          match new_adapter o (case_name args) (trial_namespace args) (case_repeat case) (workers args) with
          | None => Some (rejected argv, w)
          | Some a =>
              let? (a, w) :=
                match kind a with
                | CASE_REDIS => setup_redis o (trial_namespace args) a w
                | CASE_DB => setup_db o (trial_namespace args) a w
                end in
              let? (ok, elapsed_ns, a, w) := run_trial fuel a w in
              let cpu_ns := u64 (timespec_ns (cpu_end o) - timespec_ns (cpu_start o)) in
              let out :=
                if ok : bool
                then {| exit_status := 0;
                        stdout := emit (compiler_version o) (ru_maxrss o) a (fixture_hash case)
                                    (terminal_hash case) (terminal_json case) elapsed_ns cpu_ns
                                    (service_hash case) (schema_hash case);
                        stderr := "" |}
                else {| exit_status := 1; stdout := ""; stderr := failure_text a |} in
              let? (_, w) := release o a w in
              Some (out, w)
          end
      end
  end.

End Main.

(** ** Text *)

Lemma sprint_fits size text : (String.length text < size)%nat -> sprint size text = text.
Proof. intros L. apply substring_all. lia. Qed.

Lemma hex_digits_length w n acc : String.length (hex_digits w n acc) = (w + String.length acc)%nat.
Proof. revert n acc; induction w as [|w IH]; intros n acc; cbn; [reflexivity|]. rewrite IH. cbn. lia. Qed.

Lemma print_hex_length w n : String.length (print_hex w n) = w.
Proof. unfold print_hex. rewrite hex_digits_length. cbn. lia. Qed.

(** ** JSON strings

    The well-formed sequences of UTF-8 (RFC 3629): the bytes a lead byte calls for, as
    ranges, with the narrower second ranges that exclude overlong forms, surrogates
    and numbers beyond U+10FFFF. *)
Definition byte_in (lo hi : N) (c : ascii) : bool := ((lo <=? N_of_ascii c) && (N_of_ascii c <=? hi))%N.
Definition TAIL : N * N := (128, 191)%N.
Definition utf8_lead (c : ascii) : option (list (N * N)) :=
  if byte_in 0 127 c then Some []
  else if byte_in 194 223 c then Some [TAIL]
  else if byte_in 224 224 c then Some [(160, 191)%N; TAIL]
  else if byte_in 237 237 c then Some [(128, 159)%N; TAIL]
  else if byte_in 225 239 c then Some [TAIL; TAIL]
  else if byte_in 240 240 c then Some [(144, 191)%N; TAIL; TAIL]
  else if byte_in 241 243 c then Some [TAIL; TAIL; TAIL]
  else if byte_in 244 244 c then Some [(128, 143)%N; TAIL; TAIL]
  else None.

(** The text is the rest of the sequence [need] and then well-formed UTF-8. *)
Fixpoint utf8_from (need : list (N * N)) (s : string) : bool :=
  match s, need with
  | EmptyString, [] => true
  | EmptyString, _ => false
  | String c s, (lo, hi) :: need => byte_in lo hi c && utf8_from need s
  | String c s, [] => match utf8_lead c with Some need => utf8_from need s | None => false end
  end.
Definition utf8_valid (s : string) : bool := utf8_from [] s.

(** A string literal of JSON (RFC 8259), as its grammar has it for the escapes the
    printer uses: the text up to the closing quote and what follows.  It is UTF-8, and
    control characters are not allowed in it. *)
Definition is_control (c : ascii) : bool := (N_of_ascii c <? 32)%N.
Fixpoint json_body (need : list (N * N)) (s : string) : option (string * string) :=
  match s, need with
  | EmptyString, _ => None
  | String c s, (lo, hi) :: need =>
      if byte_in lo hi c then let? (t, rest) := json_body need s in Some (String c t, rest) else None
  | String c s, [] =>
      if Ascii.eqb c QUOTE then Some ("", s)
      else if is_control c then None
      else if Ascii.eqb c BACKSLASH then
        match s with
        | String d s =>
            if Ascii.eqb d QUOTE || Ascii.eqb d BACKSLASH then
              let? (t, rest) := json_body [] s in Some (String d t, rest)
            else None
        | EmptyString => None
        end
      else
        let? need := utf8_lead c in
        let? (t, rest) := json_body need s in Some (String c t, rest)
  end.
Definition json_literal (s : string) : option (string * string) :=
  match s with String c s => if Ascii.eqb c QUOTE then json_body [] s else None | EmptyString => None end.

Fixpoint has_control (s : string) : bool :=
  match s with EmptyString => false | String c s => is_control c || has_control s end.

(** The ranges a sequence may call for: no byte below 128. *)
Definition high (need : list (N * N)) : Prop := Forall (fun r => 128 <= fst r)%N need.

Lemma utf8_lead_high c need : utf8_lead c = Some need -> high need.
Proof.
  unfold utf8_lead, high. repeat (destruct (byte_in _ _ c); [intros E; inv E; repeat constructor; cbn; lia|]). discriminate.
Qed.

Lemma low_byte lo hi c : (128 <= lo)%N -> (N_of_ascii c < 128)%N -> byte_in lo hi c = false.
Proof. intros L H. unfold byte_in. replace (lo <=? N_of_ascii c)%N with false; [reflexivity|]. symmetry. apply N.leb_gt. lia. Qed.

Lemma json_body_escape text need rest :
  high need ->
  json_body need (escape text ++ String QUOTE rest) =
    if has_control text || negb (utf8_from need text) then None else Some (text, rest).
Proof.
  assert (Q : (N_of_ascii QUOTE < 128)%N) by reflexivity. assert (B : (N_of_ascii BACKSLASH < 128)%N) by reflexivity.
  revert need; induction text as [|c text IH]; intros need H.
  { destruct need as [|[lo hi] need]; [reflexivity|]. inv H. cbn [escape String.append json_body has_control utf8_from orb negb].
    now rewrite low_byte. }
  cbn [escape has_control utf8_from].
  destruct (Ascii.eqb c QUOTE || Ascii.eqb c BACKSLASH) eqn:E.
  - assert (L : (N_of_ascii c < 128)%N /\ is_control c = false /\ utf8_lead c = Some []).
    { apply orb_prop in E as [E|E]; apply Ascii.eqb_eq in E; subst c; repeat split; reflexivity. }
    destruct L as (L1 & L2 & L3). rewrite L2, L3. cbn [orb String.append json_body].
    destruct need as [|[lo hi] need].
    + change (Ascii.eqb BACKSLASH QUOTE) with false. change (is_control BACKSLASH) with false.
      change (Ascii.eqb BACKSLASH BACKSLASH) with true. cbv iota. rewrite E, (IH [] H).
      now destruct (has_control text || negb (utf8_from [] text)).
    + inv H. cbn in H2. rewrite !low_byte by assumption. cbn. now rewrite orb_true_r.
  - apply orb_false_iff in E as [E1 E2]. cbn [String.append json_body]. destruct need as [|[lo hi] need].
    + rewrite E1, E2. destruct (is_control c); [reflexivity|]. cbn [orb].
      destruct (utf8_lead c) as [need|] eqn:U; [|now rewrite orb_true_r].
      rewrite (IH need (utf8_lead_high _ _ U)). now destruct (has_control text || negb (utf8_from need text)).
    + inv H. cbn in H2. assert (K : byte_in lo hi c = true -> is_control c = false).
      { unfold byte_in, is_control. intros K. apply andb_prop in K as [K _]. apply N.leb_le in K. apply N.ltb_ge. lia. }
      destruct (byte_in lo hi c); cbn [andb negb]; [|now rewrite orb_true_r].
      rewrite (K eq_refl), (IH need H3). cbn [orb]. now destruct (has_control text || negb (utf8_from need text)).
Qed.

(** C36: The text [json_string] prints is a JSON string that reads back as the text,
    whatever follows it, exactly when the text is well-formed UTF-8 without control
    characters: quotes and backslashes are escaped, control characters and the
    bytes of other encodings are copied, and no reader accepts those. *)
Theorem json_string_reads_back text rest :
  json_literal (json_string text ++ rest) =
    if has_control text || negb (utf8_valid text) then None else Some (text, rest).
Proof.
  unfold json_string, json_literal. cbn [String.append]. change (Ascii.eqb QUOTE QUOTE) with true. cbv iota.
  rewrite <- sappend_assoc. apply json_body_escape. constructor.
Qed.

(** Korean text is copied and read back; a lone byte 255 and an overlong form are not. *)
Example json_string_samples :
  let hangul := String (ascii_of_N 234) (String (ascii_of_N 176) (String (ascii_of_N 128) "")) in
  utf8_valid hangul = true /\ json_literal (json_string hangul) = Some (hangul, "") /\
  json_literal (json_string (String (ascii_of_N 255) "")) = None /\
  utf8_valid (String (ascii_of_N 192) (String (ascii_of_N 128) "")) = false.
Proof. repeat split. Qed.

(** Nothing of a key is cut off: with the ticker and the namespace the setup stores,
    the three redis commands are those of the data contract. *)
Theorem redis_commands_exact {P C : Type} (a : adapter P C) namespace operation :
  ticker a = sprint 32 ("005930:" ++ print_hex 8 (namespace_hash namespace)) ->
  namespace_text a = sprint NAMESPACE_SIZE namespace -> (String.length namespace < NAMESPACE_SIZE)%nat -> 0 <= operation ->
  redis_argv a operation =
    let tick := ("redis:cache:latest_ticks:005930:" ++ print_hex 8 (namespace_hash namespace))%string in
    if operation =? 0 then ["SET"; tick; redis_value a; "EX"; "60"]
    else if operation =? 1 then ["GET"; tick]
    else ["EXISTS"; ("hard_stop:lockout:" ++ namespace)%string].
Proof.
  intros T N L O. unfold redis_argv, KEY_SIZE. rewrite T, N. unfold NAMESPACE_SIZE in *.
  set (h := print_hex 8 (namespace_hash namespace)).
  assert (H : String.length h = 8%nat) by apply print_hex_length.
  rewrite (sprint_fits 32) by (rewrite length_sappend, H; cbn; lia).
  rewrite (sprint_fits 96) by exact L.
  rewrite !sprint_fits by (rewrite ?length_sappend, ?H; cbn [String.length]; lia).
  destruct (operation =? 0) eqn:E0; zprop; [subst; reflexivity|].
  destruct (operation =? 1) eqn:E1; zprop; [subst; reflexivity|].
  replace (operation <? 2) with false by lia. reflexivity.
Qed.

(** ** The life of the adapter *)

Section Run.
Context {P C W : Type} {pq : LibPQ P} {hiredis : HiredisAsync C} {world : World W}.
Context {pipeline : PipelineLaws P} {connecting : ConnectLaws P} {hlaws : HiredisLaws C}.
Variable drain_fuel : nat.
Variable o : outside (P := P).

(** A connection that starts has nothing outstanding. *)
Hypothesis fresh : forall s c, PQconnectStart o s = Some c -> items c = [].

#[local] Existing Instance no_order.

(** An adapter that has done nothing yet. *)
Definition idle (a : adapter P C) : Prop :=
  inflight a = false /\ redis a = None /\ pg a = None /\ submitted a = 0 /\ answered a = [].

Lemma new_adapter_ok case namespace repeat workers a :
  new_adapter o case namespace repeat workers = Some a ->
  driver_ok drain_fuel a /\ idle a /\ total a = u64 (repeat * OP_COUNT).
Proof.
  unfold new_adapter. destruct (_ || _); [discriminate|]. destruct (negb _); [discriminate|].
  set (k := if String.eqb case "redis-hot-path" then CASE_REDIS else CASE_DB).
  destruct (alpha_lws_runtime_create _ _ _ _ _) as [[] [[rt|]|]] eqn:E; try discriminate.
  pose proof (runtime_run_ok _ (run_create _ _ _ _ _ E)) as R. pose proof (u64_range (repeat * OP_COUNT)) as U.
  intros H. inv H. split; [|cbn; repeat split; reflexivity]. split; [|split].
  - split; cbn; rewrite ?repeat_length; auto; try lia; try discriminate || (intros; lia).
    intros _. split; intros [|i] x; discriminate.
  - split; [exact R|]. split; [|discriminate]. unfold alpha_lws_runtime_create in E. cbn in E.
    destruct (fst (runtime_alloc o)), (snd (runtime_alloc o)), (lws_context o), (lws_vhost o); inv E.
    intros [|[|[|i]]] s; cbn; intros N; inv N; discriminate.
  - unfold client_ok. cbn. now destruct k.
Qed.

Lemma ticker_driver a t : driver_ok drain_fuel a -> driver_ok drain_fuel (set_ticker a t).
Proof. intros (Pr & L & Cl). split; [split; apply Pr|]. split; [exact L|exact Cl]. Qed.

Lemma rows_driver a r : driver_ok drain_fuel a -> answered a = [] -> driver_ok drain_fuel (set_rows a r).
Proof.
  intros (Pr & L & Cl) N. split; [|split; [exact L|exact Cl]]. split; try apply Pr. intros _. unfold answers_ok. cbn.
  rewrite N. split; intros [|i] x; discriminate.
Qed.

Lemma setup_redis_ok namespace a w a' w' :
  driver_ok drain_fuel a -> idle a -> kind a = CASE_REDIS -> setup_redis o namespace a w = Some (a', w') ->
  driver_ok drain_fuel a' /\ kind a' = kind a /\ total a' = total a.
Proof.
  intros O (F & Rd & _) K E. unfold setup_redis in E.
  set (b := set_ticker a _) in E. pose proof (ticker_driver a _ O : driver_ok drain_fuel b) as (Pb & Lb & Cb).
  change (redis b) with (redis a) in E. rewrite Rd in E.
  destruct (alpha_redis_async_connect _ _ _ _ _) as [[e out] ns] eqn:X.
  destruct (connect_pending _ _ _ _ _ _ _ _ X) as [N0 N1].
  destruct (on_notices b w ns) as [[a1 w1]|] eqn:D; [|discriminate].
  destruct (notices_step ns b w a1 w1 Pb Lb) as (P1 & L1 & F1 & _ & V1 & I1); [exact K|cbn; rewrite N0, F; cbn; lia|exact D|].
  assert (I2 : inflight a1 = false) by (rewrite N0 in I1; cbn in I1; rewrite F in I1; destruct (inflight a1); [discriminate|reflexivity]).
  pose proof (frame_kind _ _ F1) as K1. cbn in K1.
  assert (G : exists x, out = Some x /\
            match x with Some r => adapter_ok r /\ pending r = 0%nat /\ (calm -> held r) | None => True end).
  { destruct e; try (exists None; auto; fail). destruct N1 as (r & -> & Z). exists (Some r).
    split; [reflexivity|]. split; [apply (connect_ok _ _ _ _ _ _ X)|]. split; [exact Z|].
    intros Cm. now apply (connect_held _ _ _ _ _ _ _ Cm X). }
  destruct G as (x & -> & Gx). inv E.
  split; [|unfold note; destruct (is_ok e); cbn; rewrite ?K1, ?(frame_total _ _ F1); auto].
  apply note_driver. split; [split; apply P1|]. split; [exact L1|]. unfold client_ok. cbn. rewrite K1, K.
  destruct x as [r|]; [|exact I2]. destruct Gx as (A & Z & H). rewrite Z, I2. auto.
Qed.

(** A calm server never makes the setup undefined. *)
Lemma setup_redis_defined namespace a w :
  driver_ok drain_fuel a -> idle a -> calm (C := C) -> exists a' w', setup_redis o namespace a w = Some (a', w').
Proof.
  intros O (_ & Rd & _) Cm. unfold setup_redis. set (b := set_ticker a _).
  change (redis b) with (redis a). rewrite Rd.
  destruct (alpha_redis_async_connect _ _ _ _ _) as [[e out] ns] eqn:X.
  destruct (connect_held _ _ _ _ _ _ _ Cm X) as [S _].
  destruct (notices_defined ns b w (proj1 (proj2 O)) S) as (a1 & w1 & -> & _). eauto.
Qed.

Lemma setup_db_ok namespace a w :
  driver_ok drain_fuel a -> idle a -> kind a = CASE_DB -> total a + 2 < Z.of_nat drain_fuel ->
  exists a' w', setup_db o namespace a w = Some (a', w') /\
    driver_ok drain_fuel a' /\ kind a' = kind a /\ total a' = total a.
Proof.
  intros O (F & _ & Pg & Sb & An) K Fu. unfold setup_db.
  set (b := set_rows _ _). assert (Ob : driver_ok drain_fuel b) by (apply rows_driver; [apply ticker_driver, O|exact An]).
  destruct (pg_cleanup w (conninfo o) (ticker b)) as [w1 clean].
  destruct (negb clean); [do 2 eexists; split; [reflexivity|]; split; [exact (fail_driver _ _ Ob)|auto]|].
  change (pg b) with (pg a). rewrite Pg.
  destruct (alpha_pg_connect_start _ _ _ _ _) as [e out] eqn:E.
  set (c := match out with Some db => set_pg b db | None => b end).
  assert (Oc : driver_ok drain_fuel c /\ kind c = kind a /\ total c = total a).
  { subst c. destruct out as [[db|]|]; [|split; [|auto]|auto].
    2:{ destruct Ob as (Pb & Lb & Cb). split; [split; apply Pb|]. split; [exact Lb|]. unfold client_ok. cbn. now rewrite K. }
    split; [|auto]. pose proof (connect_start_inv _ _ _ _ _ _ _ E eq_refl) as I.
    assert (It : items (conn db) = [] /\ Postgres.count db = 0%nat /\ sync_sent db = false).
    { unfold alpha_pg_connect_start in E. cbn in E. destruct (fst (pg_alloc o)), (snd (pg_alloc o)); cbn in E; try discriminate.
      destruct (PQconnectStart o (conninfo o)) as [cn|] eqn:Y; [|discriminate]. pose proof (fresh _ _ Y) as Z.
      pose proof (law_nonblocking cn) as Q. destruct (PQstatus_bad cn); [inv E; auto|].
      destruct (PQsetnonblocking cn) as [c1 r]. cbn in Q. destruct (negb (r =? 0)); inv E; cbn; rewrite Q; auto. }
    destruct It as (It & Cn & Sy). destruct Ob as (Pb & Lb & _).
    apply (db_driver drain_fuel _ db); auto; cbn.
    - split; apply Pb.
    - unfold queue_of. cbn. now rewrite F.
    - unfold coherent. rewrite It, Cn, Sy. auto.
    - rewrite It, Sb. cbn. lia. }
  destruct Oc as (Oc & Kc & Tc).
  destruct (negb (is_ok e)); [do 2 eexists; split; [reflexivity|]; split; [exact (fail_driver _ _ Oc)|auto]|].
  destruct (add_step c w1 (alpha_pg_socket (pg c)) true (proj1 (proj2 Oc))) as (a2 & w2 & e2 & -> & Q & L2 & _).
  do 2 eexists. split; [reflexivity|]. split; [exact (note_driver _ _ _ (quiet_driver _ _ _ Q L2 Oc))|].
  pose proof (quiet_frame _ _ Q) as Fr.
  unfold note. destruct (is_ok e2); cbn; rewrite (frame_kind _ _ Fr), (frame_total _ _ Fr); auto.
Qed.

(** The states the process goes through: a set up adapter, then events of the loop,
    submissions and failures in any order a run of [main] can have. *)
Inductive driver_run : adapter P C -> W -> Prop :=
  | run_redis case namespace repeat workers a w a' w' :
      new_adapter o case namespace repeat workers = Some a -> kind a = CASE_REDIS ->
      setup_redis o namespace a w = Some (a', w') -> driver_run a' w'
  | run_db case namespace repeat workers a w a' w' :
      new_adapter o case namespace repeat workers = Some a -> kind a = CASE_DB ->
      total a + 2 < Z.of_nat drain_fuel ->
      setup_db o namespace a w = Some (a', w') -> driver_run a' w'
  | run_turn a w d a' w' over :
      driver_run a w -> turn_overruns drain_fuel a w d = Some (a', w', over) -> driver_run a' w'
  | run_submit a w a' w' e :
      driver_run a w -> completed a < total a -> submit_if_idle a w = Some (a', w', e) -> driver_run a' w'
  | run_fail a w : driver_run a w -> driver_run (set_failed a true) w
  | run_clock a w : driver_run a w -> driver_run a (fst (now_ns w)).

Lemma driver_run_ok a w : driver_run a w -> driver_ok drain_fuel a.
Proof.
  induction 1 as [case ns rp wk a w a' w' N K S|case ns rp wk a w a' w' N K Fu S|a w d a' w' over R IH T|
                  a w a' w' e R IH L T|a w R IH|a w R IH].
  - destruct (new_adapter_ok _ _ _ _ _ N) as (O & I & _). apply (setup_redis_ok _ _ _ _ _ O I K S).
  - destruct (new_adapter_ok _ _ _ _ _ N) as (O & I & _).
    destruct (setup_db_ok ns a w O I K Fu) as (b & w2 & E & O2 & _). rewrite E in S. inv S. exact O2.
  - pose proof (turn_step drain_fuel a w d IH) as S. rewrite T in S. apply S.
  - pose proof (submit_if_idle_step drain_fuel a w IH L) as S. rewrite T in S. apply S.
  - exact (fail_driver _ _ IH).
  - exact IH.
Qed.

(** C15: The type invariant of the benchmark's adapter, in every state of a run and whatever
    the servers answer and the loop delivers: the counters stay between 0 and the
    total and at most one operation is outstanding, the token is that operation's,
    the latency array has its size, and the client of the case holds exactly the
    operation in flight (one pending command, or one queued request of the kind its
    reply handler will read). *)
Theorem driver_invariant a w :
  driver_run a w ->
  0 <= completed a <= submitted a /\ submitted a <= total a /\ total a < 2 ^ 64 /\
  submitted a = completed a + one_z (inflight a) /\
  (inflight a = true -> index (token a) = completed a) /\
  Z.of_nat (List.length (latency_ns a)) = total a /\
  match kind a with
  | CASE_DB => match pg a with
               | Some db => pg_inv db (queue_of a) /\ coherent db
               | None => inflight a = false
               end
  | CASE_REDIS => match redis a with
                  | Some r => adapter_ok r /\ Z.of_nat (pending r) = one_z (inflight a)
                  | None => inflight a = false
                  end
  end.
Proof.
  intros R. destruct (driver_run_ok a w R) as (Pr & _ & Cl). pose proof (prog_one _ Pr) as On.
  split; [destruct Pr; unfold one_z in *; destruct (inflight a); lia|].
  do 2 (split; [apply Pr|]). split; [exact On|]. do 2 (split; [apply Pr|]).
  unfold client_ok in Cl. destruct (kind a); [destruct (redis a); tauto|destruct (pg a); tauto].
Qed.

(** ** The trial *)

(** What a successful run means: every operation was submitted, answered as expected
    and timed, and in the database case the replies of the last round are the rows
    of both strategies and their exposure. *)
Record success (a : adapter P C) : Prop := {
  all_completed : completed a = total a;
  none_in_flight : submitted a = total a /\ inflight a = false;
  all_timed : forall i, 0 <= i < total a ->
    exists l, nth_error (latency_ns a) (Z.to_nat i) = Some l /\ 0 < l < 2 ^ 64;
  all_expected : Z.of_nat (List.length (answered a)) = total a /\
    forall i x, nth_error (answered a) i = Some x -> expected a (Z.of_nat i mod OP_COUNT) x;
  last_round : forall i result, nth_error (answered a) i = Some (PG_ANSWER result) ->
    total a - OP_COUNT <= Z.of_nat i -> value result = kept (db_rows a) (exposure a) (Z.of_nat i mod OP_COUNT);
  db_final : kind a = CASE_DB ->
    strategy_id (fst (db_rows a)) = "strategy-a" /\
    pos_quantity (fst (db_rows a)) = 10 /\ current_price (fst (db_rows a)) = 1000 /\
    strategy_id (snd (db_rows a)) = "strategy-b" /\
    pos_quantity (snd (db_rows a)) = 20 /\ current_price (snd (db_rows a)) = 1200 /\
    total_quantity (exposure a) = 30 /\ total_market_value (exposure a) = 34000
}.

Lemma drive_success a : driver_ok drain_fuel a ->
  failed a = false -> completed a = total a -> terminal_matches_service a = true -> success a.
Proof.
  intros (Pr & _ & _) F D M. pose proof (prog_one _ Pr) as On. pose proof (prog_high _ Pr) as Hi.
  destruct (prog_answers _ Pr F) as [Ex Ke]. pose proof (prog_answered _ Pr) as Ln.
  assert (I : inflight a = false) by (unfold one_z in On; destruct (inflight a); [lia|reflexivity]).
  rewrite I in On. cbn in On. split; auto.
  - split; [lia|exact I].
  - rewrite <- D. apply Pr, F.
  - split; [lia|exact Ex].
  - intros i x N B. apply (Ke i x N). lia.
  - intros K. unfold terminal_matches_service in M. rewrite K in M. destruct (db_rows a) as [r0 r1].
    rewrite !andb_true_iff, !String.eqb_eq in M. cbn. zprop. repeat split; tauto || lia.
Qed.

Lemma trial_step fuel a w ok elapsed a' w' :
  driver_ok drain_fuel a -> run_trial drain_fuel fuel a w = Some (ok, elapsed, a', w') ->
  driver_ok drain_fuel a' /\ frame a a' /\ (ok = true -> success a').
Proof.
  intros O E. unfold run_trial in E. destruct (now_ns w) as [w1 now].
  destruct (wait_connection _ _ _ _ _) as [[[up a1] w2]|] eqn:X; [|discriminate].
  destruct (wait_step _ _ _ _ _ _ _ _ O X) as (O1 & F1 & _ & _).
  set (b := if up then a1 else set_failed a1 true) in E.
  assert (Ob : driver_ok drain_fuel b /\ frame a b).
  { subst b. destruct up; [auto|]. split; [exact (fail_driver _ _ O1)|exact (frame_trans _ _ _ F1 (fail_frame a1))]. }
  destruct Ob as [Ob Fb]. destruct (now_ns w2) as [w3 started]. unfold drive in E.
  destruct (drive_loop _ _ _ _ _) as [[a2 w4]|] eqn:Y; [|discriminate].
  destruct (drive_loop_step _ _ _ _ _ _ _ Ob Y) as (O2 & F2 & _ & D).
  destruct (now_ns w4) as [w5 ended]. inv E. split; [exact O2|]. split; [exact (frame_trans _ _ _ Fb F2)|].
  intros M. apply andb_prop in M as [M1 M2]. apply negb_true_iff in M1.
  apply drive_success; auto. destruct D; [congruence|assumption].
Qed.

(** The fuel of the drain loop is enough for the fixture's case. *)
Definition fuel_enough (argv : list string) : Prop :=
  forall args case, parse_arguments argv = Some args ->
    load_case o (fixture_path args) (case_name args) = Some case ->
    u64 (case_repeat case * OP_COUNT) + 2 < Z.of_nat drain_fuel.

Lemma setup_step case namespace repeat workers (a : adapter P C) w a' w' :
  new_adapter o case namespace repeat workers = Some a -> total a + 2 < Z.of_nat drain_fuel ->
  match kind a with CASE_REDIS => setup_redis o namespace a w | CASE_DB => setup_db o namespace a w end = Some (a', w') ->
  driver_ok drain_fuel a' /\ kind a' = kind a /\ total a' = total a.
Proof.
  intros N Fu E. destruct (new_adapter_ok _ _ _ _ _ N) as (O & I & _). destruct (kind a) eqn:K.
  - rewrite <- K. exact (setup_redis_ok _ _ _ _ _ O I K E).
  - rewrite <- K. destruct (setup_db_ok namespace a w O I K Fu) as (b & w2 & F & G). rewrite F in E. inv E. exact G.
Qed.

(** The setup of the case's adapter, before the trial. *)
Definition set_up (args : arguments) (case : case_data) (w : W) : option (adapter P C * W) :=
  let? a := new_adapter o (case_name args) (trial_namespace args) (case_repeat case) (workers args) in
  match kind a with
  | CASE_REDIS => setup_redis o (trial_namespace args) a w
  | CASE_DB => setup_db o (trial_namespace args) a w
  end.

(** C14: A run of the benchmark that exits with 0 has printed the report of its own trial,
    and one that exits otherwise has printed nothing on its standard output.  The
    adapter reported is the one the trial of this command line, started in this
    world, ends with: its operations, three per repetition of the fixture's case (at
    64 bits), were all submitted and each got the reply it expects (OK, the value and
    0 from redis; a row, a row and the exposure 30 and 34000 from postgres), none is
    in flight, each has a positive latency; in the database case the replies of the
    last round are the rows of strategy-a (10 at 1000) and strategy-b (20 at 1200). *)
Theorem main_reports fuel argv w p w' :
  fuel_enough argv -> main (C := C) drain_fuel fuel o argv w = Some (p, w') ->
  (exit_status p = 0 \/ exit_status p = 1 \/ exit_status p = 2) /\
  (exit_status p <> 0 -> stdout p = "") /\
  (exit_status p = 0 ->
    exists args case a1 w1 elapsed (a : adapter P C) w2,
      parse_arguments argv = Some args /\
      load_case o (fixture_path args) (case_name args) = Some case /\
      set_up args case w = Some (a1, w1) /\
      run_trial drain_fuel fuel a1 w1 = Some (true, elapsed, a, w2) /\
      total a = u64 (case_repeat case * OP_COUNT) /\ success a /\
      stdout p = emit (compiler_version o) (ru_maxrss o) a (fixture_hash case) (terminal_hash case)
                   (terminal_json case) elapsed (u64 (timespec_ns (cpu_end o) - timespec_ns (cpu_start o)))
                   (service_hash case) (schema_hash case)).
Proof.
  intros Fu E. unfold main in E.
  match goal with |- ?G => assert (Rj : forall x, Some (rejected argv, x) = Some (p, w') -> G) end.
  { intros x H. inv H. cbn. split; [auto|]. split; [auto|discriminate]. }
  destruct (parse_arguments argv) as [args|] eqn:A; [|exact (Rj _ E)].
  destruct (load_case o _ _) as [case|] eqn:L; [|exact (Rj _ E)].
  destruct (new_adapter o _ _ _ _) as [a|] eqn:N; [|exact (Rj _ E)].
  pose proof (new_adapter_ok _ _ _ _ _ N) as (_ & _ & T).
  destruct (match kind a with CASE_REDIS => _ | CASE_DB => _ end) as [[a1 w1]|] eqn:S; [|discriminate].
  destruct (setup_step _ _ _ _ _ _ _ _ N ltac:(rewrite T; exact (Fu _ _ A L)) S) as (O1 & _ & T1).
  destruct (run_trial drain_fuel fuel a1 w1) as [[[[ok el] a2] w2]|] eqn:R; [|discriminate].
  destruct (trial_step _ _ _ _ _ _ _ O1 R) as (_ & F2 & Su).
  destruct (release o a2 w2) as [[a3 w3]|]; [|discriminate]. destruct ok; inv E; cbn.
  - split; [auto|]. split; [congruence|]. intros _. exists args, case, a1, w1, el, a2, w2.
    split; [reflexivity|]. split; [exact L|]. split; [unfold set_up; now rewrite N|]. split; [exact R|].
    split; [|split; [exact (Su eq_refl)|reflexivity]]. rewrite (frame_total _ _ F2). congruence.
  - split; [auto|]. split; [reflexivity|discriminate].
Qed.

End Run.

(** ** The benchmark ends *)

Section Ends.
Context {P C W : Type} {pq : LibPQ P} {hiredis : HiredisAsync C} {world : World W}.
Context {pipeline : PipelineLaws P} {connecting : ConnectLaws P} {hlaws : HiredisLaws C}.
Context {clock : ClockLaws W}.
Variable drain_fuel : nat.
Variable o : outside (P := P).
Hypothesis fresh : forall s c, PQconnectStart o s = Some c -> items c = [].

Lemma trial_total (a : adapter P C) w :
  driver_ok drain_fuel a -> dependable a ->
  exists n, forall fuel, (n <= fuel)%nat -> exists ok el a' w', run_trial drain_fuel fuel a w = Some (ok, el, a', w').
Proof.
  intros O K. unfold run_trial. pose proof (tick_edge w) as D1. destruct (now_ns w) as [w1 now]. cbn in D1.
  set (d1 := u64 (now + FIVE_SECONDS)) in *.
  destruct (wait_total drain_fuel (S (ticks d1 w1)) a w1 d1 O K D1 ltac:(lia)) as (up & a1 & w2 & E).
  destruct (wait_step _ _ _ _ _ _ _ _ O E) as (O1 & F1 & _ & _).
  set (b := if up then a1 else set_failed a1 true).
  assert (Ob : driver_ok drain_fuel b) by (subst b; destruct up; [exact O1|exact (fail_driver _ _ O1)]).
  assert (Kb : dependable b).
  { pose proof (dependable_frame _ _ F1 K). subst b. now destruct up. }
  pose proof (tick_edge w2) as D2. destruct (now_ns w2) as [w3 started] eqn:Nw. cbn in D2.
  set (d2 := u64 (started + FIVE_SECONDS)) in *.
  exists (Nat.max (S (ticks d1 w1)) (S (ticks d2 w3))). intros fuel L.
  rewrite (wait_more _ _ _ _ _ _ E fuel ltac:(lia)). fold b. rewrite Nw. fold d2. unfold drive.
  destruct (drive_total drain_fuel fuel b w3 d2 Ob Kb D2 ltac:(lia)) as (a2 & w4 & ->).
  destruct (now_ns w4) as [w5 ended]. eauto 6.
Qed.

Lemma setup_total case namespace repeat workers (a : adapter P C) w :
  new_adapter o case namespace repeat workers = Some a -> total a + 2 < Z.of_nat drain_fuel -> dependable a ->
  exists a' w', match kind a with CASE_REDIS => setup_redis o namespace a w | CASE_DB => setup_db o namespace a w end
    = Some (a', w').
Proof.
  intros N Fu D. destruct (new_adapter_ok drain_fuel o _ _ _ _ _ N) as (O & I & _). destruct (kind a) eqn:K.
  - exact (setup_redis_defined drain_fuel o namespace a w O I (D K)).
  - destruct (setup_db_ok drain_fuel o fresh namespace a w O I K Fu) as (a' & w' & E & _). eauto.
Qed.

Lemma release_total (a : adapter P C) w :
  driver_ok drain_fuel a -> dependable a -> exists a' w', release o a w = Some (a', w').
Proof.
  intros (_ & L & Cl) D. unfold release, client_ok in *. destruct (kind a) eqn:K.
  2:{ destruct (pg_cleanup w _ _) as [w1 c]. eauto. }
  specialize (D K). destruct (redis a) as [r|]; [|cbn; eauto]. destruct Cl as (_ & _ & H).
  destruct (close_held r (H D)) as (ns & -> & S). specialize (S (steady_free _ _ D)).
  destruct (notices_defined ns a w L S) as (a1 & w1 & -> & _). eauto.
Qed.

Lemma parsed_case argv args : parse_arguments argv = Some args -> arg_value argv "--case" = Some (case_name args).
Proof.
  unfold parse_arguments. destruct (arg_value argv "--fixture"); [|discriminate].
  destruct (arg_value argv "--case"); [|discriminate]. destruct (arg_value argv "--concurrency"); [|discriminate].
  destruct (arg_value argv "--trial"); [|discriminate]. destruct (strtoul _) as [v rest].
  destruct (_ || _); [discriminate|]. intros A. inv A. reflexivity.
Qed.

Lemma redis_kind case namespace repeat workers (a : adapter P C) :
  new_adapter o case namespace repeat workers = Some a -> kind a = CASE_REDIS -> case = "redis-hot-path".
Proof.
  unfold new_adapter. destruct (_ || _); [discriminate|]. destruct (negb _); [discriminate|].
  destruct (alpha_lws_runtime_create _ _ _ _ _) as [[] [[rt|]|]]; intros N; inv N. cbn.
  destruct (String.eqb case "redis-hot-path") eqn:E; [|discriminate]. intros _. now apply String.eqb_eq.
Qed.

(** C16: With libpq's pipeline contract and a clock that advances, the benchmark always
    ends: whatever the servers answer, the loop delivers and the fixture holds, [main]
    is defined and returns once its two waits have fuel for the readings that fit in
    their five seconds.  The redis case needs a server that accepts connections and
    timers that fit their type, since a refused connection is used after it was freed. *)
Theorem main_returns argv w :
  fuel_enough drain_fuel o argv -> (arg_value argv "--case" = Some "redis-hot-path" -> calm (C := C)) ->
  exists n, forall fuel, (n <= fuel)%nat ->
    exists p w', main (C := C) drain_fuel fuel o argv w = Some (p, w').
Proof.
  intros Fu R. unfold main. unfold fuel_enough in Fu. destruct (parse_arguments argv) as [args|] eqn:A; [|exists O; eauto].
  rewrite (parsed_case _ _ A) in R.
  destruct (load_case o _ _) as [case|] eqn:L; [|exists O; eauto]. specialize (Fu _ _ eq_refl L).
  destruct (new_adapter o _ _ _ _) as [a|] eqn:N; [|exists O; eauto].
  destruct (new_adapter_ok drain_fuel o _ _ _ _ _ N) as (_ & _ & T). rewrite <- T in Fu.
  assert (D : dependable a) by (intros K; apply R; f_equal; exact (redis_kind _ _ _ _ _ N K)).
  destruct (setup_total _ _ _ _ _ w N Fu D) as (a1 & w1 & S). rewrite S.
  destruct (setup_step drain_fuel o fresh _ _ _ _ _ _ _ _ N Fu S) as (O1 & K1 & _).
  assert (D1 : dependable a1) by (unfold dependable; now rewrite K1).
  destruct (trial_total a1 w1 O1 D1) as (n & H). exists n. intros fuel Le.
  destruct (H fuel Le) as (ok & el & a2 & w2 & E). rewrite E.
  destruct (trial_step _ _ _ _ _ _ _ _ O1 E) as (O2 & F2 & _).
  destruct (release_total a2 w2 O2 (dependable_frame _ _ F2 D1)) as (a3 & w3 & ->). destruct ok; eauto.
Qed.

End Ends.

(** ** A machine on which the benchmark runs *)

(** The server echoes a stored row and reports the exposure of the two rows. *)
Record bench_conn := { bench_deliveries : list (option PGresult); bench_arrived : nat }.

Definition bench_answer (sql : string) (ps : list string) : PGresult :=
  if String.eqb sql EXPOSURE_SQL then row PGRES_TUPLES_OK [nth 0 ps ""; "30"; "34000"; "34000"; "2"]
  else row PGRES_TUPLES_OK ps.

#[export] Instance bench_pq : LibPQ bench_conn := {|
  PQstatus_bad c := false;
  PQsetnonblocking c := (c, 0);
  PQsocket c := 3;
  PQconnectPoll c := (c, PGRES_POLLING_OK);
  PQenterPipelineMode c := (c, 1);
  PQpipelineSync c :=
    ({| bench_deliveries := bench_deliveries c ++ [Some (row PGRES_PIPELINE_SYNC [])];
        bench_arrived := bench_arrived c |}, 1);
  PQflush c := (c, 0);
  PQconsumeInput c := ({| bench_deliveries := bench_deliveries c; bench_arrived := List.length (bench_deliveries c) |}, 1);
  PQisBusy c := negb (List.length (bench_deliveries c) =? 0)%nat && (bench_arrived c =? 0)%nat;
  PQgetResult c :=
    match bench_deliveries c with
    | [] => (c, None)
    | i :: rest => ({| bench_deliveries := rest; bench_arrived := bench_arrived c - 1 |}, i)
    end;
  PQsendQueryParams c sql ps :=
    ({| bench_deliveries := bench_deliveries c ++ [Some (bench_answer sql ps); None]; bench_arrived := bench_arrived c |}, 1);
  PQerrorMessage c := ""
|}.

#[export] Instance bench_pipeline : PipelineLaws bench_conn.
Proof.
  refine {| items := bench_deliveries |}.
  - intros c _. cbn. destruct (bench_deliveries c) as [|i rest]; [destruct c; reflexivity|].
    eexists. split; reflexivity.
  - reflexivity.
  - reflexivity.
  - intros c sql ps c' r E. inv E. cbn. eexists. split; [|reflexivity]. unfold bench_answer.
    destruct (String.eqb sql EXPOSURE_SQL); reflexivity.
  - intros c c' r E. inv E. cbn. eexists. split; [|reflexivity]. reflexivity.
Defined.

#[export] Instance bench_connect : ConnectLaws bench_conn.
Proof. split; reflexivity. Defined.

(** One nanosecond per reading, then the end of time. *)
Definition bench_reading (w : nat) : Z := if Z.of_nat w <? 2 ^ 62 then Z.of_nat w else 2 ^ 64 - 1.

#[export] Instance bench_world : World nat := {|
  clock_gettime w := (S w, Some (0, bench_reading w));
  lws_callback_on_writable w := (w, 0);
  lws_adopt w := (w, (9, Some 1));
  lws_service w := (w, [LoopWakeup; LoopCallback 1 LWS_CALLBACK_RAW_RX_FILE], 0);
  PQconnectdb w s := (w, true);
  PQexecParams w sql ps := (w, true)
|}.

Lemma bench_now w : now_ns w = (S w, bench_reading w).
Proof.
  unfold now_ns. cbn. f_equal. unfold bench_reading. rewrite (u64_small (if Z.of_nat w <? 2 ^ 62 then Z.of_nat w else 2 ^ 64 - 1)) by (break_if; zprop; lia).
  rewrite u64_small; [reflexivity|]. break_if; zprop; lia.
Qed.

Definition bench_end : Z := 2 ^ 62.
Definition bench_ticks (w : nat) : nat := Z.to_nat (bench_end - Z.of_nat w).

Lemma bench_ticks_step w : (bench_ticks (S w) <= bench_ticks w)%nat.
Proof. unfold bench_ticks. lia. Qed.

Lemma bench_ticks_less w d : d < 2 ^ 64 - 1 -> bench_reading w <= d -> (bench_ticks (S w) < bench_ticks w)%nat.
Proof. unfold bench_ticks, bench_reading, bench_end. intros D. break_if; zprop; lia. Qed.

Lemma bench_edge w : u64 (bench_reading w + FIVE_SECONDS) < 2 ^ 64 - 1.
Proof.
  unfold bench_reading, FIVE_SECONDS. break_if; zprop; [rewrite u64_small; lia|vm_compute; reflexivity].
Qed.

#[export] Instance bench_clock : ClockLaws nat.
Proof.
  refine {| ticks d w := bench_ticks w |}.
  - intros w. rewrite bench_now. apply bench_edge.
  - intros d w D. rewrite bench_now. now apply bench_ticks_less.
  - intros _ w. apply bench_ticks_step.
  - intros _ w. apply Nat.le_refl.
  - intros _ w. apply Nat.le_refl.
  - intros _ w. apply Nat.le_refl.
Defined.

Definition bench_document : yyjson_val :=
  JObj [("contract", JObj [("service_config_sha256", JStr "5e"); ("schema_sha256", JStr "5c")]);
        ("cases", JObj [("db-read-write", JObj [("terminal", JObj []); ("terminal_sha256", JStr "7e");
                                                ("repeat", JUint 2); ("pipeline_depth", JUint 1)]);
                        ("redis-hot-path", JObj [("terminal", JObj []); ("terminal_sha256", JStr "7e");
                                                 ("repeat", JUint 2); ("pipeline_depth", JUint 1)])])].

Definition bench_outside : outside (P := bench_conn) :=
  {| fread_file path := Some ("fixture", true); file_alloc := true;
     EVP_Digest bytes := Some (List.repeat 171 32); yyjson_read bytes := Some bench_document;
     yyjson_val_write v := Some "{}"; latency_alloc := true; runtime_alloc := (true, true); lws_context := true;
     lws_vhost := true; redis_alloc := (true, true); pg_alloc := (true, true);
     PQconnectStart s := Some {| bench_deliveries := []; bench_arrived := 0 |}; postgres_url := None;
     cpu_start := (0, 0); cpu_end := (0, 1); compiler_version := "cc"; ru_maxrss := 1 |}.

Definition bench_argv : list string :=
  ["driver"; "--fixture"; "f.json"; "--case"; "db-read-write"; "--concurrency"; "8"; "--trial"; "1"].

Lemma bench_fresh s c : PQconnectStart bench_outside s = Some c -> items c = [].
Proof. intros E. inv E. reflexivity. Qed.

Lemma bench_fuel : fuel_enough 20 bench_outside bench_argv.
Proof. intros args case A L. vm_compute in A. inv A. vm_compute in L. inv L. vm_compute. reflexivity. Qed.

(** ** Witnesses *)

Lemma driver_invariant_witness :
  exists (a : adapter bench_conn ref_ctx) w, driver_run 20 bench_outside a w /\ inflight a = true /\
    submitted a = completed a + 1 /\ index (token a) = completed a.
Proof.
  let x := eval vm_compute in (new_adapter (C := ref_ctx) bench_outside "db-read-write" "trial" 2 8) in
  match x with Some ?a =>
    let y := eval vm_compute in (setup_db bench_outside "trial" a 1%nat) in
    match y with Some (?b, ?v) =>
      let z := eval vm_compute in (turn_overruns 20 b v 1000) in
      match z with Some (?c, ?u, ?over) =>
        let s := eval vm_compute in (submit_if_idle c u) in
        match s with Some (?d, ?t, ?e) =>
          exists d, t; assert (R : driver_run 20 bench_outside d t);
          [ apply (run_submit 20 bench_outside c u d t e);
            [ apply (run_turn 20 bench_outside b v 1000 c u over);
              [ apply (run_db 20 bench_outside "db-read-write" "trial" 2 8 a 1%nat b v);
                vm_compute; reflexivity
              | vm_compute; reflexivity ]
            | vm_compute; reflexivity | vm_compute; reflexivity ]
          | split; [exact R|];
            destruct (driver_invariant 20 bench_outside bench_fresh d t R) as (_ & _ & _ & A & B & _);
            split; [reflexivity|]; split; [exact A|exact (B eq_refl)] ]
        end
      end
    end
  end.
Defined.

(** The trial of the reference machine: two rounds, their six replies as expected. *)
Lemma main_reports_witness :
  exists p w' (a1 a : adapter bench_conn ref_ctx) w1 el w2,
    main (C := ref_ctx) 20 60 bench_outside bench_argv 1%nat = Some (p, w') /\ exit_status p = 0 /\
    run_trial 20 60 a1 w1 = Some (true, el, a, w2) /\ success a /\ List.length (answered a) = 6%nat /\
    strategy_id (snd (db_rows a)) = "strategy-b".
Proof.
  destruct (main (C := ref_ctx) 20 60 bench_outside bench_argv 1%nat) as [[p w']|] eqn:E.
  - assert (S : exit_status p = 0)
      by (assert (G : option_map (fun r => exit_status (fst r)) (main (C := ref_ctx) 20 60 bench_outside bench_argv 1%nat)
                      = Some 0) by (vm_compute; reflexivity); rewrite E in G; now inv G).
    destruct (main_reports 20 bench_outside bench_fresh 60 bench_argv 1%nat p w' bench_fuel E) as (_ & _ & R).
    destruct (R S) as (args & case & a1 & w1 & el & a & w2 & A & L & U & Tr & T & Su & _).
    exists p, w', a1, a, w1, el, w2. do 3 (split; [auto|]). split; [exact Su|].
    vm_compute in A. inv A. vm_compute in L. inv L. vm_compute in U. inv U.
    vm_compute in Tr. inv Tr. split; reflexivity.
  - vm_compute in E. discriminate.
Defined.

(** The reference redis server accepts connections at this address. *)
Lemma ref_calm : calm (C := ref_ctx).
Proof.
  assert (M : forall x q, short_timers (List.map (EvReplied x) q)).
  { intros x q. induction q; constructor; auto. }
  assert (T : forall x q tail, short_timers tail -> short_timers (List.map (EvReplied x) q ++ tail)).
  { intros x q tail H. apply Forall_app. split; [apply M|exact H]. }
  split.
  - intros c E. inv E. reflexivity.
  - repeat constructor.
  - constructor.
  - intros h N c. cbn in N. destruct N as [<-|[<-|[<-|[]]]]; cbn; [apply M| |].
    + destruct (established c); [repeat constructor|]. destruct (refused c); cbn; [|repeat constructor].
      constructor; [exact I|]. apply T. repeat constructor.
    + destruct (established c); cbn; [|constructor]. apply T. repeat constructor.
  - repeat constructor.
  - intros c. cbn. apply T. repeat constructor.
Qed.

Definition bench_redis_argv : list string :=
  ["driver"; "--fixture"; "f.json"; "--case"; "redis-hot-path"; "--concurrency"; "8"; "--trial"; "1"].

Lemma bench_redis_fuel : fuel_enough 20 bench_outside bench_redis_argv.
Proof. intros args case A L. vm_compute in A. inv A. vm_compute in L. inv L. vm_compute. reflexivity. Qed.

(** Both cases on the reference machine.  Its redis server answers OK to everything, so
    that the trial of the redis case fails at the first GET; it returns all the same. *)
Lemma main_returns_witness :
  (exists n, forall fuel, (n <= fuel)%nat ->
    exists p w', main (C := ref_ctx) 20 fuel bench_outside bench_argv 1%nat = Some (p, w')) /\
  (exists n, forall fuel, (n <= fuel)%nat ->
    exists p w', main (C := ref_ctx) 20 fuel bench_outside bench_redis_argv 1%nat = Some (p, w')).
Proof.
  split; apply (main_returns 20 bench_outside bench_fresh).
  - exact bench_fuel.
  - discriminate.
  - exact bench_redis_fuel.
  - intros _. exact ref_calm.
Defined.

Lemma redis_commands_exact_witness :
  exists a : adapter bench_conn ref_ctx,
    redis_argv a 2 = ["EXISTS"; "hard_stop:lockout:trial"].
Proof.
  let x := eval vm_compute in (new_adapter (P := bench_conn) (C := ref_ctx) bench_outside "redis-hot-path" "trial" 1 1) in
  match x with Some ?a => exists (set_ticker a ("005930:" ++ print_hex 8 (namespace_hash "trial"))%string) end.
  rewrite (redis_commands_exact _ "trial" 2); try reflexivity; vm_compute; try reflexivity; try lia. discriminate.
Defined.
