(* ===== verification/Spike.v ===== *)
(** * The single-loop feasibility spike

    Models [spike/event_loop/main.c]: one libwebsockets timer that polls a libpq
    connection, a hiredis context and the sockets of a curl multi handle, and the
    flags that record what each of them has shown.

    The libraries are the class [Machine], whose state also holds their handles.  A
    call that can run callbacks is entered, and then [redis_next] and [curl_next] run
    it on to its next callback: the application's code runs in between and may call
    the library again, as it does in the program.  [None] is undefined behaviour (a
    freed context, an index outside an array) or the end of the fuel of such a run. *)

From Stdlib Require Import ZArith Lia Bool Ascii String List.
From S2P Require Import Prelude CStr RedisCache Postgres.
Import ListNotations.
Open Scope string_scope.
Open Scope list_scope.
Open Scope Z_scope.

Definition QUEUE_CAPACITY : nat := 4.
Definition RUN_TIMEOUT_SECONDS : Z := 20.
Definition CURL_WATCHES : nat := 16.
Definition POLL_SLOTS : nat := 18.

Inductive owner_t := OWNER_PG | OWNER_REDIS | OWNER_CURL.

(** The back pointer to the only application is dropped. *)
Record watched_fd_t := { owner : owner_t; wsi : option Z; fd : Z; watch_action : Z }.

Record request_t := { id : Z; cancelled : bool }.

(** ** The libraries *)

Inductive exec_status :=
  | EXEC_TUPLES_OK | EXEC_FATAL_ERROR | EXEC_PIPELINE_ABORTED | EXEC_PIPELINE_SYNC | EXEC_OTHER.
Record pg_result := { status : exec_status; ntuples : Z; first_value : string }.

(** The hooks and callbacks hiredis runs, with the context they are run for. *)
Inductive redis_event :=
  | HookAddRead | HookDelRead | HookAddWrite | HookDelWrite | HookCleanup
  | HookTimer (tv_sec tv_usec : Z)
  | CallConnect (ctx : Z) (ok : bool)
  | CallDisconnect (ctx : Z)
  | CallReply (ctx : Z) (reply : option redisReply).

(** The callbacks curl runs; a socket comes with the watch assigned to it. *)
Inductive curl_event :=
  | CallSocket (socket what : Z) (assigned : option nat)
  | CallTimer (timeout_ms : Z).

(** A message of the multi handle: whether it is [CURLMSG_DONE], the result is
    [CURLE_OK], and the response code. *)
Record curl_message := { msg_done : bool; msg_ok : bool; response_code : Z }.

Class Machine (W : Type) := {
  spike_connectPoll : W -> W * PostgresPollingStatusType;
  spike_enterPipelineMode : W -> W * Z;
  spike_sendQuery : string -> W -> W * Z;
  spike_sendFlushRequest : W -> W * Z;
  spike_pipelineSync : W -> W * Z;
  spike_consumeInput : W -> W * Z;
  spike_isBusy : W -> bool;
  spike_getResult : W -> W * option pg_result;
  spike_flush : W -> W * Z;
  spike_socket : W -> Z;
  redis_live : W -> Z -> bool;
  redis_err : W -> Z -> Z;
  redis_fd : W -> Z -> Z;
  redis_connect : W -> string -> Z -> W * option Z;
  redis_set_connect : W -> Z -> W * bool;
  redis_set_disconnect : W -> Z -> W * bool;
  redis_read : W -> Z -> W;
  redis_write : W -> Z -> W;
  redis_timeout : W -> Z -> W;
  redis_next : W -> W * option redis_event;
  redis_command : W -> Z -> string -> bool -> W * bool;
  redis_close : W -> Z -> W;
  curl_socket_action : W -> Z -> Z -> W;
  curl_next : W -> W * (curl_event + Z);
  curl_answer : W -> Z -> W;
  curl_assign : W -> Z -> option nat -> W;
  curl_info : W -> W * option curl_message;
  poll_now : W -> list (Z * Z) -> W * option (list Z);
  lws_run : W -> W * bool * Z;
  time_now : W -> W * Z;
  environment : string -> option string
}.

(** The bits of [poll.h] and [multi.h]. *)
Definition POLLIN : Z := 1.
Definition POLLOUT : Z := 4.
Definition POLLERR : Z := 8.
Definition POLLHUP : Z := 16.
Definition CURL_POLL_IN : Z := 1.
Definition CURL_POLL_OUT : Z := 2.
Definition CURL_POLL_REMOVE : Z := 4.
Definition CURL_CSELECT_IN : Z := 1.
Definition CURL_CSELECT_OUT : Z := 2.
Definition CURL_SOCKET_TIMEOUT : Z := -1.
Definition CURLM_OK : Z := 0.

Definition has (value mask : Z) : bool := negb (Z.land value mask =? 0).

(** ** The application *)

(** The handles of libwebsockets, libpq and curl are in the machine; [redis] is the
    handle of a hiredis context and [tick] whether the timer is scheduled. *)
Record app_t := {
  pg_watch : watched_fd_t;
  pg_state : Z;
  pg_roundtrip : bool;
  pg_abort_seen : bool;
  pg_sync_seen : bool;
  pg_recovered : bool;
  redis : option Z;
  redis_watch : watched_fd_t;
  redis_generation : Z;
  redis_roundtrip : bool;
  redis_disconnect : bool;
  redis_recovered : bool;
  curl_watches : list watched_fd_t;
  curl_watch_count : nat;
  curl_roundtrip : bool;
  curl_status : Z;
  queue : list request_t;
  queue_len : nat;
  backpressure : bool;
  cancellation : bool;
  request_match : bool;
  clean_shutdown : bool;
  failed : bool;
  started : Z;
  tick : bool
}.

Definition set_pg_state (a : app_t) (x : Z) : app_t :=
  {| pg_watch := pg_watch a; pg_state := x; pg_roundtrip := pg_roundtrip a; pg_abort_seen :=
     pg_abort_seen a; pg_sync_seen := pg_sync_seen a; pg_recovered := pg_recovered a; redis := redis
     a; redis_watch := redis_watch a; redis_generation := redis_generation a; redis_roundtrip :=
     redis_roundtrip a; redis_disconnect := redis_disconnect a; redis_recovered := redis_recovered
     a; curl_watches := curl_watches a; curl_watch_count := curl_watch_count a; curl_roundtrip :=
     curl_roundtrip a; curl_status := curl_status a; queue := queue a; queue_len := queue_len a;
     backpressure := backpressure a; cancellation := cancellation a; request_match := request_match
     a; clean_shutdown := clean_shutdown a; failed := failed a; started := started a; tick := tick a |}.
Definition set_pg_watch (a : app_t) (x : watched_fd_t) : app_t :=
  {| pg_watch := x; pg_state := pg_state a; pg_roundtrip := pg_roundtrip a; pg_abort_seen :=
     pg_abort_seen a; pg_sync_seen := pg_sync_seen a; pg_recovered := pg_recovered a; redis := redis
     a; redis_watch := redis_watch a; redis_generation := redis_generation a; redis_roundtrip :=
     redis_roundtrip a; redis_disconnect := redis_disconnect a; redis_recovered := redis_recovered
     a; curl_watches := curl_watches a; curl_watch_count := curl_watch_count a; curl_roundtrip :=
     curl_roundtrip a; curl_status := curl_status a; queue := queue a; queue_len := queue_len a;
     backpressure := backpressure a; cancellation := cancellation a; request_match := request_match
     a; clean_shutdown := clean_shutdown a; failed := failed a; started := started a; tick := tick a |}.
Definition set_pg_flags (a : app_t) (roundtrip abort sync recovered : bool) : app_t :=
  {| pg_watch := pg_watch a; pg_state := pg_state a; pg_roundtrip := roundtrip; pg_abort_seen :=
     abort; pg_sync_seen := sync; pg_recovered := recovered; redis := redis a; redis_watch :=
     redis_watch a; redis_generation := redis_generation a; redis_roundtrip := redis_roundtrip a;
     redis_disconnect := redis_disconnect a; redis_recovered := redis_recovered a; curl_watches :=
     curl_watches a; curl_watch_count := curl_watch_count a; curl_roundtrip := curl_roundtrip a;
     curl_status := curl_status a; queue := queue a; queue_len := queue_len a; backpressure :=
     backpressure a; cancellation := cancellation a; request_match := request_match a;
     clean_shutdown := clean_shutdown a; failed := failed a; started := started a; tick := tick a |}.
Definition set_redis (a : app_t) (x : option Z) (watch : watched_fd_t) : app_t :=
  {| pg_watch := pg_watch a; pg_state := pg_state a; pg_roundtrip := pg_roundtrip a; pg_abort_seen
     := pg_abort_seen a; pg_sync_seen := pg_sync_seen a; pg_recovered := pg_recovered a; redis := x;
     redis_watch := watch; redis_generation := redis_generation a; redis_roundtrip :=
     redis_roundtrip a; redis_disconnect := redis_disconnect a; redis_recovered := redis_recovered
     a; curl_watches := curl_watches a; curl_watch_count := curl_watch_count a; curl_roundtrip :=
     curl_roundtrip a; curl_status := curl_status a; queue := queue a; queue_len := queue_len a;
     backpressure := backpressure a; cancellation := cancellation a; request_match := request_match
     a; clean_shutdown := clean_shutdown a; failed := failed a; started := started a; tick := tick a |}.
Definition set_generation (a : app_t) (x : Z) : app_t :=
  {| pg_watch := pg_watch a; pg_state := pg_state a; pg_roundtrip := pg_roundtrip a; pg_abort_seen
     := pg_abort_seen a; pg_sync_seen := pg_sync_seen a; pg_recovered := pg_recovered a; redis :=
     redis a; redis_watch := redis_watch a; redis_generation := x; redis_roundtrip :=
     redis_roundtrip a; redis_disconnect := redis_disconnect a; redis_recovered := redis_recovered
     a; curl_watches := curl_watches a; curl_watch_count := curl_watch_count a; curl_roundtrip :=
     curl_roundtrip a; curl_status := curl_status a; queue := queue a; queue_len := queue_len a;
     backpressure := backpressure a; cancellation := cancellation a; request_match := request_match
     a; clean_shutdown := clean_shutdown a; failed := failed a; started := started a; tick := tick a |}.
Definition set_redis_flags (a : app_t) (roundtrip disconnect recovered : bool) : app_t :=
  {| pg_watch := pg_watch a; pg_state := pg_state a; pg_roundtrip := pg_roundtrip a; pg_abort_seen
     := pg_abort_seen a; pg_sync_seen := pg_sync_seen a; pg_recovered := pg_recovered a; redis :=
     redis a; redis_watch := redis_watch a; redis_generation := redis_generation a; redis_roundtrip
     := roundtrip; redis_disconnect := disconnect; redis_recovered := recovered; curl_watches :=
     curl_watches a; curl_watch_count := curl_watch_count a; curl_roundtrip := curl_roundtrip a;
     curl_status := curl_status a; queue := queue a; queue_len := queue_len a; backpressure :=
     backpressure a; cancellation := cancellation a; request_match := request_match a;
     clean_shutdown := clean_shutdown a; failed := failed a; started := started a; tick := tick a |}.
Definition set_watches (a : app_t) (x : list watched_fd_t) (n : nat) : app_t :=
  {| pg_watch := pg_watch a; pg_state := pg_state a; pg_roundtrip := pg_roundtrip a; pg_abort_seen
     := pg_abort_seen a; pg_sync_seen := pg_sync_seen a; pg_recovered := pg_recovered a; redis :=
     redis a; redis_watch := redis_watch a; redis_generation := redis_generation a; redis_roundtrip
     := redis_roundtrip a; redis_disconnect := redis_disconnect a; redis_recovered :=
     redis_recovered a; curl_watches := x; curl_watch_count := n; curl_roundtrip := curl_roundtrip
     a; curl_status := curl_status a; queue := queue a; queue_len := queue_len a; backpressure :=
     backpressure a; cancellation := cancellation a; request_match := request_match a;
     clean_shutdown := clean_shutdown a; failed := failed a; started := started a; tick := tick a |}.
Definition set_curl (a : app_t) (roundtrip : bool) (status : Z) : app_t :=
  {| pg_watch := pg_watch a; pg_state := pg_state a; pg_roundtrip := pg_roundtrip a; pg_abort_seen
     := pg_abort_seen a; pg_sync_seen := pg_sync_seen a; pg_recovered := pg_recovered a; redis :=
     redis a; redis_watch := redis_watch a; redis_generation := redis_generation a; redis_roundtrip
     := redis_roundtrip a; redis_disconnect := redis_disconnect a; redis_recovered :=
     redis_recovered a; curl_watches := curl_watches a; curl_watch_count := curl_watch_count a;
     curl_roundtrip := roundtrip; curl_status := status; queue := queue a; queue_len := queue_len a;
     backpressure := backpressure a; cancellation := cancellation a; request_match := request_match
     a; clean_shutdown := clean_shutdown a; failed := failed a; started := started a; tick := tick a |}.
Definition set_queue (a : app_t) (x : list request_t) (n : nat) : app_t :=
  {| pg_watch := pg_watch a; pg_state := pg_state a; pg_roundtrip := pg_roundtrip a; pg_abort_seen
     := pg_abort_seen a; pg_sync_seen := pg_sync_seen a; pg_recovered := pg_recovered a; redis :=
     redis a; redis_watch := redis_watch a; redis_generation := redis_generation a; redis_roundtrip
     := redis_roundtrip a; redis_disconnect := redis_disconnect a; redis_recovered :=
     redis_recovered a; curl_watches := curl_watches a; curl_watch_count := curl_watch_count a;
     curl_roundtrip := curl_roundtrip a; curl_status := curl_status a; queue := x; queue_len := n;
     backpressure := backpressure a; cancellation := cancellation a; request_match := request_match
     a; clean_shutdown := clean_shutdown a; failed := failed a; started := started a; tick := tick a |}.
Definition set_queue_flags (a : app_t) (back cancel match_ : bool) : app_t :=
  {| pg_watch := pg_watch a; pg_state := pg_state a; pg_roundtrip := pg_roundtrip a; pg_abort_seen
     := pg_abort_seen a; pg_sync_seen := pg_sync_seen a; pg_recovered := pg_recovered a; redis :=
     redis a; redis_watch := redis_watch a; redis_generation := redis_generation a; redis_roundtrip
     := redis_roundtrip a; redis_disconnect := redis_disconnect a; redis_recovered :=
     redis_recovered a; curl_watches := curl_watches a; curl_watch_count := curl_watch_count a;
     curl_roundtrip := curl_roundtrip a; curl_status := curl_status a; queue := queue a; queue_len
     := queue_len a; backpressure := back; cancellation := cancel; request_match := match_;
     clean_shutdown := clean_shutdown a; failed := failed a; started := started a; tick := tick a |}.
Definition set_failed (a : app_t) (x : bool) : app_t :=
  {| pg_watch := pg_watch a; pg_state := pg_state a; pg_roundtrip := pg_roundtrip a; pg_abort_seen
     := pg_abort_seen a; pg_sync_seen := pg_sync_seen a; pg_recovered := pg_recovered a; redis :=
     redis a; redis_watch := redis_watch a; redis_generation := redis_generation a; redis_roundtrip
     := redis_roundtrip a; redis_disconnect := redis_disconnect a; redis_recovered :=
     redis_recovered a; curl_watches := curl_watches a; curl_watch_count := curl_watch_count a;
     curl_roundtrip := curl_roundtrip a; curl_status := curl_status a; queue := queue a; queue_len
     := queue_len a; backpressure := backpressure a; cancellation := cancellation a; request_match
     := request_match a; clean_shutdown := clean_shutdown a; failed := x; started := started a; tick
     := tick a |}.
Definition set_shutdown (a : app_t) (x : bool) : app_t :=
  {| pg_watch := pg_watch a; pg_state := pg_state a; pg_roundtrip := pg_roundtrip a; pg_abort_seen
     := pg_abort_seen a; pg_sync_seen := pg_sync_seen a; pg_recovered := pg_recovered a; redis :=
     redis a; redis_watch := redis_watch a; redis_generation := redis_generation a; redis_roundtrip
     := redis_roundtrip a; redis_disconnect := redis_disconnect a; redis_recovered :=
     redis_recovered a; curl_watches := curl_watches a; curl_watch_count := curl_watch_count a;
     curl_roundtrip := curl_roundtrip a; curl_status := curl_status a; queue := queue a; queue_len
     := queue_len a; backpressure := backpressure a; cancellation := cancellation a; request_match
     := request_match a; clean_shutdown := x; failed := failed a; started := started a; tick := tick
     a |}.
Definition set_tick (a : app_t) (x : bool) : app_t :=
  {| pg_watch := pg_watch a; pg_state := pg_state a; pg_roundtrip := pg_roundtrip a; pg_abort_seen
     := pg_abort_seen a; pg_sync_seen := pg_sync_seen a; pg_recovered := pg_recovered a; redis :=
     redis a; redis_watch := redis_watch a; redis_generation := redis_generation a; redis_roundtrip
     := redis_roundtrip a; redis_disconnect := redis_disconnect a; redis_recovered :=
     redis_recovered a; curl_watches := curl_watches a; curl_watch_count := curl_watch_count a;
     curl_roundtrip := curl_roundtrip a; curl_status := curl_status a; queue := queue a; queue_len
     := queue_len a; backpressure := backpressure a; cancellation := cancellation a; request_match
     := request_match a; clean_shutdown := clean_shutdown a; failed := failed a; started := started
     a; tick := x |}.

Definition zero_watch : watched_fd_t := {| owner := OWNER_PG; wsi := None; fd := 0; watch_action := 0 |}.

(** [app_t app = {0}], with the start time. *)
Definition zero_app (now : Z) : app_t :=
  {| pg_watch := zero_watch; pg_state := 0; pg_roundtrip := false; pg_abort_seen := false; pg_sync_seen := false;
     pg_recovered := false; redis := None; redis_watch := zero_watch; redis_generation := 0;
     redis_roundtrip := false; redis_disconnect := false; redis_recovered := false;
     curl_watches := repeat zero_watch CURL_WATCHES; curl_watch_count := 0; curl_roundtrip := false;
     curl_status := 0; queue := repeat {| id := 0; cancelled := false |} QUEUE_CAPACITY; queue_len := 0;
     backpressure := false; cancellation := false; request_match := false; clean_shutdown := false;
     failed := false; started := now; tick := false |}.

(** The message goes to stderr; waking the loop changes nothing else. *)
Definition fail (a : app_t) : app_t := set_failed a true.

Definition register_socket (watch : watched_fd_t) (socket : Z) : watched_fd_t :=
  {| owner := owner watch; wsi := wsi watch; fd := socket; watch_action := watch_action watch |}.

Definition complete (a : app_t) : bool :=
  pg_roundtrip a && pg_abort_seen a && pg_sync_seen a && pg_recovered a && redis_roundtrip a &&
  redis_disconnect a && redis_recovered a && curl_roundtrip a && backpressure a && cancellation a &&
  request_match a.

(** ** The request queue *)

Fixpoint fill_queue (ids : list Z) (a : app_t) : option app_t :=
  match ids with
  | [] => Some a
  | i :: ids =>
      if (queue_len a <? QUEUE_CAPACITY)%nat then
        fill_queue ids (set_queue a (list_set (queue a) (queue_len a) {| id := i; cancelled := i =? 2 |})
                                  (queue_len a + 1))
      else None
  end.

(** The rest of the scan from position [i]; the flag says that it was not cut short. *)
Fixpoint scan_queue (n i : nat) (a : app_t) : option (app_t * bool) :=
  match n with
  | O => Some (a, true)
  | S n =>
      let? r := nth_error (queue a) i in
      if cancelled r then scan_queue n (S i) (set_queue_flags a (backpressure a) true (request_match a))
      else if negb (id r =? Z.of_nat i + 1) then Some (fail a, false)
      else scan_queue n (S i) a
  end.

Definition exercise_queue (a : app_t) : option app_t :=
  let? a := fill_queue (List.map Z.of_nat (seq 1 QUEUE_CAPACITY)) a in
  let a := if (queue_len a =? QUEUE_CAPACITY)%nat
           then set_queue_flags a true (cancellation a) (request_match a) else a in
  let? (a, whole) := scan_queue (queue_len a) 0 a in
  Some (if whole : bool then set_queue_flags a (backpressure a) (cancellation a) true else a).

Section Spike.
Context {W : Type} {machine : Machine W}.

(** The turns given to each run of callbacks and to the result loop. *)
Variable fuel : nat.

(** ** PostgreSQL *)

(** [f () != 1 || g () != 1 || ...] stops at the first call that fails. *)
Fixpoint all_sent (calls : list (W -> W * Z)) (w : W) : W * bool :=
  match calls with
  | [] => (w, true)
  | call :: calls => let '(w, r) := call w in if r =? 1 then all_sent calls w else (w, false)
  end.

Definition pg_send_initial (a : app_t) (w : W) : app_t * W :=
  let '(w, ok) :=
    all_sent [spike_enterPipelineMode; spike_sendQuery "SELECT 1"; spike_sendFlushRequest;
              spike_sendQuery "SELECT alpha_intentional_failure"; spike_sendQuery "SELECT 2";
              spike_pipelineSync] w in
  (if ok then set_pg_state a 2 else fail a, w).

(** What a result that is not NULL shows. *)
Definition pg_observe (a : app_t) (r : pg_result) : app_t :=
  match status r with
  | EXEC_TUPLES_OK =>
      if pg_state a =? 2 then set_pg_flags a true (pg_abort_seen a) (pg_sync_seen a) (pg_recovered a)
      else if (pg_state a =? 3) && (ntuples r =? 1) && String.eqb (first_value r) "42"
      then set_pg_flags a (pg_roundtrip a) (pg_abort_seen a) (pg_sync_seen a) true
      else a
  | EXEC_FATAL_ERROR | EXEC_PIPELINE_ABORTED =>
      set_pg_flags a (pg_roundtrip a) true (pg_sync_seen a) (pg_recovered a)
  | EXEC_PIPELINE_SYNC => set_pg_flags a (pg_roundtrip a) (pg_abort_seen a) true (pg_recovered a)
  | EXEC_OTHER => a
  end.

Fixpoint pg_drain_loop (n : nat) (a : app_t) (w : W) : option (app_t * W) :=
  if spike_isBusy w then Some (a, w)
  else
    match n with
    | O => None
    | S n =>
        let '(w, result) := spike_getResult w in
        match result with
        | None =>
            if (pg_state a =? 2) && pg_sync_seen a then
              let '(w, ok) := all_sent [spike_sendQuery "SELECT 42"; spike_pipelineSync] w in
              Some (if ok then set_pg_state a 3 else fail a, w)
            else Some (a, w)
        | Some r => pg_drain_loop n (pg_observe a r) w
        end
    end.

Definition pg_drain (a : app_t) (w : W) : option (app_t * W) :=
  let '(w, r) := spike_consumeInput w in
  if negb (r =? 1) then Some (fail a, w) else pg_drain_loop fuel a w.

Definition pg_ready (a : app_t) (w : W) (writable : bool) : option (app_t * W) :=
  if pg_state a =? 0 then
    let '(w, poll) := spike_connectPoll w in
    match poll with
    | PGRES_POLLING_FAILED => Some (fail a, w)
    | PGRES_POLLING_OK => Some (pg_send_initial a w)
    | _ => Some (a, w)
    end
  else
    let w := if writable then fst (spike_flush w) else w in
    pg_drain a w.

(** ** Redis *)

Definition redis_add_read (a : app_t) : app_t := a.
Definition redis_del_read (a : app_t) : app_t := a.
Definition redis_add_write (a : app_t) : app_t := a.
Definition redis_del_write (a : app_t) : app_t := a.
Definition redis_cleanup (a : app_t) : app_t := a.

(** The microseconds are computed and dropped. *)
Definition redis_timer (a : app_t) (tv_sec tv_usec : Z) : app_t :=
  let usecs := u64 (u64 tv_sec * 1000000 + u64 tv_usec) in a.

Definition is_string (reply : redisReply) (s : string) : bool :=
  match reply with REDIS_REPLY_STRING t => String.eqb t s | _ => false end.
Definition is_status (reply : redisReply) (s : string) : bool :=
  match reply with REDIS_REPLY_STATUS t => String.eqb t s | _ => false end.

Definition redis_command_callback (a : app_t) (w : W) (ctx : Z) (reply : option redisReply) : app_t * W :=
  match reply with
  | None => (fail a, w)
  | Some reply =>
      if negb (redis_err w ctx =? 0) then (fail a, w)
      else if (redis_generation a =? 1) && is_string reply "alpha"
      then (set_redis_flags a true (redis_disconnect a) (redis_recovered a), redis_close w ctx)
      else if (redis_generation a =? 2) && is_status reply "PONG"
      then (set_redis_flags a (redis_roundtrip a) (redis_disconnect a) true, w)
      else (a, w)
  end.

(** The context of [app->redis]; [None] when it is NULL or freed. *)
Definition redis_context (a : app_t) (w : W) : option Z :=
  let? c := redis a in if redis_live w c then Some c else None.

Definition redis_connect_callback (a : app_t) (w : W) (ok : bool) : option (app_t * W) :=
  if negb ok then Some (fail a, w)
  else
    let? c := redis_context a w in
    if redis_generation a =? 1 then
      let '(w, ok) := redis_command w c "SET alpha:lws alpha" false in
      if negb ok then Some (fail a, w)
      else
        let '(w, ok) := redis_command w c "GET alpha:lws" true in
        Some (if ok then a else fail a, w)
    else
      let '(w, ok) := redis_command w c "PING" true in
      Some (if ok then a else fail a, w).

Definition redis_port (port_text : option string) : Z :=
  match port_text with
  | None => 56379
  | Some text => match strtoll text with Some (v, _, _) => v | None => 0 end
  end.

(** Whether the connection was started; a context with an error is dropped. *)
Definition start_redis (a : app_t) (w : W) : app_t * W * bool :=
  let port := redis_port (environment "ALPHA_REDIS_PORT") in
  if (port <=? 0) || (port >? 65535) then (a, w, false)
  else
    let '(w, context) := redis_connect w "127.0.0.1" port in
    match context with
    | None => (a, w, false)
    | Some c =>
        if negb (redis_err w c =? 0) then (a, w, false)
        else
          let watch := register_socket {| owner := OWNER_REDIS; wsi := None; fd := 0; watch_action := 0 |} (redis_fd w c) in
          let a := set_redis a (Some c) watch in
          let '(w, ok) := redis_set_connect w c in
          if negb ok then (a, w, false)
          else let '(w, ok) := redis_set_disconnect w c in (a, w, ok)
    end.

Definition redis_disconnect_callback (a : app_t) (w : W) : app_t * W :=
  if (redis_generation a =? 1) && redis_roundtrip a then
    let watch := {| owner := owner (redis_watch a); wsi := None; fd := fd (redis_watch a);
                    watch_action := watch_action (redis_watch a) |} in
    let a := set_redis_flags a (redis_roundtrip a) true (redis_recovered a) in
    let a := set_generation (set_redis a None watch) 2 in
    let '(a, w, ok) := start_redis a w in
    (if ok then a else fail a, w)
  else (a, w).

Definition on_redis_event (a : app_t) (w : W) (ev : redis_event) : option (app_t * W) :=
  match ev with
  | HookAddRead => Some (redis_add_read a, w)
  | HookDelRead => Some (redis_del_read a, w)
  | HookAddWrite => Some (redis_add_write a, w)
  | HookDelWrite => Some (redis_del_write a, w)
  | HookCleanup => Some (redis_cleanup a, w)
  | HookTimer s us => Some (redis_timer a s us, w)
  | CallConnect _ ok => redis_connect_callback a w ok
  | CallDisconnect _ => Some (redis_disconnect_callback a w)
  | CallReply ctx reply => Some (redis_command_callback a w ctx reply)
  end.

(** The rest of a call of hiredis. *)
Fixpoint redis_run (n : nat) (a : app_t) (w : W) : option (app_t * W) :=
  match n with
  | O => None
  | S n =>
      let '(w, ev) := redis_next w in
      match ev with
      | None => Some (a, w)
      | Some ev => let? (a, w) := on_redis_event a w ev in redis_run n a w
      end
  end.

(** [if (app->redis != NULL) h (app->redis)]. *)
Definition redis_enter (h : W -> Z -> W) (a : app_t) (w : W) : option (app_t * W) :=
  match redis a with
  | None => Some (a, w)
  | Some c => if redis_live w c then redis_run fuel a (h w c) else None
  end.

(** ** curl *)

Definition set_action (watch : watched_fd_t) (action : Z) : watched_fd_t :=
  {| owner := owner watch; wsi := wsi watch; fd := fd watch; watch_action := action |}.

(** [watch->curl_action = action] for the watch at [i]. *)
Definition assign_action (a : app_t) (i : nat) (action : Z) : option app_t :=
  let? watch := nth_error (curl_watches a) i in
  Some (set_watches a (list_set (curl_watches a) i (set_action watch action)) (curl_watch_count a)).

Definition on_curl_socket (a : app_t) (w : W) (socket what : Z) (watch : option nat) : option (app_t * W * Z) :=
  if what =? CURL_POLL_REMOVE then
    match watch with
    | Some i => let? a := assign_action a i 0 in Some (a, curl_assign w socket None, 0)
    | None => Some (a, w, 0)
    end
  else
    match watch with
    | Some i => let? a := assign_action a i what in Some (a, w, 0)
    | None =>
        if (CURL_WATCHES <=? curl_watch_count a)%nat then Some (a, w, -1)
        else
          let i := curl_watch_count a in
          let watch := register_socket {| owner := OWNER_CURL; wsi := None; fd := 0; watch_action := 0 |} socket in
          let a := set_watches a (list_set (curl_watches a) i watch) (i + 1) in
          let w := curl_assign w socket (Some i) in
          let? a := assign_action a i what in Some (a, w, 0)
    end.

(** A timer of zero only wakes the loop. *)
Definition curl_timer_callback (a : app_t) (timeout_ms : Z) : app_t * Z := (a, 0).

(** The bytes taken: all of them. *)
Definition curl_discard (size count : Z) : Z := u64 (size * count).

(** The rest of a call of [curl_multi_socket_action] and its result. *)
Fixpoint curl_run (n : nat) (a : app_t) (w : W) : option (app_t * W * Z) :=
  match n with
  | O => None
  | S n =>
      let '(w, ev) := curl_next w in
      match ev with
      | inr code => Some (a, w, code)
      | inl (CallSocket socket what watch) =>
          let? (a, w, r) := on_curl_socket a w socket what watch in curl_run n a (curl_answer w r)
      | inl (CallTimer ms) => let '(a, r) := curl_timer_callback a ms in curl_run n a (curl_answer w r)
      end
  end.

Fixpoint read_messages (n : nat) (a : app_t) (w : W) : option (app_t * W) :=
  match n with
  | O => None
  | S n =>
      let '(w, message) := curl_info w in
      match message with
      | None => Some (a, w)
      | Some m =>
          let a :=
            if msg_done m then
              let roundtrip := msg_ok m && (response_code m =? 200) in
              let a := set_curl a roundtrip (response_code m) in
              if roundtrip then a else fail a
            else a in
          read_messages n a w
      end
  end.

(** [watch] is the descriptor of the watch, [None] for NULL. *)
Definition curl_action (a : app_t) (w : W) (watch : option Z) (action : Z) : option (app_t * W) :=
  let socket := match watch with Some s => s | None => CURL_SOCKET_TIMEOUT end in
  let? (a, w, code) := curl_run fuel a (curl_socket_action w socket action) in
  if negb (code =? CURLM_OK) then Some (fail a, w) else read_messages fuel a w.

(** ** The timer *)

(** The watch of a poll slot. *)
Inductive watch_ref := REF_PG | REF_REDIS | REF_CURL (i : nat).

Definition watch_at (a : app_t) (r : watch_ref) : option watched_fd_t :=
  match r with
  | REF_PG => Some (pg_watch a)
  | REF_REDIS => Some (redis_watch a)
  | REF_CURL i => nth_error (curl_watches a) i
  end.

Definition poll_events (action : Z) : Z :=
  Z.lor (if has action CURL_POLL_IN then POLLIN else 0) (if has action CURL_POLL_OUT then POLLOUT else 0).

(** The slots of the curl watches from [i] on, of which there are [n]; [count] slots are
    taken already. *)
Fixpoint curl_slots (n i count : nat) (a : app_t) : option (list (watch_ref * Z * Z)) :=
  match n with
  | O => Some []
  | S n =>
      if (count <? POLL_SLOTS)%nat then
        let? watch := nth_error (curl_watches a) i in
        if watch_action watch =? 0 then curl_slots n (S i) count a
        else
          let? rest := curl_slots n (S i) (S count) a in
          Some ((REF_CURL i, fd watch, poll_events (watch_action watch)) :: rest)
      else Some []
  end.

(** The descriptors polled, in the order of the array. *)
Definition poll_slots (a : app_t) (w : W) : option (list (watch_ref * Z * Z)) :=
  let pg := [(REF_PG, spike_socket w, Z.lor POLLIN POLLOUT)] in
  let? redis :=
    match redis a with
    | None => Some []
    | Some c => if redis_live w c then Some [(REF_REDIS, redis_fd w c, Z.lor POLLIN POLLOUT)] else None
    end in
  let? curl := curl_slots (curl_watch_count a) 0 (List.length (pg ++ redis)) a in
  Some (pg ++ redis ++ curl).

Definition serve_slot (a : app_t) (w : W) (r : watch_ref) (revents : Z) : option (app_t * W) :=
  if revents =? 0 then Some (a, w)
  else
    let? watch := watch_at a r in
    let readable := has revents (Z.lor POLLIN (Z.lor POLLERR POLLHUP)) in
    let writable := has revents POLLOUT in
    match owner watch with
    | OWNER_PG => pg_ready a w writable
    | OWNER_REDIS =>
        let? (a, w) := if readable then redis_enter redis_read a w else Some (a, w) in
        if writable then redis_enter redis_write a w else Some (a, w)
    | OWNER_CURL =>
        curl_action a w (Some (fd watch))
          (Z.lor (if readable then CURL_CSELECT_IN else 0) (if writable then CURL_CSELECT_OUT else 0))
    end.

Fixpoint serve_slots (a : app_t) (w : W) (slots : list (watch_ref * Z * Z)) (revents : list Z) : option (app_t * W) :=
  match slots with
  | [] => Some (a, w)
  | (r, _, _) :: slots =>
      let? (a, w) := serve_slot a w r (hd 0 revents) in serve_slots a w slots (tl revents)
  end.

Definition service_tick (a : app_t) (w : W) : option (app_t * W) :=
  let? slots := poll_slots a w in
  let '(w, ready) := poll_now w (List.map (fun s => (snd (fst s), snd s)) slots) in
  match ready with
  | None => Some (fail a, w)
  | Some revents =>
      let? (a, w) := serve_slots a w slots revents in
      let? (a, w) := curl_action a w None 0 in
      Some (if complete a then a else if negb (failed a) then set_tick a true else a, w)
  end.

Inductive raw_reason := RAW_RX | RAW_WRITEABLE | RAW_TIMER | RAW_OTHER.

(** [watch] is the opaque user data of the wsi.  The result of the callback. *)
Definition raw_callback (a : app_t) (w : W) (watch : option watch_ref) (reason : raw_reason)
  : option (app_t * W * Z) :=
  match watch with
  | None => Some (a, w, 0)
  | Some r =>
      let? watch := watch_at a r in
      let? (a, w) :=
        match reason, owner watch with
        | RAW_RX, OWNER_PG => pg_ready a w false
        | RAW_RX, OWNER_REDIS => redis_enter redis_read a w
        | RAW_RX, OWNER_CURL =>
            if has (watch_action watch) CURL_POLL_IN then curl_action a w (Some (fd watch)) CURL_CSELECT_IN
            else Some (a, w)
        | RAW_WRITEABLE, OWNER_PG => pg_ready a w true
        | RAW_WRITEABLE, OWNER_REDIS => redis_enter redis_write a w
        | RAW_WRITEABLE, OWNER_CURL =>
            if has (watch_action watch) CURL_POLL_OUT then curl_action a w (Some (fd watch)) CURL_CSELECT_OUT
            else Some (a, w)
        | RAW_TIMER, OWNER_REDIS => redis_enter redis_timeout a w
        | _, _ => Some (a, w)
        end in
      Some (a, w, if failed a then -1 else 0)
  end.

(** ** Setup and the main loop *)

(** Which of the handles the libraries gave: the context, the vhost, the connection (with
    [PQsetnonblocking]), the curl handles (with [curl_multi_add_handle]). *)
Record created := { has_context : bool; has_vhost : bool; has_pg : bool; has_curl : bool; has_handle : bool }.

Definition setup (c : created) (a : app_t) (w : W) : option (app_t * W * bool) :=
  if negb (has_context c) || negb (has_vhost c) then Some (a, w, false)
  else
    let? a := exercise_queue a in
    if negb (has_pg c) then Some (a, w, false)
    else
      let a := set_pg_watch a (register_socket {| owner := OWNER_PG; wsi := None; fd := 0; watch_action := 0 |}
                                 (spike_socket w)) in
      let '(a, w, ok) := start_redis (set_generation a 1) w in
      if negb ok || negb (has_curl c) || negb (has_handle c) then Some (a, w, false)
      else
        let? (a, w) := curl_action a w None 0 in
        let a := set_tick a true in
        Some (a, w, negb (failed a)).

(** A turn of libwebsockets, which runs the timer if it is due. *)
Definition lws_service (a : app_t) (w : W) : option (app_t * W * Z) :=
  let '(w, due, r) := lws_run w in
  let? (a, w) := if tick a && due then service_tick (set_tick a false) w else Some (a, w) in
  Some (a, w, r).

Fixpoint main_loop (n : nat) (a : app_t) (w : W) : option (app_t * W) :=
  if failed a || complete a then Some (a, w)
  else
    let '(w, now) := time_now w in
    if now - started a >=? RUN_TIMEOUT_SECONDS then Some (a, w)
    else
      match n with
      | O => None
      | S n =>
          let? (a, w, r) := lws_service a w in
          main_loop n (if r <? 0 then set_failed a true else a) w
      end.

Definition boolean (b : bool) : string := if b then "true" else "false".

Definition print_result (a : app_t) : string :=
  concat
    [ q "{'schema_version':1,'loop_owner':'libwebsockets','service_threads':1,'worker_threads':0,'queue_capacity':";
      print_Z (Z.of_nat QUEUE_CAPACITY); q ",'backpressure':"; boolean (backpressure a);
      q ",'cancellation':"; boolean (cancellation a); q ",'request_result_match':"; boolean (request_match a);
      q ",'postgres':{'roundtrip':"; boolean (pg_roundtrip a); q ",'pipeline_abort':"; boolean (pg_abort_seen a);
      q ",'pipeline_sync':"; boolean (pg_sync_seen a); q ",'recovered':"; boolean (pg_recovered a);
      q "},'redis':{'roundtrip':"; boolean (redis_roundtrip a); q ",'disconnect':"; boolean (redis_disconnect a);
      q ",'recovered':"; boolean (redis_recovered a); q "},'curl_multi':{'roundtrip':"; boolean (curl_roundtrip a);
      q ",'status':"; print_Z (curl_status a); q "},'alternate_event_loop':false,'clean_shutdown':";
      boolean (clean_shutdown a); "}"; String (ascii_of_N 10) "" ].

(** The exit status, the report if there is one, and the application at the end. *)
Definition main (n : nat) (curl_initialised : bool) (c : created) (w : W)
  : option (Z * option string * app_t * W) :=
  let '(w, now) := time_now w in
  let a := zero_app now in
  let? (a, w, ok) := if curl_initialised then setup c a w else Some (a, w, false) in
  if negb ok then Some (1, None, a, w)
  else
    let? (a, w) := main_loop n a w in
    let a := if complete a then a else set_failed a true in
    let a := set_shutdown a (negb (failed a)) in
    Some (if failed a then 1 else 0, Some (print_result a), a, w).

End Spike.

(** ** The invariant *)

(** The arrays have their sizes; each stage is entered only with the evidence of the
    one before it. *)
Record spike_ok (a : app_t) : Prop := {
  ok_watches : List.length (curl_watches a) = CURL_WATCHES;
  ok_count : (curl_watch_count a <= CURL_WATCHES)%nat;
  ok_pg_state : pg_state a = 0 \/ pg_state a = 2 \/ pg_state a = 3;
  ok_pg_start : pg_state a = 0 -> pg_roundtrip a || pg_abort_seen a || pg_sync_seen a || pg_recovered a = false;
  ok_pg_sync : pg_state a = 3 -> pg_sync_seen a = true;
  ok_pg_recovered : pg_recovered a = true -> pg_state a = 3;
  ok_generation : 0 <= redis_generation a <= 2;
  ok_reconnect : redis_generation a = 2 <-> redis_disconnect a = true;
  ok_roundtrip : redis_disconnect a = true -> redis_roundtrip a = true;
  ok_recovered : redis_recovered a = true -> redis_disconnect a = true;
  ok_curl : curl_roundtrip a = true -> curl_status a = 200
}.

(** Evidence is never taken back, except curl's, which a failure replaces. *)
Definition implies (x y : bool) : Prop := x = true -> y = true.
Record grows (a a' : app_t) : Prop := {
  grow_failed : implies (failed a) (failed a');
  grow_pg : pg_state a <= pg_state a';
  grow_pg_flags : implies (pg_roundtrip a) (pg_roundtrip a') /\ implies (pg_abort_seen a) (pg_abort_seen a') /\
                  implies (pg_sync_seen a) (pg_sync_seen a') /\ implies (pg_recovered a) (pg_recovered a');
  grow_redis : redis_generation a <= redis_generation a';
  grow_redis_flags : implies (redis_roundtrip a) (redis_roundtrip a') /\
    implies (redis_disconnect a) (redis_disconnect a') /\ implies (redis_recovered a) (redis_recovered a');
  grow_watches : (curl_watch_count a <= curl_watch_count a')%nat;
  grow_curl : implies (curl_roundtrip a) (curl_roundtrip a' || failed a');
  grow_queue : (backpressure a', cancellation a', request_match a') = (backpressure a, cancellation a, request_match a)
}.

Lemma grows_refl a : grows a a.
Proof. split; unfold implies; auto; try lia. intros ->. reflexivity. Qed.

Lemma grows_trans a b c : grows a b -> grows b c -> grows a c.
Proof.
  intros [A1 A2 A3 A4 A5 A6 A7 A8] [B1 B2 B3 B4 B5 B6 B7 B8]. unfold implies in *.
  split; unfold implies; try tauto; try lia; try congruence.
  intros X. specialize (A7 X). apply orb_true_iff in A7 as [Y|Y]; [auto|].
  apply orb_true_iff. right. auto.
Qed.

(** A step keeps the invariant and the evidence. *)
Definition step (a a' : app_t) : Prop := spike_ok a -> spike_ok a' /\ grows a a'.

Lemma step_refl a : step a a.
Proof. intros O. split; [exact O|apply grows_refl]. Qed.

Lemma step_trans a b c : step a b -> step b c -> step a c.
Proof.
  intros S T O. destruct (S O) as [O1 G1]. destruct (T O1) as [O2 G2]. split; [exact O2|exact (grows_trans _ _ _ G1 G2)].
Qed.

Create HintDb spike.
#[export] Hint Resolve step_refl : spike.

(** Opens a step of an update: what is left are the fields it changes. *)
Ltac open_step :=
  let O := fresh "O" in
  intros O; destruct O;
  split; [split; cbn; auto; try tauto; try lia; try discriminate
         |split; unfold implies; cbn; auto; try lia; try (intros ->; reflexivity); try (intros ->; apply orb_true_r)].

Lemma fail_step a : step a (fail a).
Proof. open_step. Qed.
#[export] Hint Resolve fail_step : spike.

Lemma tick_step a b : step a (set_tick a b).
Proof. open_step. Qed.
#[export] Hint Resolve tick_step : spike.

Section Correct.
Context {W : Type} {machine : Machine W}.
Variable fuel : nat.

(** ** PostgreSQL *)

Lemma pg_state_step a s : pg_state a <= s -> s = 2 /\ pg_state a = 0 \/ s = 3 /\ pg_state a = 2 /\ pg_sync_seen a = true ->
  step a (set_pg_state a s).
Proof.
  intros L [[-> Z]|(-> & Z & Y)]; open_step. intros R. specialize (ok_pg_recovered0 R). lia.
Qed.

Lemma observe_step a r : pg_state a <> 0 -> step a (pg_observe a r).
Proof.
  intros N. unfold pg_observe. destruct (status r); auto with spike.
  - destruct (pg_state a =? 2) eqn:E; zprop; [open_step|].
    destruct (_ && _) eqn:F; [|apply step_refl]. apply andb_prop in F as [F _]. apply andb_prop in F as [F _].
    zprop. open_step.
  - open_step.
  - open_step.
  - open_step.
Qed.

Lemma observe_state a r : pg_state (pg_observe a r) = pg_state a.
Proof. unfold pg_observe. destruct (status r); auto. destruct (_ =? 2); auto. now destruct (_ && _). Qed.

Lemma drain_step n a w a' w' : pg_state a <> 0 -> pg_drain_loop n a w = Some (a', w') -> step a a'.
Proof.
  revert a w; induction n as [|n IH]; intros a w N E; cbn [pg_drain_loop] in E; destruct (spike_isBusy w); try discriminate;
    try (inv E; apply step_refl; fail).
  destruct (spike_getResult w) as [w1 [r|]].
  - apply IH in E; [|now rewrite observe_state]. exact (step_trans _ _ _ (observe_step a r N) E).
  - destruct ((pg_state a =? 2) && pg_sync_seen a) eqn:G; [|inv E; apply step_refl].
    apply andb_prop in G as [G1 G2]. zprop. destruct (all_sent _ w1) as [w2 [|]]; inv E; [|apply fail_step].
    apply pg_state_step; [lia|auto].
Qed.

Lemma send_initial_step a w : pg_state a = 0 -> step a (fst (pg_send_initial a w)).
Proof.
  intros Z. unfold pg_send_initial. destruct (all_sent _ w) as [w1 [|]]; cbn [fst]; [|apply fail_step].
  apply pg_state_step; [lia|auto].
Qed.

Lemma pg_ready_step a w b a' w' : pg_ready fuel a w b = Some (a', w') -> step a a'.
Proof.
  unfold pg_ready. destruct (pg_state a =? 0) eqn:Z; zprop.
  - destruct (spike_connectPoll w) as [w1 p]. intros E. destruct p; apply some_inj in E.
    4: replace a' with (fst (pg_send_initial a w1)) by (now rewrite E); now apply send_initial_step.
    all: apply pair_equal_spec in E as [<- _]; auto with spike.
  - unfold pg_drain. destruct (spike_consumeInput _) as [w1 r]. destruct (negb (r =? 1)); intros E; [inv E; apply fail_step|].
    exact (drain_step _ _ _ _ _ Z E).
Qed.

(** ** Redis *)

Lemma set_redis_step a x watch : step a (set_redis a x watch).
Proof. open_step. Qed.

Lemma start_redis_step a w a' w' ok : start_redis a w = (a', w', ok) -> step a a'.
Proof.
  unfold start_redis. destruct (_ || _); [intros E; inv E; apply step_refl|].
  destruct (redis_connect w _ _) as [w1 [c|]]; [|intros E; inv E; apply step_refl].
  destruct (negb _); [intros E; inv E; apply step_refl|]. destruct (redis_set_connect w1 c) as [w2 [|]]; cbn.
  - destruct (redis_set_disconnect w2 c) as [w3 ok3]. intros E; inv E. apply set_redis_step.
  - intros E; inv E. apply set_redis_step.
Qed.

Lemma redis_event_step a w ev a' w' : on_redis_event a w ev = Some (a', w') -> step a a'.
Proof.
  destruct ev as [| | | | |s us|c ok|c|c reply]; cbn; try (intros E; inv E; apply step_refl).
  - unfold redis_connect_callback. destruct (negb ok); [intros E; inv E; apply fail_step|].
    destruct (redis_context a w) as [c'|]; [|discriminate]. destruct (_ =? 1).
    + destruct (redis_command w c' _ false) as [w1 [|]]; cbn; [|intros E; inv E; apply fail_step].
      destruct (redis_command w1 c' _ true) as [w2 [|]]; intros E; inv E; auto with spike.
    + destruct (redis_command w c' _ true) as [w1 [|]]; intros E; inv E; auto with spike.
  - intros E. inv E. unfold redis_disconnect_callback in H0.
    destruct (_ && _) eqn:G; [|inv H0; apply step_refl]. apply andb_prop in G as [G1 G2]. zprop.
    set (b := set_generation _ 2) in H0. destruct (start_redis b w) as [[b1 w1] ok] eqn:S.
    assert (Sb : step a b).
    { subst b. open_step. }
    pose proof (step_trans _ _ _ Sb (start_redis_step _ _ _ _ _ S)) as T.
    destruct ok; inv H0; [exact T|exact (step_trans _ _ _ T (fail_step b1))].
  - intros E. inv E. unfold redis_command_callback in H0. destruct reply as [reply|]; [|inv H0; apply fail_step].
    destruct (negb _); [inv H0; apply fail_step|].
    destruct ((redis_generation a =? 1) && _) eqn:G1; [inv H0; open_step|].
    destruct ((redis_generation a =? 2) && _) eqn:G2; [|inv H0; apply step_refl].
    apply andb_prop in G2 as [G2 _]. zprop. inv H0. open_step.
Qed.

Lemma redis_run_step n a w a' w' : redis_run n a w = Some (a', w') -> step a a'.
Proof.
  revert a w; induction n as [|n IH]; intros a w E; cbn in E; [discriminate|].
  destruct (redis_next w) as [w1 [ev|]]; [|inv E; apply step_refl].
  destruct (on_redis_event a w1 ev) as [[a1 w2]|] eqn:F; [|discriminate].
  exact (step_trans _ _ _ (redis_event_step _ _ _ _ _ F) (IH _ _ E)).
Qed.

Lemma redis_enter_step h a w a' w' : redis_enter fuel h a w = Some (a', w') -> step a a'.
Proof.
  unfold redis_enter. destruct (redis a) as [c|]; [|intros E; inv E; apply step_refl].
  destruct (redis_live w c); [apply redis_run_step|discriminate].
Qed.

(** ** curl *)

Lemma watches_step a ws n :
  List.length ws = List.length (curl_watches a) -> (curl_watch_count a <= n <= CURL_WATCHES)%nat ->
  step a (set_watches a ws n).
Proof. intros L N. open_step. Qed.

Lemma assign_step a i x a' : (curl_watch_count a <= CURL_WATCHES)%nat -> assign_action a i x = Some a' -> step a a'.
Proof.
  intros N. unfold assign_action. destruct (nth_error _ i) as [watch|]; [|discriminate]. intros E; inv E.
  apply watches_step; [apply list_set_length|lia].
Qed.

Lemma curl_socket_step a w s x i a' w' r : on_curl_socket a w s x i = Some (a', w', r) -> step a a'.
Proof.
  unfold on_curl_socket. intros E O. pose proof (ok_count _ O) as N. revert O. change (step a a').
  destruct (x =? CURL_POLL_REMOVE); destruct i as [i|].
  - destruct (assign_action a i 0) as [a1|] eqn:F; [|discriminate]. inv E. exact (assign_step _ _ _ _ N F).
  - inv E. apply step_refl.
  - destruct (assign_action a i x) as [a1|] eqn:F; [|discriminate]. inv E. exact (assign_step _ _ _ _ N F).
  - destruct (CURL_WATCHES <=? curl_watch_count a)%nat eqn:G; [inv E; apply step_refl|]. apply Nat.leb_gt in G.
    set (b := set_watches a _ _) in E. destruct (assign_action b _ x) as [a1|] eqn:F; [|discriminate]. inv E.
    eapply step_trans; [|eapply assign_step; [|exact F]].
    + apply watches_step; [apply list_set_length|lia].
    + cbn. lia.
Qed.

Lemma curl_run_step n a w a' w' r : curl_run n a w = Some (a', w', r) -> step a a'.
Proof.
  revert a w; induction n as [|n IH]; intros a w E; cbn in E; [discriminate|].
  destruct (curl_next w) as [w1 [[s x i|ms]|code]].
  - destruct (on_curl_socket a w1 s x i) as [[[a1 w2] r1]|] eqn:F; [|discriminate].
    exact (step_trans _ _ _ (curl_socket_step _ _ _ _ _ _ _ _ F) (IH _ _ E)).
  - exact (IH _ _ E).
  - inv E. apply step_refl.
Qed.

Lemma message_step a m :
  step a (if msg_done m then
            let roundtrip := msg_ok m && (response_code m =? 200) in
            let b := set_curl a roundtrip (response_code m) in if roundtrip then b else fail b
          else a).
Proof.
  destruct (msg_done m); [|apply step_refl]. cbn zeta. destruct (_ && _) eqn:G; [|open_step].
  apply andb_prop in G as [_ G]. zprop. open_step.
Qed.

Lemma read_messages_step n a w a' w' : read_messages n a w = Some (a', w') -> step a a'.
Proof.
  revert a w; induction n as [|n IH]; intros a w E; cbn [read_messages] in E; [discriminate|].
  destruct (curl_info w) as [w1 [m|]]; [|inv E; apply step_refl].
  exact (step_trans _ _ _ (message_step a m) (IH _ _ E)).
Qed.

Lemma curl_action_step a w s x a' w' : curl_action fuel a w s x = Some (a', w') -> step a a'.
Proof.
  unfold curl_action. destruct (curl_run fuel a _) as [[[a1 w1] code]|] eqn:F; [|discriminate].
  destruct (negb _); intros E.
  - inv E. exact (step_trans _ _ _ (curl_run_step _ _ _ _ _ _ F) (fail_step a1)).
  - exact (step_trans _ _ _ (curl_run_step _ _ _ _ _ _ F) (read_messages_step _ _ _ _ _ E)).
Qed.

(** ** The timer *)

Lemma serve_slot_step a w r ev a' w' : serve_slot fuel a w r ev = Some (a', w') -> step a a'.
Proof.
  unfold serve_slot. destruct (ev =? 0); [intros E; inv E; apply step_refl|].
  destruct (watch_at a r) as [watch|]; [|discriminate]. destruct (owner watch).
  - apply pg_ready_step.
  - destruct (if has ev _ then _ else _) as [[a1 w1]|] eqn:F; [|discriminate].
    assert (S : step a a1) by (destruct (has ev _); [exact (redis_enter_step _ _ _ _ _ F)|inv F; apply step_refl]).
    destruct (has ev POLLOUT); intros E; [exact (step_trans _ _ _ S (redis_enter_step _ _ _ _ _ E))|inv E; exact S].
  - apply curl_action_step.
Qed.

Lemma serve_slots_step slots a w evs a' w' : serve_slots fuel a w slots evs = Some (a', w') -> step a a'.
Proof.
  revert a w evs; induction slots as [|[[r s] e] slots IH]; intros a w evs E; cbn [serve_slots] in E;
    [inv E; apply step_refl|].
  destruct (serve_slot fuel a w r (hd 0 evs)) as [[a1 w1]|] eqn:F; [|discriminate].
  exact (step_trans _ _ _ (serve_slot_step _ _ _ _ _ _ F) (IH _ _ _ E)).
Qed.

Lemma tick_service_step a w a' w' : service_tick fuel a w = Some (a', w') -> step a a'.
Proof.
  unfold service_tick. destruct (poll_slots a w) as [slots|]; [|discriminate].
  destruct (poll_now w _) as [w1 [evs|]]; [|intros E; inv E; apply fail_step].
  destruct (serve_slots fuel a w1 slots evs) as [[a1 w2]|] eqn:F; [|discriminate].
  destruct (curl_action fuel a1 w2 None 0) as [[a2 w3]|] eqn:G; [|discriminate]. intros E. inv E.
  eapply step_trans; [exact (serve_slots_step _ _ _ _ _ _ F)|].
  eapply step_trans; [exact (curl_action_step _ _ _ _ _ _ G)|].
  destruct (complete a2); [apply step_refl|]. destruct (negb _); [apply tick_step|apply step_refl].
Qed.

Lemma raw_callback_step a w r reason a' w' z : raw_callback fuel a w r reason = Some (a', w', z) -> step a a'.
Proof.
  unfold raw_callback. destruct r as [r|]; [|intros E; inv E; apply step_refl].
  destruct (watch_at a r) as [watch|]; [|discriminate].
  destruct (match reason, owner watch with RAW_RX, OWNER_PG => _ | _, _ => _ end) as [[a1 w1]|] eqn:F; [|discriminate].
  intros E. inv E. destruct reason, (owner watch);
    repeat match type of F with (if ?b then _ else _) = _ => destruct b end;
    first [exact (pg_ready_step _ _ _ _ _ F)|exact (redis_enter_step _ _ _ _ _ F)
          |exact (curl_action_step _ _ _ _ _ _ F)|inv F; apply step_refl].
Qed.

Lemma lws_service_step a w a' w' r : lws_service fuel a w = Some (a', w', r) -> step a a'.
Proof.
  unfold lws_service. destruct (lws_run w) as [[w1 due] z]. destruct (tick a && due).
  - destruct (service_tick fuel (set_tick a false) w1) as [[a1 w2]|] eqn:F; [|discriminate]. intros E; inv E.
    exact (step_trans _ _ _ (tick_step a false) (tick_service_step _ _ _ _ F)).
  - intros E; inv E. apply step_refl.
Qed.

Lemma main_loop_step n a w a' w' : main_loop fuel n a w = Some (a', w') -> step a a'.
Proof.
  revert a w; induction n as [|n IH]; intros a w E; cbn [main_loop] in E;
    (destruct (failed a || complete a); [inv E; apply step_refl|]); destruct (time_now w) as [w1 now];
    (destruct (now - started a >=? RUN_TIMEOUT_SECONDS); [inv E; apply step_refl|]); [discriminate|].
  destruct (lws_service fuel a w1) as [[[a1 w2] r]|] eqn:F; [|discriminate].
  eapply step_trans; [exact (lws_service_step _ _ _ _ _ F)|]. eapply step_trans; [|exact (IH _ _ E)].
  destruct (r <? 0); [apply fail_step|apply step_refl].
Qed.

(** ** Setup *)

(** The whole queue exercise: it does not depend on anything. *)
Lemma exercise_queue_exact now :
  exercise_queue (zero_app now) =
  Some (set_queue_flags
          (set_queue (zero_app now)
             [{| id := 1; cancelled := false |}; {| id := 2; cancelled := true |};
              {| id := 3; cancelled := false |}; {| id := 4; cancelled := false |}] 4) true true true).
Proof. reflexivity. Qed.

Lemma setup_ok c now w a w' :
  setup fuel c (zero_app now) w = Some (a, w', true) ->
  spike_ok a /\ failed a = false /\ backpressure a = true /\ cancellation a = true /\ request_match a = true.
Proof.
  unfold setup. destruct (_ || _); [discriminate|]. rewrite exercise_queue_exact.
  destruct (negb (has_pg c)); [discriminate|]. set (b := set_generation _ 1).
  assert (Ob : spike_ok b) by (split; cbn; auto; try lia; try discriminate; split; discriminate).
  destruct (start_redis b w) as [[a1 w1] ok] eqn:S. destruct (_ || _); [discriminate|].
  destruct (curl_action fuel a1 w1 None 0) as [[a2 w2]|] eqn:F; [|discriminate]. intros E.
  apply some_inj, pair_equal_spec in E as [E H2]. apply pair_equal_spec in E as [<- _].
  destruct (start_redis_step _ _ _ _ _ S Ob) as [O1 G1]. destruct (curl_action_step _ _ _ _ _ _ F O1) as [O2 G2].
  destruct (tick_step a2 true O2) as [O3 G3]. split; [exact O3|]. cbn in H2.
  split; [now apply negb_true_iff|].
  pose proof (grow_queue _ _ (grows_trans _ _ _ G1 (grows_trans _ _ _ G2 G3))) as Q. cbn in Q.
  apply pair_equal_spec in Q as [Q Q3]. apply pair_equal_spec in Q as [Q1 Q2]. auto.
Qed.

(** The states of a run: a successful setup, then turns of the loop and callbacks of
    adopted descriptors. *)
Inductive spike_run : app_t -> W -> Prop :=
  | run_setup c now w a w' : setup fuel c (zero_app now) w = Some (a, w', true) -> spike_run a w'
  | run_service a w a' w' r : spike_run a w -> lws_service fuel a w = Some (a', w', r) -> spike_run a' w'
  | run_raw a w watch reason a' w' r :
      spike_run a w -> raw_callback fuel a w watch reason = Some (a', w', r) -> spike_run a' w'
  | run_abort a w : spike_run a w -> spike_run (set_failed a true) w
  | run_time a w : spike_run a w -> spike_run a (fst (time_now w)).

Lemma spike_run_ok a w : spike_run a w -> spike_ok a.
Proof.
  induction 1 as [c now w a w' S|a w a' w' r R IH S|a w watch reason a' w' r R IH S|a w R IH|a w R IH].
  - apply (setup_ok _ _ _ _ _ S).
  - apply (lws_service_step _ _ _ _ _ S IH).
  - apply (raw_callback_step _ _ _ _ _ _ _ S IH).
  - apply (fail_step a IH).
  - exact IH.
Qed.

(** C37: In every state of the spike, whatever the libraries do: the libpq state is 0, 2 or
    3 and the redis generation at most 2; a stage has been reached only with the
    evidence of the one before it (recovery of the pipeline only after its sync point,
    reconnection only after the round trip and the disconnect, redis recovery only
    after the reconnection, curl's success only with status 200); and the watches fit
    their array. *)
Theorem spike_invariant a w :
  spike_run a w ->
  (pg_state a = 0 \/ pg_state a = 2 \/ pg_state a = 3) /\
  (pg_recovered a = true -> pg_state a = 3 /\ pg_sync_seen a = true) /\
  0 <= redis_generation a <= 2 /\
  (redis_generation a = 2 -> redis_roundtrip a = true /\ redis_disconnect a = true) /\
  (redis_recovered a = true -> redis_generation a = 2) /\
  (curl_roundtrip a = true -> curl_status a = 200) /\
  (curl_watch_count a <= List.length (curl_watches a))%nat /\ List.length (curl_watches a) = CURL_WATCHES.
Proof.
  intros R. destruct (spike_run_ok a w R) as [A1 A2 A3 A4 A5 A6 A7 A8 A9 A10 A11].
  split; [exact A3|]. split; [auto|]. split; [exact A7|]. split; [tauto|]. split; [tauto|]. split; [exact A11|].
    rewrite A1. auto.
Qed.

(** ** The descriptors polled *)

Definition polled (a : app_t) (i : nat) : list (watch_ref * Z * Z) :=
  match nth_error (curl_watches a) i with
  | Some watch => if watch_action watch =? 0 then [] else [(REF_CURL i, fd watch, poll_events (watch_action watch))]
  | None => []
  end.

Lemma curl_slots_all n i count a :
  (i + n <= List.length (curl_watches a))%nat -> (count + n <= POLL_SLOTS)%nat ->
  curl_slots n i count a = Some (flat_map (polled a) (seq i n)).
Proof.
  revert i count; induction n as [|n IH]; intros i count L C; [reflexivity|]. cbn [curl_slots seq flat_map].
  replace (count <? POLL_SLOTS)%nat with true by (symmetry; apply Nat.ltb_lt; lia). unfold polled at 1.
  destruct (nth_error (curl_watches a) i) as [watch|] eqn:N; [|apply nth_error_None in N; lia].
  destruct (watch_action watch =? 0); rewrite IH by lia; reflexivity.
Qed.

Lemma polled_length a n i : (List.length (flat_map (polled a) (seq i n)) <= n)%nat.
Proof.
  revert i; induction n as [|n IH]; intros i; cbn; [lia|]. rewrite length_app. specialize (IH (S i)).
  unfold polled at 1. destruct (nth_error _ i) as [x|]; [destruct (_ =? 0)|]; cbn; lia.
Qed.

(** C39: The timer polls every watch that asks for events, and its arrays are never too
    small: libpq's descriptor, the context's if there is one, and each curl watch with
    an action, at most eighteen in all; the bound in the loop never cuts one off. *)
Theorem poll_covers_watches a w slots :
  spike_run a w -> poll_slots a w = Some slots ->
  (List.length slots <= POLL_SLOTS)%nat /\
  forall i watch, (i < curl_watch_count a)%nat -> nth_error (curl_watches a) i = Some watch ->
    watch_action watch <> 0 -> In (REF_CURL i, fd watch, poll_events (watch_action watch)) slots.
Proof.
  intros R E. destruct (spike_run_ok a w R) as [A1 A2 _ _ _ _ _ _ _ _ _]. unfold poll_slots in E.
  destruct (match redis a with None => _ | Some c => _ end) as [rs|] eqn:X; [|discriminate].
  assert (L : (List.length rs <= 1)%nat).
  { destruct (redis a) as [c|]; [destruct (redis_live w c); [|discriminate]|]; inv X; cbn; lia. }
  unfold CURL_WATCHES, POLL_SLOTS in *. rewrite curl_slots_all in E.
  2: lia. 2: (cbn; unfold POLL_SLOTS; lia). apply some_inj in E. subst slots. split.
  - cbn [List.length app]. rewrite length_app.
    pose proof (polled_length a (curl_watch_count a) 0).
    lia.
  - intros i watch I N Z. apply in_or_app. right. apply in_or_app. right. apply in_flat_map.
    exists i. split; [apply in_seq; lia|]. unfold polled. rewrite N.
    replace (watch_action watch =? 0) with false by lia. left. reflexivity.
Qed.

(** What hiredis runs during a call: the callbacks, in order, and its state when the
    call returns, if none of them calls it back. *)
Inductive hiredis_runs : W -> list redis_event -> W -> Prop :=
  | runs_return w w' : redis_next w = (w', None) -> hiredis_runs w [] w'
  | runs_event w w1 ev evs w' :
      redis_next w = (w1, Some ev) -> hiredis_runs w1 evs w' -> hiredis_runs w (ev :: evs) w'.

(** The callbacks of a refused connection: the event hooks (the clean-up among them,
    which hiredis runs before it frees a context), the connect callback with an error
    and the callbacks of commands without a reply. *)
Definition refusal_event (ev : redis_event) : Prop :=
  match ev with
  | CallConnect _ ok => ok = false
  | CallReply _ reply => reply = None
  | CallDisconnect _ => False
  | _ => True
  end.

(** They leave the handle of the context where it is. *)
Lemma refusal_keeps_handle n evs a w w' :
  hiredis_runs w evs w' -> Forall refusal_event evs -> (List.length evs < n)%nat ->
  exists a', redis_run n a w = Some (a', w') /\ redis a' = redis a /\
    owner (redis_watch a') = owner (redis_watch a).
Proof.
  intros H. revert n a. induction H as [w w' N|w w1 ev evs w' N H IH]; intros [|n] a F L; cbn in L; try lia;
    cbn [redis_run]; rewrite N; [eauto|]. inv F.
  assert (E : exists a1, on_redis_event a w1 ev = Some (a1, w1) /\ redis a1 = redis a /\
            owner (redis_watch a1) = owner (redis_watch a)).
  { destruct ev; try contradiction; cbn in H2; subst; eexists; (split; [reflexivity|]); auto. }
  destruct E as (a1 & E & R & O). rewrite E. destruct (IH n a1 H3 ltac:(lia)) as (a' & K & R' & O').
  exists a'. split; [exact K|]. split; congruence.
Qed.

(** C40: A refused redis connection is used after it was freed: its descriptor is
    readable and writable at once; reading makes hiredis run the connect callback with
    an error and its clean-up hook (or other hooks) and free the context before it
    returns; no callback clears the handle, and the write that follows in the same
    turn is undefined behaviour. *)
Theorem refused_redis_used_after_free a w c evs w' revents :
  redis a = Some c -> owner (redis_watch a) = OWNER_REDIS -> redis_live w c = true ->
  hiredis_runs (redis_read w c) evs w' -> Forall refusal_event evs -> redis_live w' c = false ->
  (List.length evs < fuel)%nat -> has revents POLLIN = true -> has revents POLLOUT = true ->
  serve_slot fuel a w REF_REDIS revents = None.
Proof.
  intros R Ow Li Hr Ev De Fu Ri Wo. unfold serve_slot. cbn [watch_at]. rewrite Ow, Wo.
  assert (Z : (revents =? 0) = false).
  { apply Z.eqb_neq. intros ->. discriminate. }
  rewrite Z. assert (H : has revents (Z.lor POLLIN (Z.lor POLLERR POLLHUP)) = true).
  { unfold has in *. rewrite negb_true_iff, Z.eqb_neq in *. rewrite Z.land_lor_distr_r.
    intros Q. apply Ri. apply Z.lor_eq_0_iff in Q. tauto. }
  rewrite H. unfold redis_enter at 1. rewrite R, Li.
  destruct (refusal_keeps_handle fuel evs a _ _ Hr Ev Fu) as (a1 & -> & R1 & _).
  unfold redis_enter. now rewrite R1, R, De.
Qed.

(** ** The exit status *)

(** The eleven pieces of evidence. *)
Record evidence (a : app_t) : Prop := {
  ev_pg_roundtrip : pg_roundtrip a = true;
  ev_pg_abort : pg_abort_seen a = true;
  ev_pg_sync : pg_sync_seen a = true;
  ev_pg_recovered : pg_recovered a = true;
  ev_redis_roundtrip : redis_roundtrip a = true;
  ev_redis_disconnect : redis_disconnect a = true;
  ev_redis_recovered : redis_recovered a = true;
  ev_curl : curl_roundtrip a = true;
  ev_backpressure : backpressure a = true;
  ev_cancellation : cancellation a = true;
  ev_request_match : request_match a = true
}.

Lemma complete_evidence a : complete a = true <-> evidence a.
Proof.
  unfold complete. rewrite !andb_true_iff. split; [|intros []; tauto].
  intros H. split; tauto.
Qed.

(** The report of a run that shows everything, and the end of one that does not. *)
Definition NEWLINE : string := String (ascii_of_N 10) "".
Definition SUCCESS_REPORT : string :=
  (q "{'schema_version':1,'loop_owner':'libwebsockets','service_threads':1,'worker_threads':0,'queue_capacity':4,'backpressure':true,'cancellation':true,'request_result_match':true,'postgres':{'roundtrip':true,'pipeline_abort':true,'pipeline_sync':true,'recovered':true},'redis':{'roundtrip':true,'disconnect':true,'recovered':true},'curl_multi':{'roundtrip':true,'status':200},'alternate_event_loop':false,'clean_shutdown':true}"
   ++ NEWLINE)%string.

Lemma report_success a :
  evidence a -> curl_status a = 200 -> clean_shutdown a = true -> print_result a = SUCCESS_REPORT.
Proof.
  intros [A B C D E F G H I J K] S Cl. unfold print_result. rewrite A, B, C, D, E, F, G, H, I, J, K, S, Cl. reflexivity.
Qed.

Lemma report_failure a :
  clean_shutdown a = false -> exists head, print_result a = (head ++ q "'clean_shutdown':false}" ++ NEWLINE)%string.
Proof.
  intros Cl. unfold print_result. rewrite Cl.
  match goal with |- exists _, concat ?l = _ =>
    let h := eval cbn [firstn] in (firstn 26 l) in let t := eval cbn [skipn] in (skipn 26 l) in
    exists (concat h ++ q "},'alternate_event_loop':false,")%string;
    change (concat (h ++ t) = ((concat h ++ q "},'alternate_event_loop':false,") ++ q "'clean_shutdown':false}" ++ NEWLINE)%string)
  end.
  rewrite concat_app, <- sappend_assoc. f_equal.
Qed.

(** C38: The spike exits with 0 only with its whole evidence: all eleven flags are set, the
    stages are the final ones (postgres recovered, the second redis connection, HTTP
    status 200), no failure was recorded, and the report printed is the text in which
    every flag and [clean_shutdown] read true.  Otherwise it exits with 1, and a report,
    if the setup got that far, records a failure and ends with [clean_shutdown] false. *)
Theorem spike_exit n curl c w code report a w' :
  main fuel n curl c w = Some (code, report, a, w') ->
  (code = 0 /\ report = Some SUCCESS_REPORT /\ evidence a /\ failed a = false /\ clean_shutdown a = true /\
     pg_state a = 3 /\ redis_generation a = 2 /\ curl_status a = 200) \/
  (code = 1 /\
     forall text, report = Some text -> failed a = true /\ clean_shutdown a = false /\
       exists head, text = (head ++ q "'clean_shutdown':false}" ++ NEWLINE)%string).
Proof.
  unfold main. destruct (time_now w) as [w1 now].
  destruct (if curl then _ else _) as [[[a1 w2] ok]|] eqn:S; [|discriminate].
  destruct ok; cbn [negb].
  - destruct curl; [|discriminate]. destruct (setup_ok _ _ _ _ _ S) as (O1 & _).
    destruct (main_loop fuel n a1 w2) as [[a2 w3]|] eqn:L; [|discriminate].
    destruct (main_loop_step _ _ _ _ _ L O1) as [O2 _]. set (b := if complete a2 then a2 else set_failed a2 true).
    intros E. apply some_inj in E. inv E. change (failed (set_shutdown b (negb (failed b)))) with (failed b).
    destruct (failed b) eqn:F; cbn [negb].
    { right. split; [reflexivity|]. intros text T. inv T. split; [reflexivity|]. split; [reflexivity|].
      now apply report_failure. }
    assert (K : complete a2 = true) by (subst b; destruct (complete a2); [reflexivity|discriminate]).
    subst b. rewrite K in F |- *. apply complete_evidence in K as Ev.
    assert (Ev' : evidence (set_shutdown a2 true)) by (split; apply Ev). pose proof (ok_curl _ O2 (ev_curl _ Ev)) as Cs.
    left. split; [reflexivity|]. split; [f_equal; now apply report_success|]. split; [exact Ev'|]. split; [first [exact F|reflexivity]|].
    split; [reflexivity|]. split; [exact (ok_pg_recovered _ O2 (ev_pg_recovered _ Ev))|].
    split; [apply (ok_reconnect _ O2), (ok_recovered _ O2 (ev_redis_recovered _ Ev))|exact Cs].
  - intros E. inv E. right. split; [reflexivity|discriminate].
Qed.

End Correct.

(** ** A machine on which the spike succeeds

    libpq delivers the results of the two pipelines, redis answers the commands of both
    connections, curl opens one socket and then completes. *)

Record demo := {
  results : list (option pg_result);
  redis_script : list redis_event;
  redis_waiting : list redis_event;
  redis_handles : list Z;
  redis_up : Z;
  redis_fresh : Z;
  curl_script : list curl_event;
  curl_messages : list curl_message;
  curl_calls : nat
}.

Definition with_results (d : demo) (x : list (option pg_result)) : demo :=
  {| results := x; redis_script := redis_script d; redis_waiting := redis_waiting d;
     redis_handles := redis_handles d; redis_up := redis_up d; redis_fresh := redis_fresh d;
     curl_script := curl_script d; curl_messages := curl_messages d; curl_calls := curl_calls d |}.
Definition with_redis (d : demo) (script waiting : list redis_event) (handles : list Z) (up fresh : Z) : demo :=
  {| results := results d; redis_script := script; redis_waiting := waiting; redis_handles := handles;
     redis_up := up; redis_fresh := fresh; curl_script := curl_script d; curl_messages := curl_messages d;
     curl_calls := curl_calls d |}.
Definition with_curl (d : demo) (script : list curl_event) (messages : list curl_message) (n : nat) : demo :=
  {| results := results d; redis_script := redis_script d; redis_waiting := redis_waiting d;
     redis_handles := redis_handles d; redis_up := redis_up d; redis_fresh := redis_fresh d;
     curl_script := script; curl_messages := messages; curl_calls := n |}.

Definition result (s : exec_status) (v : string) : option pg_result :=
  Some {| status := s; ntuples := 1; first_value := v |}.

Definition answer (cmd : string) : redisReply :=
  if String.eqb cmd "PING" then REDIS_REPLY_STATUS "PONG" else REDIS_REPLY_STRING "alpha".

#[export] Instance demo_machine : Machine demo := {|
  spike_connectPoll d := (d, PGRES_POLLING_OK);
  spike_enterPipelineMode d := (d, 1);
  spike_sendQuery sql d :=
    (if String.eqb sql "SELECT 1"
     then with_results d [result EXEC_TUPLES_OK "1"; None; result EXEC_FATAL_ERROR ""; None;
                          result EXEC_PIPELINE_ABORTED ""; None; result EXEC_PIPELINE_SYNC ""]
     else if String.eqb sql "SELECT 42"
     then with_results d [result EXEC_TUPLES_OK "42"; None; result EXEC_PIPELINE_SYNC ""] else d, 1);
  spike_sendFlushRequest d := (d, 1);
  spike_pipelineSync d := (d, 1);
  spike_consumeInput d := (d, 1);
  spike_isBusy d := false;
  spike_getResult d := match results d with [] => (d, None) | r :: rest => (with_results d rest, r) end;
  spike_flush d := (d, 0);
  spike_socket d := 3;
  redis_live d c := existsb (Z.eqb c) (redis_handles d);
  redis_err d c := 0;
  redis_fd d c := 10 + c;
  redis_connect d h p :=
    (with_redis d (redis_script d) (redis_waiting d) (redis_fresh d :: redis_handles d) (redis_up d)
       (redis_fresh d + 1), Some (redis_fresh d));
  redis_set_connect d c := (d, true);
  redis_set_disconnect d c := (d, true);
  redis_read d c := with_redis d (redis_waiting d) [] (redis_handles d) (redis_up d) (redis_fresh d);
  redis_write d c :=
    if redis_up d =? c then with_redis d [HookDelWrite] (redis_waiting d) (redis_handles d) c (redis_fresh d)
    else with_redis d [HookAddRead; CallConnect c true] (redis_waiting d) (redis_handles d) c (redis_fresh d);
  redis_timeout d c := d;
  redis_next d :=
    match redis_script d with
    | [] => (d, None)
    | ev :: rest => (with_redis d rest (redis_waiting d) (redis_handles d) (redis_up d) (redis_fresh d), Some ev)
    end;
  redis_command d c cmd cb :=
    (with_redis d (redis_script d)
       (redis_waiting d ++ (if cb then [CallReply c (Some (answer cmd))] else []))
       (redis_handles d) (redis_up d) (redis_fresh d), true);
  redis_close d c :=
    with_redis d (redis_script d ++ [CallDisconnect c]) (redis_waiting d)
      (filter (fun x => negb (x =? c)) (redis_handles d)) (redis_up d) (redis_fresh d);
  curl_socket_action d s action :=
    match curl_calls d with
    | O => with_curl d [CallTimer 0; CallSocket 7 CURL_POLL_OUT None] [] 1
    | S O => with_curl d [CallSocket 7 CURL_POLL_REMOVE (Some 0%nat)]
                         [{| msg_done := true; msg_ok := true; response_code := 200 |}] 2
    | n => with_curl d [] [] n
    end;
  curl_next d :=
    match curl_script d with
    | [] => (d, inr CURLM_OK)
    | ev :: rest => (with_curl d rest (curl_messages d) (curl_calls d), inl ev)
    end;
  curl_answer d r := d;
  curl_assign d s watch := d;
  curl_info d :=
    match curl_messages d with
    | [] => (d, None)
    | m :: rest => (with_curl d (curl_script d) rest (curl_calls d), Some m)
    end;
  poll_now d fds := (d, Some (List.map (fun _ => Z.lor POLLIN POLLOUT) fds));
  lws_run d := (d, true, 0);
  time_now d := (d, 0);
  environment name := None
|}.

Definition demo_start : demo :=
  {| results := []; redis_script := []; redis_waiting := []; redis_handles := []; redis_up := 0; redis_fresh := 1;
     curl_script := []; curl_messages := []; curl_calls := 0 |}.

Definition all_created : created :=
  {| has_context := true; has_vhost := true; has_pg := true; has_curl := true; has_handle := true |}.

(** A server that refuses redis: reading the descriptor runs the connect callback with an
    error and the clean-up hook, and the context is gone when the call returns.  The
    event loop of this machine fails. *)
Inductive refusal := CONNECTING | ENTERED | TOLD | CLEANED | RETURNED.

#[export] Instance refusing_machine : Machine refusal := {|
  spike_connectPoll w := (w, PGRES_POLLING_READING);
  spike_enterPipelineMode w := (w, 1);
  spike_sendQuery sql w := (w, 1);
  spike_sendFlushRequest w := (w, 1);
  spike_pipelineSync w := (w, 1);
  spike_consumeInput w := (w, 1);
  spike_isBusy w := true;
  spike_getResult w := (w, None);
  spike_flush w := (w, 0);
  spike_socket w := 3;
  redis_live w c := match w with RETURNED => false | _ => true end;
  redis_err w c := 0;
  redis_fd w c := 5;
  redis_connect w h p := (CONNECTING, Some 1);
  redis_set_connect w c := (w, true);
  redis_set_disconnect w c := (w, true);
  redis_read w c := ENTERED;
  redis_write w c := ENTERED;
  redis_timeout w c := w;
  redis_next w :=
    match w with
    | ENTERED => (TOLD, Some (CallConnect 1 false))
    | TOLD => (CLEANED, Some HookCleanup)
    | _ => (RETURNED, None)
    end;
  redis_command w c cmd cb := (w, false);
  redis_close w c := w;
  curl_socket_action w s action := w;
  curl_next w := (w, inr CURLM_OK);
  curl_answer w r := w;
  curl_assign w s watch := w;
  curl_info w := (w, None);
  poll_now w fds := (w, Some (List.map (fun _ => Z.lor POLLIN POLLOUT) fds));
  lws_run w := (w, false, -1);
  time_now w := (w, 0);
  environment name := None
|}.

(** The application after its setup on a machine. *)
Definition after_setup {W : Type} {machine : Machine W} (w : W) : app_t * W :=
  match setup 20 all_created (zero_app 0) w with
  | Some (a, w, _) => (a, w)
  | None => (zero_app 0, w)
  end.

(** ** Witnesses *)

Lemma demo_run : spike_run 20 (fst (after_setup demo_start)) (snd (after_setup demo_start)).
Proof. apply (run_setup 20 all_created 0 demo_start). vm_compute. reflexivity. Qed.

Lemma spike_invariant_witness :
  let '(a, w) := after_setup demo_start in
  spike_run 20 a w /\ 0 <= redis_generation a <= 2 /\ List.length (curl_watches a) = CURL_WATCHES.
Proof.
  destruct (spike_invariant 20 _ _ demo_run) as (_ & _ & G & _ & _ & _ & _ & L).
  pose proof demo_run as R. destruct (after_setup demo_start) as [a w]. auto.
Defined.

Lemma poll_covers_watches_witness :
  exists slots, poll_slots (fst (after_setup demo_start)) (snd (after_setup demo_start)) = Some slots /\
    In (REF_CURL 0, 7, POLLOUT) slots.
Proof.
  destruct (poll_slots (fst (after_setup demo_start)) (snd (after_setup demo_start))) as [slots|] eqn:E;
    [|vm_compute in E; discriminate].
  exists slots. split; [reflexivity|]. destruct (poll_covers_watches 20 _ _ slots demo_run E) as [_ H].
  specialize (H 0%nat {| owner := OWNER_CURL; wsi := None; fd := 7; watch_action := CURL_POLL_OUT |}).
  apply H; [vm_compute; lia|vm_compute; reflexivity|vm_compute; discriminate].
Defined.

Lemma refused_redis_used_after_free_witness :
  serve_slot 20 (fst (after_setup CONNECTING)) CONNECTING REF_REDIS (Z.lor POLLIN POLLOUT) = None.
Proof.
  apply (refused_redis_used_after_free 20 _ CONNECTING 1 [CallConnect 1 false; HookCleanup] RETURNED); try reflexivity.
  - repeat (eapply runs_event; [reflexivity|]). now apply runs_return.
  - repeat constructor.
  - cbn. lia.
Defined.

(** A run that succeeds, with its report, and one whose event loop fails. *)
Lemma spike_exit_witness :
  (exists a w', main 20 20 true all_created demo_start = Some (0, Some SUCCESS_REPORT, a, w') /\ evidence a) /\
  (exists text a w', main 20 20 true all_created CONNECTING = Some (1, Some text, a, w') /\
     exists head, text = (head ++ q "'clean_shutdown':false}" ++ NEWLINE)%string).
Proof.
  split.
  - destruct (main 20 20 true all_created demo_start) as [[[[code report] a] w']|] eqn:E;
      [|vm_compute in E; discriminate].
    assert (Z : code = 0).
    { assert (G : option_map (fun r => fst (fst (fst r))) (main 20 20 true all_created demo_start) = Some 0)
        by (vm_compute; reflexivity). rewrite E in G. now inv G. }
    destruct (spike_exit 20 _ _ _ _ _ _ _ _ E) as [(_ & R & Ev & _)|(N & _)]; [|congruence].
    subst code report. exists a, w'. auto.
  - destruct (main 20 20 true all_created CONNECTING) as [[[[code [text|]] a] w']|] eqn:E;
      [|vm_compute in E; discriminate..].
    destruct (spike_exit 20 _ _ _ _ _ _ _ _ E) as [(N & _)|(N & H)]; [vm_compute in E; inv E; discriminate|].
    subst code. exists text, a, w'. split; [reflexivity|]. apply (H text eq_refl).
Defined.
