(* ===== verification/Apps.v ===== *)
(** * The three command-line runners

    Models the commands and the main functions of [core/apps/backtest_runner.c],
    [core/apps/blend_runner.c] and [core/apps/risk_runner.c] around the runs of
    [Fixture] and [Runners]: arguments, timing loops and the text they print.  The
    clocks and the outcomes of the allocations are the class [Timer]; the resident
    size, the JSON reader and [pow] are arguments.  A command returns the exit status
    and the text on standard output; [None] is undefined behaviour, or the end of the
    fuel of the scaling loop.  Texts are written with ['] for the double quote. *)

From Stdlib Require Import ZArith Lia Bool Floats Ascii String List.
From S2P Require Import Prelude CStr Domain Double Round Backtest Engine Fixture Blending Risk Runners.
Import ListNotations.
Set Warnings "-register-all,-inexact-float".
Open Scope string_scope.
Open Scope list_scope.
Open Scope Z_scope.

(** ** [%.10g] *)

(** [m * 2^e * 10^k] to the nearest integer, ties to even. *)
Definition scaled (m e k : Z) : Z :=
  div_half_even (m * 2 ^ Z.max 0 e * 10 ^ Z.max 0 k) (2 ^ Z.max 0 (- e) * 10 ^ Z.max 0 (- k)).

(** [m * 2^e < 10^x]. *)
Definition below_power (m e x : Z) : bool :=
  m * 2 ^ Z.max 0 e * 10 ^ Z.max 0 (- x) <? 10 ^ Z.max 0 x * 2 ^ Z.max 0 (- e).

(** The first [x] from the given one on with [m * 2^e < 10^(x + 1)]. *)
Fixpoint decimal_exponent (n : nat) (m e x : Z) : Z :=
  match n with
  | O => x
  | S n => if below_power m e (x + 1) then x else decimal_exponent n m e (x + 1)
  end.

(** Below the exponent of the value: three tenths of its binary one. *)
Definition exponent_start (m e : Z) : Z := (Z.log2 m + e) * 3 / 10 - 2.

Fixpoint strip_zeros (s : string) : string :=
  match s with
  | EmptyString => EmptyString
  | String c s =>
      match strip_zeros s with
      | EmptyString => if Ascii.eqb c "0" then EmptyString else String c EmptyString
      | t => String c t
      end
  end.

(** Decimals without their trailing zeros, and without the point if none is left. *)
Definition strip_decimals (whole decimals : string) : string :=
  match strip_zeros decimals with
  | EmptyString => whole
  | d => (whole ++ "." ++ d)%string
  end.

Definition exponent_text (x : Z) : string :=
  ("e" ++ (if (x <? 0)%Z then "-" else "+") ++ print_padded 2 (Z.abs x))%string.

(** Ten significant digits of a finite positive value: the digits [d] of
    [d * 10^(x - 9)], as decimals or with an exponent. *)
Definition general_digits (m e : Z) : string :=
  let x := decimal_exponent 12 m e (exponent_start m e) in
  let d := scaled m e (9 - x) in
  let '(d, x) := if d =? 10 ^ 10 then (10 ^ 9, x + 1) else (d, x) in
  if (-4 <=? x) && (x <? 10) then
    let n := Z.to_nat (9 - x) in
    strip_decimals (print_nonneg (d / 10 ^ Z.of_nat n)) (fixed_digits n (d mod 10 ^ Z.of_nat n) "")
  else
    (strip_decimals (print_nonneg (d / 10 ^ 9)) (fixed_digits 9 (d mod 10 ^ 9) "") ++ exponent_text x)%string.

Definition format_general (v : float) : string :=
  match Prim2SF v with
  | S754_nan => "nan"
  | S754_infinity s => sign_text s "inf"
  | S754_zero s => sign_text s "0"
  | S754_finite s m e => sign_text s (general_digits (Zpos m) e)
  end.

(** ** Clocks *)

(** Each reading returns the machine after it: seconds and nanoseconds of the
    monotonic clock, ticks of the CPU clock, and the outcomes of the allocations of
    one backtest. *)
Class Timer (W : Type) := {
  clock_monotonic : W -> W * (Z * Z);
  cpu_clock : W -> W * Z;
  run_allocs : W -> W * allocs
}.

Definition CLOCKS_PER_SEC : Z := 1000000.
Definition TRIALS : nat := 10.
Definition TARGET_MS : float := 1000%float.

Section Commands.
Context {W : Type} {timer : Timer W}.

(** What the process gets from outside. *)
Variable ru_maxrss : Z.
Variable fesetround : rounding_mode -> Z * rounding_mode.
Variable pow : float -> float -> float.
Variable read : string -> option yyjson_val.
Variables bars_alloc signals_alloc : bool * bool.
Variable sample_alloc : bool.

Definition monotonic_ms (w : W) : W * float :=
  let '(w, (tv_sec, tv_nsec)) := clock_monotonic w in
  (w, (double_of_Z tv_sec * 1000 + double_of_Z tv_nsec / 1000000)%float).

Definition peak_rss_bytes : Z := ru_maxrss * 1024.

Definition cpu_ms (start stop : Z) : float :=
  (double_of_Z (stop - start) / double_of_Z CLOCKS_PER_SEC * 1000)%float.

(** [strtol (text, NULL, 10)]. *)
Definition strtol (text : string) : Z := match strtoll text with Some (v, _, _) => v | None => 0 end.

(** The values of an array, separated by commas. *)
Fixpoint general_list (l : list float) : string :=
  match l with
  | [] => ""
  | [x] => format_general x
  | x :: l => (format_general x ++ "," ++ general_list l)%string
  end.

Definition NEWLINE : string := String (ascii_of_N 10) "".

(** ** backtest_runner *)

Definition final_value (snapshots : list alpha_daily_snapshot_t) : float :=
  match rev snapshots with s :: _ => portfolio_value s | [] => 0%float end.

Definition summary (r : alpha_backtest_result_t) : string :=
  let m := metrics r in
  concat [ q "{'bars':"; print_nonneg (Z.of_nat (length (snapshots r))); q ",'trades':";
           print_nonneg (Z.of_nat (length (trades r))); q ",'final_portfolio_value':";
           format_general (final_value (snapshots r)); q ",'total_return_pct':"; format_fixed (total_return_pct m) 4;
           q ",'annual_return_pct':"; format_fixed (annual_return_pct m) 4; q ",'sharpe_ratio':";
           format_fixed (sharpe_ratio m) 4; q ",'max_drawdown_pct':"; format_fixed (max_drawdown_pct m) 4;
           q ",'win_rate':"; format_fixed (win_rate m) 4; q ",'avg_holding_days':";
           format_fixed (avg_holding_days m) 1; q ",'baseline_return_pct':"; format_fixed (baseline_return_pct m) 4;
           q ",'excess_return_pct':"; format_fixed (excess_return_pct m) 4; "}"; NEWLINE ].

(** The result structure on the stack, before the run writes it. *)
Definition fresh_result : alpha_backtest_result_t :=
  {| res_config := zero_config; metrics := zero_metrics; trades := []; snapshots := [] |}.

(** A run with the allocations it meets: whether it succeeded, and its result. *)
Definition run_timed (f : alpha_fixture_t) (w : W) : option (W * option alpha_backtest_result_t) :=
  let '(w, al) := run_allocs w in
  let? (rc, result) := run_once pow al f fresh_result in
  Some (w, if rc =? 0 then result else None).

Definition backtest_cmd_run (f : alpha_fixture_t) (w : W) : option (Z * string * W) :=
  let? (w, result) := run_timed f w in
  match result with
  | None => Some (1, "", w)
  | Some r => Some (0, summary r, w)
  end.

(** [for (long i = 0; i < n; ++i)]: whether every run succeeded; the first failure
    ends it. *)
Fixpoint run_many (n : nat) (f : alpha_fixture_t) (w : W) : option (W * bool) :=
  match n with
  | O => Some (w, true)
  | S n =>
      let? (w, result) := run_timed f w in
      match result with None => Some (w, false) | Some _ => run_many n f w end
  end.

(** The runs and the time they took; no time if one failed. *)
Definition timed_runs (iterations : Z) (f : alpha_fixture_t) (w : W) : option (W * option float) :=
  let '(w, start) := monotonic_ms w in
  let? (w, ok) := run_many (Z.to_nat iterations) f w in
  if ok : bool then let '(w, stop) := monotonic_ms w in Some (w, Some (stop - start)%float)
  else Some (w, None).

(** The doubling loop: the iterations whose run takes the target, none if a run failed.
    Doubling past the type is undefined. *)
Fixpoint scale_iterations (fuel : nat) (iterations : Z) (f : alpha_fixture_t) (w : W) : option (W * option Z) :=
  match fuel with
  | O => None
  | S fuel =>
      let? (w, elapsed) := timed_runs iterations f w in
      match elapsed with
      | None => Some (w, None)
      | Some ms =>
          if (TARGET_MS <=? ms)%float then Some (w, Some iterations)
          else if iterations * 2 >? INT64_MAX then None
          else scale_iterations fuel (iterations * 2) f w
      end
  end.

(** The totals of [n] trials; none if a run failed. *)
Fixpoint run_trials (n : nat) (iterations : Z) (f : alpha_fixture_t) (w : W) : option (W * option (list float)) :=
  match n with
  | O => Some (w, Some [])
  | S n =>
      let? (w, elapsed) := timed_runs iterations f w in
      match elapsed with
      | None => Some (w, None)
      | Some ms =>
          let? (w, rest) := run_trials n iterations f w in
          Some (w, option_map (cons ms) rest)
      end
  end.

Definition backtest_report (iterations : Z) (totals : list float) (cpu : float) : string :=
  let samples := map (fun elapsed => (elapsed / double_of_Z iterations)%float) totals in
  concat [ q "{'iterations_per_trial':"; print_Z iterations; q ",'samples_ms':["; general_list samples;
           q "],'trial_totals_ms':["; general_list totals; q "],'peak_rss_bytes':"; print_Z peak_rss_bytes;
           q ",'cpu_time_ms':";
           format_general (cpu / (double_of_Z (Z.of_nat TRIALS) * double_of_Z iterations))%float; "}"; NEWLINE ].

Definition backtest_cmd_bench (fuel : nat) (f : alpha_fixture_t) (w : W) : option (Z * string * W) :=
  let? (w, scaled) := scale_iterations fuel 1 f w in
  match scaled with
  | None => Some (1, "", w)
  | Some iterations =>
      if negb sample_alloc then Some (1, "", w)
      else
        let '(w, start) := cpu_clock w in
        let? (w, totals) := run_trials TRIALS iterations f w in
        match totals with
        | None => Some (1, "", w)
        | Some totals =>
            let '(w, stop) := cpu_clock w in
            Some (0, backtest_report iterations totals (cpu_ms start stop), w)
        end
  end.

Definition backtest_main (fuel : nat) (argv : list string) (w : W) : option (Z * string * W) :=
  match argv with
  | [_; command; path] =>
      match fst (alpha_initialize fesetround) with
      | ALPHA_OK =>
          match alpha_fixture_load read bars_alloc signals_alloc (Some path) (Some zero_fixture) with
          | (ALPHA_OK, Some fixture) =>
              if String.eqb command "run" then backtest_cmd_run fixture w
              else if String.eqb command "bench" then backtest_cmd_bench fuel fixture w
              else Some (2, "", w)
          | _ => Some (1, "", w)
          end
      | _ => Some (1, "", w)
      end
  | _ => Some (2, "", w)
  end.

(** ** blend_runner *)

Definition blend_cmd_run (count : Z) : Z * string :=
  (0, concat [ q "{'count':"; print_Z count; q ",'buy_checksum':"; print_Z (blend_run_batch count); "}"; NEWLINE ]).

(** [n] timed batches: the samples and the sink, to which each adds its result. *)
Fixpoint time_batches (batch : Z) (n : nat) (sink : Z) (w : W) : W * list float * Z :=
  match n with
  | O => (w, [], sink)
  | S n =>
      let '(w, start) := monotonic_ms w in
      let sink := u64 (sink + u64 batch) in
      let '(w, stop) := monotonic_ms w in
      let '(w, samples, sink) := time_batches batch n sink w in
      (w, (stop - start)%float :: samples, sink)
  end.

Definition blend_cmd_bench (count : Z) (w : W) : Z * string * W :=
  let checksum := blend_run_batch count in
  if negb sample_alloc then (1, "", w)
  else
    let '(w, start) := cpu_clock w in
    let '(w, samples, sink) := time_batches (blend_run_batch count) TRIALS 0 w in
    let '(w, stop) := cpu_clock w in
    (0, concat [ q "{'count':"; print_Z count; q ",'buy_checksum':"; print_Z checksum; q ",'samples_ms':[";
                 general_list samples; q "],'peak_rss_bytes':"; print_Z peak_rss_bytes; q ",'cpu_time_ms':";
                 format_general (cpu_ms start stop / double_of_Z (Z.of_nat TRIALS))%float; q ",'sink':";
                 print_nonneg sink; "}"; NEWLINE ], w).

Definition blend_main (argv : list string) (w : W) : Z * string * W :=
  match argv with
  | [_; command; text] =>
      match fst (alpha_initialize fesetround) with
      | ALPHA_OK =>
          let count := strtol text in
          if count <=? 0 then (2, "", w)
          else if String.eqb command "run" then (blend_cmd_run count, w)
          else if String.eqb command "bench" then blend_cmd_bench count w
          else (2, "", w)
      | _ => (1, "", w)
      end
  | _ => (2, "", w)
  end.

(** ** risk_runner *)

Definition print_counts (v : risk_counts_t) : string :=
  concat [ q "'take_profit':"; print_Z (take_profit v); q ",'stop_loss':"; print_Z (stop_loss v);
           q ",'daily_blocked':"; print_Z (daily_blocked v); q ",'buy_allowed':"; print_Z (buy_allowed v) ].

Definition risk_main (argv : list string) (w : W) : Z * string * W :=
  match argv with
  | [_; command; text] =>
      let count := strtol text in
      if count <=? 0 then (2, "", w)
      else
        let counts := risk_run_batch count in
        if String.eqb command "run" then
          (0, concat [ q "{'count':"; print_Z count; q ",'counts':{"; print_counts counts; q "},'checksum':";
                       print_nonneg (checksum counts); "}"; NEWLINE ], w)
        else if negb (String.eqb command "bench") then (2, "", w)
        else
          let '(w, start) := cpu_clock w in
          let '(w, samples, sink) := time_batches (checksum (risk_run_batch count)) TRIALS 0 w in
          let '(w, stop) := cpu_clock w in
          (0, concat [ q "{'count':"; print_Z count; q ",'counts':{"; print_counts counts; q "},'checksum':";
                       print_nonneg (checksum counts); q ",'samples_ms':["; general_list samples;
                       q "],'peak_rss_bytes':"; print_Z peak_rss_bytes; q ",'cpu_time_ms':";
                       format_general (cpu_ms start stop / double_of_Z (Z.of_nat TRIALS))%float; q ",'sink':";
                       print_nonneg sink; "}"; NEWLINE ], w)
  | _ => (2, "", w)
  end.

(** ** Lemmas *)

Lemma strtol_print count : in_int64 count -> strtol (print_Z count) = count.
Proof. intros H. unfold strtol. now rewrite strtoll_print_Z. Qed.

Lemma time_batches_sink batch n sink w :
  0 <= sink < 2 ^ 64 -> snd (time_batches batch n sink w) = u64 (sink + Z.of_nat n * batch) /\
  length (snd (fst (time_batches batch n sink w))) = n.
Proof.
  revert sink w; induction n as [|n IH]; intros sink w S; cbn [time_batches].
  { cbn. split; [|reflexivity]. rewrite Z.add_0_r. symmetry. now apply u64_small. }
  destruct (monotonic_ms w) as [w1 t1]. destruct (monotonic_ms w1) as [w2 t2].
  specialize (IH (u64 (sink + u64 batch)) w2 (u64_range _)).
  destruct (time_batches batch n _ w2) as [[w3 l] s]. cbn [fst snd length] in IH |- *.
  destruct IH as [-> <-]. split; [|reflexivity].
  unfold u64. rewrite Zplus_mod_idemp_l. rewrite <- Z.add_assoc, (Z.add_comm (batch mod _)), Z.add_assoc, Zplus_mod_idemp_r.
  f_equal. rewrite Nat2Z.inj_succ. ring.
Qed.

(** ** Properties *)

(** A benchmark of the blend batch prints the count, the checksum of one batch in
    closed form, ten samples, and as its sink ten times the checksum at 64 bits: the
    cross-check a second implementation compares with does not depend on the clock. *)
Theorem blend_bench_output count w :
  0 < count -> in_int64 count -> fst (alpha_initialize fesetround) = ALPHA_OK -> sample_alloc = true ->
  let buys := 768 * (count / 2700) + blend_run_batch (count mod 2700) in
  exists samples cpu w', length samples = TRIALS /\
    blend_main ["blend"; "bench"; print_Z count] w =
    (0, concat [ q "{'count':"; print_Z count; q ",'buy_checksum':"; print_Z buys; q ",'samples_ms':[";
                 general_list samples; q "],'peak_rss_bytes':"; print_Z peak_rss_bytes; q ",'cpu_time_ms':";
                 format_general cpu; q ",'sink':"; print_nonneg (u64 (10 * buys)); "}"; NEWLINE ], w').
Proof.
  intros P I A S buys. cbn [blend_main]. rewrite A, strtol_print by exact I.
  replace (count <=? 0) with false by lia. change (String.eqb "bench" "run") with false.
  change (String.eqb "bench" "bench") with true. cbv iota. unfold blend_cmd_bench. rewrite S. cbn [negb].
  assert (B : blend_run_batch count = buys).
  { apply blend_checksum_closed. lia. }
  rewrite B. destruct (cpu_clock w) as [w1 start].
  destruct (time_batches_sink buys TRIALS 0 w1 ltac:(lia)) as [K L].
  destruct (time_batches buys TRIALS 0 w1) as [[w2 samples] sink]. cbn [snd fst] in K, L.
  destruct (cpu_clock w2) as [w3 stop]. exists samples. do 2 eexists. split; [exact L|]. rewrite K. reflexivity.
Qed.

(** The scaling loop of the backtest benchmark, whatever the clock shows: it stops
    with a power of two that fits a [long], within 63 turns (or doubles past the type). *)
Theorem scaling_is_bounded fuel f w :
  (63 <= fuel)%nat ->
  scale_iterations fuel 1 f w = scale_iterations 63 1 f w /\
  forall w' n, scale_iterations fuel 1 f w = Some (w', Some n) -> exists k, 0 <= k <= 62 /\ n = 2 ^ k.
Proof.
  assert (G : forall m fuel k w, 0 <= k -> k + Z.of_nat m = 62 -> (S m <= fuel)%nat ->
     scale_iterations fuel (2 ^ k) f w = scale_iterations (S m) (2 ^ k) f w /\
     forall w' n, scale_iterations fuel (2 ^ k) f w = Some (w', Some n) -> exists j, 0 <= j <= 62 /\ n = 2 ^ j).
  { induction m as [|m IH]; intros [|fl] k v K E L; try lia; cbn [scale_iterations];
      (destruct (timed_runs (2 ^ k) f v) as [[v1 [ms|]]|]; [|split; [reflexivity|discriminate]..]);
      (destruct (TARGET_MS <=? ms)%float; [split; [reflexivity|]; intros w' n H; inv H; exists k; lia|]).
    - replace k with 62 by lia. split; [reflexivity|discriminate].
    - replace (2 ^ k * 2) with (2 ^ (k + 1)) by (rewrite Z.pow_add_r; lia).
      destruct (2 ^ (k + 1) >? INT64_MAX); [split; [reflexivity|discriminate]|]. apply IH; lia. }
  intros L. apply (G 62%nat fuel 0 w); lia.
Qed.

End Commands.

(** ** Witnesses *)

(** A clock that advances one second per reading. *)
#[export] Instance demo_timer : Timer Z := {|
  clock_monotonic w := (w + 1, (w, 0));
  cpu_clock w := (w + 1, w);
  run_allocs w := (w, {| trades_ok := true; snapshots_ok := true; returns_ok := true; queue_ok := true |})
|}.

Definition to_nearest (m : rounding_mode) : Z * rounding_mode := (0, m).

Lemma blend_bench_output_witness :
  let buys := 768 * (5401 / 2700) + blend_run_batch (5401 mod 2700) in
  exists samples cpu w', length samples = TRIALS /\
    blend_main 4 to_nearest true ["blend"; "bench"; print_Z 5401] 0 =
    (0, concat [ q "{'count':"; print_Z 5401; q ",'buy_checksum':"; print_Z buys; q ",'samples_ms':[";
                 general_list samples; q "],'peak_rss_bytes':"; print_Z (4 * 1024); q ",'cpu_time_ms':";
                 format_general cpu; q ",'sink':"; print_nonneg (u64 (10 * buys)); "}"; NEWLINE ], w').
Proof.
  apply (blend_bench_output 4 to_nearest true 5401 0);
    [lia|unfold in_int64, INT64_MIN, INT64_MAX; lia|reflexivity|reflexivity].
Defined.

Lemma scaling_is_bounded_witness :
  scale_iterations (fun x y => x) 70 1 zero_fixture 0 = scale_iterations (fun x y => x) 63 1 zero_fixture 0.
Proof. apply (scaling_is_bounded (fun x y => x) 70 zero_fixture 0). lia. Defined.
